(* ===== verification/_CoqProject ===== *)
-Q . S2P
Prelude.v
PyStr.v
Utf8.v
Charmap.v
Soup.v
Normalizer.v
Extent.v
Epub.v
Spine.v
Generator.v
Pathlib.v
FileSys.v
Convert.v
Steps.v
Batch.v
Frame.v
Outcome.v
Order.v
BatchSteps.v
Cli.v
Script.v
ScriptSteps.v
