(* ===== verification/Prelude.v ===== *)
(** * A verification development for the EPUB to plain-text converter

    The program ([src/epub_to_txt.py]) reads an EPUB package, walks its
    documents in reading order, turns each document into a block of plain
    text in which intentional blank gaps survive and incidental ones are
    collapsed, joins the blocks and writes the result; a batch mode does so
    for every [.epub] file of a directory and a command line chooses the
    mode.  This library is a shallow embedding of that program in Rocq with
    the theorems that make each part correct.

    ** Parts of the program and the files that model them

    The files are listed in the order in which they depend on each other.

    - [Prelude] (this file): what the components share.  The tactics
      [case_if], [by_compute] and [by_decide], the hint database [py]
      of the facts [auto with py] may use, and generic list lemmas: [take_while], [drop_while] and [drop_while_end] (the
      scans behind [str.strip]), [join] (behind [str.join]) and
      [split_on] with its round trip with [join]; [iterate], the run of
      a stepper with fuel, with the lemmas that relate it to a step
      relation ([iterate_steps], [iterate_measure], [iterate_ends]).
    - [PyStr]: Python's [str] as a list of code points ([N]) and the
      methods the program calls: [isspace], [islinebreak], [lstrip],
      [rstrip], [strip], [splitlines].  Library code (CPython), modelled
      from its documented behaviour.
    - [Utf8]: the codec the target is opened with ([encoding="utf-8"],
      line 58): [utf8_encode] with the shifts and masks of the encoder on
      code points of 21 bits and bytes of 8, its [UnicodeEncodeError] for
      surrogates, and the strict decoder [utf8_decode] as the reference
      it is proved against.  Library code.
    - [Charmap]: the single-byte codecs a console may have
      ([latin1_encode]); they reject what they cannot show.  Library
      code.
    - [Soup]: the BeautifulSoup tree the HTML parser returns (text,
      comment and tag nodes), [select] by class, the [.string] setter and
      [get_text].  Library code as well.
    - [Normalizer]: [clean_text_preserving_gaps] (lines 9-29 of the
      source).  The loop of lines 17-27 is [clean_step] folded over the
      raw lines from the state [{| cleaned; previous_blank |}]; line 29 is
      [finish].  The abstract specification is the module [Spec]: the
      text is the paragraphs of the input (maximal runs of non-blank
      lines), each joined by a line break, the paragraphs joined by one
      blank line.
    - [Extent]: two bounds on the normalizer, proved apart from its
      specification: the code points of its text and the length of its
      text.
    - [Epub]: the package object of the EPUB reader ([spine], [items],
      [get_item_with_id], [get_items_of_type]).  Library code.
    - [Spine]: [iter_documents_in_order] (lines 32-47).  The generator is
      modelled twice: as the list it yields ([spine_step] folded over the
      spine with the set [seen_ids], then the fallback filter), and as a
      step relation [gen_step] on generator states whose run is proved to
      yield that list.  The abstract specification is [SpineSpec].
    - [Generator]: the generator as its consumer drives it: [gen_pull]
      is one call of [next] (the generator resumed until it yields or
      returns) and [gen_fold] the [for] loop of lines 53-56, the body of
      the loop and the steps of the generator alternating.
    - [Pathlib]: paths as lists of parts, with [Path], [str_of_path],
      [joinpath] (the operator [/]), [name], [suffix], [stem],
      [lower] and the order [sorted] uses.  Library code.
    - [FileSys]: the world a run acts on: the file system as a finite map
      from paths to directories and files, and the lines printed.  A
      program is a function from a world to a result or an exception and
      the world it leaves ([prog], a state and error monad).  The
      operations are the calls the converter makes: [is_dir], [is_file],
      [mkdir_parents], [iterdir], [open_read], [open_write_text] (lines
      58-59: the target is created or emptied when it is opened, the
      text is encoded when it is written; [open_target] and
      [append_file] are its two effects taken apart), [print] (the line
      is encoded by the codec of the console, and shown when that
      succeeds).  Files hold bytes.  The order of a directory listing is a parameter
      (class [Listing]) and so is the console (class [Console]: its
      encoder, the code points it accepts and the law that relates
      them; [utf8_console] and [latin1_console] are instances).
      [fs_wf] is the invariant of the file system.
    - [Convert]: [epub_to_txt] (lines 49-61) as a program, parametrised
      by the two collaborators (EPUB reader, HTML parser) through the
      class [Collaborators]; it calls [Spine] for the order, [Normalizer]
      for the text of each document and [FileSys] for its effects.
    - [Steps]: [epub_to_txt] once more, as a transition system.  A
      [point] is a place of the function between two effects, a state a
      point and a world; [conv_step] is one effect: the book is read
      (line 50), the target opened (line 58), the text encoded as a
      whole (line 59, [encoded]), a chunk of its bytes added to the
      file ([write_chunk]), the file closed, the report printed (line
      61).  The chunks are of any size,
      which covers whatever the buffers do.  [conv_next] is the step as
      a function, with chunks of a fixed size, and [conv_run] runs it.
    - [Batch]: [convert_directory] (lines 64-83) as a program:
      [check_input_dir] (lines 68-69), [mkdir_parents],
      [find_epub_files] (lines 73-75) and [convert_all] (lines 77-83),
      which calls [epub_to_txt] for each selected file; [epub_files] is
      the specification of the selection, [ready] of the files whose
      conversion succeeds and [written] of the result.
    - [Frame]: what the converters leave untouched ([differs_at]).
    - [Outcome]: a batch read backwards from its result, run a second
      time, and run on a console that cannot show its reports.
    - [Order]: the loop of a batch on its files in another order;
      [same_lines] is the equivalence of worlds up to the order of the
      lines printed.
    - [BatchSteps]: [convert_directory] as a transition system over the
      steps of its conversions ([batch_step]): the check, the
      directories of the output path made one by one ([mkdir_part]), the
      listing, the report of an empty batch, the head of the loop
      ([loop_head]) and, inside a file, the steps of [Steps]
      ([file_step], [left_file]); [batch_next]
      and [batch_run] are its stepper.  [harmless] and [midway] say what
      a batch that is stopped has done.
    - [Cli]: [build_parser] (lines 86-94) as data, [main] (lines
      97-119) from the values [parse_args] returned and the guard of
      lines 122-123 ([run_module]); [usage_error] is the specification of
      the argument check.
    - [Script]: the program as a process: [run_script] runs the module
      under the name [__main__] and gives the status the interpreter
      ends with ([exit_status]); [spec_text] is the text the
      specifications of the parts give for a book.
    - [ScriptSteps]: the process as a transition system ([script_step])
      that nests the two machines: [main] decides ([mode_of],
      [entered]), the conversion it enters takes its steps
      ([conversion_step], [directory_step]), and the process exits with the status of its end; [script_next] and
      [script_run] are its stepper.

    ** What the theorems show

    - Normalizer: the loop refines the paragraph specification
      ([clean_loop_refines_collapse], [clean_lines_paragraphs]); the state
      invariant [state_wf] holds initially and is preserved by every step;
      the result is a text block ([text_block]: no leading, trailing or
      doubled blank line, every line trimmed and free of line breaks);
      normalising is idempotent; the content lines are kept in order;
      a gap marker yields exactly one blank line.
    - Spine: the list refines [SpineSpec.resolve_order]; every yielded
      item is a document; with unique item identifiers every document is
      yielded; with a duplicate-free spine none is yielded twice, and a
      spine that repeats an identifier makes the code yield the item
      twice; the spine's order is kept; the step relation and the list
      function agree and the executable generator terminates.
    - Utf8: the encoder accepts exactly the texts of scalar values and
      returns their bytes code point by code point ([utf8_bytes]);
      decoding gives the text back; the bytes are bytes, between one and
      four for each code point; the error names the first code point
      that cannot be encoded and the run of surrogates it starts.
    - Extent: the normalizer adds no code point but the line feed
      ([clean_text_confined]) and never makes a text longer.
    - Generator: every call of [next] returns within the steps the state
      has left, the consumer receives the items of the list one by one
      and then [StopIteration] ([gen_nth_delivers]), and the interleaved
      loop computes the fold over the list ([gen_fold_steps]).
    - Convert: a conversion succeeds exactly when the source holds a
      book, the target can be written, the text can be encoded and the
      console can show the report, and then writes the encoded blocks in
      reading order joined by one blank line and prints its report;
      what it wrote decodes to the text of the book; a conversion fails
      with [UnicodeEncodeError] in exactly two ways: the text holds a
      code point that cannot be encoded, and the target is left empty,
      or the console cannot show the report, and the target is written
      all the same; any other failure changes nothing; the report holds
      the arrow U+2192, so on a console without it no conversion
      succeeds ([epub_to_txt_needs_arrow]); a book whose trees hold
      scalar values only never meets the error of the codec on a
      console that shows the report; the text written is a normalized
      text unless a document is blank, in which case the gap widens.
    - Batch: the input check and its [ValueError]; the files selected
      (regular files, suffix [.epub] in any case) and their sorted order,
      independent of the order of the listing; the full result of a batch
      whose files are all ready; the report of an empty batch; a failure
      of [mkdir] or of a conversion ends the batch, the error of a codec
      leaving the target of the failing file empty or written.
    - Frame: a conversion changes at most its target; a batch changes at
      most the targets of its files and creates directories; it never
      overwrites a book, also when texts and books share a directory
      (a single conversion written onto its source does).
    - Outcome: a batch that succeeded found every file ready; however
      a batch ends, it has printed one line for each file converted, in
      order; a batch that succeeded succeeds again, selects the same
      files, prints the same lines and leaves the same file system; on
      a console without the arrow a batch with files stops in its first
      file ([convert_directory_needs_arrow]).
    - Cli: [main] reports the usage error of its arguments with status 2
      or runs the one conversion asked for; empty values count as absent.
    - Script: the contract of the program as a whole.  The status is
      0, 1 or 2 and tells how the run went ([script_exit_status]); after
      status 0 the output file of a single conversion, and the target of
      every file of a batch whose targets are distinct, holds bytes that
      decode as UTF-8 to [spec_text] of its book
      ([script_converts_file], [script_converts_directory]): the
      refinement theorems of [Normalizer] and [Spine], the round trip
      of [Utf8], the inversion lemmas of [Convert] and [Outcome] and
      the dispatch of [Cli], composed.
    - Order: a loop that succeeds succeeds on every reordering of its
      files, prints the same lines in another order and, when the
      targets are distinct, leaves the same files
      ([convert_all_any_order]); with a shared target the file taken
      last decides.
    - Steps, BatchSteps, ScriptSteps: each machine computes its
      function: a run ends in a result and a world exactly when the
      function gives them ([conv_steps_agree], [batch_steps_agree],
      [script_steps_agree]), with [conv_inv], [batch_inv] and
      [script_inv] as the invariants, proved by induction on the runs;
      no run is infinite and no state is stuck ([conv_terminates],
      [batch_terminates], [script_terminates]); the steppers reach the
      result ([conv_run_result], [batch_run_result]).  A run stopped at
      any state has done no harm: the target of a conversion holds the
      text up to some byte or the files are as they were
      ([conv_crash_safe]); in a batch only targets differ, no book has
      changed, every file holds what it held or a part of the text of
      the book whose target it is, from its start, and the lines
      printed are the first lines of the report ([batch_crash_safe],
      and [convert_directory_harmless] for the function itself); a
      process with wrong arguments has changed nothing
      ([script_crash_safe]).
    - Errors: [raises_only] bounds what each program can raise: a
      conversion only errors of the operating system, of the EPUB reader
      and of the codec, a batch these and its [ValueError], and [main]
      exits the program only for a usage error.
    - [epub_to_txt], [convert_directory] and [main] preserve [fs_wf].

    ** Bounds and fuel

    Every function of the program is structurally recursive and total;
    "returns" needs no side condition.  Code points and bytes are values of [N].  The
    program itself only compares them; the codec does arithmetic on
    them, and there the widths are stated and proved: the encoder
    accepts code points up to [MAX_CODE_POINT] (21 bits) that are no
    surrogates, and every value it returns is below 256
    ([utf8_encode_bounds]).  A text with a value above [MAX_CODE_POINT]
    is no Python string; the encoder rejects it as it rejects a
    surrogate.  The only fuel is that of the generator: a state has
    [gen_size] steps left, at most [length spine + length items + 2]
    from the start; [gen_run] is run with that much ([gen_run_complete]
    proves it reaches the final state), [gen_pull] and [gen_fold] with
    one unit more, which pays for the step that finds the generator
    finished.  The steppers of the machines run with fuel as well: a
    conversion has at most five steps and one for each byte of its text
    left ([conv_size]), and [conv_run] with that much has ended,
    whatever the size of its chunks; for a batch and for the process
    the bound depends on the texts of all files, and the theorems say
    that there is fuel enough and that more changes nothing
    ([iterate_ends], from the well-foundedness of the steps).  The
    closing examples evaluate the model on small worlds
    ([demo_world], [surrogate_world], [demo_dir]) with the collaborators
    [demo_collab] and the consoles [utf8_console] and [latin1_console].

    ** Not modelled

    The ZIP and OPF reader and the HTML tokenizer (the program only calls
    them; their results are the parameters of [Collaborators]).  How
    [argparse] splits the command line into option values: that is
    library code whose faithful model needs the Unicode table of digits
    (for values that look like negative numbers) and [repr] (for its
    messages); [main] is modelled from the values it returns, for every
    combination of absent, empty and given values.  Error handlers of
    the console other than [strict], and its buffering: a line is shown
    whole or not at all.  Standard error: the traceback of an uncaught
    exception and the usage text [parser.error] prints before it exits
    are not part of the world.  The translation of line ends on
    platforms other than POSIX (a line feed is written as it is);
    permissions, symbolic links, [".."] in paths and input or output
    errors other than a missing entry or an entry of the wrong kind (a
    full disk among them).  A run can be stopped between two steps of
    the machines but not inside one: a line is printed whole or not at
    all.  Nothing of the source itself is left out: these are the
    libraries and the platform under it, and they enter
    the development as parameters or as the models named above. *)

From stdpp Require Export list.
From stdpp Require Import relations.

Create HintDb py discriminated.

(** ** Tactics *)

(** Case analysis on the test of the first [if] of the goal, keeping the
    equation. *)
Ltac case_if :=
  match goal with
  | |- context [if ?b then _ else _] => destruct b eqn:?
  end.

(** Closed goals settled by evaluation: an equation or an inequation
    between closed terms, and a closed decidable proposition. *)
Ltac by_compute := vm_compute; first [exact I | reflexivity | discriminate | congruence].
Ltac by_decide := apply (bool_decide_unpack _); vm_compute; exact I.

(** ** Generic list facts *)

Lemma Forall_sublist {A} (P : A → Prop) (l k : list A) :
  l `sublist_of` k → Forall P k → Forall P l.
Proof.
  rewrite !Forall_forall. intros Hs H x Hx. eapply H, elem_of_sublist; eauto.
Qed.

Lemma filter_nil_iff {A} (P : A → Prop) `{!∀ x, Decision (P x)} (l : list A) :
  filter P l = [] ↔ Forall (λ x, ¬ P x) l.
Proof.
  induction l as [|x l IH]; [by split; [constructor|]|].
  destruct (decide (P x)).
  - rewrite filter_cons_True by done. split; [done|]. by intros [? _]%Forall_cons.
  - rewrite filter_cons_False, IH by done. split; [by constructor|].
    by intros [_ ?]%Forall_cons.
Qed.

Lemma filter_all {A} (P : A → Prop) `{!∀ x, Decision (P x)} (l : list A) :
  Forall P l → filter P l = l.
Proof.
  induction 1 as [|x l Hx _ IH]; [done|]. by rewrite filter_cons_True, IH.
Qed.

(** Python's truth value of a list, negated: [not l]. *)
Definition is_nil {A} (l : list A) : bool :=
  match l with [] => true | _ => false end.

Lemma is_nil_true {A} (l : list A) : is_nil l = true ↔ l = [].
Proof. by destruct l. Qed.

Lemma is_nil_false {A} (l : list A) : is_nil l = false ↔ l ≠ [].
Proof. by destruct l. Qed.

Lemma head_snoc_ne {A} (l : list A) x : l ≠ [] → head (l ++ [x]) = head l.
Proof. by destruct l. Qed.

(** ** Scans from the left: [take_while], [drop_while] *)

Section while.
Context {A : Type} (p : A → bool).
Implicit Types (l k : list A) (x : A).

Fixpoint take_while l : list A :=
  match l with
  | [] => []
  | x :: l' => if p x then x :: take_while l' else []
  end.

Fixpoint drop_while l : list A :=
  match l with
  | [] => []
  | x :: l' => if p x then drop_while l' else l
  end.

(** [drop_while_end] scans from the right, as [rstrip] does. *)
Definition drop_while_end l : list A := reverse (drop_while (reverse l)).

Lemma take_drop_while l : take_while l ++ drop_while l = l.
Proof. induction l as [|x l IH]; simpl; [done|]. case_if; simpl; congruence. Qed.

Lemma length_take_while l : length (take_while l) ≤ length l.
Proof. rewrite <-(take_drop_while l) at 2. rewrite length_app. lia. Qed.

Lemma take_while_Forall l : Forall (λ x, p x = true) (take_while l).
Proof. induction l as [|x l IH]; simpl; [constructor|]. case_if; auto. Qed.

Lemma drop_while_head l x k : drop_while l = x :: k → p x = false.
Proof.
  induction l as [|y l IH]; simpl; [done|].
  case_if; [done|]. by intros [= -> ->].
Qed.

Lemma drop_while_suffix l : drop_while l `suffix_of` l.
Proof. exists (take_while l). by rewrite take_drop_while. Qed.

Lemma drop_while_sublist l : drop_while l `sublist_of` l.
Proof. rewrite <-(take_drop_while l) at 2. by apply sublist_inserts_l. Qed.

Lemma drop_while_cons_false x l : p x = false → drop_while (x :: l) = x :: l.
Proof. simpl. by intros ->. Qed.

Lemma drop_while_cons_true x l : p x = true → drop_while (x :: l) = drop_while l.
Proof. simpl. by intros ->. Qed.

Lemma drop_while_all l : Forall (λ x, p x = true) l → drop_while l = [].
Proof. induction 1 as [|x l Hx _ IH]; simpl; [done|]. by rewrite Hx. Qed.

Lemma drop_while_nil_inv l : drop_while l = [] → Forall (λ x, p x = true) l.
Proof.
  induction l as [|x l IH]; simpl; [constructor|].
  case_if; [|done]. auto.
Qed.

Lemma drop_while_app_all l k :
  Forall (λ x, p x = true) l → drop_while (l ++ k) = drop_while k.
Proof. induction 1 as [|x l Hx _ IH]; simpl; [done|]. by rewrite Hx. Qed.

Lemma drop_while_app_stop l k :
  drop_while l ≠ [] → drop_while (l ++ k) = drop_while l ++ k.
Proof.
  induction l as [|x l IH]; simpl; [done|]. case_if; auto.
Qed.

Lemma drop_while_idemp l : drop_while (drop_while l) = drop_while l.
Proof.
  destruct (drop_while l) as [|x k] eqn:E; [done|].
  apply drop_while_cons_false, (drop_while_head l x k E).
Qed.

Lemma drop_while_end_nil : drop_while_end [] = [].
Proof. done. Qed.

Lemma drop_while_end_snoc_false l x :
  p x = false → drop_while_end (l ++ [x]) = l ++ [x].
Proof.
  intros Hx. unfold drop_while_end.
  by rewrite reverse_snoc, drop_while_cons_false, <-reverse_snoc, reverse_involutive.
Qed.

Lemma drop_while_end_snoc_true l x :
  p x = true → drop_while_end (l ++ [x]) = drop_while_end l.
Proof.
  intros Hx. unfold drop_while_end.
  by rewrite reverse_snoc, drop_while_cons_true.
Qed.

Lemma drop_while_end_app_all l k :
  Forall (λ x, p x = true) k → drop_while_end (l ++ k) = drop_while_end l.
Proof.
  intros Hk. unfold drop_while_end.
  rewrite reverse_app, drop_while_app_all; [done|].
  by apply Forall_reverse.
Qed.

Lemma drop_while_end_prefix l : drop_while_end l `prefix_of` l.
Proof.
  unfold drop_while_end.
  destruct (drop_while_suffix (reverse l)) as [k Hk].
  exists (reverse k).
  by rewrite <-reverse_app, <-Hk, reverse_involutive.
Qed.

Lemma drop_while_end_sublist l : drop_while_end l `sublist_of` l.
Proof.
  destruct (drop_while_end_prefix l) as [k Hk].
  rewrite Hk at 2. by apply sublist_inserts_r.
Qed.

Lemma drop_while_end_last l x : last (drop_while_end l) = Some x → p x = false.
Proof.
  unfold drop_while_end. rewrite last_reverse.
  destruct (drop_while (reverse l)) as [|y k] eqn:E; [done|].
  intros [= ->]. by eapply drop_while_head.
Qed.

Lemma drop_while_end_id l :
  (∀ x, last l = Some x → p x = false) → drop_while_end l = l.
Proof.
  destruct l as [|x l _] using rev_ind; [done|].
  intros H. apply drop_while_end_snoc_false, H, last_snoc.
Qed.

Lemma drop_while_end_idemp l : drop_while_end (drop_while_end l) = drop_while_end l.
Proof. apply drop_while_end_id, drop_while_end_last. Qed.

(** Trimming on the left commutes with trimming on the right. *)
Lemma drop_while_end_drop_while l :
  drop_while_end (drop_while l) = drop_while (drop_while_end l).
Proof.
  induction l as [|x l IH] using rev_ind; [done|].
  destruct (p x) eqn:Hx.
  - rewrite (drop_while_end_snoc_true _ _ Hx), <-IH.
    destruct (drop_while l) as [|y k] eqn:E.
    + apply drop_while_nil_inv in E.
      rewrite drop_while_all; [done|].
      apply Forall_app; split; [done|]. by repeat constructor.
    + rewrite drop_while_app_stop by (by rewrite E).
      by rewrite E, (drop_while_end_snoc_true (y :: k) _ Hx).
  - rewrite (drop_while_end_snoc_false _ _ Hx).
    destruct (drop_while l) as [|y k] eqn:E.
    + apply drop_while_nil_inv in E.
      rewrite drop_while_app_all by done. simpl. rewrite Hx.
      apply (drop_while_end_snoc_false [] _ Hx).
    + rewrite drop_while_app_stop by (by rewrite E).
      by rewrite E, (drop_while_end_snoc_false (y :: k) _ Hx).
Qed.

End while.

(** ** Joining with a separator: [join] (Python's [sep.join(ls)]) *)

Fixpoint join {A} (sep : list A) (ls : list (list A)) : list A :=
  match ls with
  | [] => []
  | l :: ls' =>
    match ls' with
    | [] => l
    | _ :: _ => l ++ sep ++ join sep ls'
    end
  end.

Section join.
Context {A : Type} (sep : list A).
Implicit Types (l : list A) (ls : list (list A)).

Lemma join_sep_nil : join sep [] = [].
Proof. done. Qed.

Lemma join_sep_singleton l : join sep [l] = l.
Proof. done. Qed.

Lemma join_sep_cons l ls : ls ≠ [] → join sep (l :: ls) = l ++ sep ++ join sep ls.
Proof. by destruct ls. Qed.

(** What holds of the separator and of every part holds of the whole. *)
Lemma join_Forall (P : A → Prop) ls :
  Forall P sep → Forall (Forall P) ls → Forall P (join sep ls).
Proof.
  intros Hsep. induction 1 as [|l ls Hl Hls IH]; [constructor|].
  destruct ls; [done|]. rewrite join_sep_cons by done. by rewrite !Forall_app.
Qed.

Lemma join_sep_app ls1 ls2 :
  ls1 ≠ [] → ls2 ≠ [] →
  join sep (ls1 ++ ls2) = join sep ls1 ++ sep ++ join sep ls2.
Proof.
  intros H1 H2. induction ls1 as [|l [|l' ls1] IH]; [done| |].
  - simpl (_ ++ _). by rewrite join_sep_cons.
  - change ((l :: l' :: ls1) ++ ls2) with (l :: (l' :: ls1) ++ ls2).
    rewrite !join_sep_cons, IH by done. by rewrite <-!app_assoc.
Qed.

Lemma join_sep_snoc ls l : ls ≠ [] → join sep (ls ++ [l]) = join sep ls ++ sep ++ l.
Proof. intros H. by rewrite join_sep_app. Qed.

Lemma head_join l ls c : head l = Some c → head (join sep (l :: ls)) = Some c.
Proof. destruct l, ls; naive_solver. Qed.

Lemma last_join ls l c :
  last l = Some c → last (join sep (ls ++ [l])) = Some c.
Proof.
  intros Hl. destruct ls as [|l0 ls].
  - done.
  - rewrite join_sep_snoc by done. rewrite !last_app. by rewrite Hl.
Qed.

End join.


(** ** Groups between separators: [split_on] *)

Section split.
Context {A : Type}.
Implicit Types (l k : list A) (x : A) (ls : list (list A)).

Lemma drop_while_end_cons (p : A → bool) x l :
  drop_while_end p (x :: l) =
  if is_nil (drop_while_end p l) && p x then [] else x :: drop_while_end p l.
Proof.
  induction l as [|y l IH] using rev_ind.
  - simpl. unfold drop_while_end. simpl. by destruct (p x).
  - rewrite app_comm_cons. destruct (p y) eqn:Hy.
    + by rewrite !drop_while_end_snoc_true.
    + rewrite !drop_while_end_snoc_false by done. by destruct l.
Qed.

Lemma join_cons_cons (sep : list A) x l ls :
  join sep ((x :: l) :: ls) = x :: join sep (l :: ls).
Proof. by destruct ls. Qed.

Lemma join_nil_cons (sep : list A) ls :
  ls ≠ [] → join sep ([] :: ls) = sep ++ join sep ls.
Proof. intros H. by rewrite join_sep_cons. Qed.

Lemma join_eq_nil (sep : list A) ls :
  Forall (λ l, l ≠ []) ls → join sep ls = [] → ls = [].
Proof.
  intros H. destruct H as [|l ls Hl _]; [done|].
  destruct l; [done|]. by rewrite join_cons_cons.
Qed.

Fixpoint split_on (p : A → bool) l : list (list A) :=
  match l with
  | [] => [[]]
  | x :: l' =>
    if p x then [] :: split_on p l'
    else match split_on p l' with
         | [] => [[x]]
         | g :: gs => (x :: g) :: gs
         end
  end.

Lemma split_on_cons_true (p : A → bool) x l :
  p x = true → split_on p (x :: l) = [] :: split_on p l.
Proof. simpl. by intros ->. Qed.

Lemma split_on_cons_false (p : A → bool) x l :
  p x = false →
  split_on p (x :: l) = (x :: hd [] (split_on p l)) :: tl (split_on p l).
Proof.
  simpl. intros ->. destruct (split_on p l) eqn:E; [|done].
  by destruct l; simpl in E; [|destruct (p _), (split_on p l)].
Qed.

Lemma split_on_hd_tl (p : A → bool) l :
  split_on p l = hd [] (split_on p l) :: tl (split_on p l).
Proof. destruct l as [|x l]; [done|]. simpl. by destruct (p x), (split_on p l). Qed.

(** No group holds a separator. *)
Lemma split_on_Forall (p : A → bool) l :
  Forall (Forall (λ x, p x = false)) (split_on p l).
Proof.
  induction l as [|x l IH]; [by repeat constructor|].
  destruct (p x) eqn:Hx.
  - rewrite split_on_cons_true by done. by repeat constructor.
  - rewrite split_on_cons_false by done. rewrite split_on_hd_tl in IH.
    inv IH. by repeat constructor.
Qed.

(** The groups hold the elements that are not separators, in order. *)
Lemma concat_split_on (p : A → bool) l :
  filter (λ x, p x = false) l = concat (split_on p l).
Proof.
  induction l as [|x l IH]; [done|]. destruct (p x) eqn:Hx.
  - rewrite split_on_cons_true, filter_cons_False by (done || congruence). done.
  - rewrite split_on_cons_false, filter_cons_True by done. simpl.
    rewrite IH. by rewrite (split_on_hd_tl p l) at 1.
Qed.

End split.

Section split_join.
Context {A : Type} (p : A → bool).
Implicit Types (l : list A) (ls : list (list A)) (x sep : A).

Lemma split_on_none l : Forall (λ x, p x = false) l → split_on p l = [l].
Proof.
  induction 1 as [|x l Hx _ IH]; [done|].
  by rewrite split_on_cons_false, IH.
Qed.

Lemma split_on_app_sep l sep k :
  Forall (λ x, p x = false) l → p sep = true →
  split_on p (l ++ sep :: k) = l :: split_on p k.
Proof.
  intros Hl Hs. induction Hl as [|x l Hx _ IH]; simpl app.
  - by apply split_on_cons_true.
  - by rewrite split_on_cons_false, IH.
Qed.

(** Round trip: splitting at the separator undoes joining with it. *)
Lemma split_on_join sep ls :
  p sep = true → Forall (Forall (λ x, p x = false)) ls → ls ≠ [] →
  split_on p (join [sep] ls) = ls.
Proof.
  intros Hs H. induction H as [|l ls Hl Hls IH]; [done|]. intros _.
  destruct ls as [|l' ls]; [by apply split_on_none|].
  rewrite join_sep_cons by done.
  change ([sep] ++ ?k) with (sep :: k). by rewrite split_on_app_sep, IH.
Qed.

End split_join.

(** Joining the lines of groups that a separator line keeps apart is
    joining the groups' texts with the doubled separator. *)
Lemma join_join {A} (sep : list A) (gs : list (list (list A))) :
  Forall (λ g, g ≠ []) gs →
  join sep (join [[]] gs) = join (sep ++ sep) (join sep <$> gs).
Proof.
  induction 1 as [|g gs Hg Hgs IH]; [reflexivity|].
  destruct gs as [|g' gs]; [reflexivity|].
  assert (join [[]] (g' :: gs) ≠ []) as Hne.
  { intros H%join_eq_nil; done. }
  rewrite join_sep_cons, !fmap_cons, (join_sep_cons (sep ++ sep)) by done.
  rewrite join_sep_app, (join_sep_app sep [[]]), IH by done.
  simpl. by rewrite <-!app_assoc.
Qed.



(** ** Steppers

    A transition system whose steps a function takes one at a time, run
    with fuel. *)

Section stepper.
Context {A : Type} (R : relation A) (next : A → option A).

Fixpoint iterate (fuel : nat) (x : A) : A :=
  match fuel with
  | 0 => x
  | S fuel =>
    match next x with
    | Some y => iterate fuel y
    | None => x
    end
  end.

(** A relation whose steps make a measure smaller has no infinite run. *)
Lemma sn_measure (size : A → nat) x : (∀ x y, R x y → size y < size x) → sn R x.
Proof.
  intros Hsize. assert (∀ n x, size x < n → sn R x) as Hn; [|apply (Hn (S (size x))); lia].
  intros n. induction n as [|n IH]; intros x1 Hx1; [lia|].
  constructor. intros x2 Hstep%Hsize. apply IH. lia.
Qed.

Context (Hnext : ∀ x y, next x = Some y → R x y).

Lemma iterate_steps fuel : ∀ x, rtc R x (iterate fuel x).
Proof.
  induction fuel as [|fuel IH]; intros x; simpl; [done|].
  destruct (next x) as [y|] eqn:E; [|done]. eapply rtc_l; [by apply Hnext|apply IH].
Qed.

(** With the fuel of the measure the stepper has stopped. *)
Lemma iterate_measure (size : A → nat) fuel : ∀ x,
  (∀ x y, R x y → size y < size x) → size x ≤ fuel → next (iterate fuel x) = None.
Proof.
  induction fuel as [|fuel IH]; intros x Hsize Hx; simpl;
    destruct (next x) as [y|] eqn:E; try done.
  - apply Hnext, Hsize in E. lia.
  - apply IH; [done|]. apply Hnext, Hsize in E. lia.
Qed.

(** Where no run is infinite the stepper stops, given fuel enough. *)
Lemma iterate_ends x :
  sn R x → ∃ fuel, ∀ fuel', fuel ≤ fuel' → next (iterate fuel' x) = None.
Proof.
  induction 1 as [x _ IH]. destruct (next x) as [y|] eqn:E.
  - destruct (IH y) as [fuel Hfuel]; [by apply Hnext|].
    exists (S fuel). intros [|fuel'] Hle; [lia|]. simpl. rewrite E. apply Hfuel. lia.
  - exists 0. intros [|fuel'] _; simpl; by rewrite ?E.
Qed.

End stepper.

#[export] Hint Resolve take_while_Forall drop_while_suffix drop_while_end_prefix
  drop_while_sublist drop_while_end_sublist : py.
