(* ===== verification/PyStr.v ===== *)
(** * PyStr: Python's [str] and the methods the converter calls

    A [str] is a sequence of Unicode code points, modelled as [list N].
    The code-point sets behind [str.isspace] and the line boundaries of
    [str.splitlines] are CPython's ([Py_UNICODE_ISSPACE],
    [Py_UNICODE_ISLINEBREAK]).  [lstrip], [rstrip], [strip], [splitlines]
    and [join] follow the documented behaviour of the methods of the same
    name, and the lemmas are the facts about them that the normalizer's
    proofs share. *)

From stdpp Require Import list strings.
From Stdlib Require Import NArith Ascii.
From S2P Require Import Prelude.

Abbreviation char := N (only parsing).
Abbreviation str := (list N) (only parsing).

(** ** Code points *)

Module Char.

Definition LF : char := 10%N.
Definition CR : char := 13%N.
Definition SPACE : char := 32%N.
Definition NBSP : char := 160%N.

(** The code points for which [str.isspace] holds. *)
Definition whitespace : list char :=
  [9; 10; 11; 12; 13; 28; 29; 30; 31; 32; 133; 160; 5760;
   8192; 8193; 8194; 8195; 8196; 8197; 8198; 8199; 8200; 8201; 8202;
   8232; 8233; 8239; 8287; 12288]%N.

(** The code points at which [str.splitlines] ends a line. *)
Definition linebreaks : list char :=
  [10; 11; 12; 13; 28; 29; 30; 133; 8232; 8233]%N.

Definition isspace (c : char) : bool := bool_decide (c ∈ whitespace).
Definition islinebreak (c : char) : bool := bool_decide (c ∈ linebreaks).

Lemma linebreaks_whitespace : linebreaks ⊆ whitespace.
Proof.
  refine (proj1 (Forall_forall (λ c, c ∈ whitespace) linebreaks) _).
  by_decide.
Qed.

Lemma islinebreak_isspace c : islinebreak c = true → isspace c = true.
Proof.
  unfold islinebreak, isspace. rewrite !bool_decide_eq_true.
  apply linebreaks_whitespace.
Qed.

Lemma not_isspace_not_islinebreak c : isspace c = false → islinebreak c = false.
Proof.
  intros H. destruct (islinebreak c) eqn:E; [|done].
  apply islinebreak_isspace in E. congruence.
Qed.

Lemma isspace_LF : isspace LF = true.
Proof. done. Qed.

Lemma islinebreak_LF : islinebreak LF = true.
Proof. done. Qed.

End Char.

Export Char.

#[export] Hint Resolve islinebreak_isspace not_isspace_not_islinebreak : py.

(** ** Literals *)

(** An ASCII literal as a [str]. *)
Fixpoint py (s : string) : str :=
  match s with
  | EmptyString => []
  | String a s' => N_of_ascii a :: py s'
  end.

(** The separator of the normalizer, ["\n"]. *)
Definition nl : str := [LF].

(** ** [str.strip] *)

Definition lstrip (s : str) : str := drop_while isspace s.
Definition rstrip (s : str) : str := drop_while_end isspace s.
Definition strip (s : str) : str := rstrip (lstrip s).

(** A string that [strip] leaves alone: it neither starts nor ends with
    white space. *)
Definition trimmed (s : str) : Prop :=
  (∀ c, head s = Some c → isspace c = false) ∧
  (∀ c, last s = Some c → isspace c = false).

(** No line boundary occurs in the string. *)
Definition one_line (s : str) : Prop := Forall (λ c, islinebreak c = false) s.

(** [trimmed] and [one_line] are decidable, so closed instances are
    settled by evaluation. *)
Definition ends_ok (o : option char) : Prop :=
  from_option (λ c, isspace c = false) True o.

#[export] Instance ends_ok_dec o : Decision (ends_ok o).
Proof. destruct o; simpl; apply _. Defined.

Lemma trimmed_alt s : trimmed s ↔ ends_ok (head s) ∧ ends_ok (last s).
Proof.
  unfold trimmed, ends_ok.
  destruct (head s), (last s); simpl; split; intros [H1 H2];
    split; try done; try (by intros ? [= <-]); auto.
Qed.

#[export] Instance trimmed_dec s : Decision (trimmed s).
Proof.
  refine (cast_if (decide (ends_ok (head s) ∧ ends_ok (last s))));
    by rewrite trimmed_alt.
Defined.

#[export] Instance one_line_dec s : Decision (one_line s).
Proof. unfold one_line. apply _. Defined.

Section strip.
Implicit Types (s t : str) (c : char).

Lemma strip_nil : strip [] = [].
Proof. done. Qed.

Lemma strip_comm s : strip s = lstrip (rstrip s).
Proof. apply drop_while_end_drop_while. Qed.

Lemma strip_sublist s : strip s `sublist_of` s.
Proof.
  unfold strip, rstrip, lstrip.
  etrans; [apply drop_while_end_sublist|apply drop_while_sublist].
Qed.

Lemma strip_Forall (P : char → Prop) s : Forall P s → Forall P (strip s).
Proof. apply Forall_sublist, strip_sublist. Qed.

Lemma length_strip s : length (strip s) ≤ length s.
Proof. apply sublist_length, strip_sublist. Qed.

Lemma strip_one_line s : one_line s → one_line (strip s).
Proof. apply strip_Forall. Qed.

Lemma strip_last s c : last (strip s) = Some c → isspace c = false.
Proof. apply drop_while_end_last. Qed.

Lemma strip_head s c : head (strip s) = Some c → isspace c = false.
Proof.
  rewrite strip_comm. unfold lstrip.
  destruct (drop_while isspace (rstrip s)) as [|x k] eqn:E; [done|].
  intros [= ->]. by eapply drop_while_head.
Qed.

Lemma strip_trimmed s : trimmed (strip s).
Proof. split; [apply strip_head|apply strip_last]. Qed.

Lemma trimmed_strip s : trimmed s → strip s = s.
Proof.
  intros [Hh Hl]. unfold strip, lstrip.
  replace (drop_while isspace s) with s.
  - by apply drop_while_end_id.
  - destruct s as [|c s]; [done|]. symmetry. apply drop_while_cons_false, Hh. done.
Qed.

Lemma strip_idemp s : strip (strip s) = strip s.
Proof. apply trimmed_strip, strip_trimmed. Qed.

Lemma strip_all_space s : Forall (λ c, isspace c = true) s → strip s = [].
Proof. intros H. unfold strip, lstrip. by rewrite drop_while_all. Qed.

Lemma strip_nil_inv s : strip s = [] → Forall (λ c, isspace c = true) s.
Proof.
  unfold strip, rstrip, drop_while_end. intros H.
  apply (f_equal reverse) in H. rewrite reverse_involutive in H.
  apply drop_while_nil_inv in H. rewrite Forall_reverse in H.
  rewrite <-(take_drop_while isspace s). apply Forall_app. split; [|exact H].
  apply take_while_Forall.
Qed.

Lemma trimmed_nil : trimmed [].
Proof. by split. Qed.

End strip.

#[export] Hint Resolve strip_trimmed strip_one_line trimmed_nil : py.

(** ** [strip] of joined lines *)

Section strip_join.
Implicit Types (C : list str) (l : str).

Lemma lstrip_lf s : lstrip (LF :: s) = lstrip s.
Proof. done. Qed.

Lemma rstrip_lf s : rstrip (s ++ nl) = rstrip s.
Proof. apply drop_while_end_snoc_true, isspace_LF. Qed.

Lemma lstrip_join_lines C :
  Forall trimmed C → lstrip (join nl C) = join nl (drop_while is_nil C).
Proof.
  induction 1 as [|l C Hl HC IH]; [done|]. destruct l as [|c l].
  - simpl drop_while. rewrite <-IH. destruct C as [|l' C]; [done|].
    by rewrite join_sep_cons.
  - rewrite drop_while_cons_false by done. unfold lstrip.
    destruct Hl as [Hh _].
    assert (∃ k, join nl ((c :: l) :: C) = c :: k) as [k ->].
    { destruct C; [by eexists|]. rewrite join_sep_cons by done. by eexists. }
    apply drop_while_cons_false, Hh. done.
Qed.

Lemma rstrip_join_lines C :
  Forall trimmed C → rstrip (join nl C) = join nl (drop_while_end is_nil C).
Proof.
  induction C as [|l C IH] using rev_ind; [done|].
  intros [HC [Hl _]%Forall_cons]%Forall_app. destruct (decide (l = [])) as [->|Hne].
  - rewrite drop_while_end_snoc_true by done. rewrite <-IH by done.
    destruct (decide (C = [])) as [->|HCne]; [done|].
    rewrite join_sep_snoc, app_nil_r by done. apply rstrip_lf.
  - rewrite drop_while_end_snoc_false by (by apply is_nil_false).
    apply drop_while_end_id. intros c Hc. apply Hl.
    destruct (last l) as [c'|] eqn:El.
    + by rewrite (last_join nl C l c' El) in Hc.
    + by apply last_None in El.
Qed.

(** [strip] of joined lines removes the empty lines at both ends and
    nothing else, when every line is trimmed. *)
Lemma strip_join_lines C :
  Forall trimmed C →
  strip (join nl C) = join nl (drop_while_end is_nil (drop_while is_nil C)).
Proof.
  intros H. unfold strip. rewrite lstrip_join_lines by done.
  apply rstrip_join_lines. eapply Forall_sublist; [apply drop_while_sublist|done].
Qed.

End strip_join.

(** ** [str.splitlines] *)

Fixpoint splitlines (s : str) : list str :=
  match s with
  | [] => []
  | c :: s' =>
    if islinebreak c then
      [] :: match s' with
            | c' :: s'' =>
              if (c =? CR)%N && (c' =? LF)%N then splitlines s'' else splitlines s'
            | [] => []
            end
    else
      match splitlines s' with
      | [] => [[c]]
      | l :: ls => (c :: l) :: ls
      end
  end.

(** The three ways [splitlines] treats the first character: part of the
    first line, a line boundary, or the first half of [\r\n]. *)
Inductive splitlines_view (c : char) (s : str) : Prop :=
| view_char :
    islinebreak c = false →
    splitlines (c :: s)
    = match splitlines s with [] => [[c]] | l :: ls => (c :: l) :: ls end →
    splitlines_view c s
| view_break : splitlines (c :: s) = [] :: splitlines s → splitlines_view c s
| view_crlf s' :
    s = LF :: s' → splitlines (c :: s) = [] :: splitlines s' → splitlines_view c s.

Section splitlines.
Implicit Types (s l : str) (c : char) (ls : list str).

Lemma str_ind2 (P : str → Prop) :
  P [] → (∀ c, P [c]) → (∀ c c' s, P s → P (c' :: s) → P (c :: c' :: s)) →
  ∀ s, P s.
Proof.
  intros H0 H1 H2 s. cut (P s ∧ ∀ c, P (c :: s)); [by intros []|].
  induction s as [|c' s [IH1 IH2]]; split; auto.
Qed.

Lemma splitlines_nil : splitlines [] = [].
Proof. done. Qed.

Lemma splitlines_cons_char c s :
  islinebreak c = false →
  splitlines (c :: s) =
    match splitlines s with [] => [[c]] | l :: ls => (c :: l) :: ls end.
Proof. simpl. by intros ->. Qed.

Lemma splitlines_crlf s : splitlines (CR :: LF :: s) = [] :: splitlines s.
Proof. done. Qed.

Lemma splitlines_cons_break c s :
  islinebreak c = true → ¬ (c = CR ∧ head s = Some LF) →
  splitlines (c :: s) = [] :: splitlines s.
Proof.
  simpl. intros -> H. destruct s as [|c' s]; [done|].
  destruct ((c =? CR)%N && (c' =? LF)%N) eqn:E; [|done].
  apply andb_true_iff in E as [->%N.eqb_eq ->%N.eqb_eq]. by destruct H.
Qed.

Lemma splitlines_lf s : splitlines (LF :: s) = [] :: splitlines s.
Proof. by apply splitlines_cons_break; [|intros [[=] _]]. Qed.

Lemma splitlines_consP c s : splitlines_view c s.
Proof.
  destruct (islinebreak c) eqn:E; [|by apply view_char; [|apply splitlines_cons_char]].
  destruct (decide (c = CR ∧ head s = Some LF)) as [[-> Hs]|H].
  - destruct s as [|? s']; simplify_eq/=. by apply (view_crlf _ _ s').
  - by apply view_break, splitlines_cons_break.
Qed.

(** Induction along the lines of a text. *)
Lemma splitlines_ind (Q : str → list str → Prop) :
  Q [] [] →
  (∀ c s, islinebreak c = false → splitlines s = [] → Q s [] → Q (c :: s) [[c]]) →
  (∀ c s l ls, islinebreak c = false → splitlines s = l :: ls →
     Q s (l :: ls) → Q (c :: s) ((c :: l) :: ls)) →
  (∀ c s, Q s (splitlines s) → Q (c :: s) ([] :: splitlines s)) →
  (∀ c s, Q s (splitlines s) → Q (c :: LF :: s) ([] :: splitlines s)) →
  ∀ s, Q s (splitlines s).
Proof.
  intros H0 H1 H2 H3 H4. induction s as [|c|c c' s IH1 IH2] using str_ind2; [done|..].
  - destruct (splitlines_consP c []) as [? ->| ->|? [=]]; auto.
  - destruct (splitlines_consP c (c' :: s)) as [? ->| ->|? [= -> ->] ->]; auto.
    destruct (splitlines (c' :: s)) eqn:E; auto.
Qed.

(** Every line [splitlines] returns is free of line boundaries. *)
Lemma splitlines_one_line s : Forall one_line (splitlines s).
Proof.
  induction s as [|c|c c' s IH1 IH2] using str_ind2.
  - constructor.
  - simpl. destruct (islinebreak c) eqn:E; repeat constructor; done.
  - destruct (islinebreak c) eqn:E.
    + destruct (decide (c = CR ∧ head (c' :: s) = Some LF)) as [[-> [= ->]]|H].
      * rewrite splitlines_crlf. by repeat constructor.
      * rewrite splitlines_cons_break by done. by repeat constructor.
    + rewrite splitlines_cons_char by done.
      destruct (splitlines (c' :: s)) as [|l ls]; [by repeat constructor|].
      inv IH2. constructor; [by constructor|done].
Qed.

Lemma splitlines_line_app l s :
  one_line l → splitlines (l ++ LF :: s) = l :: splitlines s.
Proof.
  induction 1 as [|c l Hc _ IH]; simpl app.
  - apply splitlines_lf.
  - by rewrite splitlines_cons_char, IH.
Qed.

Lemma splitlines_line l : one_line l → l ≠ [] → splitlines l = [l].
Proof.
  induction 1 as [|c l Hc Hl IH]; [done|]. intros _.
  rewrite splitlines_cons_char by done.
  destruct l as [|c' l]; [done|]. by rewrite IH.
Qed.

(** Round trip: lines joined by a line feed are the lines [splitlines]
    gives back, provided no line holds a boundary and the last one is not
    empty (a trailing line feed ends the last line instead of starting an
    empty one). *)
Lemma splitlines_join ls :
  Forall one_line ls → last ls ≠ Some [] → splitlines (join nl ls) = ls.
Proof.
  induction 1 as [|l ls Hl Hls IH]; [done|]. intros Hlast.
  destruct ls as [|l' ls].
  - simpl. apply splitlines_line; [done|]. by intros ->.
  - rewrite join_sep_cons by done. unfold nl at 1. simpl app.
    rewrite splitlines_line_app by done. f_equal. by apply IH.
Qed.

(** Without the side condition: a trailing line feed ends the last line
    and starts no new one. *)
Lemma splitlines_join_lf ls :
  Forall one_line ls → ls ≠ [] → splitlines (join nl ls ++ nl) = ls.
Proof.
  induction 1 as [|l ls Hl Hls IH]; [done|]. intros _.
  destruct ls as [|l' ls].
  - simpl join. unfold nl. rewrite splitlines_line_app by done. done.
  - rewrite join_sep_cons by done. unfold nl at 1. rewrite <-!app_assoc. simpl app.
    rewrite splitlines_line_app by done. f_equal. by apply IH.
Qed.

(** The lines of a text built by [join]: the joined lines, without a
    final empty one. *)
Lemma splitlines_join_snoc_nil ls :
  Forall one_line ls → ls ≠ [] → splitlines (join nl (ls ++ [[]])) = ls.
Proof.
  intros H Hne. rewrite join_sep_snoc, app_nil_r by done.
  by apply splitlines_join_lf.
Qed.

End splitlines.

#[export] Hint Resolve splitlines_one_line : py.
