(* ===== verification/Utf8.v ===== *)
(** * Utf8: the encoding of the output file

    [epub_to_txt] opens its target with [encoding="utf-8"]: the text is
    turned into bytes by Python's UTF-8 codec with the [strict] error
    handler.  [utf8_encode] is that encoder, on code points kept at their
    width (21 bits) and bytes (8 bits), written with the shifts and masks
    of the codec; a surrogate code point cannot be encoded and is an
    error that names the run of surrogates it starts.  [utf8_decode] is
    the strict decoder, the reference against which the encoder is
    proved.  Library code (CPython), modelled from its documented
    behaviour. *)

From stdpp Require Import list.
From S2P Require Import Prelude PyStr.

Local Open Scope N_scope.

#[local] Ltac Zify.zify_post_hook ::= Z.to_euclidean_division_equations.

(** ** Code points and bytes *)

(** The largest code point of a [str]. *)
Definition MAX_CODE_POINT : N := 0x10FFFF.

(** [Py_UNICODE_IS_SURROGATE] *)
Definition is_surrogate (c : char) : bool := bool_decide (0xD800 ≤ c ≤ 0xDFFF).

(** A Unicode scalar value: a code point that is no surrogate. *)
Definition scalar (c : char) : Prop := c ≤ MAX_CODE_POINT ∧ ¬ is_surrogate c.

(** A byte. *)
Definition is_byte (b : N) : Prop := b < 256.

#[export] Instance scalar_dec c : Decision (scalar c).
Proof. unfold scalar. apply _. Defined.
#[export] Instance is_byte_dec b : Decision (is_byte b).
Proof. unfold is_byte. apply _. Defined.

(** ** The encoder *)

(** A continuation byte: [10xxxxxx] with the low six bits of [x]. *)
Definition cont (x : N) : N := N.lor 0x80 (N.land x 0x3F).

(** The bytes of one code point, unless it cannot be encoded. *)
Definition utf8_encode_char (c : char) : option (list N) :=
  if c <? 0x80 then Some [c]
  else if c <? 0x800 then Some [N.lor 0xC0 (N.shiftr c 6); cont c]
  else if c <? 0x10000 then
    if is_surrogate c then None
    else Some [N.lor 0xE0 (N.shiftr c 12); cont (N.shiftr c 6); cont c]
  else if c <? 0x110000 then
    Some [N.lor 0xF0 (N.shiftr c 18); cont (N.shiftr c 12);
          cont (N.shiftr c 6); cont c]
  else None.

(** What [UnicodeEncodeError] reports: the positions [start] and [stop]
    of the run of code points that cannot be encoded. *)
Record encode_error := EncodeError { err_start : nat; err_stop : nat }.

#[export] Instance encode_error_eq_dec : EqDecision encode_error.
Proof. solve_decision. Defined.

(** [s.encode("utf-8")] from position [pos] on. *)
Fixpoint utf8_encode_from (pos : nat) (s : str) : encode_error + list N :=
  match s with
  | [] => inr []
  | c :: s' =>
    match utf8_encode_char c with
    | Some bs =>
      match utf8_encode_from (S pos) s' with
      | inr rest => inr (bs ++ rest)
      | inl e => inl e
      end
    | None => inl (EncodeError pos (S pos + length (take_while is_surrogate s')))
    end
  end.

Definition utf8_encode (s : str) : encode_error + list N := utf8_encode_from 0 s.

(** ** The decoder *)

Definition is_cont (b : N) : bool := bool_decide (0x80 ≤ b < 0xC0).

(** The payload of a continuation byte. *)
Definition low6 (b : N) : N := N.land b 0x3F.

(** [bs.decode("utf-8")]: [None] for bytes that are not the encoding of a
    text (a stray or missing continuation byte, an overlong form, a
    surrogate, a value past the last code point). *)
Fixpoint utf8_decode (bs : list N) : option str :=
  match bs with
  | [] => Some []
  | b0 :: bs1 =>
    if b0 <? 0x80 then cons b0 <$> utf8_decode bs1
    else if b0 <? 0xC2 then None
    else if b0 <? 0xE0 then
      match bs1 with
      | b1 :: bs2 =>
        let c := N.shiftl (N.land b0 0x1F) 6 + low6 b1 in
        if is_cont b1 then cons c <$> utf8_decode bs2 else None
      | _ => None
      end
    else if b0 <? 0xF0 then
      match bs1 with
      | b1 :: b2 :: bs3 =>
        let c := N.shiftl (N.land b0 0x0F) 12 + N.shiftl (low6 b1) 6 + low6 b2 in
        if is_cont b1 && is_cont b2 && (0x800 <=? c) && negb (is_surrogate c)
        then cons c <$> utf8_decode bs3 else None
      | _ => None
      end
    else if b0 <? 0xF5 then
      match bs1 with
      | b1 :: b2 :: b3 :: bs4 =>
        let c := N.shiftl (N.land b0 0x07) 18 + N.shiftl (low6 b1) 12
                 + N.shiftl (low6 b2) 6 + low6 b3 in
        if is_cont b1 && is_cont b2 && is_cont b3
           && (0x10000 <=? c) && (c <=? MAX_CODE_POINT)
        then cons c <$> utf8_decode bs4 else None
      | _ => None
      end
    else None
  end.

(** ** Shifts and masks as arithmetic *)

Section bits.
Implicit Types (a b c k x : N).

(** A field put above a smaller one: [|] adds. *)
Lemma lor_shiftl_add a b k : b < 2 ^ k → N.lor (N.shiftl a k) b = N.shiftl a k + b.
Proof.
  intros Hb. rewrite N.add_nocarry_lxor, N.lxor_lor; try done.
  all: apply N.bits_inj; intros n; rewrite N.land_spec, N.bits_0.
  all: destruct (decide (n < k)) as [Hn|Hn]; [by rewrite N.shiftl_spec_low|].
  all: rewrite <-(N.mod_small b (2 ^ k)) by done.
  all: rewrite N.mod_pow2_bits_high by lia; apply andb_false_r.
Qed.

Lemma land_mask x k : N.land x (N.ones k) = x mod 2 ^ k.
Proof. apply N.land_ones. Qed.

Lemma low6_mod x : low6 x = x mod 64.
Proof. apply (land_mask x 6). Qed.

Lemma land_1F x : N.land x 0x1F = x mod 32.
Proof. apply (land_mask x 5). Qed.

Lemma land_0F x : N.land x 0x0F = x mod 16.
Proof. apply (land_mask x 4). Qed.

Lemma land_07 x : N.land x 0x07 = x mod 8.
Proof. apply (land_mask x 3). Qed.

Lemma cont_add x : cont x = 128 + x mod 64.
Proof.
  unfold cont. fold (low6 x). rewrite low6_mod.
  apply (lor_shiftl_add 2 _ 6). lia.
Qed.

Lemma lead2_add c : c < 0x800 → N.lor 0xC0 (N.shiftr c 6) = 192 + c / 64.
Proof.
  intros. rewrite N.shiftr_div_pow2. apply (lor_shiftl_add 6 _ 5).
  change (2 ^ 6) with 64. change (2 ^ 5) with 32. lia.
Qed.

Lemma lead3_add c : c < 0x10000 → N.lor 0xE0 (N.shiftr c 12) = 224 + c / 64 / 64.
Proof.
  intros. rewrite N.shiftr_div_pow2. change (2 ^ 12) with 4096.
  replace (c / 4096) with (c / 64 / 64) by lia. apply (lor_shiftl_add 14 _ 4).
  change (2 ^ 4) with 16. lia.
Qed.

Lemma lead4_add c :
  c < 0x110000 → N.lor 0xF0 (N.shiftr c 18) = 240 + c / 64 / 64 / 64.
Proof.
  intros. rewrite N.shiftr_div_pow2. change (2 ^ 18) with 262144.
  replace (c / 262144) with (c / 64 / 64 / 64) by lia.
  apply (lor_shiftl_add 30 _ 3). change (2 ^ 3) with 8. lia.
Qed.

Lemma shiftr_6 c : N.shiftr c 6 = c / 64.
Proof. apply N.shiftr_div_pow2. Qed.

Lemma shiftr_12 c : N.shiftr c 12 = c / 64 / 64.
Proof. rewrite N.shiftr_div_pow2. change (2 ^ 12) with 4096. lia. Qed.

Lemma shiftl_6 c : N.shiftl c 6 = c * 64.
Proof. apply N.shiftl_mul_pow2. Qed.

Lemma shiftl_12 c : N.shiftl c 12 = c * 4096.
Proof. apply N.shiftl_mul_pow2. Qed.

Lemma shiftl_18 c : N.shiftl c 18 = c * 262144.
Proof. apply N.shiftl_mul_pow2. Qed.

End bits.

Create Rewrite HintDb utf8.
#[export] Hint Rewrite cont_add low6_mod land_1F land_0F land_07
  shiftr_6 shiftr_12 shiftl_6 shiftl_12 shiftl_18 : utf8.

(** Comparisons of the codec settled by arithmetic. *)
Ltac by_arith :=
  autorewrite with utf8 in *;
  repeat match goal with
    | |- context [?a <? ?b] => destruct (N.ltb_spec a b); try lia
    | |- context [?a <=? ?b] => destruct (N.leb_spec a b); try lia
    | |- context [bool_decide ?P] => destruct (decide P);
        [rewrite (bool_decide_eq_true_2 P) by done
        |rewrite (bool_decide_eq_false_2 P) by done]; try lia
    end;
  simpl; try done; try lia.

(** ** The decoder on each shape *)

Section decode.
Implicit Types (b c : N) (rest : list N).

Lemma utf8_decode_1 b0 rest :
  b0 < 0x80 → utf8_decode (b0 :: rest) = cons b0 <$> utf8_decode rest.
Proof. intros. simpl. by_arith. Qed.

Lemma utf8_decode_2 c b0 b1 rest :
  b0 mod 32 * 64 + b1 mod 64 = c →
  0xC2 ≤ b0 < 0xE0 → 0x80 ≤ b1 < 0xC0 →
  utf8_decode (b0 :: b1 :: rest) = cons c <$> utf8_decode rest.
Proof.
  intros Hc ??. simpl. unfold is_cont. autorewrite with utf8. rewrite Hc. by_arith.
Qed.

Lemma utf8_decode_3 c b0 b1 b2 rest :
  b0 mod 16 * 4096 + b1 mod 64 * 64 + b2 mod 64 = c →
  0xE0 ≤ b0 < 0xF0 → 0x80 ≤ b1 < 0xC0 → 0x80 ≤ b2 < 0xC0 →
  0x800 ≤ c → ¬ (0xD800 ≤ c ≤ 0xDFFF) →
  utf8_decode (b0 :: b1 :: b2 :: rest) = cons c <$> utf8_decode rest.
Proof.
  intros Hc ?????. simpl. unfold is_cont, is_surrogate.
  autorewrite with utf8. rewrite Hc. by_arith.
Qed.

Lemma utf8_decode_4 c b0 b1 b2 b3 rest :
  b0 mod 8 * 262144 + b1 mod 64 * 4096 + b2 mod 64 * 64 + b3 mod 64 = c →
  0xF0 ≤ b0 < 0xF5 → 0x80 ≤ b1 < 0xC0 → 0x80 ≤ b2 < 0xC0 → 0x80 ≤ b3 < 0xC0 →
  0x10000 ≤ c ≤ MAX_CODE_POINT →
  utf8_decode (b0 :: b1 :: b2 :: b3 :: rest) = cons c <$> utf8_decode rest.
Proof.
  intros Hc ?????. simpl. unfold is_cont, MAX_CODE_POINT in *.
  autorewrite with utf8. rewrite Hc. by_arith.
Qed.

End decode.

(** ** Fields taken apart and put together *)

Section fields.
Implicit Types c y q : N.

Lemma tail_mod y : (128 + y mod 64) mod 64 = y mod 64.
Proof. lia. Qed.

Lemma tail_range y : 0x80 ≤ 128 + y mod 64 < 0xC0.
Proof. lia. Qed.

Lemma split_64 c : c / 64 * 64 + c mod 64 = c.
Proof. lia. Qed.

Lemma recombine_2 c : c < 0x800 → (192 + c / 64) mod 32 * 64 + (128 + c mod 64) mod 64 = c.
Proof. intros. rewrite tail_mod. lia. Qed.

Lemma recombine_3 c :
  c < 0x10000 →
  (224 + c / 64 / 64) mod 16 * 4096 + (128 + c / 64 mod 64) mod 64 * 64
  + (128 + c mod 64) mod 64 = c.
Proof.
  intros. rewrite !tail_mod. rewrite <-(split_64 c) at 4.
  rewrite <-(split_64 (c / 64)) at 3. replace ((224 + c / 64 / 64) mod 16) with (c / 64 / 64); lia.
Qed.

Lemma recombine_4 c :
  c < 0x110000 →
  (240 + c / 64 / 64 / 64) mod 8 * 262144 + (128 + c / 64 / 64 mod 64) mod 64 * 4096
  + (128 + c / 64 mod 64) mod 64 * 64 + (128 + c mod 64) mod 64 = c.
Proof.
  intros. rewrite !tail_mod. rewrite <-(split_64 c) at 5.
  rewrite <-(split_64 (c / 64)) at 4. rewrite <-(split_64 (c / 64 / 64)) at 3.
  replace ((240 + c / 64 / 64 / 64) mod 8) with (c / 64 / 64 / 64); lia.
Qed.

End fields.

(** ** The encoder on each shape *)

(** The cases of [utf8_encode_char], in arithmetic. *)
Inductive encode_view (c : char) : option (list N) → Prop :=
| encode_1 : c < 0x80 → encode_view c (Some [c])
| encode_2 : 0x80 ≤ c < 0x800 → encode_view c (Some [192 + c / 64; 128 + c mod 64])
| encode_3 : 0x800 ≤ c < 0x10000 → ¬ (0xD800 ≤ c ≤ 0xDFFF) →
    encode_view c (Some [224 + c / 64 / 64; 128 + c / 64 mod 64; 128 + c mod 64])
| encode_4 : 0x10000 ≤ c < 0x110000 →
    encode_view c (Some [240 + c / 64 / 64 / 64; 128 + c / 64 / 64 mod 64;
                         128 + c / 64 mod 64; 128 + c mod 64])
| encode_surrogate : 0xD800 ≤ c ≤ 0xDFFF → encode_view c None
| encode_too_large : 0x110000 ≤ c → encode_view c None.

Section encode.
Implicit Types (c : char) (s : str) (bs rest : list N).

Lemma utf8_encode_charP c : encode_view c (utf8_encode_char c).
Proof.
  unfold utf8_encode_char, is_surrogate.
  destruct (N.ltb_spec c 0x80); [by constructor|].
  destruct (N.ltb_spec c 0x800).
  { rewrite lead2_add, cont_add by done. by constructor. }
  destruct (N.ltb_spec c 0x10000).
  { case_bool_decide; [by constructor|].
    rewrite lead3_add, !cont_add, shiftr_6 by done. by constructor. }
  destruct (N.ltb_spec c 0x110000); [|by constructor].
  rewrite lead4_add, !cont_add, shiftr_12, shiftr_6 by done. by constructor.
Qed.

(** Exactly the scalar values can be encoded. *)
Lemma utf8_encode_char_is_Some c : is_Some (utf8_encode_char c) ↔ scalar c.
Proof.
  unfold scalar, is_surrogate, MAX_CODE_POINT. rewrite bool_decide_spec.
  destruct (utf8_encode_charP c); split; intros; try (by eexists); try lia.
  all: by apply is_Some_None in H0 || by apply is_Some_None in H.
Qed.

(** Every byte is a byte, and there are one to four. *)
Lemma utf8_encode_char_bytes c bs :
  utf8_encode_char c = Some bs → Forall is_byte bs ∧ (1 ≤ length bs ≤ 4)%nat.
Proof.
  destruct (utf8_encode_charP c); intros [= <-]; (split; [|simpl; lia]).
  all: repeat constructor; unfold is_byte; lia.
Qed.

(** Decoding undoes the encoding of a code point. *)
Lemma utf8_decode_encode_char c bs rest :
  utf8_encode_char c = Some bs →
  utf8_decode (bs ++ rest) = cons c <$> utf8_decode rest.
Proof.
  destruct (utf8_encode_charP c); intros [= <-]; simpl app.
  - by apply utf8_decode_1.
  - apply utf8_decode_2; [apply recombine_2|..]; lia.
  - apply utf8_decode_3; [apply recombine_3|..]; lia.
  - apply utf8_decode_4; [apply recombine_4|..]; unfold MAX_CODE_POINT; lia.
Qed.

End encode.

(** ** Texts *)

(** A text that can be encoded: scalar values only. *)
Definition encodable (s : str) : Prop := Forall scalar s.

#[export] Instance encodable_dec s : Decision (encodable s).
Proof. unfold encodable. apply _. Defined.

(** The bytes of a text, code point by code point: what the encoder
    returns for a text that can be encoded. *)
Definition utf8_bytes (s : str) : list N :=
  c ← s; default [] (utf8_encode_char c).

Section texts.
Implicit Types (c : char) (s : str) (bs : list N) (pos : nat).

Lemma utf8_encode_from_cons_Some pos c s chunk :
  utf8_encode_char c = Some chunk →
  utf8_encode_from pos (c :: s)
  = match utf8_encode_from (S pos) s with
    | inr rest => inr (chunk ++ rest)
    | inl e => inl e
    end.
Proof. intros E. simpl. by rewrite E. Qed.

Lemma utf8_encode_from_cons_None pos c s :
  utf8_encode_char c = None →
  utf8_encode_from pos (c :: s)
  = inl (EncodeError pos (S pos + length (take_while is_surrogate s))).
Proof. intros E. simpl. by rewrite E. Qed.

(** A text that is encodable is encoded, to its bytes, from whatever
    position is counted. *)
Lemma utf8_encode_from_inr s : ∀ pos,
  encodable s → utf8_encode_from pos s = inr (utf8_bytes s).
Proof.
  induction s as [|c s IH]; intros pos Hs; [done|].
  apply Forall_cons in Hs as [[chunk Hc]%utf8_encode_char_is_Some Hs].
  rewrite (utf8_encode_from_cons_Some _ _ _ chunk), (IH (S pos)) by done.
  unfold utf8_bytes. simpl. by rewrite Hc.
Qed.

Lemma utf8_bytes_cons c s :
  utf8_bytes (c :: s) = default [] (utf8_encode_char c) ++ utf8_bytes s.
Proof. done. Qed.

Lemma utf8_bytes_ascii s : Forall (λ c, c < 0x80) s → utf8_bytes s = s.
Proof.
  induction 1 as [|c s Hc _ IH]; [done|]. rewrite utf8_bytes_cons, IH.
  unfold utf8_encode_char. apply N.ltb_lt in Hc. by rewrite Hc.
Qed.

Lemma utf8_encode_from_encodable s : ∀ pos bs,
  utf8_encode_from pos s = inr bs → encodable s.
Proof.
  induction s as [|c s IH]; intros pos bs; [constructor|].
  destruct (utf8_encode_char c) as [chunk|] eqn:Hc.
  - rewrite (utf8_encode_from_cons_Some _ _ _ chunk) by done.
    destruct (utf8_encode_from (S pos) s) eqn:E; [done|]. intros _.
    constructor; [by apply utf8_encode_char_is_Some|by eapply IH].
  - by rewrite utf8_encode_from_cons_None.
Qed.

Lemma utf8_decode_encode_from s : ∀ pos bs,
  utf8_encode_from pos s = inr bs → utf8_decode bs = Some s.
Proof.
  induction s as [|c s IH]; intros pos bs; [by intros [= <-]|].
  destruct (utf8_encode_char c) as [chunk|] eqn:Hc.
  - rewrite (utf8_encode_from_cons_Some _ _ _ chunk) by done.
    destruct (utf8_encode_from (S pos) s) as [|rest] eqn:E; [done|]. intros [= <-].
    by rewrite (utf8_decode_encode_char c), (IH _ _ E).
  - by rewrite utf8_encode_from_cons_None.
Qed.

Lemma utf8_encode_from_bounds s : ∀ pos bs,
  utf8_encode_from pos s = inr bs →
  Forall is_byte bs ∧ (length s ≤ length bs ≤ 4 * length s)%nat.
Proof.
  induction s as [|c s IH]; intros pos bs; [by intros [= <-]|].
  destruct (utf8_encode_char c) as [chunk|] eqn:Hc.
  - rewrite (utf8_encode_from_cons_Some _ _ _ chunk) by done.
    destruct (utf8_encode_from (S pos) s) as [|rest] eqn:E; [done|]. intros [= <-].
    destruct (utf8_encode_char_bytes _ _ Hc), (IH _ _ E).
    rewrite Forall_app, length_app. simpl. split; [done|lia].
  - by rewrite utf8_encode_from_cons_None.
Qed.

(** The error names the first code point that cannot be encoded. *)
Lemma utf8_encode_from_inl s : ∀ pos e,
  utf8_encode_from pos s = inl e →
  ∃ i c, err_start e = (pos + i)%nat ∧ encodable (take i s) ∧ s !! i = Some c
         ∧ ¬ scalar c
         ∧ err_stop e = (S (pos + i) + length (take_while is_surrogate (drop (S i) s)))%nat.
Proof.
  induction s as [|c s IH]; intros pos e; [done|].
  destruct (utf8_encode_char c) as [chunk|] eqn:Hc.
  - rewrite (utf8_encode_from_cons_Some _ _ _ chunk) by done.
    destruct (utf8_encode_from (S pos) s) as [e'|] eqn:E; [|done]. intros [= <-].
    destruct (IH _ _ E) as (i & c' & -> & Hi & Hc' & Hn & ->). exists (S i), c'.
    split_and!; [lia| |done..|simpl; lia].
    constructor; [by apply utf8_encode_char_is_Some|done].
  - rewrite utf8_encode_from_cons_None by done. intros [= <-]. exists 0%nat, c.
    split_and!; simpl; rewrite ?drop_0; try done; try lia; [by apply Forall_nil|].
    intros Hs. apply utf8_encode_char_is_Some in Hs. rewrite Hc in Hs. by destruct Hs.
Qed.

Lemma utf8_encode_inr_iff s bs :
  utf8_encode s = inr bs ↔ encodable s ∧ bs = utf8_bytes s.
Proof.
  split.
  - intros E. pose proof (utf8_encode_from_encodable _ _ _ E) as Hs.
    split; [done|]. unfold utf8_encode in E. rewrite utf8_encode_from_inr in E by done.
    by injection E.
  - intros [Hs ->]. by apply utf8_encode_from_inr.
Qed.

End texts.

(** ** Theorems *)

Section utf8_theorems.
Implicit Types (c : char) (s : str) (bs : list N).

(** The encoder computes the bytes of the text code point by code
    point, exactly when every code point is a scalar value: a text is
    encoded if and only if it holds no surrogate and nothing above
    U+10FFFF. *)
Theorem utf8_encode_encodable s bs :
  utf8_encode s = inr bs ↔ encodable s ∧ bs = utf8_bytes s.
Proof. apply utf8_encode_inr_iff. Qed.

(** C20: decoding what the encoder wrote gives the text back: the file a
    conversion writes holds its text and nothing else. *)
Theorem utf8_decode_encode s bs :
  utf8_encode s = inr bs → utf8_decode bs = Some s.
Proof. apply utf8_decode_encode_from. Qed.

(** C25: the bytes of the encoder are bytes (below 256), at least one and
    at most four for each code point; a text of code points below 128 is
    its own encoding. *)
Theorem utf8_encode_bounds s bs :
  utf8_encode s = inr bs →
  Forall is_byte bs ∧ (length s ≤ length bs ≤ 4 * length s)%nat
  ∧ (Forall (λ c, c < 0x80) s → bs = s).
Proof.
  intros E. destruct (utf8_encode_from_bounds _ _ _ E) as [Hb Hl].
  split; [done|split; [done|]]. intros Hs. apply utf8_encode_inr_iff in E as [_ ->].
  by apply utf8_bytes_ascii.
Qed.

(** The error of the encoder names the first code point that cannot
    be encoded: everything before [err_start] is encodable, the code
    point there is not a scalar value, and [err_stop] is the end of the
    run of surrogates that follows it. *)
Theorem utf8_encode_error s e :
  utf8_encode s = inl e →
  ∃ c, encodable (take (err_start e) s) ∧ s !! err_start e = Some c ∧ ¬ scalar c
       ∧ err_stop e
         = (S (err_start e) + length (take_while is_surrogate (drop (S (err_start e)) s)))%nat.
Proof.
  intros (i & c & -> & ? & ? & ? & ->)%utf8_encode_from_inl. by exists c.
Qed.

End utf8_theorems.

Lemma utf8_decode_encode_witness :
  utf8_decode [0x48; 0xC3; 0xA9; 0xE2; 0x86; 0x92; 0xF0; 0x9F; 0x93; 0x96]
  = Some [0x48; 0xE9; 0x2192; 0x1F4D6].
Proof. apply (utf8_decode_encode [0x48; 0xE9; 0x2192; 0x1F4D6]). by_compute. Defined.

Lemma utf8_encode_bounds_witness :
  Forall is_byte [0x48; 0xC3; 0xA9; 0xE2; 0x86; 0x92; 0xF0; 0x9F; 0x93; 0x96]
  ∧ (4 ≤ 10 ≤ 4 * 4)%nat
  ∧ (Forall (λ c, c < 0x80) [0x48; 0xE9; 0x2192; 0x1F4D6]
     → [0x48; 0xC3; 0xA9; 0xE2; 0x86; 0x92; 0xF0; 0x9F; 0x93; 0x96]
       = [0x48; 0xE9; 0x2192; 0x1F4D6]).
Proof. apply (utf8_encode_bounds [0x48; 0xE9; 0x2192; 0x1F4D6]). by_compute. Defined.

Lemma utf8_encode_error_witness :
  ∃ c, encodable (take 1 [0x48; 0xD83D; 0xDCD6; 0x21])
       ∧ [0x48; 0xD83D; 0xDCD6; 0x21] !! 1%nat = Some c ∧ ¬ scalar c
       ∧ 3%nat = S (1 + length (take_while is_surrogate (drop 2 [0x48; 0xD83D; 0xDCD6; 0x21]))).
Proof.
  apply (utf8_encode_error [0x48; 0xD83D; 0xDCD6; 0x21] (EncodeError 1 3)). by_compute.
Defined.
