(* ===== verification/Charmap.v ===== *)
(** * Charmap: the eight-bit codecs of a console

    [print] hands its text to the codec of [sys.stdout].  Besides UTF-8
    ([Utf8]) the codecs met there are the single-byte ones; [latin-1]
    (and [ascii], with the limit 128) takes a code point below its limit
    to the byte of the same value and rejects every other one, the error
    naming the run of code points rejected.  Library code (CPython),
    modelled from its documented behaviour. *)

From stdpp Require Import list strings.
From S2P Require Import Prelude PyStr Utf8.

Local Open Scope N_scope.

(** [s.encode(codec)] from position [pos] on, for the codec of the code
    points below [limit]. *)
Fixpoint charmap_encode_from (limit : N) (pos : nat) (s : str) : encode_error + list N :=
  match s with
  | [] => inr []
  | c :: s' =>
    if c <? limit then
      match charmap_encode_from limit (S pos) s' with
      | inr rest => inr (c :: rest)
      | inl e => inl e
      end
    else inl (EncodeError pos (S pos + length (take_while (λ c', negb (c' <? limit)) s')))
  end.

(** [s.encode("latin-1")] *)
Definition latin1_encode (s : str) : encode_error + list N := charmap_encode_from 256 0 s.

Section charmap.
Context (limit : N).
Implicit Types (c : char) (s : str) (bs : list N) (pos : nat).

(** A text below the limit is its own encoding. *)
Lemma charmap_encode_from_inr s pos :
  Forall (λ c, c < limit) s → charmap_encode_from limit pos s = inr s.
Proof.
  intros Hs. revert pos. induction Hs as [|c s Hc _ IH]; intros pos; [done|].
  simpl. apply N.ltb_lt in Hc. by rewrite Hc, IH.
Qed.

Lemma charmap_encode_from_inv s : ∀ pos bs,
  charmap_encode_from limit pos s = inr bs → Forall (λ c, c < limit) s ∧ bs = s.
Proof.
  induction s as [|c s IH]; intros pos bs; simpl; [by intros [= <-]|].
  destruct (N.ltb_spec c limit) as [Hc|Hc]; [|done].
  destruct (charmap_encode_from limit (S pos) s) as [e|rest] eqn:E; [done|].
  intros [= <-]. destruct (IH _ _ E) as [? ->]. by split; [constructor|].
Qed.

(** The error names the first code point at or above the limit and the
    run of such code points it starts. *)
Lemma charmap_encode_from_inl s : ∀ pos e,
  charmap_encode_from limit pos s = inl e →
  ∃ i c, err_start e = (pos + i)%nat ∧ Forall (λ c, c < limit) (take i s)
         ∧ s !! i = Some c ∧ limit ≤ c ∧ (err_start e < err_stop e ≤ pos + length s)%nat.
Proof.
  induction s as [|c s IH]; intros pos e; simpl; [done|].
  destruct (N.ltb_spec c limit) as [Hc|Hc].
  - destruct (charmap_encode_from limit (S pos) s) as [e'|rest] eqn:E; [|done].
    intros [= <-]. destruct (IH _ _ E) as (i & c' & Hs & Hi & Hc' & Hl & Hr).
    exists (S i), c'. rewrite Hs in *. split_and!; simpl; try done; try lia. by constructor.
  - intros [= <-]. exists 0%nat, c. simpl.
    pose proof (length_take_while (λ c', negb (c' <? limit)) s).
    split_and!; simpl; try done; lia.
Qed.

End charmap.

(** The error of CPython for ["ab→→c→"]: the first run of arrows. *)
Example latin1_encode_run :
  latin1_encode (py "ab" ++ [8594; 8594] ++ py "c" ++ [8594]) = inl (EncodeError 2 4).
Proof. by_compute. Qed.
