(* ===== verification/Soup.v ===== *)
(** * Soup: the document tree of the HTML parser

    The converter receives a BeautifulSoup tree and uses three of its
    operations: [select] with a class selector, assignment to [.string],
    and [get_text].  The tree is modelled as an inductive type with the
    node kinds that matter to those operations: text ([NavigableString]),
    comments (which [get_text] skips) and elements ([Tag]) with their class
    list and children.  The operations follow the documented behaviour of
    the library; they are not code of the converter itself. *)

From stdpp Require Import list strings.
From S2P Require Import Prelude PyStr.

#[warnings="-register-all"]
Inductive node :=
| NavigableString (s : str)
| Comment (s : str)
| Tag (name : str) (classes : list str) (children : list node).

(** The root object: the list of its children. *)
Abbreviation soup := (list node) (only parsing).

(** Induction over trees: the children of a [Tag] satisfy the property. *)
Lemma node_ind' (P : node → Prop) :
  (∀ s, P (NavigableString s)) →
  (∀ s, P (Comment s)) →
  (∀ name classes ch, Forall P ch → P (Tag name classes ch)) →
  ∀ n, P n.
Proof.
  intros Hs Hc Ht. fix IH 1. intros [s|s|name classes ch]; [apply Hs|apply Hc|].
  apply Ht. induction ch as [|n ch IHch]; constructor; [apply IH|apply IHch].
Qed.

Definition has_class (cls : str) (n : node) : bool :=
  match n with
  | Tag _ classes _ => bool_decide (cls ∈ classes)
  | _ => false
  end.

(** [select(".cls")] below one node: the matching elements in document
    order, the node itself first when it matches. *)
Fixpoint select_class (cls : str) (n : node) : list node :=
  match n with
  | Tag _ _ ch =>
    (if has_class cls n then [n] else []) ++ mjoin (select_class cls <$> ch)
  | _ => []
  end.

Definition select (cls : str) (sp : soup) : list node :=
  mjoin (select_class cls <$> sp).

(** [tag.string = new]: the children are replaced by one text node. *)
Definition set_string (new : str) (n : node) : node :=
  match n with
  | Tag name classes _ => Tag name classes [NavigableString new]
  | _ => n
  end.

(** The strings [get_text] visits below a node, in document order. *)
Fixpoint strings_of (n : node) : list str :=
  match n with
  | NavigableString s => [s]
  | Comment _ => []
  | Tag _ _ ch => mjoin (strings_of <$> ch)
  end.

Definition all_strings (sp : soup) : list str := mjoin (strings_of <$> sp).

(** [soup.get_text(separator=sep, strip=False)]. *)
Definition get_text (sep : str) (sp : soup) : str := join sep (all_strings sp).

Section soup.
Implicit Types (n : node) (sp : soup) (cls sep s : str).

Lemma all_strings_nil : all_strings [] = [].
Proof. done. Qed.

Lemma all_strings_cons n sp : all_strings (n :: sp) = strings_of n ++ all_strings sp.
Proof. done. Qed.

Lemma all_strings_app sp1 sp2 :
  all_strings (sp1 ++ sp2) = all_strings sp1 ++ all_strings sp2.
Proof. unfold all_strings. by rewrite fmap_app, join_app. Qed.

Lemma strings_of_Tag name classes ch :
  strings_of (Tag name classes ch) = all_strings ch.
Proof. done. Qed.

Lemma strings_of_set_string s n :
  (∃ name classes ch, n = Tag name classes ch) →
  strings_of (set_string s n) = [s].
Proof. by intros (name & classes & ch & ->). Qed.

(** Everything [select] returns carries the class. *)
Lemma select_class_has_class cls n :
  Forall (λ m, has_class cls m = true) (select_class cls n).
Proof.
  induction n as [s|s|name classes ch IH] using node_ind'; [constructor..|].
  simpl. apply Forall_app. split; [case_if; by repeat constructor|].
  induction IH as [|m ch Hm _ IHch]; [constructor|].
  simpl. apply Forall_app. by split.
Qed.

Lemma select_has_class cls sp : Forall (λ m, has_class cls m = true) (select cls sp).
Proof.
  unfold select. induction sp as [|n sp IH]; [constructor|].
  simpl. apply Forall_app. split; [apply select_class_has_class|done].
Qed.

End soup.

