(* ===== verification/Normalizer.v ===== *)
(** * Normalizer: [clean_text_preserving_gaps]

    The function of lines 9-29 of [src/epub_to_txt.py].  [mark_spacers]
    is the loop of lines 11-12 (every element of class [empty-line] gets
    the single text child ["\n"]); [clean_step] is the body of the loop of
    lines 19-27 on the state [{| cleaned; previous_blank |}], [clean_loop]
    the loop, [finish] line 29, [clean_lines] lines 15-29 on the extracted
    text, and [clean_text_preserving_gaps] the whole function.

    [Spec] holds the abstract specification: [Spec.collapse] is the loop
    as a recursive function on the lines, [Spec.paragraphs] the maximal
    runs of non-blank lines, [Spec.normalize] the text they render to.
    The theorems relate the code to [Spec], establish the invariant of the
    loop state ([state_wf]) and the shape of the result ([text_block]),
    and derive idempotence and preservation of content. *)

From stdpp Require Import list strings.
From S2P Require Import Prelude PyStr Soup.

(** ** The code *)

(** The class that marks an intentional gap. *)
Definition EMPTY_LINE : str := py "empty-line".

(** Lines 11-12 below one node.  [select] lists the matching elements in
    document order, so an outer spacer is assigned first; the assignment
    detaches its children, and a spacer nested in it is then assigned
    outside the tree.  Hence the replacement is top-down and does not
    descend into a spacer. *)
Fixpoint mark_spacer (n : node) : node :=
  match n with
  | Tag name classes ch =>
    if has_class EMPTY_LINE n then set_string nl n
    else Tag name classes (mark_spacer <$> ch)
  | _ => n
  end.

Definition mark_spacers (sp : soup) : soup := mark_spacer <$> sp.

(** The variables of the loop. *)
Record loop_state := LoopState { cleaned : list str; previous_blank : bool }.

Definition init_state : loop_state := LoopState [] false.

(** One iteration, lines 20-27. *)
Definition clean_step (st : loop_state) (line : str) : loop_state :=
  let stripped := strip line in
  if bool_decide (stripped = []) then
    LoopState
      (if bool_decide (cleaned st ≠ []) && negb (previous_blank st)
       then cleaned st ++ [[]] else cleaned st)
      true
  else LoopState (cleaned st ++ [stripped]) false.

Definition clean_loop (lines : list str) : loop_state :=
  foldl clean_step init_state lines.

(** Line 29. *)
Definition finish (cleaned : list str) : str := strip (join nl cleaned).

(** Lines 15-29, from the extracted text on. *)
Definition clean_lines (raw_text : str) : str :=
  finish (cleaned (clean_loop (splitlines raw_text))).

(** Line 14: the text of the tree, a line feed between its strings. *)
Definition raw_text (sp : soup) : str := get_text nl sp.

Definition clean_text_preserving_gaps (sp : soup) : str :=
  clean_lines (raw_text (mark_spacers sp)).

(** ** The specification *)

Module Spec.

Definition blank (line : str) : bool := bool_decide (strip line = []).

(** The loop as a function of the lines still to read; [armed] says that
    a blank line would be recorded now. *)
Fixpoint collapse (armed : bool) (lines : list str) : list str :=
  match lines with
  | [] => []
  | line :: lines' =>
    if blank line then (if armed then [[]] else []) ++ collapse false lines'
    else strip line :: collapse true lines'
  end.

(** The text block: the collapsed lines without the blank line that a
    trailing run of blank input lines leaves at the end. *)
Definition block (lines : list str) : list str :=
  drop_while_end is_nil (collapse false lines).

(** The groups of stripped lines between blank lines. *)
Definition groups (lines : list str) : list (list str) :=
  split_on is_nil (strip <$> lines).

(** The paragraphs: the groups that hold a line. *)
Definition paragraphs (lines : list str) : list (list str) :=
  filter (λ g, g ≠ []) (groups lines).

(** The text of paragraphs: lines joined by a line feed, paragraphs by an
    empty line. *)
Definition render (ps : list (list str)) : str :=
  join (nl ++ nl) (join nl <$> ps).

Definition normalize (raw_text : str) : str :=
  render (paragraphs (splitlines raw_text)).

End Spec.

(** ** Text nodes as lines *)

(** A text node that is a single line feed (what a spacer becomes) reads
    as two empty lines once the nodes are joined by line feeds. *)
Definition text_lines (ss : list str) : list str :=
  ss ≫= λ s, if decide (s = nl) then [[]; []] else [s].

(** A line of text: free of line boundaries and not blank. *)
Definition text_line (s : str) : Prop := one_line s ∧ strip s ≠ [].

#[export] Instance text_line_dec s : Decision (text_line s).
Proof. unfold text_line. apply _. Defined.

(** ** Invariants *)

(** Whether the next blank line is recorded: the guard of line 22. *)
Definition armed (st : loop_state) : bool :=
  bool_decide (cleaned st ≠ []) && negb (previous_blank st).

(** Two neighbouring empty lines. *)
Fixpoint double_blank (ls : list str) : bool :=
  match ls with
  | [] => false
  | l :: ls' =>
    match ls' with
    | [] => false
    | l' :: _ => bool_decide (l = []) && bool_decide (l' = []) || double_blank ls'
    end
  end.

(** The invariant of the loop. *)
Definition state_wf (st : loop_state) : Prop :=
  Forall trimmed (cleaned st) ∧
  head (cleaned st) ≠ Some [] ∧
  double_blank (cleaned st) = false ∧
  (last (cleaned st) = Some [] → previous_blank st = true).

(** The lines of a normalized text: trimmed, free of line boundaries, no
    empty line first or last, no two empty lines in a row. *)
Definition text_block (ls : list str) : Prop :=
  Forall trimmed ls ∧ Forall one_line ls ∧
  head ls ≠ Some [] ∧ last ls ≠ Some [] ∧ double_blank ls = false.

#[export] Instance loop_state_eq_dec : EqDecision loop_state.
Proof. solve_decision. Defined.

#[export] Instance state_wf_dec st : Decision (state_wf st).
Proof. unfold state_wf. apply _. Defined.

#[export] Instance text_block_dec ls : Decision (text_block ls).
Proof. unfold text_block. apply _. Defined.

(** ** The loop step by step *)

Section loop.
Implicit Types (st : loop_state) (line l : str) (lines ls : list str).

Lemma blank_true line : Spec.blank line = true ↔ strip line = [].
Proof. apply bool_decide_eq_true. Qed.

Lemma blank_false line : Spec.blank line = false ↔ strip line ≠ [].
Proof. apply bool_decide_eq_false. Qed.

Lemma blank_is_nil line : Spec.blank line = is_nil (strip line).
Proof. unfold Spec.blank. by destruct (strip line). Qed.

Lemma armed_true st : armed st = true → cleaned st ≠ [] ∧ previous_blank st = false.
Proof.
  unfold armed. intros [H1 H2]%andb_true_iff.
  apply bool_decide_eq_true in H1. by apply negb_true_iff in H2.
Qed.

Lemma clean_step_blank st line :
  strip line = [] →
  clean_step st line =
    LoopState (if armed st then cleaned st ++ [[]] else cleaned st) true.
Proof. intros H. unfold clean_step. by rewrite H. Qed.

Lemma clean_step_text st line :
  strip line ≠ [] →
  clean_step st line = LoopState (cleaned st ++ [strip line]) false.
Proof. intros H. unfold clean_step. by rewrite bool_decide_eq_false_2. Qed.

Lemma double_blank_snoc ls l :
  double_blank (ls ++ [l]) =
  double_blank ls || bool_decide (last ls = Some []) && bool_decide (l = []).
Proof.
  induction ls as [|l1 [|l2 ls] IH]; [done| |].
  - simpl. repeat case_bool_decide; naive_solver.
  - change ((l1 :: l2 :: ls) ++ [l]) with (l1 :: (l2 :: ls) ++ [l]).
    change (double_blank (l1 :: (l2 :: ls) ++ [l])) with
      (bool_decide (l1 = []) && bool_decide (l2 = []) || double_blank ((l2 :: ls) ++ [l])).
    rewrite IH. change (last (l1 :: l2 :: ls)) with (last (l2 :: ls)).
    simpl double_blank at 2. by rewrite orb_assoc.
Qed.

Lemma double_blank_app_l ls1 ls2 :
  double_blank (ls1 ++ ls2) = false → double_blank ls1 = false.
Proof.
  induction ls2 as [|l ls2 IH] using rev_ind; [by rewrite app_nil_r|].
  rewrite app_assoc, double_blank_snoc. intros [H _]%orb_false_iff. auto.
Qed.

Lemma init_state_wf : state_wf init_state.
Proof. by repeat split. Qed.

Lemma clean_step_wf st line : state_wf st → state_wf (clean_step st line).
Proof.
  intros (Ht & Hh & Hd & Hf). destruct (decide (strip line = [])) as [E|E].
  - rewrite clean_step_blank by done.
    destruct (armed st) eqn:Ea; [|by repeat split].
    apply armed_true in Ea as [Hne Hp]. repeat split; simpl.
    + apply Forall_app; split; [done|]. repeat constructor; done.
    + by rewrite head_snoc_ne.
    + rewrite double_blank_snoc, Hd. simpl.
      rewrite bool_decide_eq_false_2; [done|]. intros H. apply Hf in H. congruence.
  - rewrite clean_step_text by done. repeat split; simpl.
    + apply Forall_app; split; [done|]. apply Forall_singleton. auto with py.
    + destruct (cleaned st); simpl in *; congruence.
    + rewrite double_blank_snoc, Hd. simpl.
      by rewrite (bool_decide_eq_false_2 (strip line = [])), andb_false_r.
    + rewrite last_snoc. congruence.
Qed.

Lemma foldl_clean_step_wf st lines :
  state_wf st → state_wf (foldl clean_step st lines).
Proof.
  revert st. induction lines as [|l ls IH]; intros st H; [done|].
  apply IH, clean_step_wf, H.
Qed.

Lemma clean_loop_wf lines : state_wf (clean_loop lines).
Proof. apply foldl_clean_step_wf, init_state_wf. Qed.

(** ** The loop is [Spec.collapse] *)

Lemma clean_step_collapse st line :
  cleaned (clean_step st line) = cleaned st ++ Spec.collapse (armed st) [line] ∧
  armed (clean_step st line) = negb (Spec.blank line) ∧
  previous_blank (clean_step st line) = Spec.blank line.
Proof.
  simpl. destruct (Spec.blank line) eqn:E.
  - apply blank_true in E. rewrite clean_step_blank by done. repeat split.
    + simpl. destruct (armed st); by rewrite ?app_nil_r.
    + unfold armed. simpl. apply andb_false_r.
  - apply blank_false in E. rewrite clean_step_text by done.
    repeat split. unfold armed. simpl. rewrite andb_true_r.
    apply bool_decide_eq_true_2. by destruct (cleaned st).
Qed.

Lemma foldl_clean_step_collapse st lines :
  cleaned (foldl clean_step st lines) = cleaned st ++ Spec.collapse (armed st) lines.
Proof.
  revert st. induction lines as [|l ls IH]; intros st; simpl; [by rewrite app_nil_r|].
  destruct (clean_step_collapse st l) as (Hc & Ha & _). rewrite IH, Hc, Ha. simpl.
  destruct (Spec.blank l); simpl; by rewrite <-?app_assoc.
Qed.

Lemma foldl_clean_step_flag st lines :
  previous_blank (foldl clean_step st lines) =
    from_option Spec.blank (previous_blank st) (last lines).
Proof.
  revert st. induction lines as [|l ls IH]; intros st; [done|].
  simpl foldl. rewrite IH. destruct (clean_step_collapse st l) as (_ & _ & ->).
  rewrite last_cons. by destruct (last ls).
Qed.

Lemma clean_loop_collapse lines :
  cleaned (clean_loop lines) = Spec.collapse false lines.
Proof. apply (foldl_clean_step_collapse init_state). Qed.

Lemma collapse_wf lines :
  Forall trimmed (Spec.collapse false lines) ∧
  head (Spec.collapse false lines) ≠ Some [] ∧
  double_blank (Spec.collapse false lines) = false.
Proof.
  rewrite <-clean_loop_collapse. destruct (clean_loop_wf lines) as (?&?&?&_). done.
Qed.

Lemma collapse_Forall (P : str → Prop) a lines :
  P [] → (∀ l, P l → P (strip l)) →
  Forall P lines → Forall P (Spec.collapse a lines).
Proof.
  intros Hnil Hstrip H. revert a.
  induction H as [|l ls Hl _ IH]; intros a; simpl; [constructor|].
  destruct (Spec.blank l); [|by constructor; auto].
  apply Forall_app. split; [|done]. destruct a; by repeat constructor.
Qed.

(** A sequence that satisfies the invariants is left as it is. *)
Lemma collapse_fixed a ls :
  Forall trimmed ls → double_blank ls = false → (a = false → head ls ≠ Some []) →
  Spec.collapse a ls = ls.
Proof.
  intros Ht. revert a. induction Ht as [|l ls Hl _ IH]; intros a Hd Hh; [done|].
  assert (double_blank ls = false ∧ (l = [] → head ls ≠ Some [])) as [Hd' Hh'].
  { destruct ls as [|l' ls]; [done|]. simpl in Hd.
    apply orb_false_iff in Hd as [Hd ?]. split; [done|]. intros -> [= ->]. done. }
  pose proof (trimmed_strip l Hl) as Hs. simpl. destruct (Spec.blank l) eqn:E.
  - apply blank_true in E. rewrite Hs in E. subst l.
    destruct a; [|by destruct Hh]. simpl. f_equal. apply IH; auto.
  - rewrite Hs. f_equal. by apply IH.
Qed.

(** ** The result is a text block *)

Lemma block_text_block lines :
  Forall one_line lines → text_block (Spec.block lines).
Proof.
  intros Hl. destruct (collapse_wf lines) as (Ht & Hh & Hd). unfold Spec.block.
  destruct (drop_while_end_prefix is_nil (Spec.collapse false lines)) as [k Hk].
  repeat split.
  - eapply Forall_sublist; [apply drop_while_end_sublist|done].
  - eapply Forall_sublist; [apply drop_while_end_sublist|].
    apply collapse_Forall; [constructor|auto with py|done].
  - intros H. apply Hh. rewrite Hk.
    by destruct (drop_while_end is_nil (Spec.collapse false lines)).
  - intros H. by apply drop_while_end_last in H.
  - apply (double_blank_app_l _ k). by rewrite <-Hk.
Qed.

(** Two blocks with one empty line between them form a block. *)
Lemma double_blank_gap ls1 ls2 :
  ls1 ≠ [] → double_blank ls1 = false → last ls1 ≠ Some [] →
  double_blank ls2 = false → head ls2 ≠ Some [] →
  double_blank (ls1 ++ [] :: ls2) = false.
Proof.
  intros Hne H1 Hl H2 Hh. induction ls1 as [|l [|l' ls1] IH]; [done| |].
  - destruct ls2 as [|l2 ls2]; simpl in *; repeat case_bool_decide; naive_solver.
  - change (double_blank ((l :: l' :: ls1) ++ [] :: ls2)) with
      (bool_decide (l = []) && bool_decide (l' = []) || double_blank ((l' :: ls1) ++ [] :: ls2)).
    change (double_blank (l :: l' :: ls1)) with
      (bool_decide (l = []) && bool_decide (l' = []) || double_blank (l' :: ls1)) in H1.
    apply orb_false_iff in H1 as [-> H1]. by apply IH.
Qed.

Lemma text_block_gap ls1 ls2 :
  ls1 ≠ [] → ls2 ≠ [] → text_block ls1 → text_block ls2 →
  text_block (ls1 ++ [] :: ls2).
Proof.
  intros Hn1 Hn2 (Ht1 & Ho1 & Hh1 & Hl1 & Hd1) (Ht2 & Ho2 & Hh2 & Hl2 & Hd2).
  split_and!.
  - apply Forall_app; split; [done|]. constructor; [by split|done].
  - apply Forall_app; split; [done|]. constructor; [constructor|done].
  - by destruct ls1.
  - rewrite last_app, last_cons. destruct (last ls2) eqn:E; [done|].
    by apply last_None in E.
  - by apply double_blank_gap.
Qed.

(** Blocks joined by empty lines form a block. *)
Lemma text_block_join bs :
  Forall (λ ls, ls ≠ [] ∧ text_block ls) bs → bs ≠ [] → text_block (join [[]] bs).
Proof.
  induction 1 as [|ls bs [Hn Hb] HF IH]; [done|]. intros _.
  destruct (decide (bs = [])) as [->|Hne]; [by rewrite join_sep_singleton|].
  rewrite join_sep_cons by done. apply text_block_gap; auto.
  intros E. apply Hne. eapply (join_eq_nil [[]]), E.
  eapply Forall_impl; [exact HF|]. by intros ? [? _].
Qed.

Lemma block_fixed ls : text_block ls → Spec.block ls = ls.
Proof.
  intros (Ht & _ & Hh & Hl & Hd). unfold Spec.block. rewrite collapse_fixed by done.
  apply drop_while_end_id. intros l Hlast. apply is_nil_false. by intros ->.
Qed.

Lemma clean_lines_block raw :
  clean_lines raw = join nl (Spec.block (splitlines raw)).
Proof.
  unfold clean_lines, finish, Spec.block. rewrite clean_loop_collapse.
  destruct (collapse_wf (splitlines raw)) as (Ht & Hh & _).
  rewrite strip_join_lines by done. do 2 f_equal.
  destruct (Spec.collapse false (splitlines raw)) as [|[|c l] C]; naive_solver.
Qed.

Lemma splitlines_clean_lines raw :
  splitlines (clean_lines raw) = Spec.block (splitlines raw).
Proof.
  rewrite clean_lines_block.
  destruct (block_text_block (splitlines raw)) as (_ & Ho & _ & Hl & _);
    [auto with py|].
  by apply splitlines_join.
Qed.

(** ** The block is the paragraphs *)

Lemma groups_cons_blank l ls :
  Spec.blank l = true → Spec.groups (l :: ls) = [] :: Spec.groups ls.
Proof.
  intros H. unfold Spec.groups. rewrite fmap_cons.
  apply split_on_cons_true. by rewrite <-blank_is_nil.
Qed.

Lemma groups_cons_text l ls :
  Spec.blank l = false →
  Spec.groups (l :: ls) =
    (strip l :: hd [] (Spec.groups ls)) :: tl (Spec.groups ls).
Proof.
  intros H. unfold Spec.groups. rewrite fmap_cons.
  apply split_on_cons_false. by rewrite <-blank_is_nil.
Qed.

Lemma paragraphs_ne lines : Forall (λ g, g ≠ []) (Spec.paragraphs lines).
Proof.
  unfold Spec.paragraphs. apply Forall_forall.
  by intros g [? _]%list_elem_of_filter.
Qed.

Lemma block_groups lines :
  drop_while_end is_nil (Spec.collapse false lines) =
    join [[]] (filter (λ g, g ≠ []) (Spec.groups lines)) ∧
  drop_while_end is_nil (Spec.collapse true lines) =
    join [[]] (hd [] (Spec.groups lines) ::
               filter (λ g, g ≠ []) (tl (Spec.groups lines))).
Proof.
  induction lines as [|l ls [IH1 IH2]]; [done|].
  simpl Spec.collapse. destruct (Spec.blank l) eqn:E.
  - rewrite groups_cons_blank by done. simpl hd. simpl tl.
    rewrite filter_cons_False by naive_solver. split; [done|].
    simpl app. rewrite drop_while_end_cons, IH1. simpl.
    destruct (filter _ (Spec.groups ls)) as [|g gs] eqn:Ef; [done|].
    destruct (join [[]] (g :: gs)) eqn:Ej; [|done].
    apply join_eq_nil in Ej; [done|]. rewrite <-Ef. apply paragraphs_ne.
  - rewrite groups_cons_text by done. simpl hd. simpl tl.
    rewrite filter_cons_True by done.
    rewrite drop_while_end_cons, IH2, join_cons_cons.
    rewrite blank_is_nil in E. by rewrite E, andb_false_r.
Qed.

Lemma block_paragraphs lines :
  Spec.block lines = join [[]] (Spec.paragraphs lines).
Proof. apply block_groups. Qed.

(** ** Content *)

Lemma filter_collapse a lines :
  filter (λ l, l ≠ []) (Spec.collapse a lines) =
  filter (λ l, l ≠ []) (strip <$> lines).
Proof.
  revert a. induction lines as [|l ls IH]; intros a; [done|].
  rewrite fmap_cons. simpl. destruct (Spec.blank l) eqn:E.
  - apply blank_true in E. rewrite E, filter_cons_False by naive_solver.
    rewrite filter_app, IH. by destruct a.
  - apply blank_false in E. by rewrite !filter_cons_True, IH.
Qed.

Lemma filter_drop_while_end_nil ls :
  filter (λ l, l ≠ []) (drop_while_end is_nil ls) = filter (λ l : str, l ≠ []) ls.
Proof.
  induction ls as [|l ls IH] using rev_ind; [done|]. destruct l as [|c l].
  - rewrite drop_while_end_snoc_true by done.
    rewrite filter_app, filter_cons_False by naive_solver.
    by rewrite app_nil_r.
  - by rewrite drop_while_end_snoc_false.
Qed.

Lemma block_content lines :
  filter (λ l, l ≠ []) (Spec.block lines) = filter (λ l, l ≠ []) (strip <$> lines).
Proof. unfold Spec.block. by rewrite filter_drop_while_end_nil, filter_collapse. Qed.

End loop.

#[export] Hint Resolve init_state_wf paragraphs_ne : py.

(** ** From the tree to the lines *)

Section tree.
Implicit Types (s : str) (ss ls lines : list str) (n : node) (sp : soup).

Lemma text_lines_cons s ss :
  text_lines (s :: ss) = (if decide (s = nl) then [[]; []] else [s]) ++ text_lines ss.
Proof. done. Qed.

Lemma join_text_lines ss : join nl (text_lines ss) = join nl ss.
Proof.
  induction ss as [|s ss IH]; [done|]. rewrite text_lines_cons.
  destruct ss as [|s' ss].
  - unfold text_lines. simpl. rewrite app_nil_r. by case_decide; subst.
  - rewrite join_sep_app;
      [|by case_decide|by rewrite text_lines_cons; case_decide].
    rewrite IH, (join_sep_cons _ s) by done. by case_decide; subst.
Qed.

Lemma text_lines_one_line ss :
  Forall (λ s, one_line s ∨ s = nl) ss → Forall one_line (text_lines ss).
Proof.
  induction 1 as [|s ss Hs _ IH]; [constructor|]. rewrite text_lines_cons.
  apply Forall_app. split; [|done].
  case_decide; [by repeat constructor|]. constructor; [|constructor]. by destruct Hs.
Qed.

Lemma collapse_app a ls1 ls2 :
  Spec.collapse a (ls1 ++ ls2) =
  Spec.collapse a ls1 ++
  Spec.collapse (from_option (negb ∘ Spec.blank) a (last ls1)) ls2.
Proof.
  revert a. induction ls1 as [|l ls1 IH]; intros a; [done|].
  simpl. rewrite !IH, last_cons.
  destruct (Spec.blank l) eqn:E, (last ls1); simpl; rewrite ?E, <-?app_assoc; done.
Qed.

Lemma block_snoc_blank ls l :
  Spec.blank l = true → Spec.block (ls ++ [l]) = Spec.block ls.
Proof.
  intros E. unfold Spec.block. rewrite collapse_app. simpl. rewrite E.
  destruct (from_option _ _ _); simpl; [|by rewrite app_nil_r].
  by apply drop_while_end_snoc_true.
Qed.

Lemma block_splitlines_join ls :
  Forall one_line ls → Spec.block (splitlines (join nl ls)) = Spec.block ls.
Proof.
  destruct ls as [|l ls _] using rev_ind; [done|]. intros H.
  destruct (decide (l = [])) as [->|Hl].
  - rewrite (block_snoc_blank ls []) by done.
    destruct (decide (ls = [])) as [->|Hne]; [done|].
    rewrite splitlines_join_snoc_nil; [done| |done].
    by apply Forall_app in H as [? _].
  - rewrite splitlines_join; [done..|]. rewrite last_snoc. congruence.
Qed.

Lemma clean_lines_join ls :
  Forall one_line ls → clean_lines (join nl ls) = join nl (Spec.block ls).
Proof. intros H. by rewrite clean_lines_block, block_splitlines_join. Qed.

Lemma clean_text_strings_block sp :
  Forall (λ s, one_line s ∨ s = nl) (all_strings (mark_spacers sp)) →
  clean_text_preserving_gaps sp =
    join nl (Spec.block (text_lines (all_strings (mark_spacers sp)))).
Proof.
  intros H. unfold clean_text_preserving_gaps, raw_text, get_text.
  rewrite <-join_text_lines. by apply clean_lines_join, text_lines_one_line.
Qed.


Lemma collapse_text_lines a ls :
  Forall text_line ls → Spec.collapse a ls = strip <$> ls.
Proof.
  intros H. revert a. induction H as [|l ls [_ Hl] _ IH]; intros a; [done|].
  simpl. apply blank_false in Hl. by rewrite Hl, IH.
Qed.

Lemma block_text_lines ls : Forall text_line ls → Spec.block ls = strip <$> ls.
Proof.
  intros H. unfold Spec.block. rewrite collapse_text_lines by done.
  apply drop_while_end_id. intros l Hl. apply is_nil_false.
  apply last_Some_elem_of, list_elem_of_fmap in Hl as (l' & -> & Hl').
  by eapply Forall_forall in H as [_ ?].
Qed.

Lemma text_line_ne_nl s : one_line s → s ≠ nl.
Proof. intros H ->. by apply Forall_cons in H as [? _]. Qed.

Lemma text_lines_id ss : Forall one_line ss → text_lines ss = ss.
Proof.
  induction 1 as [|s ss Hs _ IH]; [done|]. rewrite text_lines_cons, IH.
  by rewrite decide_False by by apply text_line_ne_nl.
Qed.

Lemma mark_spacer_unmarked n : select_class EMPTY_LINE n = [] → mark_spacer n = n.
Proof.
  induction n as [s|s|name classes ch IH] using node_ind'; [done..|].
  simpl. destruct (bool_decide _); [done|]. simpl. intros H. f_equal.
  induction IH as [|m ch Hm _ IHch]; [done|].
  simpl in H. apply app_eq_nil in H as [H1 H2].
  simpl. f_equal; [by apply Hm|by apply IHch].
Qed.

Lemma mark_spacers_unmarked sp : select EMPTY_LINE sp = [] → mark_spacers sp = sp.
Proof.
  unfold select, mark_spacers. induction sp as [|n sp IH]; [done|].
  simpl. intros [H1 H2]%app_eq_nil.
  f_equal; [by apply mark_spacer_unmarked|by apply IH].
Qed.

Lemma mark_spacer_spacer name classes ch :
  EMPTY_LINE ∈ classes →
  mark_spacer (Tag name classes ch) = Tag name classes [NavigableString nl].
Proof. intros H. simpl. by rewrite bool_decide_eq_true_2. Qed.

Lemma mark_spacer_leaf name classes s :
  EMPTY_LINE ∉ classes →
  mark_spacer (Tag name classes [NavigableString s]) = Tag name classes [NavigableString s].
Proof. intros H. simpl. by rewrite bool_decide_eq_false_2. Qed.

End tree.

(** The code against the specification: the text of the paragraphs. *)
Lemma clean_lines_normalize raw : clean_lines raw = Spec.normalize raw.
Proof.
  rewrite clean_lines_block, block_paragraphs.
  apply join_join; auto with py.
Qed.

(** ** Theorems *)

(** C1: the text [clean_lines] computes is the one the specification
    gives: the paragraphs of the raw lines (maximal runs of lines that are
    not blank, each line stripped), the lines of a paragraph joined by a
    line feed and the paragraphs by one empty line. *)
Theorem clean_lines_paragraphs raw : clean_lines raw = Spec.normalize raw.
Proof. apply clean_lines_normalize. Qed.

(** C2: normalising is idempotent: running [clean_lines] on its own
    output returns that output. *)
Theorem clean_lines_idempotent raw :
  clean_lines (clean_lines raw) = clean_lines raw.
Proof.
  rewrite (clean_lines_block (clean_lines raw)), splitlines_clean_lines.
  rewrite block_fixed, <-clean_lines_block; [done|].
  apply block_text_block; auto with py.
Qed.

(** C3: the output is a text block: read back line by line it has no
    empty line first or last, no two empty lines in a row, and every line
    is trimmed and holds no line boundary; the text itself neither starts
    nor ends with white space. *)
Theorem clean_lines_text_block raw :
  text_block (splitlines (clean_lines raw)) ∧ trimmed (clean_lines raw).
Proof.
  split; [|apply strip_trimmed].
  rewrite splitlines_clean_lines. apply block_text_block; auto with py.
Qed.

(** C30: every iteration of the loop preserves the invariant [state_wf]:
    the lines collected so far are trimmed, do not start with an empty
    line, hold no two empty lines in a row, and [previous_blank] is set
    whenever the last collected line is empty. *)
Theorem clean_step_invariant st line :
  state_wf st → state_wf (clean_step st line).
Proof. apply clean_step_wf. Qed.

Lemma clean_step_invariant_witness :
  state_wf (clean_step (LoopState [py "a"] false) (py "  ")).
Proof.
  apply (clean_step_invariant (LoopState [py "a"] false) (py "  ")).
  by_decide.
Defined.

(** The loop refines [Spec.collapse]: after all lines are read,
    [cleaned] is the collapsed sequence and [previous_blank] tells whether
    the last line read was blank. *)
Theorem clean_loop_refines_collapse lines :
  cleaned (clean_loop lines) = Spec.collapse false lines ∧
  previous_blank (clean_loop lines) = from_option Spec.blank false (last lines).
Proof.
  split; [apply clean_loop_collapse|apply (foldl_clean_step_flag init_state)].
Qed.

(** No content is lost, added or reordered: the non-empty lines of
    the output are the stripped non-blank lines of the input, in order. *)
Theorem clean_lines_keeps_content raw :
  filter (λ l, l ≠ []) (splitlines (clean_lines raw)) =
  filter (λ l, l ≠ []) (strip <$> splitlines raw).
Proof. rewrite splitlines_clean_lines. apply block_content. Qed.

(** Every text block is a fixed point: its lines joined by line
    feeds are returned unchanged, so the outputs of [clean_lines] are
    exactly the texts of text blocks. *)
Theorem text_block_fixed ls :
  text_block ls → clean_lines (join nl ls) = join nl ls.
Proof.
  intros H. pose proof H as (_ & Ho & _ & Hl & _).
  by rewrite clean_lines_block, splitlines_join, block_fixed.
Qed.

Lemma text_block_fixed_witness :
  clean_lines (join nl [py "a b"; []; py "c"]) = join nl [py "a b"; []; py "c"].
Proof.
  apply (text_block_fixed [py "a b"; []; py "c"]).
  by_decide.
Defined.

(** The output is empty exactly when every raw line is blank (an
    entirely blank document yields an empty text block). *)
Theorem clean_lines_nil_iff raw :
  clean_lines raw = [] ↔ Forall (λ l, strip l = []) (splitlines raw).
Proof.
  pose proof (block_content (splitlines raw)) as Hc.
  pose proof (block_text_block (splitlines raw) (splitlines_one_line raw))
    as (_ & _ & Hh & _).
  split.
  - intros H. rewrite <-splitlines_clean_lines, H in Hc. symmetry in Hc.
    apply filter_nil_iff in Hc. rewrite Forall_fmap in Hc.
    eapply Forall_impl; [exact Hc|]. intros l Hl. simpl in Hl.
    by destruct (decide (strip l = [])).
  - intros H. rewrite clean_lines_block.
    assert (filter (λ l, l ≠ []) (strip <$> splitlines raw) = []) as E.
    { apply filter_nil_iff. rewrite Forall_fmap.
      eapply Forall_impl; [exact H|]. intros l Hl Hne. by apply Hne. }
    rewrite E in Hc. apply filter_nil_iff in Hc.
    destruct (Spec.block (splitlines raw)) as [|l ls]; [done|].
    apply Forall_cons in Hc as [Hl _]. destruct l; [by destruct Hh|by destruct Hl].
Qed.

(** C40: in a tree without gap markers whose text nodes are single
    non-blank lines, every text node lands on a line of its own, stripped,
    in document order, whatever element holds it: an inline element
    breaks the line just as a block element does. *)
Theorem clean_text_own_lines sp :
  select EMPTY_LINE sp = [] →
  Forall text_line (all_strings sp) →
  clean_text_preserving_gaps sp = join nl (strip <$> all_strings sp).
Proof.
  intros Hsel H. assert (Forall one_line (all_strings sp)) as Ho.
  { eapply Forall_impl; [exact H|]. by intros ? []. }
  rewrite clean_text_strings_block; rewrite mark_spacers_unmarked by done.
  - by rewrite text_lines_id, block_text_lines.
  - eapply Forall_impl; [exact Ho|]. auto.
Qed.

Lemma clean_text_own_lines_witness :
  let sp := [Tag (py "p") []
               [NavigableString (py "Hello ");
                Tag (py "b") [] [NavigableString (py "big")];
                NavigableString (py " world")]] in
  clean_text_preserving_gaps sp = join nl (strip <$> all_strings sp).
Proof.
  apply clean_text_own_lines; [reflexivity|].
  by_decide.
Defined.

(** C39: a gap marker between two elements that each hold one line of
    text yields exactly one empty line between the two lines, whatever the
    marker element contains. *)
Theorem spacer_makes_gap t1 c1 a name classes ch t2 c2 b :
  EMPTY_LINE ∈ classes → EMPTY_LINE ∉ c1 → EMPTY_LINE ∉ c2 →
  text_line a → text_line b →
  clean_text_preserving_gaps
    [Tag t1 c1 [NavigableString a]; Tag name classes ch; Tag t2 c2 [NavigableString b]]
  = strip a ++ nl ++ nl ++ strip b.
Proof.
  intros Hc Hc1 Hc2 [Ha Ha'] [Hb Hb'].
  assert (all_strings (mark_spacers
    [Tag t1 c1 [NavigableString a]; Tag name classes ch; Tag t2 c2 [NavigableString b]])
    = [a; nl; b]) as E.
  { unfold mark_spacers. rewrite !fmap_cons.
    by rewrite (mark_spacer_spacer name classes ch),
      (mark_spacer_leaf t1 c1 a), (mark_spacer_leaf t2 c2 b). }
  rewrite clean_text_strings_block; rewrite E; [|by repeat constructor; auto].
  rewrite !text_lines_cons.
  rewrite (decide_False (P := a = nl)), (decide_False (P := b = nl)), decide_True
    by (done || by apply text_line_ne_nl).
  unfold Spec.block. simpl.
  apply blank_false in Ha', Hb'. rewrite Ha', Hb'. simpl.
  rewrite (drop_while_end_id is_nil [strip a; []; strip b]); [done|].
  intros l [= <-]. by rewrite <-blank_is_nil.
Qed.


Lemma spacer_makes_gap_witness :
  clean_text_preserving_gaps
    [Tag (py "p") [] [NavigableString (py "Hello")];
     Tag (py "div") [py "empty-line"] [];
     Tag (py "p") [] [NavigableString (py "World")]]
  = strip (py "Hello") ++ nl ++ nl ++ strip (py "World").
Proof.
  apply spacer_makes_gap;
    by_decide.
Defined.

(** The end-to-end example of the specification: the fragment
    [<p>Hello</p><div class="empty-line"></div><p>World</p>] normalizes to
    ["Hello\n\nWorld"], and without the class on the [div] to
    ["Hello\nWorld"]. *)
Example spec_example_hello_world :
  clean_text_preserving_gaps
    [Tag (py "p") [] [NavigableString (py "Hello")];
     Tag (py "div") [py "empty-line"] [];
     Tag (py "p") [] [NavigableString (py "World")]]
  = py "Hello" ++ [LF; LF] ++ py "World" ∧
  clean_text_preserving_gaps
    [Tag (py "p") [] [NavigableString (py "Hello")];
     Tag (py "div") [] [];
     Tag (py "p") [] [NavigableString (py "World")]]
  = py "Hello" ++ [LF] ++ py "World".
Proof. vm_compute. split; reflexivity. Qed.
