(* ===== verification/Extent.v ===== *)
(** * Extent: what the normalizer can put out

    Two bounds on [clean_text_preserving_gaps] of [src/epub_to_txt.py]:
    its code points are code points of the strings of the tree or the
    line feed it joins with, and its text is never longer than the text
    [get_text] extracts.  The first is what makes the text of a document
    without surrogates one the codec accepts. *)

From stdpp Require Import list strings.
From S2P Require Import Prelude PyStr Soup Normalizer.

(** The room a list of lines takes: its characters and one separator
    for each line. *)
Definition weight (ls : list str) : nat := sum_list ((S ∘ length) <$> ls).

Section confined.
Context (P : char → Prop).
Implicit Types (s line : str) (ls : list str) (st : loop_state) (n : node) (sp : soup).

Lemma splitlines_Forall s : Forall P s → Forall (Forall P) (splitlines s).
Proof.
  revert s. apply (splitlines_ind (λ s ls, Forall P s → Forall (Forall P) ls)).
  - constructor.
  - intros c s _ _ _ [Hc _]%Forall_cons. by repeat constructor.
  - intros c s l ls _ _ IH [Hc Hs]%Forall_cons.
    apply IH, Forall_cons in Hs as [Hl Hls]. by repeat constructor.
  - intros c s IH [_ Hs]%Forall_cons. constructor; auto.
  - intros c s IH [_ [_ Hs]%Forall_cons]%Forall_cons. constructor; auto.
Qed.

Lemma clean_step_Forall st line :
  Forall (Forall P) (cleaned st) → Forall P line →
  Forall (Forall P) (cleaned (clean_step st line)).
Proof.
  intros Hst Hl. unfold clean_step. repeat case_match; simpl; try done.
  all: apply Forall_app; split; [done|]; repeat constructor. by apply strip_Forall.
Qed.

Lemma clean_loop_Forall lines :
  Forall (Forall P) lines → Forall (Forall P) (cleaned (clean_loop lines)).
Proof.
  unfold clean_loop. assert (Forall (Forall P) (cleaned init_state)) as Hst by constructor.
  revert Hst. generalize init_state.
  induction lines as [|l lines IH]; intros st Hst Hls; [done|].
  apply Forall_cons in Hls as [Hl Hls]. by apply IH; [apply clean_step_Forall|].
Qed.

Lemma clean_lines_Forall raw : P LF → Forall P raw → Forall P (clean_lines raw).
Proof.
  intros HLF Hraw. apply strip_Forall, join_Forall; [by repeat constructor|].
  by apply clean_loop_Forall, splitlines_Forall.
Qed.

Lemma mark_spacer_Forall n :
  P LF → Forall (Forall P) (strings_of n) → Forall (Forall P) (strings_of (mark_spacer n)).
Proof.
  intros HLF. induction n as [s|s|name classes ch IH] using node_ind'; [done..|].
  simpl. destruct (bool_decide _); [by repeat constructor|]. simpl.
  induction IH as [|n ch Hn _ IHch]; [done|]. simpl. rewrite !Forall_app.
  intros [? ?]. auto.
Qed.

Lemma mark_spacers_Forall sp :
  P LF → Forall (Forall P) (all_strings sp) → Forall (Forall P) (all_strings (mark_spacers sp)).
Proof.
  intros HLF. induction sp as [|n sp IH]; [done|]. unfold mark_spacers.
  rewrite fmap_cons, !all_strings_cons, !Forall_app. intros [? ?].
  split; [by apply mark_spacer_Forall|by apply IH].
Qed.

Lemma clean_text_Forall sp :
  P LF → Forall (Forall P) (all_strings sp) → Forall P (clean_text_preserving_gaps sp).
Proof.
  intros HLF Hsp. apply clean_lines_Forall; [done|].
  apply join_Forall; [by repeat constructor|by apply mark_spacers_Forall].
Qed.

End confined.

(** ** Lengths *)

Section lengths.
Implicit Types (s line raw : str) (ls lines : list str) (st : loop_state) (sp : soup).

Lemma weight_cons l ls : weight (l :: ls) = S (length l + weight ls).
Proof. done. Qed.

Lemma weight_app ls1 ls2 : weight (ls1 ++ ls2) = weight ls1 + weight ls2.
Proof. induction ls1 as [|l ls1 IH]; [done|]. rewrite <-app_comm_cons, !weight_cons. lia. Qed.

(** Joined lines take less room than their weight: the last line has no
    separator. *)
Lemma length_join_weight ls : length (join nl ls) ≤ pred (weight ls).
Proof.
  induction ls as [|l ls IH]; [done|]. destruct ls as [|l' ls].
  - rewrite weight_cons. simpl. lia.
  - rewrite join_sep_cons, weight_cons, !length_app by done.
    rewrite (weight_cons l') in *. change (length nl) with 1. simpl pred in *. lia.
Qed.

Lemma weight_splitlines s : weight (splitlines s) ≤ S (length s).
Proof.
  revert s. apply (splitlines_ind (λ s ls, weight ls ≤ S (length s)));
    intros; rewrite ?weight_cons in *; change (weight []) with 0 in *; simpl length in *; lia.
Qed.

Lemma weight_clean_step st line :
  weight (cleaned (clean_step st line)) ≤ weight (cleaned st) + S (length line).
Proof.
  unfold clean_step. pose proof (length_strip line).
  repeat case_match; cbn [cleaned]; rewrite ?weight_app, ?weight_cons;
    change (weight []) with 0; simpl length; lia.
Qed.

Lemma weight_clean_loop lines : weight (cleaned (clean_loop lines)) ≤ weight lines.
Proof.
  unfold clean_loop. change (weight lines) with (weight (cleaned init_state) + weight lines).
  generalize init_state. induction lines as [|l lines IH]; intros st.
  { change (weight []) with 0. simpl. lia. }
  pose proof (IH (clean_step st l)). pose proof (weight_clean_step st l).
  rewrite weight_cons. simpl foldl. lia.
Qed.

Lemma length_clean_lines raw : length (clean_lines raw) ≤ length raw.
Proof.
  unfold clean_lines, finish.
  pose proof (length_strip (join nl (cleaned (clean_loop (splitlines raw))))).
  pose proof (length_join_weight (cleaned (clean_loop (splitlines raw)))).
  pose proof (weight_clean_loop (splitlines raw)).
  pose proof (weight_splitlines raw). lia.
Qed.

End lengths.

(** ** Theorems *)

(** C27: the normalizer adds no code point of its own but the line feed:
    every code point of its text is a line feed or occurs in a string of
    the tree.  Whatever holds of all of those (being a scalar value,
    being ASCII) holds of the text. *)
Theorem clean_text_confined (sp : soup) (c : char) :
  c ∈ clean_text_preserving_gaps sp → c = LF ∨ ∃ s, s ∈ all_strings sp ∧ c ∈ s.
Proof.
  revert c. apply Forall_forall, clean_text_Forall; [by left|].
  apply Forall_forall. intros s Hs. apply Forall_forall. intros c Hc. right. eauto.
Qed.

(** The normalizer never makes a text longer: lines are stripped,
    blank lines dropped, and a line boundary of two characters becomes
    one line feed. *)
Theorem clean_lines_length (raw : str) : length (clean_lines raw) ≤ length raw.
Proof. apply length_clean_lines. Qed.

Lemma clean_text_confined_witness :
  72%N = LF ∨ ∃ s, s ∈ all_strings [Tag (py "p") [] [NavigableString (py " Hi ")]] ∧ 72%N ∈ s.
Proof.
  apply (clean_text_confined [Tag (py "p") [] [NavigableString (py " Hi ")]]). by_decide.
Defined.
