(* ===== verification/Epub.v ===== *)
(** * Epub: the package object of the EPUB reader

    The converter reads three things off the object [epub.read_epub]
    returns: the spine (a list whose entries are bare identifiers or tuples
    that start with one), [get_item_with_id] and [get_items_of_type]; and
    three things off an item: [get_id], [get_type], [get_content].  This
    file models that interface of the library (ebooklib); reading the ZIP
    container and the OPF manifest is not modelled. *)

From stdpp Require Import list strings gmap.
From S2P Require Import Prelude PyStr.

(** Raw bytes of a resource. *)
Abbreviation bytes := (list N) (only parsing).

(** [ebooklib.ITEM_DOCUMENT]. *)
Definition ITEM_DOCUMENT : N := 9%N.

(** A resource of the package; the projections are [get_id], [get_type]
    and [get_content]. *)
Record item := Item { get_id : str; get_type : N; get_content : bytes }.

(** A spine entry: a bare identifier or a tuple whose first element is
    the identifier (ebooklib reads [(idref, linear)]). *)
Inductive spine_entry :=
| SpineId (idref : str)
| SpineTuple (idref : str) (rest : list str).

Record book := Book { spine : list spine_entry; items : list item }.

#[export] Instance item_eq_dec : EqDecision item.
Proof. solve_decision. Defined.

#[export] Instance spine_entry_eq_dec : EqDecision spine_entry.
Proof. solve_decision. Defined.

#[export] Instance book_eq_dec : EqDecision book.
Proof. solve_decision. Defined.

(** [book.get_item_with_id(uid)]: the first item with that identifier, or
    [None]. *)
Definition get_item_with_id (b : book) (uid : str) : option item :=
  head (filter (λ it, get_id it = uid) (items b)).

(** [book.get_items_of_type(ty)]: the items of that type, in the order of
    the manifest. *)
Definition get_items_of_type (b : book) (ty : N) : list item :=
  filter (λ it, get_type it = ty) (items b).

(** The identifiers of the package are unique, as the EPUB format
    requires of a manifest. *)
Definition unique_ids (b : book) : Prop := NoDup (get_id <$> items b).

#[export] Instance unique_ids_dec b : Decision (unique_ids b).
Proof. unfold unique_ids. apply _. Defined.

Section epub.
Implicit Types (b : book) (it : item) (uid : str).

Lemma get_item_with_id_Some b uid it :
  get_item_with_id b uid = Some it → it ∈ items b ∧ get_id it = uid.
Proof.
  unfold get_item_with_id. intros H%head_Some_elem_of.
  by apply list_elem_of_filter in H as [? ?].
Qed.

Lemma get_item_with_id_None b uid :
  get_item_with_id b uid = None ↔ ∀ it, it ∈ items b → get_id it ≠ uid.
Proof.
  unfold get_item_with_id. rewrite head_None, filter_nil_iff, Forall_forall. done.
Qed.

(** With unique identifiers the lookup finds the item itself. *)
Lemma get_item_with_id_unique b it :
  unique_ids b → it ∈ items b → get_item_with_id b (get_id it) = Some it.
Proof.
  intros Hu Hin. destruct (get_item_with_id b (get_id it)) as [it'|] eqn:E.
  - apply get_item_with_id_Some in E as [Hin' Heq]. f_equal.
    apply list_elem_of_lookup in Hin as [i Hi], Hin' as [j Hj].
    assert (i = j) as ->; [|congruence].
    eapply NoDup_lookup; [exact Hu|..]; rewrite list_lookup_fmap.
    + by rewrite Hi.
    + by rewrite Hj, <-Heq.
  - rewrite get_item_with_id_None in E. by destruct (E it Hin).
Qed.

Lemma elem_of_get_items_of_type b ty it :
  it ∈ get_items_of_type b ty ↔ it ∈ items b ∧ get_type it = ty.
Proof. unfold get_items_of_type. rewrite list_elem_of_filter. tauto. Qed.

Lemma get_items_of_type_NoDup b ty :
  unique_ids b → NoDup (get_id <$> get_items_of_type b ty).
Proof.
  unfold unique_ids, get_items_of_type. intros H.
  eapply sublist_NoDup; [exact H|apply fmap_sublist, sublist_filter].
Qed.

End epub.
