(* ===== verification/Spine.v ===== *)
(** * Spine: [iter_documents_in_order]

    The generator of lines 32-47 of [src/epub_to_txt.py].  The first loop
    (lines 37-42) is [spine_step] folded over the spine from [spine_init],
    its state the set [seen_ids] and the items yielded so far; the second
    loop (lines 45-47) is [fallback_pass]; [iter_documents_in_order] is the
    list of the items the generator yields.

    [SpineSpec] is the abstract specification: the documents the spine
    entries resolve to, followed by the documents whose identifier no such
    entry carries.  [gen_step] presents the generator as a state machine,
    one transition per loop iteration, [gen_next] and [gen_run] are its
    executable form.  The theorems show that the code refines the
    specification, count how often each document is yielded, and show that
    the state machine always reaches [Finished] having yielded the list. *)

From stdpp Require Import list strings gmap.
From S2P Require Import Prelude PyStr Epub.

Set Warnings "-clear-no-such-hyp".

(** ** The code *)

(** Line 38: both shapes of a spine entry give the identifier. *)
Definition spine_item_id (e : spine_entry) : str :=
  match e with
  | SpineTuple idref _ => idref
  | SpineId idref => idref
  end.

(** What the first loop has built: the set [seen_ids] and the items
    yielded so far. *)
Record spine_acc := SpineAcc { seen_ids : gset str; yielded : list item }.

Definition spine_init : spine_acc := SpineAcc ∅ [].

(** One iteration of the first loop, lines 38-42. *)
Definition spine_step (b : book) (acc : spine_acc) (e : spine_entry) : spine_acc :=
  let item_id := spine_item_id e in
  match get_item_with_id b item_id with
  | Some it =>
    if bool_decide (get_type it = ITEM_DOCUMENT)
    then SpineAcc ({[item_id]} ∪ seen_ids acc) (yielded acc ++ [it])
    else acc
  | None => acc
  end.

(** The first loop, lines 37-42. *)
Definition spine_pass (b : book) : spine_acc :=
  foldl (spine_step b) spine_init (spine b).

(** The second loop, lines 45-47. *)
Definition fallback_pass (b : book) (seen : gset str) : list item :=
  filter (λ it, get_id it ∉ seen) (get_items_of_type b ITEM_DOCUMENT).

(** The items the generator yields, in order. *)
Definition iter_documents_in_order (b : book) : list item :=
  let acc := spine_pass b in
  yielded acc ++ fallback_pass b (seen_ids acc).

(** ** The specification *)

Module SpineSpec.

(** The document a spine entry refers to, if any. *)
Definition resolve (b : book) (e : spine_entry) : option item :=
  match get_item_with_id b (spine_item_id e) with
  | Some it => if bool_decide (get_type it = ITEM_DOCUMENT) then Some it else None
  | None => None
  end.

(** The documents of the declared reading order. *)
Definition declared (b : book) : list item := omap (resolve b) (spine b).

(** The documents the spine does not refer to. *)
Definition orphans (b : book) : list item :=
  filter (λ it, get_id it ∉ get_id <$> declared b)
         (get_items_of_type b ITEM_DOCUMENT).

Definition resolve_order (b : book) : list item := declared b ++ orphans b.

End SpineSpec.

(** ** The generator as a state machine *)

(** Where the generator stands: in the first loop with the entries still
    to visit, in the second loop with the items still to visit, or done. *)
Inductive gen_state :=
| InSpine (todo : list spine_entry) (seen : gset str)
| InFallback (todo : list item) (seen : gset str)
| Finished.

Definition gen_start (b : book) : gen_state := InSpine (spine b) ∅.

(** One loop iteration (or the passage from one loop to the next), with
    the item it yields, if any. *)
Inductive gen_step (b : book) : gen_state → option item → gen_state → Prop :=
| step_spine_yield e todo seen it :
    get_item_with_id b (spine_item_id e) = Some it →
    get_type it = ITEM_DOCUMENT →
    gen_step b (InSpine (e :: todo) seen) (Some it)
               (InSpine todo ({[spine_item_id e]} ∪ seen))
| step_spine_other e todo seen it :
    get_item_with_id b (spine_item_id e) = Some it →
    get_type it ≠ ITEM_DOCUMENT →
    gen_step b (InSpine (e :: todo) seen) None (InSpine todo seen)
| step_spine_missing e todo seen :
    get_item_with_id b (spine_item_id e) = None →
    gen_step b (InSpine (e :: todo) seen) None (InSpine todo seen)
| step_spine_end seen :
    gen_step b (InSpine [] seen) None
               (InFallback (get_items_of_type b ITEM_DOCUMENT) seen)
| step_fallback_yield it todo seen :
    get_id it ∉ seen →
    gen_step b (InFallback (it :: todo) seen) (Some it) (InFallback todo seen)
| step_fallback_seen it todo seen :
    get_id it ∈ seen →
    gen_step b (InFallback (it :: todo) seen) None (InFallback todo seen)
| step_fallback_end seen :
    gen_step b (InFallback [] seen) None Finished.

(** A run: steps in sequence, with the items yielded on the way. *)
Inductive gen_steps (b : book) : gen_state → list item → gen_state → Prop :=
| steps_refl st : gen_steps b st [] st
| steps_step st y st' ys st'' :
    gen_step b st y st' → gen_steps b st' ys st'' →
    gen_steps b st (option_list y ++ ys) st''.

(** The step as a function, and the run with fuel. *)
Definition gen_next (b : book) (st : gen_state) : option (option item * gen_state) :=
  match st with
  | InSpine [] seen =>
    Some (None, InFallback (get_items_of_type b ITEM_DOCUMENT) seen)
  | InSpine (e :: todo) seen =>
    match get_item_with_id b (spine_item_id e) with
    | Some it =>
      if bool_decide (get_type it = ITEM_DOCUMENT)
      then Some (Some it, InSpine todo ({[spine_item_id e]} ∪ seen))
      else Some (None, InSpine todo seen)
    | None => Some (None, InSpine todo seen)
    end
  | InFallback [] seen => Some (None, Finished)
  | InFallback (it :: todo) seen =>
    if bool_decide (get_id it ∉ seen)
    then Some (Some it, InFallback todo seen)
    else Some (None, InFallback todo seen)
  | Finished => None
  end.

Fixpoint gen_run (b : book) (fuel : nat) (st : gen_state) : list item * gen_state :=
  match fuel with
  | 0 => ([], st)
  | S fuel' =>
    match gen_next b st with
    | None => ([], st)
    | Some (y, st') =>
      let r := gen_run b fuel' st' in (option_list y ++ r.1, r.2)
    end
  end.

(** The steps still to take. *)
Definition gen_size (b : book) (st : gen_state) : nat :=
  match st with
  | InSpine todo _ => length todo + length (get_items_of_type b ITEM_DOCUMENT) + 2
  | InFallback todo _ => length todo + 1
  | Finished => 0
  end.

(** Fuel that always suffices. *)
Definition gen_fuel (b : book) : nat := length (spine b) + length (items b) + 2.

(** How often [x] occurs in [l]. *)
Definition occurrences `{EqDecision A} (x : A) (l : list A) : nat :=
  length (filter (λ y, y = x) l).

Section spine.
Implicit Types (b : book) (it : item) (e : spine_entry) (es : list spine_entry)
  (acc : spine_acc).

Lemma resolve_Some b e it :
  SpineSpec.resolve b e = Some it →
  it ∈ items b ∧ get_id it = spine_item_id e ∧ get_type it = ITEM_DOCUMENT.
Proof.
  unfold SpineSpec.resolve.
  destruct (get_item_with_id b _) as [it'|] eqn:E; [|done].
  case_bool_decide; [|done]. intros [= ->].
  by apply get_item_with_id_Some in E as [? ?].
Qed.

Lemma spine_step_resolve b acc e :
  spine_step b acc e =
    match SpineSpec.resolve b e with
    | Some it => SpineAcc ({[get_id it]} ∪ seen_ids acc) (yielded acc ++ [it])
    | None => acc
    end.
Proof.
  unfold spine_step. destruct (SpineSpec.resolve b e) as [it|] eqn:E.
  - apply resolve_Some in E as H. destruct H as (_ & Hid & _). revert E.
    unfold SpineSpec.resolve. destruct (get_item_with_id b _); [|done].
    case_bool_decide; [|done]. intros [= ->]. by rewrite Hid.
  - revert E. unfold SpineSpec.resolve. destruct (get_item_with_id b _); [|done].
    by case_bool_decide.
Qed.

Lemma foldl_spine_step b acc es :
  yielded (foldl (spine_step b) acc es) = yielded acc ++ omap (SpineSpec.resolve b) es ∧
  seen_ids (foldl (spine_step b) acc es) =
    list_to_set (get_id <$> omap (SpineSpec.resolve b) es) ∪ seen_ids acc.
Proof.
  revert acc. induction es as [|e es IH]; intros acc; simpl.
  - split; [by rewrite app_nil_r|set_solver].
  - destruct (IH (spine_step b acc e)) as [-> ->]. rewrite spine_step_resolve.
    destruct (SpineSpec.resolve b e) as [it|]; simpl; [|done].
    split; [by rewrite <-app_assoc|set_solver].
Qed.

Lemma spine_pass_yielded b : yielded (spine_pass b) = SpineSpec.declared b.
Proof. apply (foldl_spine_step b spine_init). Qed.

Lemma spine_pass_seen b :
  seen_ids (spine_pass b) = list_to_set (get_id <$> SpineSpec.declared b).
Proof.
  unfold spine_pass. destruct (foldl_spine_step b spine_init (spine b)) as [_ ->].
  unfold SpineSpec.declared. set_solver.
Qed.

Lemma iter_documents_resolve_order b :
  iter_documents_in_order b = SpineSpec.resolve_order b.
Proof.
  unfold iter_documents_in_order, SpineSpec.resolve_order, fallback_pass, SpineSpec.orphans.
  rewrite spine_pass_yielded, spine_pass_seen. f_equal.
  apply list_filter_iff. intros it. by rewrite elem_of_list_to_set.
Qed.


(** *** Counting *)

Lemma occurrences_nil `{EqDecision A} (x : A) : occurrences x [] = 0.
Proof. done. Qed.

Lemma occurrences_cons `{EqDecision A} (x y : A) l :
  occurrences x (y :: l) = (if decide (y = x) then 1 else 0) + occurrences x l.
Proof. unfold occurrences. rewrite filter_cons. by case_decide. Qed.

Lemma occurrences_app `{EqDecision A} (x : A) l k :
  occurrences x (l ++ k) = occurrences x l + occurrences x k.
Proof. unfold occurrences. by rewrite filter_app, length_app. Qed.

Lemma occurrences_0 `{EqDecision A} (x : A) l : occurrences x l = 0 ↔ x ∉ l.
Proof.
  unfold occurrences. rewrite length_zero_iff_nil, filter_nil_iff, Forall_forall.
  split; [intros H Hx; by apply (H x)|by intros H y Hy ->].
Qed.

Lemma occurrences_NoDup `{EqDecision A} (x : A) l :
  NoDup l → x ∈ l → occurrences x l = 1.
Proof.
  induction 1 as [|y l Hy Hl IH]; [by intros ?%elem_of_nil|].
  rewrite occurrences_cons. intros [->|Hx]%elem_of_cons.
  - rewrite decide_True by done. by apply occurrences_0 in Hy as ->.
  - rewrite decide_False by (by intros ->). by rewrite IH.
Qed.

Lemma NoDup_occurrences `{EqDecision A} (l : list A) :
  (∀ x, occurrences x l ≤ 1) → NoDup l.
Proof.
  induction l as [|y l IH]; intros H; constructor.
  - specialize (H y). rewrite occurrences_cons, decide_True in H by done.
    apply occurrences_0. lia.
  - apply IH. intros x. specialize (H x). rewrite occurrences_cons in H. lia.
Qed.

Lemma occurrences_filter `{EqDecision A} (P : A → Prop) `{!∀ x, Decision (P x)} (x : A) l :
  occurrences x (filter P l) = if decide (P x) then occurrences x l else 0.
Proof.
  unfold occurrences. rewrite list_filter_filter. case_decide as HP.
  - f_equal. apply list_filter_iff. naive_solver.
  - apply length_zero_iff_nil, filter_nil_iff, Forall_forall. naive_solver.
Qed.

(** With unique identifiers, an entry resolves to a document exactly when
    it carries the document's identifier. *)
Lemma resolve_unique b e it :
  unique_ids b → it ∈ items b → get_type it = ITEM_DOCUMENT →
  SpineSpec.resolve b e = Some it ↔ spine_item_id e = get_id it.
Proof.
  intros Hu Hin Hty. split.
  - by intros (_ & -> & _)%resolve_Some.
  - intros E. unfold SpineSpec.resolve.
    rewrite E, get_item_with_id_unique by done. by rewrite bool_decide_eq_true_2.
Qed.

Lemma occurrences_declared b it :
  unique_ids b → it ∈ items b → get_type it = ITEM_DOCUMENT →
  occurrences it (SpineSpec.declared b) =
  occurrences (get_id it) (spine_item_id <$> spine b).
Proof.
  intros Hu Hin Hty. unfold SpineSpec.declared.
  induction (spine b) as [|e es IH]; [done|].
  rewrite fmap_cons, occurrences_cons, <-IH. simpl.
  pose proof (resolve_unique b e it Hu Hin Hty) as Hr.
  destruct (SpineSpec.resolve b e) as [it'|] eqn:E.
  - rewrite occurrences_cons. f_equal. repeat case_decide; naive_solver.
  - case_decide; [|done]. naive_solver.
Qed.

Lemma elem_of_declared_ids b it :
  unique_ids b → it ∈ items b →
  get_id it ∈ get_id <$> SpineSpec.declared b ↔ it ∈ SpineSpec.declared b.
Proof.
  intros Hu Hin. rewrite list_elem_of_fmap. split; [|by eauto].
  intros (it' & Hid & Hin'). replace it with it'; [done|].
  apply list_elem_of_omap in Hin' as (e & _ & (Hin' & _)%resolve_Some).
  apply (get_item_with_id_unique b) in Hin, Hin'; [|done..]. congruence.
Qed.

Lemma occurrences_iter_documents b it :
  unique_ids b → it ∈ items b → get_type it = ITEM_DOCUMENT →
  occurrences it (iter_documents_in_order b) =
  1 `max` occurrences (get_id it) (spine_item_id <$> spine b).
Proof.
  intros Hu Hin Hty.
  rewrite iter_documents_resolve_order. unfold SpineSpec.resolve_order.
  rewrite occurrences_app, <-occurrences_declared by done.
  unfold SpineSpec.orphans. rewrite occurrences_filter.
  rewrite (occurrences_NoDup it (get_items_of_type _ _)).
  - case_decide as Hd.
    + rewrite elem_of_declared_ids, <-occurrences_0 in Hd by done. lia.
    + rewrite elem_of_declared_ids in Hd by done.
      assert (occurrences it (SpineSpec.declared b) ≠ 0); [|lia].
      by rewrite occurrences_0; intros ?.
  - eapply NoDup_fmap_1, get_items_of_type_NoDup, Hu.
  - by apply elem_of_get_items_of_type.
Qed.

Lemma iter_documents_elem_of b it :
  it ∈ iter_documents_in_order b → it ∈ items b ∧ get_type it = ITEM_DOCUMENT.
Proof.
  rewrite iter_documents_resolve_order. unfold SpineSpec.resolve_order.
  intros [H|H]%elem_of_app.
  - apply list_elem_of_omap in H as (e & _ & (? & _ & ?)%resolve_Some). done.
  - apply list_elem_of_filter in H as [_ H]. by apply elem_of_get_items_of_type in H.
Qed.


(** *** The state machine *)

Lemma gen_step_next b st y st' :
  gen_step b st y st' ↔ gen_next b st = Some (y, st').
Proof.
  split.
  - destruct 1; simpl; repeat first [case_match|case_bool_decide]; naive_solver.
  - destruct st as [[|e todo] seen|[|it todo] seen|]; simpl; [| | | |done].
    + intros [= <- <-]. constructor.
    + destruct (get_item_with_id b _) as [it|] eqn:E.
      * case_bool_decide; intros [= <- <-]; econstructor; done.
      * intros [= <- <-]. by constructor.
    + intros [= <- <-]. constructor.
    + case_bool_decide as H; intros [= <- <-]; constructor;
        first [done|by apply dec_stable].
Qed.

Lemma gen_step_det b st y1 st1 y2 st2 :
  gen_step b st y1 st1 → gen_step b st y2 st2 → y1 = y2 ∧ st1 = st2.
Proof. rewrite !gen_step_next. by intros -> [= -> ->]. Qed.

Lemma gen_step_size b st y st' : gen_step b st y st' → gen_size b st' < gen_size b st.
Proof. destruct 1; simpl; lia. Qed.

Lemma gen_finished_stuck b y st : ¬ gen_step b Finished y st.
Proof. by rewrite gen_step_next. Qed.

Lemma gen_steps_det b st ys1 ys2 :
  gen_steps b st ys1 Finished → gen_steps b st ys2 Finished → ys1 = ys2.
Proof.
  intros H1. revert ys2. remember Finished as fin eqn:Ef.
  induction H1 as [st|st y st' ys st'' Hs Hrun IH]; intros ys2 H2; subst.
  - inv H2; [done|]. by edestruct gen_finished_stuck.
  - inv H2; [by edestruct gen_finished_stuck|].
    match goal with H : gen_step _ _ _ _ |- _ =>
      destruct (gen_step_det _ _ _ _ _ _ Hs H) as [-> ->] end.
    f_equal. by apply IH.
Qed.

Lemma gen_steps_trans b st1 ys1 st2 ys2 st3 :
  gen_steps b st1 ys1 st2 → gen_steps b st2 ys2 st3 →
  gen_steps b st1 (ys1 ++ ys2) st3.
Proof.
  induction 1 as [|st y st' ys st'' Hs _ IH]; [done|]. intros H.
  rewrite <-app_assoc. econstructor; eauto.
Qed.

Lemma gen_steps_spine b es seen :
  gen_steps b (InSpine es seen) (omap (SpineSpec.resolve b) es)
    (InSpine [] (list_to_set (get_id <$> omap (SpineSpec.resolve b) es) ∪ seen)).
Proof.
  revert seen. induction es as [|e es IH]; intros seen.
  - replace (_ ∪ seen) with seen by set_solver. constructor.
  - simpl. destruct (SpineSpec.resolve b e) as [it|] eqn:E.
    + apply resolve_Some in E as H. destruct H as (_ & Hid & Hty).
      unfold SpineSpec.resolve in E.
      destruct (get_item_with_id b _) as [it'|] eqn:E'; [|done].
      case_bool_decide; [|done]. injection E as ->.
      replace (_ ∪ seen) with
        (list_to_set (get_id <$> omap (SpineSpec.resolve b) es) ∪
         ({[spine_item_id e]} ∪ seen)) by (rewrite <-Hid; set_solver).
      eapply (steps_step b _ (Some it)); [by constructor|apply IH].
    + unfold SpineSpec.resolve in E.
      eapply (steps_step b _ None); [|apply IH].
      destruct (get_item_with_id b _) as [it'|] eqn:E'; [|by constructor].
      case_bool_decide; [done|]. by econstructor.
Qed.

Lemma gen_steps_fallback b its seen :
  gen_steps b (InFallback its seen) (filter (λ it, get_id it ∉ seen) its) Finished.
Proof.
  induction its as [|it its IH].
  - eapply (steps_step b _ None _ []); constructor.
  - destruct (decide (get_id it ∉ seen)) as [H|H].
    + rewrite filter_cons_True by done.
      eapply (steps_step b _ (Some it)); [by constructor|done].
    + rewrite filter_cons_False by done.
      eapply (steps_step b _ None); [|done]. constructor. by apply dec_stable.
Qed.

Lemma gen_steps_iter_documents b :
  gen_steps b (gen_start b) (iter_documents_in_order b) Finished.
Proof.
  unfold iter_documents_in_order, gen_start, fallback_pass.
  rewrite spine_pass_yielded, spine_pass_seen.
  eapply gen_steps_trans; [apply gen_steps_spine|].
  eapply (steps_step b _ None); [constructor|].
  replace (_ ∪ ∅) with (list_to_set (get_id <$> SpineSpec.declared b) : gset str)
    by set_solver.
  apply gen_steps_fallback.
Qed.

Lemma gen_run_steps b fuel st :
  gen_size b st ≤ fuel →
  (gen_run b fuel st).2 = Finished ∧ gen_steps b st (gen_run b fuel st).1 Finished.
Proof.
  revert st. induction fuel as [|fuel IH]; intros st Hsz.
  - destruct st; simpl in *; try lia. split; [done|constructor].
  - simpl. destruct (gen_next b st) as [[y st']|] eqn:E.
    + apply gen_step_next in E as Hs. apply gen_step_size in Hs as Hlt.
      destruct (IH st') as [IH1 IH2]; [lia|]. simpl. split; [done|].
      by econstructor.
    + destruct st as [[|]?|[|]?|]; simpl in E; repeat case_match; try done.
      split; [done|constructor].
Qed.

Lemma gen_fuel_enough b : gen_size b (gen_start b) ≤ gen_fuel b.
Proof.
  assert (length (get_items_of_type b ITEM_DOCUMENT) ≤ length (items b))
    by apply length_filter.
  unfold gen_fuel, gen_start, gen_size. lia.
Qed.

Lemma occurrences_le_1 `{EqDecision A} (x : A) l : NoDup l → occurrences x l ≤ 1.
Proof.
  intros H. destruct (decide (x ∈ l)) as [Hx|Hx].
  - by rewrite occurrences_NoDup.
  - apply occurrences_0 in Hx. lia.
Qed.

Lemma declared_ids_sublist b :
  get_id <$> SpineSpec.declared b `sublist_of` spine_item_id <$> spine b.
Proof.
  unfold SpineSpec.declared. induction (spine b) as [|e es IH]; [done|].
  rewrite fmap_cons. simpl omap. destruct (SpineSpec.resolve b e) as [it|] eqn:E.
  - apply resolve_Some in E as (_ & Hid & _). rewrite fmap_cons, Hid. by constructor.
  - by constructor.
Qed.

End spine.

(** ** Theorems *)

(** C4: the generator refines the specification: it yields the documents
    the spine entries resolve to, in spine order (an entry that names no
    item or an item that is no document is skipped), followed by the
    documents of the manifest that were not reached through the spine, in
    manifest order.  Both shapes of a spine entry are accepted. *)
Theorem iter_documents_refines_spec b :
  iter_documents_in_order b = SpineSpec.resolve_order b.
Proof. apply iter_documents_resolve_order. Qed.

(** C18: how often a document is yielded: as often as the spine names
    its identifier, and once when the spine does not name it.  So a spine
    that repeats an identifier makes the generator yield the document more
    than once: [seen_ids] is only consulted by the second loop. *)
Theorem iter_documents_count b it :
  unique_ids b → it ∈ items b → get_type it = ITEM_DOCUMENT →
  occurrences it (iter_documents_in_order b) =
  1 `max` occurrences (get_id it) (spine_item_id <$> spine b).
Proof. apply occurrences_iter_documents. Qed.

Lemma iter_documents_count_witness :
  let a := Item (py "A") ITEM_DOCUMENT (py "<p>a</p>") in
  let c := Item (py "C") ITEM_DOCUMENT (py "<p>c</p>") in
  let b := Book [SpineId (py "A"); SpineTuple (py "A") [py "yes"]] [a; c] in
  occurrences a (iter_documents_in_order b) = 2.
Proof.
  intros a c b.
  apply (iter_documents_count b a); by_decide.
Defined.

(** C5: spine completeness without duplication: when the identifiers of
    the package are unique and the spine names no identifier twice, the
    generator yields every document of the package exactly once. *)
Theorem iter_documents_exactly_once b :
  unique_ids b → NoDup (spine_item_id <$> spine b) →
  NoDup (iter_documents_in_order b) ∧
  iter_documents_in_order b ≡ₚ get_items_of_type b ITEM_DOCUMENT.
Proof.
  intros Hu Hs.
  assert (NoDup (get_items_of_type b ITEM_DOCUMENT)) as Hd
    by eapply NoDup_fmap_1, get_items_of_type_NoDup, Hu.
  assert (NoDup (iter_documents_in_order b)) as Hn.
  { apply NoDup_occurrences. intros x.
    destruct (decide (x ∈ iter_documents_in_order b)) as [Hx|Hx];
      [|apply occurrences_0 in Hx; lia].
    apply iter_documents_elem_of in Hx as [Hin Hty].
    rewrite occurrences_iter_documents by done.
    pose proof (occurrences_le_1 (get_id x) _ Hs). lia. }
  split; [done|]. apply NoDup_Permutation; [done..|]. intros x.
  rewrite elem_of_get_items_of_type. split; [apply iter_documents_elem_of|].
  intros [Hin Hty]. apply dec_stable. rewrite <-occurrences_0.
  rewrite occurrences_iter_documents by done. lia.
Qed.

Lemma iter_documents_exactly_once_witness :
  let a := Item (py "A") ITEM_DOCUMENT (py "<p>a</p>") in
  let s := Item (py "css") 2%N (py "p {}") in
  let c := Item (py "C") ITEM_DOCUMENT (py "<p>c</p>") in
  let b := Book [SpineTuple (py "A") [py "yes"]; SpineId (py "css")] [c; s; a] in
  NoDup (iter_documents_in_order b) ∧
  iter_documents_in_order b ≡ₚ get_items_of_type b ITEM_DOCUMENT.
Proof.
  intros a s c b.
  apply (iter_documents_exactly_once b); by_decide.
Defined.

(** No document is lost: with unique identifiers every document of
    the package is yielded, whatever the spine holds. *)
Theorem iter_documents_complete b it :
  unique_ids b → it ∈ get_items_of_type b ITEM_DOCUMENT →
  it ∈ iter_documents_in_order b.
Proof.
  intros Hu [Hin Hty]%elem_of_get_items_of_type.
  apply dec_stable. rewrite <-occurrences_0.
  rewrite occurrences_iter_documents by done. lia.
Qed.

Lemma iter_documents_complete_witness :
  let a := Item (py "A") ITEM_DOCUMENT (py "<p>a</p>") in
  let c := Item (py "C") ITEM_DOCUMENT (py "<p>c</p>") in
  c ∈ iter_documents_in_order (Book [SpineId (py "A"); SpineId (py "A")] [a; c]).
Proof.
  intros a c.
  apply (iter_documents_complete (Book [SpineId (py "A"); SpineId (py "A")] [a; c]) c);
    by_decide.
Defined.

(** C37: the generator yields nothing but document-type items of the
    package. *)
Theorem iter_documents_only_documents b :
  Forall (λ it, it ∈ items b ∧ get_type it = ITEM_DOCUMENT)
         (iter_documents_in_order b).
Proof. apply Forall_forall, iter_documents_elem_of. Qed.

(** Order preservation: the identifiers of the items the first loop
    yields form a subsequence of the spine's identifiers, and the items
    the second loop yields a subsequence of the manifest. *)
Theorem iter_documents_spine_order b :
  get_id <$> yielded (spine_pass b) `sublist_of` spine_item_id <$> spine b ∧
  fallback_pass b (seen_ids (spine_pass b)) `sublist_of` items b.
Proof.
  split.
  - rewrite spine_pass_yielded. apply declared_ids_sublist.
  - unfold fallback_pass, get_items_of_type.
    etrans; apply sublist_filter.
Qed.

(** The example of the specification: a package with spine [A, B]
    and a further document [C] gives the order [A, B, C]. *)
Example spec_example_spine :
  let a := Item (py "A") ITEM_DOCUMENT (py "<p>a</p>") in
  let b := Item (py "B") ITEM_DOCUMENT (py "<p>b</p>") in
  let c := Item (py "C") ITEM_DOCUMENT (py "<p>c</p>") in
  iter_documents_in_order
    (Book [SpineTuple (py "A") [py "yes"]; SpineId (py "B")] [c; b; a]) = [a; b; c].
Proof. vm_compute. reflexivity. Qed.

(** C31: the generator as a state machine: from its start state it can
    run to [Finished], and every run to [Finished] yields exactly the
    items of [iter_documents_in_order], in that order. *)
Theorem generator_yields_iter_documents b ys :
  gen_steps b (gen_start b) ys Finished ↔ ys = iter_documents_in_order b.
Proof.
  split; [|intros ->; apply gen_steps_iter_documents].
  intros H. eapply gen_steps_det; [exact H|apply gen_steps_iter_documents].
Qed.

(** C38: termination: run with [gen_fuel b] units of fuel (the length of
    the spine plus the number of items plus two), the executable
    generator reaches [Finished] and has yielded the list. *)
Theorem gen_run_complete b :
  gen_run b (gen_fuel b) (gen_start b) = (iter_documents_in_order b, Finished).
Proof.
  destruct (gen_run_steps b (gen_fuel b) (gen_start b) (gen_fuel_enough b)) as [H1 H2].
  destruct (gen_run b _ _) as [ys st]. simpl in *. subst st. f_equal.
  eapply gen_steps_det; [exact H2|apply gen_steps_iter_documents].
Qed.
