(* ===== verification/Generator.v ===== *)
(** * Generator: the consumer's side of [iter_documents_in_order]

    [iter_documents_in_order] of [src/epub_to_txt.py] is a generator: its
    body runs only when the loop of [epub_to_txt] asks for the next item,
    and the body of that loop runs between two steps of the generator.
    [gen_pull] is one call of [next]: the generator is resumed until it
    yields or returns.  [gen_fold] is a [for] loop over the generator, the
    steps of the two interleaved as Python runs them.  Both take fuel, and
    the steps a state has left ([gen_size]) are always enough. *)

From stdpp Require Import list strings gmap.
From S2P Require Import Prelude PyStr Epub Spine.

(** [next(gen)]: [Some it] for a yield, [None] for [StopIteration]. *)
Fixpoint gen_pull (b : book) (fuel : nat) (st : gen_state)
    : option (option item * gen_state) :=
  match fuel with
  | 0 => None
  | S fuel' =>
    match gen_next b st with
    | None => Some (None, st)
    | Some (Some it, st') => Some (Some it, st')
    | Some (None, st') => gen_pull b fuel' st'
    end
  end.

(** [for it in gen: acc = f(acc, it)]: the body runs at each yield, the
    loop ends when the generator returns. *)
Fixpoint gen_fold {A} (f : A → item → A) (b : book) (fuel : nat) (st : gen_state)
    (acc : A) : option A :=
  match fuel with
  | 0 => None
  | S fuel' =>
    match gen_next b st with
    | None => Some acc
    | Some (Some it, st') => gen_fold f b fuel' st' (f acc it)
    | Some (None, st') => gen_fold f b fuel' st' acc
    end
  end.

(** The item the consumer receives at its call number [i] of [next],
    counted from 0: [None] when the generator has returned before. *)
Fixpoint gen_nth (b : book) (fuel : nat) (i : nat) (st : gen_state) : option item :=
  match gen_pull b fuel st with
  | Some (Some it, st') =>
    match i with
    | 0 => Some it
    | S i' => gen_nth b fuel i' st'
    end
  | _ => None
  end.

Section generator.
Context (b : book).
Implicit Types (st : gen_state) (ys : list item) (it : item) (fuel : nat).

(** Progress: only the finished generator has no step. *)
Lemma gen_next_None st : gen_next b st = None ↔ st = Finished.
Proof.
  destruct st as [[|e todo] seen|[|it todo] seen|]; simpl; repeat case_match; naive_solver.
Qed.

Lemma gen_progress st : st ≠ Finished → ∃ y st', gen_step b st y st'.
Proof.
  intros Hst. destruct (gen_next b st) as [[y st']|] eqn:E.
  - exists y, st'. by apply gen_step_next.
  - by apply gen_next_None in E.
Qed.

(** A run that reaches the end, taken apart at its first yield. *)
Lemma gen_pull_steps st ys :
  gen_steps b st ys Finished → ∀ fuel, gen_size b st < fuel →
  ∃ st', gen_pull b fuel st = Some (head ys, st') ∧ gen_steps b st' (tail ys) Finished
         ∧ gen_size b st' ≤ gen_size b st.
Proof.
  remember Finished as fin eqn:Efin.
  induction 1 as [st|st y st' ys st'' Hs Hrun IH]; intros fuel Hf; subst.
  - destruct fuel; [lia|]. exists Finished. by repeat constructor.
  - destruct fuel as [|fuel]; [lia|]. pose proof (gen_step_size _ _ _ _ Hs).
    simpl. rewrite (proj1 (gen_step_next _ _ _ _) Hs). destruct y as [it|]; simpl.
    + exists st'. split_and!; [done..|lia].
    + destruct (IH eq_refl fuel) as (st1 & ? & ? & ?); [lia|]. exists st1.
      split_and!; [done..|lia].
Qed.

Lemma gen_fold_steps {A} (f : A → item → A) st ys :
  gen_steps b st ys Finished → ∀ fuel acc, gen_size b st < fuel →
  gen_fold f b fuel st acc = Some (foldl f acc ys).
Proof.
  remember Finished as fin eqn:Efin.
  induction 1 as [st|st y st' ys st'' Hs Hrun IH]; intros fuel acc Hf; subst.
  - by destruct fuel; [lia|].
  - destruct fuel as [|fuel]; [lia|]. pose proof (gen_step_size _ _ _ _ Hs).
    simpl. rewrite (proj1 (gen_step_next _ _ _ _) Hs).
    destruct y as [it|]; simpl; apply IH; done || lia.
Qed.

Lemma gen_nth_steps fuel i : ∀ st ys,
  gen_steps b st ys Finished → gen_size b st < fuel → gen_nth b fuel i st = ys !! i.
Proof.
  induction i as [|i IH]; intros st ys Hrun Hf;
    destruct (gen_pull_steps st ys Hrun fuel Hf) as (st' & E & Hrest & Hsz);
    simpl; rewrite E; destruct ys as [|y ys]; simpl; try done.
  apply IH; [done|lia].
Qed.

(** ** Theorems *)

(** Liveness of the generator: a call of [next] returns in every
    state, within the steps the state has left: with the first item the
    rest of the run yields, or with [StopIteration] when it yields none;
    the generator is left where the rest of the run continues. *)
Theorem gen_pull_answers st ys fuel :
  gen_steps b st ys Finished → gen_size b st < fuel →
  ∃ st', gen_pull b fuel st = Some (head ys, st') ∧ gen_steps b st' (tail ys) Finished.
Proof. intros Hrun Hf. destruct (gen_pull_steps st ys Hrun fuel Hf) as (st' & ? & ? & _). eauto. Qed.

(** C26: every document is delivered: the consumer that calls [next]
    again and again receives at its call number [i] the item number [i]
    of [iter_documents_in_order], and [StopIteration] from the end of the
    list on; each call takes at most the fuel of the resolver. *)
Theorem gen_nth_delivers i :
  gen_nth b (S (gen_fuel b)) i (gen_start b) = iter_documents_in_order b !! i.
Proof.
  apply gen_nth_steps; [apply gen_steps_iter_documents|].
  pose proof (gen_fuel_enough b). lia.
Qed.

End generator.

Lemma gen_pull_answers_witness :
  let b := Book [SpineId (py "x"); SpineId (py "a")]
                [Item (py "css") 0 []; Item (py "a") ITEM_DOCUMENT (py "A")] in
  ∃ st', gen_pull b 7 (gen_start b) = Some (Some (Item (py "a") ITEM_DOCUMENT (py "A")), st')
         ∧ gen_steps b st' [] Finished.
Proof.
  apply (gen_pull_answers
           (Book [SpineId (py "x"); SpineId (py "a")]
                 [Item (py "css") 0 []; Item (py "a") ITEM_DOCUMENT (py "A")])
           _ [Item (py "a") ITEM_DOCUMENT (py "A")] 7).
  - apply (gen_steps_iter_documents
             (Book [SpineId (py "x"); SpineId (py "a")]
                   [Item (py "css") 0 []; Item (py "a") ITEM_DOCUMENT (py "A")])).
  - simpl. lia.
Defined.

