(* ===== verification/Pathlib.v ===== *)
(** * Pathlib: paths as the converter uses them

    [pathlib.Path] on a POSIX system, restricted to what the batch mode
    calls: construction from a string ([Path]), [str], the [/] operator
    ([joinpath]), [name], [suffix], [stem], the ordering [sorted] relies
    on, and [str.lower] as far as a comparison with an ASCII literal can
    observe it.  [suffix] and [stem] follow CPython 3.12
    ([0 < i < len(name) - 1] for the index of the last dot).  Paths with
    [".."] parts, a double-slash root and symbolic links are outside the
    model.  Library code, modelled from its documented behaviour. *)

From stdpp Require Import list strings sorting lexico.
From S2P Require Import Prelude PyStr.

Set Warnings "-clear-no-such-hyp".

(** A path as pathlib splits it: its parts, the root ["/"] first when the
    path is absolute.  The empty list is the current directory. *)
Abbreviation path := (list (list N)) (only parsing).

Definition SLASH : char := 47%N.
Definition DOT : char := 46%N.

(** [str.lower] on the code points whose lower case is an ASCII letter:
    the letters [A]-[Z] and the Kelvin sign. *)
Definition lower_char (c : char) : char :=
  if bool_decide (65 ≤ c ≤ 90)%N then (c + 32)%N
  else if bool_decide (c = 8490%N) then 107%N else c.

Definition lower (s : str) : str := lower_char <$> s.

(** [s.rfind(".")]: the index of the last dot. *)
Fixpoint rfind_dot (s : str) : option nat :=
  match s with
  | [] => None
  | c :: s' =>
    match rfind_dot s' with
    | Some i => Some (S i)
    | None => if bool_decide (c = DOT) then Some 0 else None
    end
  end.

(** [PurePath.name] *)
Definition name (p : path) : str :=
  match last p with
  | Some n => if bool_decide (n = [SLASH]) then [] else n
  | None => []
  end.

(** The index at which the suffix starts, when there is one:
    [0 < i < len(name) - 1]. *)
Definition suffix_index (n : str) : option nat :=
  match rfind_dot n with
  | Some i => if bool_decide (0 < i ∧ i + 1 < length n) then Some i else None
  | None => None
  end.

Definition suffix (p : path) : str :=
  match suffix_index (name p) with
  | Some i => drop i (name p)
  | None => []
  end.

Definition stem (p : path) : str :=
  match suffix_index (name p) with
  | Some i => take i (name p)
  | None => name p
  end.

(** [Path(s)]: the parts between slashes, empty parts and ["."] left out,
    the root first when [s] starts with a slash. *)
Definition tail_parts (s : str) : path :=
  filter (λ x, x ≠ [] ∧ x ≠ [DOT]) (split_on (λ c, bool_decide (c = SLASH)) s).

Definition Path (s : str) : path :=
  match s with
  | c :: _ => if bool_decide (c = SLASH) then [SLASH] :: tail_parts s else tail_parts s
  | [] => []
  end.

(** [str(p)] *)
Definition str_of_path (p : path) : str :=
  match p with
  | [] => [DOT]
  | r :: tl => if bool_decide (r = [SLASH]) then SLASH :: join [SLASH] tl
               else join [SLASH] p
  end.

(** [p / s] *)
Definition joinpath (p : path) (s : str) : path :=
  match s with
  | c :: _ => if bool_decide (c = SLASH) then Path s else p ++ tail_parts s
  | [] => p
  end.

Definition path_le (p q : path) : Prop := lexico p q ∨ p = q.

#[export] Instance path_le_dec : RelDecision path_le.
Proof. intros p q. unfold path_le. apply _. Defined.

Definition sorted (ps : list path) : list path := merge_sort path_le ps.


(** A part of a path: a name that is not empty, not ["."], and holds no
    slash. *)
Definition valid_part (x : str) : Prop :=
  x ≠ [] ∧ x ≠ [DOT] ∧ Forall (λ c, c ≠ SLASH) x.

(** A path pathlib can have produced: valid parts, after the root if
    there is one. *)
Definition valid_path (p : path) : Prop :=
  match p with
  | r :: tl => (r = [SLASH] ∨ valid_part r) ∧ Forall valid_part tl
  | [] => True
  end.

#[export] Instance valid_part_dec x : Decision (valid_part x).
Proof. unfold valid_part. apply _. Defined.
#[export] Instance valid_path_dec p : Decision (valid_path p).
Proof. unfold valid_path. destruct p; apply _. Defined.

Section order.

#[export] Instance path_le_refl : Reflexive path_le.
Proof. intros p. by right. Qed.

#[export] Instance path_le_trans : Transitive path_le.
Proof.
  intros p q r [H1| ->] [H2| ->]; [left; by etrans|by left..|by right].
Qed.

#[export] Instance path_le_antisymm : AntiSymm (=) path_le.
Proof.
  intros p q [H1|H1] [H2|H2]; try done.
  destruct (irreflexivity lexico p). by etrans.
Qed.

#[export] Instance path_le_total : Total path_le.
Proof.
  intros p q. unfold path_le.
  destruct (trichotomyT lexico p q) as [[?|?]|?]; auto.
Qed.

Lemma sorted_Sorted ps : Sorted path_le (sorted ps).
Proof. apply Sorted_merge_sort, _. Qed.

Lemma sorted_perm ps : sorted ps ≡ₚ ps.
Proof. apply merge_sort_Permutation. Qed.

(** The result does not depend on the order of the input. *)
Lemma sorted_unique ps qs : ps ≡ₚ qs → sorted ps = sorted qs.
Proof.
  intros H. apply (Sorted_unique path_le); [apply sorted_Sorted..|].
  by rewrite !sorted_perm.
Qed.

(** Sorting respects permutations: rewriting under [sorted]. *)
#[export] Instance sorted_proper : Proper ((≡ₚ) ==> (=)) sorted.
Proof. intros ps qs. apply sorted_unique. Qed.

Lemma sorted_id ps : Sorted path_le ps → sorted ps = ps.
Proof.
  intros H. apply (Sorted_unique path_le); [apply sorted_Sorted|done|apply sorted_perm].
Qed.

End order.

Section names.
Implicit Types (s n : str) (p : path).

Lemma rfind_dot_lt s i : rfind_dot s = Some i → i < length s.
Proof.
  revert i. induction s as [|c s IH]; intros i; [done|]. simpl.
  destruct (rfind_dot s) as [j|].
  - intros [= <-]. specialize (IH j eq_refl). lia.
  - case_bool_decide; [|done]. intros [= <-]. lia.
Qed.

Lemma rfind_dot_lookup s i : rfind_dot s = Some i → s !! i = Some DOT.
Proof.
  revert i. induction s as [|c s IH]; intros i; [done|]. simpl.
  destruct (rfind_dot s) as [j|].
  - intros [= <-]. by apply IH.
  - case_bool_decide; [|done]. by intros [= <-]; subst.
Qed.

(** No dot follows the one [rfind] reports. *)
Lemma rfind_dot_last s i : rfind_dot s = Some i → DOT ∉ drop (S i) s.
Proof.
  revert i. induction s as [|c s IH]; intros i; [done|]. simpl.
  destruct (rfind_dot s) as [j|] eqn:E.
  - intros [= <-]. by apply IH.
  - case_bool_decide; [|done]. intros [= <-]. rewrite drop_0.
    clear -E. induction s as [|d s IH]; [by intros ?%elem_of_nil|].
    simpl in E. destruct (rfind_dot s); [done|]. case_bool_decide; [done|].
    intros [?|?]%elem_of_cons; [congruence|]. by apply IH.
Qed.

(** A name is its stem followed by its suffix. *)
Lemma stem_suffix p : stem p ++ suffix p = name p.
Proof.
  unfold stem, suffix. destruct (suffix_index (name p)); [|by rewrite app_nil_r].
  apply take_drop.
Qed.

(** A suffix is empty or a dot followed by at least one character, none
    of them a dot. *)
Lemma suffix_shape p :
  suffix p = [] ∨ ∃ ext, suffix p = DOT :: ext ∧ ext ≠ [] ∧ DOT ∉ ext.
Proof.
  unfold suffix, suffix_index. destruct (rfind_dot (name p)) as [i|] eqn:E; [|by left].
  case_bool_decide as Hi; [|by left]. right. exists (drop (S i) (name p)).
  split_and!.
  - by apply drop_S, rfind_dot_lookup.
  - intros H%(f_equal length). rewrite length_drop, length_nil in H. lia.
  - by apply rfind_dot_last.
Qed.

Lemma stem_ne p : name p ≠ [] → stem p ≠ [].
Proof.
  unfold stem, suffix_index. intros Hn.
  destruct (rfind_dot (name p)) as [i|]; [|done].
  case_bool_decide as Hi; [|done].
  intros H%(f_equal length). rewrite length_take, length_nil in H. lia.
Qed.

End names.


Section roundtrip.
Implicit Types (s : str) (p tl : path).

Lemma tail_parts_join tl :
  Forall valid_part tl → tail_parts (join [SLASH] tl) = tl.
Proof.
  intros H. unfold tail_parts. destruct (decide (tl = [])) as [->|Hne]; [done|].
  rewrite split_on_join; [|done| |done].
  - apply filter_all. eapply Forall_impl; [exact H|]. by intros x (? & ? & _).
  - eapply Forall_impl; [exact H|]. intros x (_ & _ & Hx).
    eapply Forall_impl; [exact Hx|]. intros c Hc. by apply bool_decide_eq_false_2.
Qed.

Lemma tail_parts_slash s : tail_parts (SLASH :: s) = tail_parts s.
Proof.
  unfold tail_parts. rewrite split_on_cons_true by done.
  by rewrite filter_cons_False by naive_solver.
Qed.

(** Round trip: a valid path is the path its string denotes. *)
Lemma Path_str_of_path p : valid_path p → Path (str_of_path p) = p.
Proof.
  destruct p as [|r tl]; [done|]. intros [Hr Htl]. unfold str_of_path.
  case_bool_decide as E.
  - subst r. simpl. by rewrite tail_parts_slash, tail_parts_join.
  - destruct Hr as [?|Hr]; [done|].
    assert (Forall valid_part (r :: tl)) as Hall by by constructor.
    destruct Hr as (Hne & _ & Hs). destruct r as [|c r]; [done|].
    apply Forall_cons in Hs as [Hc _].
    rewrite join_cons_cons. unfold Path. rewrite bool_decide_eq_false_2 by done.
    rewrite <-join_cons_cons. by apply tail_parts_join.
Qed.

(** Appending a file name to a directory. *)
Lemma joinpath_name p n : valid_part n → joinpath p n = p ++ [n].
Proof.
  intros Hn. pose proof Hn as (Hne & _ & Hs). destruct n as [|c n]; [done|].
  unfold joinpath. apply Forall_cons in Hs as [Hc _].
  rewrite bool_decide_eq_false_2 by done. f_equal.
  by apply (tail_parts_join [c :: n]); constructor.
Qed.

End roundtrip.

Section extensions.
Implicit Types (s st ext : str) (p : path).

Lemma rfind_dot_None s : DOT ∉ s → rfind_dot s = None.
Proof.
  induction s as [|c s IH]; [done|]. intros [Hc Hs]%not_elem_of_cons. simpl.
  rewrite IH by done. by rewrite bool_decide_eq_false_2.
Qed.

Lemma rfind_dot_app s t i :
  rfind_dot t = Some i → rfind_dot (s ++ t) = Some (length s + i).
Proof. intros Ht. induction s as [|c s IH]; [done|]. simpl. by rewrite IH. Qed.

(** The suffix of a name with an extension. *)
Lemma suffix_index_ext st ext :
  st ≠ [] → ext ≠ [] → DOT ∉ ext → suffix_index (st ++ DOT :: ext) = Some (length st).
Proof.
  intros Hst Hext Hd. unfold suffix_index.
  rewrite (rfind_dot_app st _ 0), Nat.add_0_r.
  - rewrite bool_decide_eq_true_2; [done|]. rewrite length_app. simpl.
    destruct st, ext; simpl; try done; lia.
  - simpl. by rewrite rfind_dot_None.
Qed.

Lemma name_snoc p n : n ≠ [SLASH] → name (p ++ [n]) = n.
Proof. intros. unfold name. by rewrite last_snoc, bool_decide_eq_false_2. Qed.

Lemma suffix_ext p st ext :
  name p = st ++ DOT :: ext → st ≠ [] → ext ≠ [] → DOT ∉ ext →
  suffix p = DOT :: ext ∧ stem p = st.
Proof.
  intros Hn Hst Hext Hd. unfold suffix, stem. rewrite Hn, suffix_index_ext by done.
  by rewrite drop_app_length, take_app_length.
Qed.

Lemma stem_prefix p : stem p `prefix_of` name p.
Proof. exists (suffix p). by rewrite stem_suffix. Qed.

Lemma valid_path_snoc p n : valid_path p → valid_part n → valid_path (p ++ [n]).
Proof.
  destruct p as [|r tl]; simpl; [by auto|]. intros [Hr Htl] Hn. split; [done|].
  apply Forall_app. by split; [|constructor].
Qed.

Lemma str_of_path_ne p : valid_path p → str_of_path p ≠ [].
Proof.
  destruct p as [|r tl]; [done|]. intros [Hr Htl]. unfold str_of_path.
  case_bool_decide; [done|]. destruct Hr as [?|(Hne & _)]; [done|].
  destruct r; [done|]. by rewrite join_cons_cons.
Qed.

End extensions.

Section valid.
Implicit Types (s : str) (p : path).

Lemma tail_parts_valid s : Forall valid_part (tail_parts s).
Proof.
  unfold tail_parts. apply Forall_forall. intros x [[Hne Hd] Hx]%list_elem_of_filter.
  split_and!; [done..|].
  pose proof (split_on_Forall (λ c, bool_decide (c = SLASH)) s) as HF.
  rewrite Forall_forall in HF. eapply Forall_impl; [by apply HF|].
  intros c Hc. by apply bool_decide_eq_false_1 in Hc.
Qed.

(** Every path built from a string is valid. *)
Lemma Path_valid s : valid_path (Path s).
Proof.
  pose proof (tail_parts_valid s) as HF. unfold Path. destruct s as [|c s]; [done|].
  case_bool_decide; [by split; [left|]|].
  destruct (tail_parts (c :: s)) as [|r tl]; [done|].
  apply Forall_cons in HF as [? ?]. split; [by right|done].
Qed.

Lemma valid_path_name p : valid_path p → p ≠ [] → p ≠ [[SLASH]] → valid_part (name p).
Proof.
  intros Hv Hne Hr. destruct p as [|x p _] using rev_ind; [done|].
  unfold name. rewrite last_snoc. destruct p as [|r tl].
  - simpl in *. destruct Hv as [[->|Hx] _]; [done|]. rewrite bool_decide_eq_false_2; [done|].
    intros ->. by destruct Hx as (_ & _ & [? _]%Forall_cons).
  - simpl in Hv. destruct Hv as [_ Hv]. apply Forall_app in Hv as [_ Hx].
    apply Forall_cons in Hx as [Hx _]. rewrite bool_decide_eq_false_2; [done|].
    intros ->. by destruct Hx as (_ & _ & [? _]%Forall_cons).
Qed.

Lemma valid_path_parent_snoc p x : valid_path (p ++ [x]) → valid_path p.
Proof.
  destruct p as [|r tl]; [done|]. simpl. intros [? Hv]. by apply Forall_app in Hv as [? _].
Qed.

End valid.

Lemma valid_path_prefix (p q : path) : valid_path (p ++ q) → valid_path p.
Proof.
  induction q as [|x q IH] using rev_ind; [by rewrite app_nil_r|].
  rewrite app_assoc. by intros ?%valid_path_parent_snoc%IH.
Qed.

#[export] Hint Resolve Path_valid tail_parts_valid sorted_Sorted : py.

(** The model on the names the specification mentions. *)
Example pathlib_examples : suffix (Path (py "dir/a.EPUB")) = py ".EPUB" ∧ stem (Path (py "dir/a.EPUB")) = py "a"
  ∧ suffix [py ".epub"] = [] ∧ stem [py ".epub"] = py ".epub" ∧ suffix [py "a.tar.gz"] = py ".gz"
  ∧ suffix [py "a."] = [] ∧ Path (py "/x//y/./z/") = [py "/"; py "x"; py "y"; py "z"]
  ∧ str_of_path (Path (py "/x//y/./z/")) = py "/x/y/z"
  ∧ sorted [[py "b.epub"]; [py "a.EPUB"]; [py "B.epub"]] = [[py "B.epub"]; [py "a.EPUB"]; [py "b.epub"]]
  ∧ lower (py ".EPUB") = py ".epub".
Proof. vm_compute. repeat split. Qed.
