(* ===== verification/FileSys.v ===== *)
(** * FileSys: the world the converter runs in

    The file system as a finite map from paths to nodes, the standard
    output as the list of lines printed, and programs as functions from
    a world to a result or an exception and the world they leave
    ([prog], with [mret] and [≫=]).  The operations are the ones the
    converter calls: [Path.is_dir], [Path.is_file],
    [Path.mkdir(parents=True, exist_ok=True)], [Path.iterdir], reading a
    whole file, writing a text through the codec ([open_write_text],
    lines 58-59 of the source; [open_target] is the opening alone and
    [append_file] the arrival of bytes in the open file), [print].  The order of [iterdir] is a
    parameter ([Listing]), and so is the console ([Console]): [print]
    encodes its line with the codec of the console and raises
    [UnicodeEncodeError] when the codec rejects it.  [fs_wf] is the
    invariant of the file system, and
    [raises_only] states which exceptions a program can end with.
    Permissions, symbolic links, [".."] and the position of the current
    directory under the root are outside the model.  Library and
    operating-system behaviour, modelled from its documentation. *)

From stdpp Require Import list gmap.
From S2P Require Import Prelude PyStr Utf8 Charmap Pathlib.

Set Warnings "-clear-no-such-hyp".

(** ** The world *)

Inductive fs_node :=
| Dir
| File (data : list N).

(** The exceptions the converter can end with. *)
Inductive exn :=
| ValueError (msg : str)
| FileNotFoundError (p : path)
| IsADirectoryError (p : path)
| NotADirectoryError (p : path)
| FileExistsError (p : path)
| EpubError (p : path)
| UnicodeEncodeError (start stop : nat)
| SystemExit (code : N) (msg : str).

Record world := World { files : gmap path fs_node; stdout : list str }.

#[export] Instance fs_node_eq_dec : EqDecision fs_node.
Proof. solve_decision. Defined.
#[export] Instance exn_eq_dec : EqDecision exn.
Proof. solve_decision. Defined.
#[export] Instance world_eq_dec : EqDecision world.
Proof. solve_decision. Defined.

(** ** Programs *)

(** A program takes a world to a result or an exception and the world it
    leaves.  An exception keeps the effects made before it was raised. *)
Definition prog (A : Type) : Type := world → (exn + A) * world.

#[export] Instance prog_ret : MRet prog := λ A a w, (inr a, w).
#[export] Instance prog_bind : MBind prog := λ A B f m w,
  match m w with
  | (inr a, w') => f a w'
  | (inl e, w') => (inl e, w')
  end.

Definition raise {A} (e : exn) : prog A := λ w, (inl e, w).
Definition get_files : prog (gmap path fs_node) := λ w, (inr (files w), w).
Definition put_files (fs : gmap path fs_node) : prog unit :=
  λ w, (inr (), World fs (stdout w)).

(** The console: the codec [sys.stdout] encodes with.  Whatever the
    codec, a text is encoded exactly when each of its code points is one
    the codec has. *)
Class Console := {
  console_encode : str → encode_error + list N;
  console_char : char → bool;
  console_encode_inr s : (∃ bs, console_encode s = inr bs) ↔ Forall console_char s;
}.

(** A text the console can show. *)
Definition printable `{Console} (msg : str) : Prop := Forall console_char msg.

#[export] Instance printable_dec `{Console} msg : Decision (printable msg).
Proof. unfold printable. apply _. Defined.

(** [print(msg)]: the line is encoded before anything of it is written. *)
Definition print `{Console} (msg : str) : prog unit :=
  match console_encode msg with
  | inr _ => λ w, (inr (), World (files w) (stdout w ++ [msg]))
  | inl e => raise (UnicodeEncodeError (err_start e) (err_stop e))
  end.

(** [for x in l: f(x)] *)
Fixpoint for_each {A} (f : A → prog unit) (l : list A) : prog unit :=
  match l with
  | [] => mret ()
  | x :: l' => f x;; for_each f l'
  end.

(** [[x for x in l if f(x)]] *)
Fixpoint filter_prog {A} (f : A → prog bool) (l : list A) : prog (list A) :=
  match l with
  | [] => mret []
  | x :: l' =>
    keep ← f x;
    rest ← filter_prog f l';
    mret (if keep : bool then x :: rest else rest)
  end.

(** ** File system operations *)

(** The directory that holds [p]. *)
Definition parent (p : path) : path := take (length p - 1) p.

(** The current directory and the root always exist. *)
Definition is_root (p : path) : Prop := p = [] ∨ p = [[SLASH]].

#[export] Instance is_root_dec p : Decision (is_root p).
Proof. unfold is_root. apply _. Defined.

(** What a path names. *)
Definition lookup_node (fs : gmap path fs_node) (p : path) : option fs_node :=
  if decide (is_root p) then Some Dir else fs !! p.

(** [Path.is_dir()], [Path.is_file()] *)
Definition is_dir_in (fs : gmap path fs_node) (p : path) : bool :=
  bool_decide (lookup_node fs p = Some Dir).

Definition is_file_in (fs : gmap path fs_node) (p : path) : bool :=
  match lookup_node fs p with
  | Some (File _) => true
  | _ => false
  end.

Definition is_dir (p : path) : prog bool :=
  fs ← get_files; mret (is_dir_in fs p).

Definition is_file (p : path) : prog bool :=
  fs ← get_files; mret (is_file_in fs p).

(** [Path.mkdir(parents=True, exist_ok=True)]: the missing directories
    on the way to [target] are created from the top; a file in the way is
    an error, [FileExistsError] when it is [target] itself. *)
Fixpoint mkdir_from (target made todo : path) (fs : gmap path fs_node) :
    exn + gmap path fs_node :=
  match todo with
  | [] => inr fs
  | x :: todo' =>
    let p := made ++ [x] in
    match lookup_node fs p with
    | None => mkdir_from target p todo' (<[p := Dir]> fs)
    | Some Dir => mkdir_from target p todo' fs
    | Some (File _) =>
      inl (if is_nil todo' then FileExistsError target else NotADirectoryError target)
    end
  end.

Definition mkdir_parents (p : path) : prog unit :=
  fs ← get_files;
  match mkdir_from p [] p fs with
  | inr fs' => put_files fs'
  | inl e => raise e
  end.

(** One directory of the chain, as a call of its own: the next part of
    the path is made when it is missing; a file in its place is the
    error of [mkdir_from]. *)
Definition mkdir_part (target made : path) (x : list N) (todo : path) : prog unit :=
  fs ← get_files;
  match lookup_node fs (made ++ [x]) with
  | None => put_files (<[made ++ [x] := Dir]> fs)
  | Some Dir => mret ()
  | Some (File _) =>
    raise (if is_nil todo then FileExistsError target else NotADirectoryError target)
  end.

(** The entries of a directory. *)
Definition children (fs : gmap path fs_node) (p : path) : list path :=
  filter (λ q, parent q = p) (elements (dom fs)).

(** The order in which the operating system lists a directory is not
    specified: it is a parameter, known only to be a permutation. *)
Class Listing := {
  listing_order : list path → list path;
  listing_perm ps : listing_order ps ≡ₚ ps;
}.

(** [Path.iterdir()] *)
Definition iterdir `{Listing} (p : path) : prog (list path) :=
  fs ← get_files;
  match lookup_node fs p with
  | Some Dir => mret (listing_order (children fs p))
  | Some (File _) => raise (NotADirectoryError p)
  | None => raise (FileNotFoundError p)
  end.

(** Writing a whole file at [p]: the directory of [p] must exist and [p]
    must not be a directory; an existing file is replaced. *)
Definition write_file (p : path) (data : list N) : prog unit :=
  fs ← get_files;
  match lookup_node fs p, lookup_node fs (parent p) with
  | Some Dir, _ => raise (IsADirectoryError p)
  | _, Some Dir => put_files (<[p := File data]> fs)
  | _, Some (File _) => raise (NotADirectoryError p)
  | _, None => raise (FileNotFoundError p)
  end.

(** Reading a whole file. *)
Definition read_file (p : path) : prog (list N) :=
  fs ← get_files;
  match lookup_node fs p with
  | Some (File data) => mret data
  | Some Dir => raise (IsADirectoryError p)
  | None => raise (FileNotFoundError p)
  end.

(** [open(name, ...)]: the path a file name denotes; the empty name
    denotes none. *)
Definition resolve_name (name : str) : prog path :=
  if is_nil name then raise (FileNotFoundError []) else mret (Path name).

(** [with open(name, "w", encoding="utf-8") as f: f.write(text)]: the
    file is created or emptied when it is opened, the text is encoded
    when it is written, so a text that cannot be encoded leaves an empty
    file behind. *)
Definition open_write_text (name : str) (text : str) : prog unit :=
  p ← resolve_name name;
  write_file p [];;
  match utf8_encode text with
  | inr data => write_file p data
  | inl e => raise (UnicodeEncodeError (err_start e) (err_stop e))
  end.

(** [open(name, "w", encoding="utf-8")] alone: the file is created or
    emptied. *)
Definition open_target (name : str) : prog unit :=
  p ← resolve_name name; write_file p [].

(** Bytes written to a file that is open: they are added at its end. *)
Definition append_file (p : path) (data : list N) : prog unit :=
  fs ← get_files;
  match fs !! p with
  | Some (File old) => put_files (<[p := File (old ++ data)]> fs)
  | Some Dir => raise (IsADirectoryError p)
  | None => raise (FileNotFoundError p)
  end.

(** [open(name, "rb").read()] *)
Definition open_read (name : str) : prog (list N) :=
  p ← resolve_name name; read_file p.

(** Every entry has a valid path and lies in a directory, and no entry
    shadows a root. *)
Definition fs_wf (fs : gmap path fs_node) : Prop :=
  map_Forall (λ p _, valid_path p ∧ ¬ is_root p ∧ lookup_node fs (parent p) = Some Dir) fs.

#[export] Instance fs_wf_dec fs : Decision (fs_wf fs).
Proof. unfold fs_wf. apply _. Defined.

(** [fs'] is [fs] with some directories added. *)
Definition grows (fs fs' : gmap path fs_node) : Prop :=
  ∀ p, fs' !! p = fs !! p ∨ (fs !! p = None ∧ fs' !! p = Some Dir).

(** Errors of the operating system: [OSError] and its subclasses. *)
Definition os_error (e : exn) : bool :=
  match e with
  | FileNotFoundError _ | IsADirectoryError _ | NotADirectoryError _
  | FileExistsError _ => true
  | _ => false
  end.

(** The error of the codec. *)
Definition encoding_error (e : exn) : bool :=
  match e with UnicodeEncodeError _ _ => true | _ => false end.

(** [m] raises only exceptions of [P]. *)
Definition raises_only {A} (P : exn → Prop) (m : prog A) : Prop :=
  ∀ w e w', m w = (inl e, w') → P e.

(** Unfolds the plumbing of a program applied to a world. *)
Ltac prog_simpl :=
  unfold mbind, prog_bind, mret, prog_ret, get_files, put_files, raise, print in *;
  simpl in *.

Section prog.
Context {A B : Type}.
Implicit Types (m : prog A) (f : A → prog B) (w : world).

Lemma bind_ret_l (a : A) f w : (mret a ≫= f) w = f a w.
Proof. done. Qed.

Lemma bind_succeeds m f w a w' : m w = (inr a, w') → (m ≫= f) w = f a w'.
Proof. unfold mbind, prog_bind. by intros ->. Qed.

Lemma bind_fails m f w e w' : m w = (inl e, w') → (m ≫= f) w = (inl e, w').
Proof. unfold mbind, prog_bind. by intros ->. Qed.

Lemma bind_inv_succeeds m f w b w'' :
  (m ≫= f) w = (inr b, w'') → ∃ a w', m w = (inr a, w') ∧ f a w' = (inr b, w'').
Proof.
  unfold mbind, prog_bind. destruct (m w) as [[e|a] w']; [done|]. eauto.
Qed.

Lemma bind_inv_fails m f w e w'' :
  (m ≫= f) w = (inl e, w'') →
  m w = (inl e, w'') ∨ ∃ a w', m w = (inr a, w') ∧ f a w' = (inl e, w'').
Proof.
  unfold mbind, prog_bind. destruct (m w) as [[e'|a] w']; [intros [= -> ->]; by left|right; eauto].
Qed.

End prog.

Lemma bind_ret_r {A} (m : prog A) w : (m ≫= mret) w = m w.
Proof. unfold mbind, prog_bind. by destruct (m w) as [[e|a] w']. Qed.

Lemma bind_assoc {A B C} (m : prog A) (f : A → prog B) (g : B → prog C) w :
  ((m ≫= f) ≫= g) w = (m ≫= λ a, f a ≫= g) w.
Proof. unfold mbind, prog_bind. by destruct (m w) as [[e|a] w']. Qed.


Lemma bind_ext {A B} (m : prog A) (f g : A → prog B) w :
  (∀ a w', f a w' = g a w') → (m ≫= f) w = (m ≫= g) w.
Proof. intros Hfg. unfold mbind, prog_bind. by destruct (m w) as [[e|a] w']. Qed.

Lemma for_each_nil {A} (f : A → prog unit) w : for_each f [] w = (inr (), w).
Proof. done. Qed.

Lemma for_each_cons {A} (f : A → prog unit) x l w :
  for_each f (x :: l) w = (f x;; for_each f l) w.
Proof. done. Qed.

Section loops.
Context {A : Type}.
Implicit Types (f : A → prog unit) (l : list A) (w : world).

Lemma for_each_app f l1 l2 w :
  for_each f (l1 ++ l2) w = (for_each f l1;; for_each f l2) w.
Proof.
  revert w. induction l1 as [|x l1 IH]; intros w; [done|]. simpl.
  rewrite bind_assoc. apply bind_ext. intros _ w'. apply IH.
Qed.

(** A loop that has done [l1] goes on with the next element. *)
Lemma for_each_snoc f l1 x w w1 w' :
  for_each f l1 w = (inr (), w1) → f x w1 = (inr (), w') →
  for_each f (l1 ++ [x]) w = (inr (), w').
Proof.
  intros H1 Hx. rewrite for_each_app. erewrite bind_succeeds by exact H1. simpl.
  by erewrite bind_succeeds by exact Hx.
Qed.

Lemma for_each_stops f l1 x l2 w w1 e w' :
  for_each f l1 w = (inr (), w1) → f x w1 = (inl e, w') →
  for_each f (l1 ++ x :: l2) w = (inl e, w').
Proof.
  intros H1 Hx. rewrite for_each_app. erewrite bind_succeeds by exact H1. simpl.
  by erewrite bind_fails by exact Hx.
Qed.

(** A loop that fails fails at one element, the ones before it done. *)
Lemma for_each_inv_fails f l w e w' :
  for_each f l w = (inl e, w') →
  ∃ l1 x l2 w1, l = l1 ++ x :: l2 ∧ for_each f l1 w = (inr (), w1) ∧ f x w1 = (inl e, w').
Proof.
  revert w. induction l as [|x l IH]; intros w; [done|]. simpl.
  intros [Hx|([] & w1 & Hx & Hl)]%bind_inv_fails.
  - by exists [], x, l, w.
  - destruct (IH _ Hl) as (l1 & y & l2 & w2 & -> & Hl1 & Hy).
    exists (x :: l1), y, l2, w2. split_and!; [done| |done].
    simpl. by erewrite bind_succeeds.
Qed.

(** What every step keeps, the loop keeps. *)
Lemma for_each_invariant (P : world → Prop) f l :
  (∀ x w r w', x ∈ l → P w → f x w = (r, w') → P w') →
  ∀ w r w', P w → for_each f l w = (r, w') → P w'.
Proof.
  induction l as [|x l IH]; intros Hf w r w' HP; simpl.
  - by intros [= _ <-].
  - unfold mbind, prog_bind. destruct (f x w) as [[e|[]] w1] eqn:Hx.
    + intros [= _ <-]. eapply Hf; [left|done..].
    + apply IH; [|eapply Hf; [left|done..]]. intros y ????. apply Hf. by right.
Qed.

(** A filter whose test only reads is the filter of the list. *)
Lemma filter_prog_pure (f : A → prog bool) (g : A → bool) l w :
  (∀ x, x ∈ l → f x w = (inr (g x), w)) →
  filter_prog f l w = (inr (filter g l), w).
Proof.
  induction l as [|x l IH]; intros Hf; [done|]. simpl.
  erewrite bind_succeeds by (apply Hf; left).
  erewrite bind_succeeds by (apply IH; intros y ?; apply Hf; by right).
  unfold filter. simpl. by destruct (g x).
Qed.

End loops.

Section filesys.
Implicit Types (fs : gmap path fs_node) (p q : path) (w : world).

Lemma parent_snoc p x : parent (p ++ [x]) = p.
Proof.
  unfold parent. rewrite length_app. simpl.
  replace (length p + 1 - 1) with (length p) by lia. by rewrite take_app_length.
Qed.

Lemma app_cons_snoc {A} (l k : list A) x : l ++ x :: k = (l ++ [x]) ++ k.
Proof. by rewrite <-app_assoc. Qed.

Lemma parent_spec q : q ≠ [] → ∃ x, q = parent q ++ [x].
Proof.
  destruct q as [|x q _] using rev_ind; [done|]. intros _. exists x.
  by rewrite parent_snoc.
Qed.

Lemma lookup_node_root fs p : is_root p → lookup_node fs p = Some Dir.
Proof. intros. unfold lookup_node. by rewrite decide_True. Qed.

Lemma lookup_node_entry fs p : ¬ is_root p → lookup_node fs p = fs !! p.
Proof. intros. unfold lookup_node. by rewrite decide_False. Qed.

Lemma lookup_node_None fs p : lookup_node fs p = None → ¬ is_root p ∧ fs !! p = None.
Proof. unfold lookup_node. case_decide; naive_solver. Qed.

Lemma lookup_node_insert fs p n : ¬ is_root p → lookup_node (<[p := n]> fs) p = Some n.
Proof. intros. rewrite lookup_node_entry by done. apply lookup_insert_eq. Qed.

Lemma lookup_node_insert_ne fs p q n :
  p ≠ q → lookup_node (<[p := n]> fs) q = lookup_node fs q.
Proof. intros. unfold lookup_node. by rewrite lookup_insert_ne. Qed.

(** Inserting a node never removes a directory, unless it replaces it. *)
Lemma lookup_node_insert_Dir fs p q n :
  (n = Dir ∨ lookup_node fs p ≠ Some Dir) →
  lookup_node fs q = Some Dir → lookup_node (<[p := n]> fs) q = Some Dir.
Proof.
  intros Hn Hq. destruct (decide (p = q)) as [->|?]; [|by rewrite lookup_node_insert_ne].
  destruct Hn as [->|?]; [|done]. unfold lookup_node in *. case_decide; [done|].
  apply lookup_insert_eq.
Qed.

Lemma elem_of_children fs p q :
  fs_wf fs → q ∈ children fs p ↔ is_Some (fs !! q) ∧ ∃ x, q = p ++ [x].
Proof.
  intros Hwf. unfold children.
  rewrite list_elem_of_filter, elem_of_elements, elem_of_dom. split.
  - intros [<- [n Hq]]. split; [by eexists|]. apply parent_spec.
    intros ->. destruct (Hwf _ _ Hq) as (_ & [] & _). by left.
  - intros [? [x ->]]. split; [apply parent_snoc|done].
Qed.

Lemma children_NoDup fs p : NoDup (children fs p).
Proof. apply NoDup_filter, NoDup_elements. Qed.

Lemma fs_wf_empty : fs_wf ∅.
Proof. apply map_Forall_empty. Qed.

Lemma fs_wf_insert fs p n :
  fs_wf fs → valid_path p → ¬ is_root p → lookup_node fs (parent p) = Some Dir →
  (n = Dir ∨ lookup_node fs p ≠ Some Dir) →
  fs_wf (<[p := n]> fs).
Proof.
  intros Hwf Hv Hne Hpar Hn. apply map_Forall_insert_2.
  - split_and!; [done..|]. by apply lookup_node_insert_Dir.
  - intros q m Hq. destruct (Hwf q m Hq) as (? & ? & ?). split_and!; [done..|].
    by apply lookup_node_insert_Dir.
Qed.

(** A path below an entry goes through directories only. *)
Lemma fs_wf_parent fs p :
  fs_wf fs → is_Some (lookup_node fs p) → lookup_node fs (parent p) = Some Dir.
Proof.
  intros Hwf [n Hp]. unfold lookup_node in Hp. case_decide as Hr.
  - apply lookup_node_root. destruct Hr as [->| ->]; by left.
  - by destruct (Hwf _ _ Hp) as (_ & _ & ?).
Qed.

Lemma fs_wf_prefix fs p q :
  fs_wf fs → is_Some (lookup_node fs (p ++ q)) → q ≠ [] → lookup_node fs p = Some Dir.
Proof.
  intros Hwf. induction q as [|x q IH] using rev_ind; [done|]. intros Hq _.
  apply (fs_wf_parent _ _ Hwf) in Hq. rewrite app_assoc, parent_snoc in Hq.
  destruct (decide (q = [])) as [->|?]; [by rewrite app_nil_r in Hq|].
  apply IH; [by eexists|done].
Qed.

End filesys.

#[export] Instance grows_refl : Reflexive grows.
Proof. intros fs p. by left. Qed.

#[export] Instance grows_trans : Transitive grows.
Proof.
  intros f g h Hfg Hgh p. destruct (Hfg p) as [Hg|[Hf Hg]], (Hgh p) as [Hh|[Hg' Hh]].
  - left. congruence.
  - right. split; congruence.
  - right. split; congruence.
  - congruence.
Qed.

Section mkdir.
Implicit Types (fs : gmap path fs_node) (p q made todo : path) (w : world).

Lemma grows_insert fs p : fs !! p = None → grows fs (<[p := Dir]> fs).
Proof.
  intros Hp q. destruct (decide (p = q)) as [<-|?].
  - right. by rewrite lookup_insert_eq.
  - left. by rewrite lookup_insert_ne.
Qed.

Lemma grows_is_file fs fs' p : grows fs fs' → is_file_in fs' p = is_file_in fs p.
Proof.
  intros Hg. unfold is_file_in, lookup_node. case_decide; [done|].
  by destruct (Hg p) as [->|[-> ->]].
Qed.

Lemma grows_is_dir fs fs' p : grows fs fs' → is_dir_in fs p → is_dir_in fs' p.
Proof.
  intros Hg. unfold is_dir_in, lookup_node. case_decide; [done|].
  destruct (Hg p) as [->|[-> ->]]; by rewrite ?bool_decide_spec.
Qed.

Lemma grows_children fs fs' p :
  grows fs fs' → filter (is_file_in fs') (children fs' p) ≡ₚ filter (is_file_in fs) (children fs p).
Proof.
  intros Hg. apply NoDup_Permutation; [apply NoDup_filter, children_NoDup..|].
  intros q. unfold children. rewrite !list_elem_of_filter, !elem_of_elements, !elem_of_dom.
  rewrite (grows_is_file _ _ q Hg). unfold is_file_in, lookup_node.
  case_decide; [naive_solver|]. destruct (Hg q) as [->|[-> ->]]; naive_solver.
Qed.

(** What a successful [mkdir_from] leaves. *)
Lemma mkdir_from_inr target todo : ∀ made fs fs',
  fs_wf fs → valid_path (made ++ todo) → lookup_node fs made = Some Dir →
  mkdir_from target made todo fs = inr fs' →
  fs_wf fs' ∧ grows fs fs' ∧ lookup_node fs' (made ++ todo) = Some Dir.
Proof.
  induction todo as [|x todo IH]; intros made fs fs' Hwf Hv Hm; simpl.
  { intros [= <-]. by rewrite app_nil_r. }
  rewrite (app_cons_snoc made todo) in Hv |- *.
  destruct (lookup_node fs (made ++ [x])) as [[|data]|] eqn:E; [by apply IH| done |].
  apply lookup_node_None in E as [Hr E]. intros Hrun.
  apply IH in Hrun as (? & ? & ?); [|by apply fs_wf_insert; rewrite ?parent_snoc;
    eauto using valid_path_prefix|done|by apply lookup_node_insert].
  split_and!; [done| |done]. etrans; [by apply grows_insert|done].
Qed.

(** It fails only on a file in the way. *)
Lemma mkdir_from_inl target todo : ∀ made fs e,
  mkdir_from target made todo fs = inl e →
  ∃ k, is_file_in fs (made ++ take (S k) todo) = true.
Proof.
  induction todo as [|x todo IH]; intros made fs e; simpl; [done|].
  assert (∀ fs', (∃ k, is_file_in fs' ((made ++ [x]) ++ take (S k) todo) = true) →
    grows fs fs' → ∃ k, is_file_in fs (made ++ take (S k) (x :: todo)) = true) as Hk.
  { intros fs' [k Hf] Hg. exists (S k). rewrite <-(grows_is_file _ _ _ Hg).
    by rewrite firstn_cons, (app_cons_snoc made). }
  destruct (lookup_node fs (made ++ [x])) as [[|data]|] eqn:E.
  - intros H%IH. by apply (Hk fs).
  - intros _. exists 0. rewrite take_0. unfold is_file_in. by rewrite E.
  - apply lookup_node_None in E as [_ E]. intros H%IH. apply (Hk _ H), grows_insert, E.
Qed.

(** On a directory that exists it changes nothing. *)
Lemma mkdir_from_exists target todo : ∀ made fs,
  fs_wf fs → lookup_node fs (made ++ todo) = Some Dir →
  mkdir_from target made todo fs = inr fs.
Proof.
  induction todo as [|x todo IH]; intros made fs Hwf Hd; simpl; [done|].
  rewrite (app_cons_snoc made todo) in Hd.
  assert (lookup_node fs (made ++ [x]) = Some Dir) as ->; [|by apply IH].
  destruct (decide (todo = [])) as [->|?]; [by rewrite app_nil_r in Hd|].
  by eapply fs_wf_prefix.
Qed.

Lemma mkdir_parents_inr p w w' :
  fs_wf (files w) → valid_path p → mkdir_parents p w = (inr (), w') →
  fs_wf (files w') ∧ grows (files w) (files w') ∧ is_dir_in (files w') p
  ∧ stdout w' = stdout w.
Proof.
  intros Hwf Hv. unfold mkdir_parents, mbind, prog_bind, get_files, put_files, raise.
  destruct (mkdir_from p [] p (files w)) as [e|fs'] eqn:E; [done|]. intros [= <-].
  apply mkdir_from_inr in E as (? & ? & ?); [|done..|by apply lookup_node_root; left].
  simpl. split_and!; try done. by apply bool_decide_pack.
Qed.

Lemma mkdir_parents_inv p w w' :
  mkdir_parents p w = (inr (), w') →
  mkdir_from p [] p (files w) = inr (files w') ∧ stdout w' = stdout w.
Proof.
  unfold mkdir_parents. prog_simpl.
  destruct (mkdir_from p [] p (files w)) as [e|fs'] eqn:E; [done|]. by intros [= <-].
Qed.

(** A part of the chain is a step of [mkdir_from]. *)
Lemma mkdir_part_inr target made x todo w w' :
  mkdir_part target made x todo w = (inr (), w') →
  stdout w' = stdout w ∧ grows (files w) (files w')
  ∧ mkdir_from target made (x :: todo) (files w)
    = mkdir_from target (made ++ [x]) todo (files w').
Proof.
  unfold mkdir_part. prog_simpl.
  destruct (lookup_node (files w) (made ++ [x])) as [[|data]|] eqn:E; intros [= <-]; simpl.
  - done.
  - split_and!; [done| |done]. by apply grows_insert, lookup_node_None.
Qed.

Lemma mkdir_part_inl target made x todo e w w' :
  mkdir_part target made x todo w = (inl e, w') →
  mkdir_from target made (x :: todo) (files w) = inl e ∧ w' = w.
Proof.
  unfold mkdir_part. prog_simpl.
  by destruct (lookup_node (files w) (made ++ [x])) as [[|data]|] eqn:E; intros [= <- <-].
Qed.

Lemma mkdir_parents_exists p w :
  fs_wf (files w) → is_dir_in (files w) p → mkdir_parents p w = (inr (), w).
Proof.
  intros Hwf Hd%bool_decide_unpack.
  unfold mkdir_parents, mbind, prog_bind, get_files, put_files.
  rewrite mkdir_from_exists by done. by destruct w.
Qed.

End mkdir.

Section files.
Implicit Types (fs : gmap path fs_node) (p q : path) (w : world) (data : list N).

(** A write succeeds exactly when the path is no directory and lies in
    one; it replaces the file and touches nothing else. *)
Lemma write_file_inr p data w :
  lookup_node (files w) p ≠ Some Dir → lookup_node (files w) (parent p) = Some Dir →
  write_file p data w = (inr (), World (<[p := File data]> (files w)) (stdout w)).
Proof.
  intros Hp Hpar. unfold write_file. prog_simpl. rewrite Hpar.
  by destruct (lookup_node (files w) p) as [[|?]|].
Qed.

Lemma write_file_inv p data w w' :
  write_file p data w = (inr (), w') →
  lookup_node (files w) p ≠ Some Dir ∧ lookup_node (files w) (parent p) = Some Dir
  ∧ w' = World (<[p := File data]> (files w)) (stdout w).
Proof.
  unfold write_file. prog_simpl.
  destruct (lookup_node (files w) p) as [[|?]|],
    (lookup_node (files w) (parent p)) as [[|?]|]; naive_solver.
Qed.

(** A failed write leaves the world as it was. *)
Lemma write_file_inl p data w e w' : write_file p data w = (inl e, w') → w' = w.
Proof.
  unfold write_file. prog_simpl.
  destruct (lookup_node (files w) p) as [[|?]|],
    (lookup_node (files w) (parent p)) as [[|?]|]; naive_solver.
Qed.

Lemma write_file_wf p data w w' :
  fs_wf (files w) → valid_path p → write_file p data w = (inr (), w') →
  fs_wf (files w').
Proof.
  intros Hwf Hv (Hp & Hpar & ->)%write_file_inv. simpl.
  apply fs_wf_insert; auto. intros Hr. by rewrite lookup_node_root in Hp.
Qed.

(** What was written is what is read. *)
Lemma read_write_file p data w w' :
  write_file p data w = (inr (), w') → read_file p w' = (inr data, w').
Proof.
  intros (Hp & Hpar & ->)%write_file_inv. unfold read_file. prog_simpl.
  rewrite lookup_node_insert; [done|]. intros Hr. by rewrite lookup_node_root in Hp.
Qed.

Lemma read_file_inv p data w w' :
  read_file p w = (inr data, w') → lookup_node (files w) p = Some (File data) ∧ w' = w.
Proof.
  unfold read_file. prog_simpl. destruct (lookup_node (files w) p) as [[|?]|]; naive_solver.
Qed.

Lemma read_file_inl p e w w' : read_file p w = (inl e, w') → w' = w.
Proof.
  unfold read_file. prog_simpl. destruct (lookup_node (files w) p) as [[|?]|]; naive_solver.
Qed.

Lemma read_file_inr p data w :
  lookup_node (files w) p = Some (File data) → read_file p w = (inr data, w).
Proof. intros Hp. unfold read_file. prog_simpl. by rewrite Hp. Qed.

Lemma iterdir_inr `{Listing} p w :
  is_dir_in (files w) p → iterdir p w = (inr (listing_order (children (files w) p)), w).
Proof. intros Hd%bool_decide_unpack. unfold iterdir. prog_simpl. by rewrite Hd. Qed.

Lemma resolve_name_inr name w : name ≠ [] → resolve_name name w = (inr (Path name), w).
Proof. intros. unfold resolve_name. by destruct name. Qed.

Lemma resolve_name_inv name p w w' :
  resolve_name name w = (inr p, w') → name ≠ [] ∧ p = Path name ∧ w' = w.
Proof. unfold resolve_name. destruct name; prog_simpl; naive_solver. Qed.

Lemma resolve_name_inl name e w w' : resolve_name name w = (inl e, w') → w' = w.
Proof. unfold resolve_name. destruct name; prog_simpl; naive_solver. Qed.

Lemma open_read_inr name data w :
  name ≠ [] → lookup_node (files w) (Path name) = Some (File data) →
  open_read name w = (inr data, w).
Proof.
  intros Hn Hp. unfold open_read.
  erewrite bind_succeeds by by apply resolve_name_inr. by apply read_file_inr.
Qed.

Lemma open_read_inv name data w w' :
  open_read name w = (inr data, w') →
  name ≠ [] ∧ lookup_node (files w) (Path name) = Some (File data) ∧ w' = w.
Proof.
  intros (p & w1 & (? & -> & ->)%resolve_name_inv & [? ->]%read_file_inv)%bind_inv_succeeds.
  done.
Qed.

Lemma open_read_inl name e w w' : open_read name w = (inl e, w') → w' = w.
Proof.
  intros [?%resolve_name_inl|(p & w1 & (? & -> & ->)%resolve_name_inv & ?%read_file_inl)]
    %bind_inv_fails; done.
Qed.

(** Writing twice is writing the second time. *)
Lemma write_file_twice p data1 data2 w w1 :
  write_file p data1 w = (inr (), w1) → write_file p data2 w1 = write_file p data2 w.
Proof.
  intros (Hp & Hpar & ->)%write_file_inv.
  assert (¬ is_root p) as Hr by (intros Hr; by rewrite lookup_node_root in Hp).
  assert (lookup_node (<[p := File data1]> (files w)) p ≠ Some Dir)
    by by rewrite lookup_node_insert.
  assert (lookup_node (<[p := File data1]> (files w)) (parent p) = Some Dir)
    by (apply lookup_node_insert_Dir; auto).
  rewrite !write_file_inr by done. simpl. by rewrite insert_insert_eq.
Qed.

Lemma open_write_text_inr name text data w :
  name ≠ [] → lookup_node (files w) (Path name) ≠ Some Dir →
  lookup_node (files w) (parent (Path name)) = Some Dir →
  utf8_encode text = inr data →
  open_write_text name text w
  = (inr (), World (<[Path name := File data]> (files w)) (stdout w)).
Proof.
  intros Hn Hp Hpar Henc. unfold open_write_text.
  erewrite bind_succeeds by by apply resolve_name_inr.
  erewrite bind_succeeds by by apply (write_file_inr _ []).
  rewrite Henc. erewrite write_file_twice by by apply (write_file_inr _ []).
  by apply write_file_inr.
Qed.

Lemma open_write_text_encode_fails name text err w :
  name ≠ [] → lookup_node (files w) (Path name) ≠ Some Dir →
  lookup_node (files w) (parent (Path name)) = Some Dir →
  utf8_encode text = inl err →
  open_write_text name text w
  = (inl (UnicodeEncodeError (err_start err) (err_stop err)),
     World (<[Path name := File []]> (files w)) (stdout w)).
Proof.
  intros Hn Hp Hpar Henc. unfold open_write_text.
  erewrite bind_succeeds by by apply resolve_name_inr.
  erewrite bind_succeeds by by apply (write_file_inr _ []).
  by rewrite Henc.
Qed.

Lemma open_write_text_inv name text w w' :
  open_write_text name text w = (inr (), w') →
  name ≠ [] ∧ ∃ data, utf8_encode text = inr data
    ∧ write_file (Path name) data w = (inr (), w').
Proof.
  intros (p & w1 & (? & -> & ->)%resolve_name_inv & Hrest)%bind_inv_succeeds.
  apply bind_inv_succeeds in Hrest as ([] & w2 & Hw & Hrest).
  destruct (utf8_encode text) as [err|data]; [done|].
  split; [done|]. exists data. split; [done|]. by rewrite <-(write_file_twice _ [] _ _ _ Hw).
Qed.

(** The open call of a write, and the bytes that follow it. *)
Lemma open_target_inr name w :
  name ≠ [] → lookup_node (files w) (Path name) ≠ Some Dir →
  lookup_node (files w) (parent (Path name)) = Some Dir →
  open_target name w = (inr (), World (<[Path name := File []]> (files w)) (stdout w)).
Proof.
  intros Hn Hp Hpar. unfold open_target.
  erewrite bind_succeeds by by apply resolve_name_inr. by apply write_file_inr.
Qed.

Lemma open_target_inv name w w' :
  open_target name w = (inr (), w') →
  name ≠ [] ∧ lookup_node (files w) (Path name) ≠ Some Dir
  ∧ lookup_node (files w) (parent (Path name)) = Some Dir
  ∧ w' = World (<[Path name := File []]> (files w)) (stdout w).
Proof.
  intros (p & w1 & (? & -> & ->)%resolve_name_inv & Hw)%bind_inv_succeeds.
  by apply write_file_inv in Hw as (? & ? & ->).
Qed.

Lemma open_target_inl name e w w' : open_target name w = (inl e, w') → w' = w.
Proof.
  intros [?%resolve_name_inl|(p & w1 & (? & -> & ->)%resolve_name_inv & ?%write_file_inl)]
    %bind_inv_fails; done.
Qed.

Lemma open_write_text_open_fails name text e w w' :
  open_target name w = (inl e, w') → open_write_text name text w = (inl e, w').
Proof.
  unfold open_target, open_write_text.
  intros [Hr|(p & w1 & Hr & Hw)]%bind_inv_fails; [by erewrite bind_fails|].
  erewrite bind_succeeds by exact Hr. by erewrite bind_fails.
Qed.

Lemma append_file_inr p old data w :
  files w !! p = Some (File old) →
  append_file p data w = (inr (), World (<[p := File (old ++ data)]> (files w)) (stdout w)).
Proof. intros Hp. unfold append_file. prog_simpl. by rewrite Hp. Qed.

Lemma append_file_nil p old w :
  files w !! p = Some (File old) → append_file p [] w = (inr (), w).
Proof.
  intros Hp. rewrite (append_file_inr _ old) by done.
  rewrite app_nil_r, insert_id by done. by destruct w.
Qed.

Lemma is_dir_pure p w : is_dir p w = (inr (is_dir_in (files w) p), w).
Proof. done. Qed.

Lemma is_file_pure p w : is_file p w = (inr (is_file_in (files w) p), w).
Proof. done. Qed.

Lemma is_file_in_lookup fs p : is_file_in fs p ↔ ∃ data, lookup_node fs p = Some (File data).
Proof. unfold is_file_in. destruct (lookup_node fs p) as [[|?]|]; naive_solver. Qed.

Lemma is_file_in_entry fs p : is_file_in fs p → ∃ data, fs !! p = Some (File data).
Proof.
  intros [d Hp]%is_file_in_lookup. exists d. unfold lookup_node in Hp. by case_decide.
Qed.

End files.

(** ** What a program can raise *)

Section raises.
Context {A B : Type}.
Implicit Types (P Q : exn → Prop) (m : prog A) (f : A → prog B).

Lemma raises_only_ret P (a : A) : raises_only P (mret a).
Proof. by intros w e w'. Qed.

Lemma raises_only_raise P e : P e → raises_only P (raise e : prog A).
Proof. intros He w e' w' [= <- _]. done. Qed.

Lemma raises_only_bind P m f :
  raises_only P m → (∀ a, raises_only P (f a)) → raises_only P (m ≫= f).
Proof.
  intros Hm Hf w e w' [?|(a & w1 & _ & ?)]%bind_inv_fails; [by eapply Hm|by eapply Hf].
Qed.

Lemma raises_only_mono P Q m : (∀ e, P e → Q e) → raises_only P m → raises_only Q m.
Proof. intros HPQ Hm w e w' H. eapply HPQ, Hm, H. Qed.

End raises.

Lemma raises_only_for_each {A} P (f : A → prog unit) l :
  (∀ x, x ∈ l → raises_only P (f x)) → raises_only P (for_each f l).
Proof.
  intros Hf w e w' (l1 & x & l2 & w1 & -> & _ & Hx)%for_each_inv_fails.
  eapply Hf, Hx. set_solver.
Qed.

Lemma raises_only_filter_prog {A} P (f : A → prog bool) l :
  (∀ x, raises_only P (f x)) → raises_only P (filter_prog f l).
Proof.
  intros Hf. induction l as [|x l IH]; [apply raises_only_ret|]. simpl.
  apply raises_only_bind; [done|]. intros keep.
  apply raises_only_bind; [done|]. intros rest. apply raises_only_ret.
Qed.

(** Settles what a primitive operation raises by running through its
    cases. *)
Ltac raises_cases :=
  intros w e w'; prog_simpl; repeat case_match; naive_solver.

(** ** The console *)

(** A console of UTF-8 and one of Latin-1. *)
Program Definition utf8_console : Console := {|
  console_encode := utf8_encode;
  console_char c := bool_decide (scalar c);
|}.
Next Obligation.
  intros s. split.
  - intros [bs [Hs _]%utf8_encode_inr_iff]. eapply Forall_impl; [exact Hs|].
    intros c. apply bool_decide_pack.
  - intros Hs. exists (utf8_bytes s). apply utf8_encode_inr_iff. split; [|done].
    eapply Forall_impl; [exact Hs|]. intros c. apply bool_decide_unpack.
Qed.

Program Definition latin1_console : Console := {|
  console_encode := latin1_encode;
  console_char c := bool_decide (c < 256)%N;
|}.
Next Obligation.
  intros s. split.
  - intros [bs [Hs _]%charmap_encode_from_inv]. eapply Forall_impl; [exact Hs|].
    intros c. apply bool_decide_pack.
  - intros Hs. exists s. apply charmap_encode_from_inr.
    eapply Forall_impl; [exact Hs|]. intros c. apply bool_decide_unpack.
Qed.

Section console.
Context `{Console}.
Implicit Types (msg : str) (w : world).

Lemma print_inr msg w :
  printable msg → print msg w = (inr (), World (files w) (stdout w ++ [msg])).
Proof. intros [bs E]%console_encode_inr. unfold print. by rewrite E. Qed.

Lemma print_inv msg w w' :
  print msg w = (inr (), w') →
  printable msg ∧ w' = World (files w) (stdout w ++ [msg]).
Proof.
  unfold print. destruct (console_encode msg) as [e|bs] eqn:E; [done|].
  intros [= <-]. split; [|done]. apply console_encode_inr. by exists bs.
Qed.

(** A line that cannot be shown is an error of the codec, and nothing of
    it is shown. *)
Lemma print_inl msg e w w' :
  print msg w = (inl e, w') → encoding_error e ∧ ¬ printable msg ∧ w' = w.
Proof.
  unfold print. destruct (console_encode msg) as [err|bs] eqn:E; [|done].
  intros [= <- <-]. split_and!; try done.
  intros [bs E']%console_encode_inr. congruence.
Qed.

(** Printing leaves the files alone. *)
Lemma print_files msg r w w' : print msg w = (r, w') → files w' = files w.
Proof. destruct r as [e|[]]; [by intros (_ & _ & ->)%print_inl|by intros [_ ->]%print_inv]. Qed.

End console.

Section operations.
Implicit Types (p : path) (P : exn → Prop).

Lemma raises_only_print `{Console} msg : raises_only encoding_error (print msg).
Proof. intros w e w' (? & _)%print_inl. done. Qed.

Lemma raises_only_is_dir P p : raises_only P (is_dir p).
Proof. unfold is_dir. raises_cases. Qed.

Lemma raises_only_is_file P p : raises_only P (is_file p).
Proof. unfold is_file. raises_cases. Qed.

Lemma raises_only_read_file p : raises_only os_error (read_file p).
Proof. unfold read_file. raises_cases. Qed.

Lemma raises_only_write_file p data : raises_only os_error (write_file p data).
Proof. unfold write_file. raises_cases. Qed.

Lemma raises_only_resolve_name name : raises_only os_error (resolve_name name).
Proof. unfold resolve_name. raises_cases. Qed.

Lemma raises_only_iterdir `{Listing} p : raises_only os_error (iterdir p).
Proof. unfold iterdir. raises_cases. Qed.

Lemma mkdir_from_os_error target todo : ∀ made fs e,
  mkdir_from target made todo fs = inl e → os_error e.
Proof.
  induction todo as [|x todo IH]; intros made fs e; simpl; [done|].
  repeat case_match; eauto; by intros [= <-].
Qed.

Lemma raises_only_mkdir_parents p : raises_only os_error (mkdir_parents p).
Proof.
  intros w e w'. unfold mkdir_parents. prog_simpl.
  destruct (mkdir_from _ _ _ _) eqn:E; [|done]. intros [= <- _].
  by eapply mkdir_from_os_error.
Qed.

Lemma raises_only_open_read name : raises_only os_error (open_read name).
Proof.
  apply raises_only_bind; [apply raises_only_resolve_name|].
  intros p. apply raises_only_read_file.
Qed.

(** A failed write changes nothing, unless the text could not be encoded:
    then the file is left empty. *)
Lemma open_write_text_inl name text e w w' :
  open_write_text name text w = (inl e, w') →
  (os_error e ∧ w' = w)
  ∨ (∃ err, name ≠ [] ∧ utf8_encode text = inl err
       ∧ e = UnicodeEncodeError (err_start err) (err_stop err)
       ∧ write_file (Path name) [] w = (inr (), w')).
Proof.
  intros [Hr|(p & w1 & (? & -> & ->)%resolve_name_inv & Hrest)]%bind_inv_fails.
  { left. split; [by eapply raises_only_resolve_name|by eapply resolve_name_inl]. }
  apply bind_inv_fails in Hrest as [Hw|([] & w2 & Hw & Hrest)].
  { left. split; [by eapply raises_only_write_file|by eapply write_file_inl]. }
  destruct (utf8_encode text) as [err|data] eqn:E.
  - right. exists err. by injection Hrest as <- <-.
  - rewrite (write_file_twice _ [] _ _ _ Hw) in Hrest.
    apply write_file_inv in Hw as (? & ? & _).
    by rewrite write_file_inr in Hrest.
Qed.

Lemma open_write_text_wf name text r w w' :
  fs_wf (files w) → open_write_text name text w = (r, w') → fs_wf (files w').
Proof.
  intros Hwf Hrun. destruct r as [e|[]].
  - apply open_write_text_inl in Hrun as [[_ ->]|(err & _ & _ & _ & Hw)]; [done|].
    eapply write_file_wf; eauto with py.
  - apply open_write_text_inv in Hrun as (_ & data & _ & Hw).
    eapply write_file_wf; eauto with py.
Qed.

Lemma raises_only_open_write_text name text :
  raises_only (λ e, os_error e ∨ encoding_error e) (open_write_text name text).
Proof.
  intros w e w' [[? _]|(err & _ & _ & -> & _)]%open_write_text_inl; [by left|by right].
Qed.

End operations.

#[export] Hint Resolve raises_only_ret raises_only_print raises_only_is_dir
  raises_only_is_file raises_only_read_file raises_only_write_file
  raises_only_resolve_name raises_only_iterdir raises_only_mkdir_parents
  raises_only_open_read raises_only_open_write_text : py.
