(* ===== verification/Convert.v ===== *)
(** * Convert: one EPUB file to one text file

    [epub_to_txt] of [src/epub_to_txt.py]: the book is read, the text of
    each document in reading order is collected, the texts are joined by
    two line feeds, encoded and written to the target, and one line is
    printed.  The EPUB reader and the HTML parser are collaborators,
    known by what they return ([Collaborators]); [scalar_book] is what
    keeps the codec of the file from failing, and a console that shows
    the arrow of the report ([ARROW]) what keeps [print] from
    failing. *)

From stdpp Require Import list strings gmap.
From S2P Require Import Prelude PyStr Utf8 Soup Normalizer Extent Epub Spine Generator.
From S2P Require Import Pathlib FileSys.

Set Warnings "-clear-no-such-hyp".

(** What the converter asks of the libraries it calls: the book an
    archive holds, if it is one, and the tree of a markup document
    ([html.parser] accepts every input). *)
Class Collaborators := {
  parse_epub : list N → option book;
  html_parser : bytes → soup;
}.

(** What a conversion can raise: an error of the operating system, the
    error of the EPUB reader or the error of the codec. *)
Definition epub_error (e : exn) : bool :=
  match e with EpubError _ => true | _ => false end.

Definition conversion_error (e : exn) : bool :=
  os_error e || epub_error e || encoding_error e.

(** The separator of documents in the output. *)
Definition DOC_SEP : str := [Char.LF; Char.LF].

(** The arrow of the report, U+2192. *)
Definition ARROW : char := 8594%N.

(** The line printed after a conversion. *)
Definition converted_message (epub_path txt_path : str) : str :=
  py "Converted '" ++ epub_path ++ py "' " ++ [ARROW] ++ py " '" ++ txt_path
  ++ py "' (full book).".

Section convert.
Context `{Collaborators} `{Console}.

(** [epub.read_epub(epub_path)] *)
Definition read_epub (epub_path : str) : prog book :=
  data ← open_read epub_path;
  match parse_epub data with
  | Some b => mret b
  | None => raise (EpubError (Path epub_path))
  end.

(** The body of the loop: the text of one document. *)
Definition document_text (it : item) : str :=
  clean_text_preserving_gaps (html_parser (get_content it)).

Definition convert_step (text_content : list str) (it : item) : list str :=
  text_content ++ [document_text it].

(** [text_content] after the loop. *)
Definition text_content (b : book) : list str :=
  foldl convert_step [] (iter_documents_in_order b).

(** What is written. *)
Definition book_text (b : book) : str := join DOC_SEP (text_content b).

Definition epub_to_txt (epub_path txt_path : str) : prog unit :=
  b ← read_epub epub_path;
  open_write_text txt_path (book_text b);;
  print (converted_message epub_path txt_path).

(** The trees of the documents hold scalar values only: no character
    reference of the markup names a surrogate. *)
Definition scalar_book (b : book) : Prop :=
  Forall (λ it, Forall encodable (all_strings (html_parser (get_content it))))
         (iter_documents_in_order b).

#[export] Instance scalar_book_dec b : Decision (scalar_book b).
Proof. unfold scalar_book. apply _. Defined.

End convert.

(** ** A small instance

    Collaborators, a book and a world on which the theorems are run: the
    archive [PK] holds three documents, the second blank and the third
    outside the spine, the archives [PK2] and [PK3] hold one; a
    document's markup is taken as one paragraph, and the reference to
    the surrogate U+D800 in [PK3] as that code point, as [html.parser]
    takes it. *)

Definition demo_book : book :=
  Book [SpineId (py "a"); SpineTuple (py "b") [py "yes"]]
       [Item (py "c") ITEM_DOCUMENT (py "World");
        Item (py "a") ITEM_DOCUMENT (py " Hello ");
        Item (py "css") 0 (py "p {}");
        Item (py "b") ITEM_DOCUMENT (py "  ")].

Definition demo_collab : Collaborators := {|
  parse_epub data :=
    if decide (data = py "PK") then Some demo_book
    else if decide (data = py "PK2")
    then Some (Book [] [Item (py "x") ITEM_DOCUMENT (py "Other")])
    else if decide (data = py "PK3")
    then Some (Book [] [Item (py "s") ITEM_DOCUMENT (py "&#xD800;")])
    else None;
  html_parser content :=
    [Tag (py "p") []
       [NavigableString (if decide (content = py "&#xD800;") then [0xD800%N] else content)]];
|}.

(** A world where the archive [PK3] is in place and its target exists. *)
Definition surrogate_world : world :=
  World {[ [py "in"] := Dir; [py "in"; py "s.epub"] := File (py "PK3");
           [py "in"; py "s.txt"] := File (py "old") ]} [].

Definition demo_world : world :=
  World {[ [py "in"] := Dir; [py "in"; py "a.epub"] := File (py "PK");
           [py "in"; py "bad.epub"] := File (py "??") ]} [].

Section convert_lemmas.
Context `{Collaborators} `{Console}.
Implicit Types (b : book) (w : world) (it : item).

Lemma foldl_convert_step acc its :
  foldl convert_step acc its = acc ++ (document_text <$> its).
Proof.
  revert acc. induction its as [|it its IH]; intros acc; simpl.
  - by rewrite app_nil_r.
  - rewrite IH. unfold convert_step. by rewrite <-app_assoc.
Qed.

Lemma text_content_fmap b :
  text_content b = document_text <$> iter_documents_in_order b.
Proof. apply (foldl_convert_step []). Qed.

(** Every collected text is the text of a block. *)
Lemma document_text_block it :
  ∃ ls, text_block ls ∧ document_text it = join nl ls ∧ (document_text it ≠ [] → ls ≠ []).
Proof.
  unfold document_text, clean_text_preserving_gaps. eexists. split_and!.
  - apply block_text_block, splitlines_one_line.
  - apply clean_lines_block.
  - intros Hne E. apply Hne. by rewrite clean_lines_block, E.
Qed.

Lemma texts_blocks its :
  Forall (λ it, document_text it ≠ []) its →
  ∃ bs, Forall (λ ls, ls ≠ [] ∧ text_block ls) bs ∧ document_text <$> its = join nl <$> bs.
Proof.
  induction 1 as [|it its Hit _ (bs & Hbs & E)]; [by exists []|].
  destruct (document_text_block it) as (ls & Hb & El & Hne).
  exists (ls :: bs). split; [constructor; auto|]. rewrite !fmap_cons. congruence.
Qed.

(** What holds of the strings of every tree, and of the line feed, holds
    of the text of the book. *)
Lemma book_text_Forall (P : char → Prop) b :
  P LF →
  Forall (λ it, Forall (Forall P) (all_strings (html_parser (get_content it))))
         (iter_documents_in_order b) →
  Forall P (book_text b).
Proof.
  intros HLF Hb. apply join_Forall; [by repeat constructor|].
  rewrite text_content_fmap, Forall_fmap. eapply Forall_impl; [exact Hb|].
  intros it Hit. by apply clean_text_Forall.
Qed.

Lemma scalar_book_encodable b : scalar_book b → encodable (book_text b).
Proof. apply (book_text_Forall scalar). by_decide. Qed.

Lemma read_epub_inr epub_path data b w :
  epub_path ≠ [] → lookup_node (files w) (Path epub_path) = Some (File data) →
  parse_epub data = Some b → read_epub epub_path w = (inr b, w).
Proof.
  intros Hn Hp Hb. unfold read_epub.
  erewrite bind_succeeds by by eapply open_read_inr. by rewrite Hb.
Qed.

Lemma read_epub_inv epub_path b w w' :
  read_epub epub_path w = (inr b, w') →
  ∃ data, epub_path ≠ [] ∧ lookup_node (files w) (Path epub_path) = Some (File data)
          ∧ parse_epub data = Some b ∧ w' = w.
Proof.
  intros (data & w1 & (? & ? & ->)%open_read_inv & Hb)%bind_inv_succeeds.
  exists data. destruct (parse_epub data); prog_simpl; naive_solver.
Qed.

Lemma read_epub_inl epub_path e w w' : read_epub epub_path w = (inl e, w') → w' = w.
Proof.
  intros [?%open_read_inl|(data & w1 & (? & ? & ->)%open_read_inv & Hb)]%bind_inv_fails;
    [done|]. destruct (parse_epub data); prog_simpl; naive_solver.
Qed.

Lemma raises_only_read_epub epub_path :
  raises_only (λ e, os_error e ∨ epub_error e) (read_epub epub_path).
Proof.
  apply raises_only_bind.
  - eapply raises_only_mono; [|apply raises_only_open_read]. by left.
  - intros data. unfold read_epub. destruct (parse_epub data); [auto with py|].
    apply raises_only_raise. by right.
Qed.

Lemma converted_message_arrow epub_path txt_path :
  ARROW ∈ converted_message epub_path txt_path.
Proof. unfold converted_message. set_solver. Qed.

(** The report needs the arrow. *)
Lemma printable_converted_message epub_path txt_path :
  printable (converted_message epub_path txt_path) → console_char ARROW.
Proof.
  unfold printable. rewrite Forall_forall. intros Hp. apply Hp, converted_message_arrow.
Qed.

Lemma epub_to_txt_inr epub_path txt_path data b bs w :
  epub_path ≠ [] → txt_path ≠ [] →
  lookup_node (files w) (Path epub_path) = Some (File data) →
  parse_epub data = Some b →
  lookup_node (files w) (Path txt_path) ≠ Some Dir →
  lookup_node (files w) (parent (Path txt_path)) = Some Dir →
  utf8_encode (book_text b) = inr bs →
  printable (converted_message epub_path txt_path) →
  epub_to_txt epub_path txt_path w
  = (inr (), World (<[Path txt_path := File bs]> (files w))
                   (stdout w ++ [converted_message epub_path txt_path])).
Proof.
  intros He Ht Hsrc Hb Hdst Hpar Henc Hp. unfold epub_to_txt.
  erewrite bind_succeeds by by eapply read_epub_inr.
  erewrite bind_succeeds by by eapply open_write_text_inr.
  by rewrite print_inr.
Qed.

Lemma epub_to_txt_encode_fails epub_path txt_path data b err w :
  epub_path ≠ [] → txt_path ≠ [] →
  lookup_node (files w) (Path epub_path) = Some (File data) →
  parse_epub data = Some b →
  lookup_node (files w) (Path txt_path) ≠ Some Dir →
  lookup_node (files w) (parent (Path txt_path)) = Some Dir →
  utf8_encode (book_text b) = inl err →
  epub_to_txt epub_path txt_path w
  = (inl (UnicodeEncodeError (err_start err) (err_stop err)),
     World (<[Path txt_path := File []]> (files w)) (stdout w)).
Proof.
  intros He Ht Hsrc Hb Hdst Hpar Henc. unfold epub_to_txt.
  erewrite bind_succeeds by by eapply read_epub_inr.
  by erewrite bind_fails by by eapply open_write_text_encode_fails.
Qed.

(** The report that cannot be shown: the text is written, then [print]
    raises. *)
Lemma epub_to_txt_print_fails epub_path txt_path data b bs w :
  epub_path ≠ [] → txt_path ≠ [] →
  lookup_node (files w) (Path epub_path) = Some (File data) →
  parse_epub data = Some b →
  lookup_node (files w) (Path txt_path) ≠ Some Dir →
  lookup_node (files w) (parent (Path txt_path)) = Some Dir →
  utf8_encode (book_text b) = inr bs →
  ¬ printable (converted_message epub_path txt_path) →
  ∃ e, encoding_error e ∧
    epub_to_txt epub_path txt_path w
    = (inl e, World (<[Path txt_path := File bs]> (files w)) (stdout w)).
Proof.
  intros He Ht Hsrc Hb Hdst Hpar Henc Hp. unfold epub_to_txt.
  erewrite bind_succeeds by by eapply read_epub_inr.
  erewrite bind_succeeds by by eapply open_write_text_inr.
  destruct (print (converted_message epub_path txt_path)
              (World (<[Path txt_path := File bs]> (files w)) (stdout w)))
    as [[e|[]] w1] eqn:E.
  - apply print_inl in E as (? & _ & ->). by exists e.
  - by apply print_inv in E as [? _].
Qed.

Lemma epub_to_txt_inv epub_path txt_path w w' :
  epub_to_txt epub_path txt_path w = (inr (), w') →
  ∃ data b bs,
    write_file (Path txt_path) bs w = (inr (), World (files w') (stdout w)) ∧
    utf8_encode (book_text b) = inr bs ∧
    epub_path ≠ [] ∧ txt_path ≠ [] ∧
    lookup_node (files w) (Path epub_path) = Some (File data) ∧
    parse_epub data = Some b ∧
    printable (converted_message epub_path txt_path) ∧
    stdout w' = stdout w ++ [converted_message epub_path txt_path].
Proof.
  intros (b & w1 & (data & ? & Hsrc & Hb & ->)%read_epub_inv & Hrest)%bind_inv_succeeds.
  apply bind_inv_succeeds in Hrest as ([] & w2 & (? & bs & ? & Hw)%open_write_text_inv & Hp).
  exists data, b, bs. apply print_inv in Hp as [? ->].
  pose proof (write_file_inv _ _ _ _ Hw) as (_ & _ & ->). by split_and!.
Qed.

(** A conversion that succeeds has shown the arrow of its report. *)
Lemma epub_to_txt_inr_arrow epub_path txt_path w w' :
  epub_to_txt epub_path txt_path w = (inr (), w') → console_char ARROW.
Proof.
  intros (? & ? & ? & _ & _ & _ & _ & _ & _ & Hp & _)%epub_to_txt_inv.
  by apply printable_converted_message in Hp.
Qed.

(** A conversion fails before anything is written, or with the error of
    a codec after the target was opened: when the text is encoded, the
    target left empty, or when the report is printed, the target
    complete. *)
Lemma epub_to_txt_inl epub_path txt_path e w w' :
  epub_to_txt epub_path txt_path w = (inl e, w') →
  (encoding_error e = false ∧ w' = w)
  ∨ ∃ data b bs,
      epub_path ≠ [] ∧ txt_path ≠ [] ∧
      lookup_node (files w) (Path epub_path) = Some (File data) ∧
      parse_epub data = Some b ∧
      encoding_error e ∧
      write_file (Path txt_path) bs w = (inr (), w') ∧
      ((∃ err, utf8_encode (book_text b) = inl err ∧ bs = []
               ∧ e = UnicodeEncodeError (err_start err) (err_stop err))
       ∨ (utf8_encode (book_text b) = inr bs
          ∧ ¬ printable (converted_message epub_path txt_path))).
Proof.
  intros [Hr|(b & w1 & (data & ? & ? & ? & ->)%read_epub_inv & Hrest)]%bind_inv_fails.
  { left. split; [|by eapply read_epub_inl].
    apply raises_only_read_epub in Hr as [?|?]; by destruct e. }
  apply bind_inv_fails in Hrest as [Hw|([] & w2 & (? & bs & ? & Hw)%open_write_text_inv & Hp)].
  - apply open_write_text_inl in Hw as [[? ->]|(err & ? & ? & -> & ?)].
    + left. by destruct e.
    + right. exists data, b, []. split_and!; try done. left. by exists err.
  - apply print_inl in Hp as (? & ? & ->). right. exists data, b, bs.
    split_and!; try done. by right.
Qed.

Lemma epub_to_txt_wf epub_path txt_path r w w' :
  fs_wf (files w) → epub_to_txt epub_path txt_path w = (r, w') → fs_wf (files w').
Proof.
  intros Hwf Hrun. destruct r as [e|[]].
  - apply epub_to_txt_inl in Hrun as [[_ ->]|(? & ? & ? & _ & _ & _ & _ & _ & Hw & _)];
      [done|].
    apply (write_file_wf _ _ _ _ Hwf) in Hw; auto with py.
  - apply epub_to_txt_inv in Hrun as (data & b & bs & Hw & _).
    apply (write_file_wf _ _ _ _ Hwf) in Hw; auto with py.
Qed.

Lemma raises_only_epub_to_txt epub_path txt_path :
  raises_only conversion_error (epub_to_txt epub_path txt_path).
Proof.
  apply raises_only_bind; [|intros b].
  { eapply raises_only_mono; [|apply raises_only_read_epub].
    intros e [?|?]; unfold conversion_error; by destruct e. }
  apply raises_only_bind; [|intros []].
  - eapply raises_only_mono; [|apply raises_only_open_write_text].
    intros e [?|?]; unfold conversion_error; by destruct e.
  - eapply raises_only_mono; [|apply raises_only_print]. by intros [].
Qed.

End convert_lemmas.

(** ** Theorems *)

Section convert_theorems.
Context `{Collaborators} `{Console}.
Implicit Types (b : book) (w : world) (epub_path txt_path : str).

(** The loop of [epub_to_txt] collects one text for each document
    the spine resolver yields, in the order it yields them. *)
Theorem text_content_in_order b :
  text_content b = document_text <$> iter_documents_in_order b.
Proof. apply text_content_fmap. Qed.

(** C6: a conversion succeeds exactly when the source names a file that
    holds a book, the target names a place that can be written (not a
    directory, inside a directory), the text of the book can be encoded
    and the console can show the report; the target then holds the UTF-8
    encoding of the texts of the documents joined by two line feeds, the
    line of the report is printed, and nothing else changes. *)
Theorem epub_to_txt_success epub_path txt_path w w' :
  epub_to_txt epub_path txt_path w = (inr (), w') ↔
  ∃ data b bs,
    epub_path ≠ [] ∧ txt_path ≠ [] ∧
    lookup_node (files w) (Path epub_path) = Some (File data) ∧
    parse_epub data = Some b ∧
    lookup_node (files w) (Path txt_path) ≠ Some Dir ∧
    lookup_node (files w) (parent (Path txt_path)) = Some Dir ∧
    utf8_encode (book_text b) = inr bs ∧
    printable (converted_message epub_path txt_path) ∧
    w' = World (<[Path txt_path := File bs]> (files w))
               (stdout w ++ [converted_message epub_path txt_path]).
Proof.
  split.
  - intros (data & b & bs & (? & ? & [= E])%write_file_inv & ? & ? & ? & ? & ? & ? & Ho)
      %epub_to_txt_inv.
    exists data, b, bs. split_and!; try done. destruct w'. simpl in *. congruence.
  - intros (data & b & bs & ? & ? & ? & ? & ? & ? & ? & ? & ->). by eapply epub_to_txt_inr.
Qed.

(** A conversion that fails with anything but the error of a codec
    leaves no trace: no file is written and nothing is printed. *)
Theorem epub_to_txt_failure_atomic epub_path txt_path e w w' :
  epub_to_txt epub_path txt_path w = (inl e, w') → encoding_error e = false → w' = w.
Proof.
  intros [[_ ->]|(? & ? & ? & _ & _ & _ & _ & He & _)]%epub_to_txt_inl Hf; [done|].
  by rewrite Hf in He.
Qed.

(** C21: a conversion fails with the error of a codec in exactly two
    ways, both after the book is read and the target opened.  Either the
    text of the book cannot be encoded (it holds a surrogate): the target
    is left as an empty file, and what it held before is lost.  Or the
    console cannot show the report: the target holds the whole text, and
    the conversion fails all the same.  Nothing is printed in either
    case. *)
Theorem epub_to_txt_encode_error epub_path txt_path w w' :
  (∃ e, encoding_error e ∧ epub_to_txt epub_path txt_path w = (inl e, w')) ↔
  ∃ data b bs,
    epub_path ≠ [] ∧ txt_path ≠ [] ∧
    lookup_node (files w) (Path epub_path) = Some (File data) ∧
    parse_epub data = Some b ∧
    lookup_node (files w) (Path txt_path) ≠ Some Dir ∧
    lookup_node (files w) (parent (Path txt_path)) = Some Dir ∧
    w' = World (<[Path txt_path := File bs]> (files w)) (stdout w) ∧
    ((∃ err, utf8_encode (book_text b) = inl err ∧ bs = [])
     ∨ (utf8_encode (book_text b) = inr bs
        ∧ ¬ printable (converted_message epub_path txt_path))).
Proof.
  split.
  - intros (e & He & [[Hf _]|(data & b & bs & ? & ? & ? & ? & _ & Hw & Hc)]%epub_to_txt_inl).
    { by rewrite Hf in He. }
    pose proof (write_file_inv _ _ _ _ Hw) as (? & ? & ->).
    exists data, b, bs. split_and!; try done. destruct Hc as [(err & ? & ? & _)|?]; eauto.
  - intros (data & b & bs & ? & ? & ? & ? & ? & ? & -> & [(err & ? & ->)|[? ?]]).
    + eexists. split; [|by eapply epub_to_txt_encode_fails]. done.
    + destruct (epub_to_txt_print_fails epub_path txt_path data b bs w) as (e & ? & ?);
        eauto.
Qed.

(** C22: the report of a conversion holds the arrow U+2192, so on a
    console whose codec has no such character (Latin-1, ASCII, a legacy
    code page) no conversion ever succeeds: where it would have, the
    text is written in full and then [print] raises; nothing is
    printed. *)
Theorem epub_to_txt_needs_arrow epub_path txt_path data b bs w :
  console_char ARROW = false →
  epub_path ≠ [] → txt_path ≠ [] →
  lookup_node (files w) (Path epub_path) = Some (File data) →
  parse_epub data = Some b →
  lookup_node (files w) (Path txt_path) ≠ Some Dir →
  lookup_node (files w) (parent (Path txt_path)) = Some Dir →
  utf8_encode (book_text b) = inr bs →
  ∃ e, encoding_error e ∧
    epub_to_txt epub_path txt_path w
    = (inl e, World (<[Path txt_path := File bs]> (files w)) (stdout w)).
Proof.
  intros Ha ???????. apply (epub_to_txt_print_fails _ _ data b); try done.
  intros Hp%printable_converted_message. by rewrite Ha in Hp.
Qed.

(** A book without surrogates is safe on a console that shows the
    report: when the trees of its documents hold scalar values only, its
    conversion never raises the error of a codec, and a conversion that
    fails leaves no trace. *)
Theorem epub_to_txt_scalar_book epub_path txt_path data b e w w' :
  lookup_node (files w) (Path epub_path) = Some (File data) →
  parse_epub data = Some b → scalar_book b →
  printable (converted_message epub_path txt_path) →
  epub_to_txt epub_path txt_path w = (inl e, w') →
  encoding_error e = false ∧ w' = w.
Proof.
  intros Hsrc Hb Hs%scalar_book_encodable%(utf8_encode_from_inr _ 0) Hp.
  intros [?|(data' & b' & bs & _ & _ & ? & ? & _ & _ & Hc)]%epub_to_txt_inl; [done|].
  simplify_eq. unfold utf8_encode in Hc. destruct Hc as [(err & ? & _)|[_ ?]]; [congruence|done].
Qed.

(** What a conversion writes can be read back: the target holds
    bytes, at most four for each code point of the text, and decoding
    them as UTF-8 gives the text of the book. *)
Theorem epub_to_txt_round_trip epub_path txt_path w w' :
  epub_to_txt epub_path txt_path w = (inr (), w') →
  ∃ data b bs,
    lookup_node (files w) (Path epub_path) = Some (File data) ∧
    parse_epub data = Some b ∧
    lookup_node (files w') (Path txt_path) = Some (File bs) ∧
    Forall is_byte bs ∧ length bs ≤ 4 * length (book_text b) ∧
    utf8_decode bs = Some (book_text b).
Proof.
  intros (data & b & bs & (Hp & _ & [= E])%write_file_inv & Henc & _ & _ & ? & ? & _)
    %epub_to_txt_inv.
  destruct (utf8_encode_from_bounds _ _ _ Henc) as [? [_ ?]].
  exists data, b, bs. split_and!; try done; [|by eapply utf8_decode_encode_from].
  rewrite E. apply lookup_node_insert. intros Hr. by rewrite lookup_node_root in Hp.
Qed.

(** The loop of [epub_to_txt] runs over a generator: the body of the
    loop and the steps of the resolver alternate.  Run that way, with
    the fuel of the resolver, the loop ends and has collected the texts
    of the documents in the order of the list. *)
Theorem text_content_interleaved b :
  gen_fold convert_step b (S (gen_fuel b)) (gen_start b) [] = Some (text_content b).
Proof.
  apply gen_fold_steps; [apply gen_steps_iter_documents|].
  pose proof (gen_fuel_enough b). lia.
Qed.

(** A conversion keeps the file system well formed, whether it
    succeeds or fails. *)
Theorem epub_to_txt_keeps_wf epub_path txt_path r w w' :
  fs_wf (files w) → epub_to_txt epub_path txt_path w = (r, w') → fs_wf (files w').
Proof. apply epub_to_txt_wf. Qed.

(** C19: when no document is blank, the text of the book is itself a
    normalized text: no empty line first or last, no two empty lines in a
    row, and normalizing it again changes nothing. *)
Theorem book_text_normal b :
  Forall (λ t, t ≠ []) (text_content b) →
  text_block (splitlines (book_text b)) ∧ clean_lines (book_text b) = book_text b.
Proof.
  rewrite text_content_fmap, Forall_fmap. intros (bs & Hbs & E)%texts_blocks.
  unfold book_text. rewrite text_content_fmap, E.
  destruct (decide (bs = [])) as [->|Hne].
  { split; [|done]. by_decide. }
  assert (Forall (λ g : list str, g ≠ []) bs) as Hg.
  { eapply Forall_impl; [exact Hbs|]. by intros ? [? _]. }
  change DOC_SEP with (nl ++ nl). rewrite <-(join_join nl bs Hg).
  pose proof (text_block_join bs Hbs Hne) as Hb. pose proof Hb as (_ & Ho & _ & Hl & _).
  split; [by rewrite splitlines_join|by rewrite clean_lines_join, block_fixed].
Qed.


End convert_theorems.

(** The conversion of the instance, run. *)
Example epub_to_txt_demo :
  @epub_to_txt demo_collab utf8_console (py "in/a.epub") (py "in/a.txt") demo_world
  = (inr (), World (<[ [py "in"; py "a.txt"] := File (py "Hello" ++ [LF; LF; LF; LF] ++ py "World") ]>
                      (files demo_world))
                   [py "Converted 'in/a.epub' " ++ [8594%N] ++ py " 'in/a.txt' (full book)."]).
Proof.
by_compute. Qed.

Lemma epub_to_txt_failure_atomic_witness :
  snd (@epub_to_txt demo_collab utf8_console (py "in/bad.epub") (py "out.txt") demo_world) = demo_world.
Proof.
  apply (@epub_to_txt_failure_atomic demo_collab utf8_console (py "in/bad.epub") (py "out.txt")
           (EpubError (Path (py "in/bad.epub")))); by_compute.
Defined.

(** The conversion of a book with a lone surrogate, run: the error names
    the code point, the old target is emptied. *)
Example epub_to_txt_surrogate_demo :
  @epub_to_txt demo_collab utf8_console (py "in/s.epub") (py "in/s.txt") surrogate_world
  = (inl (UnicodeEncodeError 0 1),
     World (<[ [py "in"; py "s.txt"] := File [] ]> (files surrogate_world)) []).
Proof.
by_compute. Qed.

(** The same conversion on a Latin-1 console: the text is written, the
    report is not printed, and the error names the arrow in the line. *)
Example epub_to_txt_latin1_demo :
  @epub_to_txt demo_collab latin1_console (py "in/a.epub") (py "in/a.txt") demo_world
  = (inl (UnicodeEncodeError 22 23),
     World (<[ [py "in"; py "a.txt"] := File (py "Hello" ++ [LF; LF; LF; LF] ++ py "World") ]>
              (files demo_world)) []).
Proof.
by_compute. Qed.

Lemma epub_to_txt_needs_arrow_witness :
  ∃ e, encoding_error e ∧
    @epub_to_txt demo_collab latin1_console (py "in/a.epub") (py "in/a.txt") demo_world
    = (inl e, World (<[Path (py "in/a.txt") := File (py "Hello" ++ [LF; LF; LF; LF] ++ py "World")]>
                       (files demo_world)) (stdout demo_world)).
Proof.
  apply (@epub_to_txt_needs_arrow demo_collab latin1_console (py "in/a.epub") (py "in/a.txt")
           (py "PK") demo_book); by_compute.
Defined.

Lemma epub_to_txt_scalar_book_witness :
  encoding_error (FileNotFoundError [py "out"; py "a.txt"]) = false
  ∧ snd (@epub_to_txt demo_collab utf8_console (py "in/a.epub") (py "out/a.txt") demo_world) = demo_world.
Proof.
  apply (@epub_to_txt_scalar_book demo_collab utf8_console (py "in/a.epub") (py "out/a.txt") (py "PK")
           demo_book); [by_compute..|by_decide|by_decide|by_compute].
Defined.

Lemma epub_to_txt_round_trip_witness :
  ∃ data b bs,
    lookup_node (files demo_world) (Path (py "in/a.epub")) = Some (File data) ∧
    @parse_epub demo_collab data = Some b ∧
    lookup_node
      (files (snd (@epub_to_txt demo_collab utf8_console (py "in/a.epub") (py "in/a.txt") demo_world)))
      (Path (py "in/a.txt")) = Some (File bs) ∧
    Forall is_byte bs ∧ length bs ≤ 4 * length (@book_text demo_collab b) ∧
    utf8_decode bs = Some (@book_text demo_collab b).
Proof.
  apply (@epub_to_txt_round_trip demo_collab utf8_console (py "in/a.epub") (py "in/a.txt") demo_world).
  by_compute.
Defined.

Lemma epub_to_txt_keeps_wf_witness :
  fs_wf (files (snd (@epub_to_txt demo_collab utf8_console (py "in/a.epub") (py "in/a.txt") demo_world))).
Proof.
  apply (@epub_to_txt_keeps_wf demo_collab utf8_console (py "in/a.epub") (py "in/a.txt")
           (fst (@epub_to_txt demo_collab utf8_console (py "in/a.epub") (py "in/a.txt") demo_world))
           demo_world).
  - by_decide.
  - by destruct (epub_to_txt _ _ _).
Defined.

Lemma book_text_normal_witness :
  text_block (splitlines (@book_text demo_collab (Book [] (take 2 (items demo_book)))))
  ∧ clean_lines (@book_text demo_collab (Book [] (take 2 (items demo_book))))
    = @book_text demo_collab (Book [] (take 2 (items demo_book))).
Proof.
  apply (@book_text_normal demo_collab (Book [] (take 2 (items demo_book)))).
  by_decide.
Defined.

