(* ===== verification/Steps.v ===== *)
(** * Steps: a conversion, one effect at a time

    [epub_to_txt] of [src/epub_to_txt.py] (lines 49-61) as a transition
    system.  A [point] is a place of the function between two effects:
    before the book is read (line 50), before the target is opened (line
    58), before the text is encoded (line 59), while the bytes reach the
    file, before the report is printed (line 61), and the two ways the
    function ends.  [conv_step] is one effect; the bytes of the text
    reach the file in chunks of any size, as the buffers of the library
    and the system decide.  [conv_next] is the stepper that writes a
    fixed number of bytes at a time and [conv_run] runs it.

    The theorems relate the steps to the function of [Convert]: every
    run ends, and ends in what [epub_to_txt] returns, however the bytes
    were cut into chunks; no state is stuck; and at every point of a run
    the target holds a part of the text, from its start, and nothing
    else has changed. *)

From stdpp Require Import list strings gmap relations.
From S2P Require Import Prelude PyStr Utf8 Epub Pathlib FileSys Convert.

Set Warnings "-clear-no-such-hyp".

(** The points of a conversion. *)
Inductive point :=
| AtRead
| AtOpen (b : book)
| AtWrite (b : book)
| AtFlush (pending : list N)
| AtPrint
| Returned
| Raised (e : exn).

#[export] Instance point_eq_dec : EqDecision point.
Proof. solve_decision. Defined.

(** Where a call leads: on, or to the exception it raised. *)
Definition after {A} (r : exn + A) (k : A → point) : point :=
  match r with
  | inr a => k a
  | inl e => Raised e
  end.

(** The point a conversion ends in. *)
Definition ended (r : exn + unit) : point := after r (λ _, Returned).

Definition final (pt : point) : bool :=
  match pt with
  | Returned | Raised _ => true
  | _ => false
  end.

Section conversion.
Context `{Collaborators} `{Console} (epub_path txt_path : str).

(** Line 59, [f.write(...)]: the text is encoded as a whole before any
    byte is written. *)
Definition encoded (b : book) : point :=
  match utf8_encode (book_text b) with
  | inr bs => AtFlush bs
  | inl e => Raised (UnicodeEncodeError (err_start e) (err_stop e))
  end.

(** Line 59, on the way to the file: bytes of the text are added to the
    target. *)
Definition write_chunk (chunk : list N) : prog unit :=
  append_file (Path txt_path) chunk.

Inductive conv_step : relation (point * world) :=
| step_read r w w' :
    read_epub epub_path w = (r, w') →
    conv_step (AtRead, w) (after r AtOpen, w')
| step_open b r w w' :
    open_target txt_path w = (r, w') →
    conv_step (AtOpen b, w) (after r (λ _, AtWrite b), w')
| step_encode b w :
    conv_step (AtWrite b, w) (encoded b, w)
| step_flush chunk rest r w w' :
    chunk ≠ [] → write_chunk chunk w = (r, w') →
    conv_step (AtFlush (chunk ++ rest), w) (after r (λ _, AtFlush rest), w')
| step_close w :
    conv_step (AtFlush [], w) (AtPrint, w)
| step_print r w w' :
    print (converted_message epub_path txt_path) w = (r, w') →
    conv_step (AtPrint, w) (ended r, w').

(** The stepper that writes [S n] bytes at a time. *)
Definition conv_next (n : nat) (c : point * world) : option (point * world) :=
  let '(pt, w) := c in
  match pt with
  | AtRead => let '(r, w') := read_epub epub_path w in Some (after r AtOpen, w')
  | AtOpen b => let '(r, w') := open_target txt_path w in Some (after r (λ _, AtWrite b), w')
  | AtWrite b => Some (encoded b, w)
  | AtFlush [] => Some (AtPrint, w)
  | AtFlush pending =>
    let '(r, w') := write_chunk (take (S n) pending) w in
    Some (after r (λ _, AtFlush (drop (S n) pending)), w')
  | AtPrint =>
    let '(r, w') := print (converted_message epub_path txt_path) w in Some (ended r, w')
  | Returned | Raised _ => None
  end.

Definition conv_run (n fuel : nat) (c : point * world) : point * world :=
  iterate (conv_next n) fuel c.

(** ** Specification *)

(** The bytes of the text of the book the source holds. *)
Definition text_size (w : world) : nat :=
  match read_epub epub_path w with
  | (inr b, _) => length (utf8_bytes (book_text b))
  | _ => 0
  end.

(** The steps a conversion has left, at most. *)
Definition conv_size (c : point * world) : nat :=
  match c.1 with
  | AtRead => 5 + text_size c.2
  | AtOpen b => 4 + length (utf8_bytes (book_text b))
  | AtWrite b => 3 + length (utf8_bytes (book_text b))
  | AtFlush pending => 2 + length pending
  | AtPrint => 1
  | Returned | Raised _ => 0
  end.

(** What a point of a run that started in [w0] knows. *)
Definition conv_inv (w0 : world) (c : point * world) : Prop :=
  match c.1 with
  | AtRead => c.2 = w0
  | AtOpen b => c.2 = w0 ∧ read_epub epub_path w0 = (inr b, w0)
  | AtWrite b =>
    read_epub epub_path w0 = (inr b, w0) ∧ open_target txt_path w0 = (inr (), c.2)
  | AtFlush pending =>
    ∃ b done w1,
      read_epub epub_path w0 = (inr b, w0) ∧ open_target txt_path w0 = (inr (), w1) ∧
      utf8_encode (book_text b) = inr (done ++ pending) ∧
      c.2 = World (<[Path txt_path := File done]> (files w0)) (stdout w0)
  | AtPrint =>
    ∃ b bs w1,
      read_epub epub_path w0 = (inr b, w0) ∧ open_target txt_path w0 = (inr (), w1) ∧
      utf8_encode (book_text b) = inr bs ∧
      c.2 = World (<[Path txt_path := File bs]> (files w0)) (stdout w0)
  | Returned => epub_to_txt epub_path txt_path w0 = (inr (), c.2)
  | Raised e => epub_to_txt epub_path txt_path w0 = (inl e, c.2)
  end.

(** The files of a conversion that is under way: those it started with,
    but for the target, which holds the text of the book up to some
    byte. *)
Definition partly_written (w0 w : world) : Prop :=
  files w = files w0
  ∨ ∃ b done,
      read_epub epub_path w0 = (inr b, w0) ∧
      done `prefix_of` utf8_bytes (book_text b) ∧
      files w = <[Path txt_path := File done]> (files w0).

End conversion.

Section conversion_lemmas.
Context `{Collaborators} `{Console} (epub_path txt_path : str).
Implicit Types (c : point * world) (w : world) (b : book) (pt : point).

(** ** The function, from each of its points *)

Lemma epub_to_txt_read_fails e w w' :
  read_epub epub_path w = (inl e, w') → epub_to_txt epub_path txt_path w = (inl e, w').
Proof. intros Hr. unfold epub_to_txt. by erewrite bind_fails. Qed.

Lemma epub_to_txt_open_fails b e w w' :
  read_epub epub_path w = (inr b, w) → open_target txt_path w = (inl e, w') →
  epub_to_txt epub_path txt_path w = (inl e, w').
Proof.
  intros Hr Ho. unfold epub_to_txt. erewrite bind_succeeds by exact Hr.
  by erewrite bind_fails by by apply open_write_text_open_fails.
Qed.

Lemma epub_to_txt_not_encoded b err w w1 :
  read_epub epub_path w = (inr b, w) → open_target txt_path w = (inr (), w1) →
  utf8_encode (book_text b) = inl err →
  epub_to_txt epub_path txt_path w
  = (inl (UnicodeEncodeError (err_start err) (err_stop err)), w1).
Proof.
  intros (data & ? & ? & ? & _)%read_epub_inv (? & ? & ? & ->)%open_target_inv Henc.
  by eapply epub_to_txt_encode_fails.
Qed.

Lemma epub_to_txt_written b bs w w1 :
  read_epub epub_path w = (inr b, w) → open_target txt_path w = (inr (), w1) →
  utf8_encode (book_text b) = inr bs →
  epub_to_txt epub_path txt_path w
  = print (converted_message epub_path txt_path)
      (World (<[Path txt_path := File bs]> (files w)) (stdout w)).
Proof.
  intros Hr (? & ? & ? & _)%open_target_inv Henc. unfold epub_to_txt.
  erewrite bind_succeeds by exact Hr.
  by erewrite bind_succeeds by by apply open_write_text_inr.
Qed.

(** ** The steps keep what a point knows *)

Lemma conv_inv_start w : conv_inv epub_path txt_path w (AtRead, w).
Proof. done. Qed.

Lemma conv_step_inv w0 c c' :
  conv_inv epub_path txt_path w0 c → conv_step epub_path txt_path c c' →
  conv_inv epub_path txt_path w0 c'.
Proof.
  intros Hc Hstep. destruct Hstep as [r w w' Hr|b r w w' Ho|b w|chunk rest r w w' Hne Ha|w|r w w' Hp];
    unfold conv_inv in *; simpl in *.
  - subst w. destruct r as [e|b]; simpl; [by apply epub_to_txt_read_fails|].
    by apply read_epub_inv in Hr as Hr'; destruct Hr' as (_ & _ & _ & _ & ->).
  - destruct Hc as [-> Hr]. destruct r as [e|[]]; simpl; [by eapply epub_to_txt_open_fails|done].
  - destruct Hc as [Hr Ho]. unfold encoded.
    destruct (utf8_encode (book_text b)) as [err|bs] eqn:Henc; simpl.
    + by eapply epub_to_txt_not_encoded.
    + exists b, [], w. by apply open_target_inv in Ho as Ho'; destruct Ho' as (_ & _ & _ & ->).
  - destruct Hc as (b & done & w1 & Hr & Ho & Henc & ->).
    unfold write_chunk in Ha.
    rewrite (append_file_inr _ done) in Ha by apply lookup_insert_eq. injection Ha as <- <-.
    simpl. exists b, (done ++ chunk), w1. by rewrite <-app_assoc, insert_insert_eq.
  - destruct Hc as (b & done & w1 & Hr & Ho & Henc & ->). rewrite app_nil_r in Henc.
    by exists b, done, w1.
  - destruct Hc as (b & bs & w1 & Hr & Ho & Henc & ->).
    rewrite <-(epub_to_txt_written b bs _ w1) in Hp by done. by destruct r as [e|[]].
Qed.

Lemma conv_steps_inv w : ∀ c,
  rtc (conv_step epub_path txt_path) (AtRead, w) c → conv_inv epub_path txt_path w c.
Proof.
  apply (rtc_ind_r (R := conv_step epub_path txt_path) (conv_inv epub_path txt_path w));
    [done|]. intros c1 c2 _ Hstep Hc1. by eapply conv_step_inv.
Qed.

(** ** The steps are the steps of the stepper, and every step is one
    step nearer to the end *)

Lemma conv_next_step n c c' :
  conv_next epub_path txt_path n c = Some c' → conv_step epub_path txt_path c c'.
Proof.
  destruct c as [[| | |[|x pending]| | |] w]; simpl; try done.
  - destruct (read_epub _ _) as [r w'] eqn:E. intros [= <-]. by constructor.
  - destruct (open_target _ _) as [r w'] eqn:E. intros [= <-]. by constructor.
  - intros [= <-]. constructor.
  - intros [= <-]. constructor.
  - destruct (write_chunk _ _ _) as [r w'] eqn:E. intros [= <-].
    rewrite <-(take_drop n pending) at 1. by apply (step_flush _ _ (x :: take n pending)).
  - destruct (print _ _) as [r w'] eqn:E. intros [= <-]. by constructor.
Qed.

Lemma conv_next_None n c : conv_next epub_path txt_path n c = None ↔ final c.1.
Proof.
  destruct c as [[| | |[|x pending]| | |] w]; simpl; try done.
  - by destruct (read_epub _ _).
  - by destruct (open_target _ _).
  - by destruct (write_chunk _ _ _).
  - by destruct (print _ _).
Qed.

Lemma final_nf c : final c.1 → nf (conv_step epub_path txt_path) c.
Proof. intros Hf [c' Hstep]. by destruct Hstep. Qed.

Lemma conv_step_size c c' :
  conv_step epub_path txt_path c c' → conv_size epub_path c' < conv_size epub_path c.
Proof.
  intros [r w w' Hr|b r w w' Ho|b w|chunk rest r w w' Hne Ha|w|r w w' Hp];
    unfold conv_size, text_size, encoded; simpl.
  - rewrite Hr. destruct r; simpl; lia.
  - destruct r; simpl; lia.
  - destruct (utf8_encode (book_text b)) as [err|bs] eqn:Henc; simpl; [lia|].
    apply utf8_encode_inr_iff in Henc as [_ ->]. lia.
  - rewrite length_app. destruct chunk; [done|]. destruct r; simpl; lia.
  - lia.
  - destruct r; simpl; lia.
Qed.

Lemma conv_step_sn c : sn (conv_step epub_path txt_path) c.
Proof. apply (sn_measure _ (conv_size epub_path)), conv_step_size. Qed.

Lemma conv_run_steps n fuel c :
  rtc (conv_step epub_path txt_path) c (conv_run epub_path txt_path n fuel c).
Proof. apply iterate_steps, conv_next_step. Qed.

Lemma conv_run_final n fuel c :
  conv_size epub_path c ≤ fuel → final (conv_run epub_path txt_path n fuel c).1.
Proof.
  intros Hc. apply (conv_next_None n).
  eapply iterate_measure; [apply conv_next_step|apply conv_step_size|done].
Qed.

(** A point that is an end knows the result of the function. *)
Lemma conv_inv_final w0 c :
  conv_inv epub_path txt_path w0 c → final c.1 →
  c = (ended (epub_to_txt epub_path txt_path w0).1, (epub_to_txt epub_path txt_path w0).2).
Proof.
  destruct c as [[] w]; unfold conv_inv; simpl; try done; by intros ->.
Qed.

(** The function is a run of the steps. *)
Lemma conv_steps_complete r w w' :
  epub_to_txt epub_path txt_path w = (r, w') →
  rtc (conv_step epub_path txt_path) (AtRead, w) (ended r, w').
Proof.
  intros Hrun.
  set (c := conv_run epub_path txt_path 0 (conv_size epub_path (AtRead, w)) (AtRead, w)).
  assert (c = (ended r, w')) as <-; [|apply conv_run_steps].
  rewrite (conv_inv_final w c), Hrun; [done|..].
  - apply conv_steps_inv, conv_run_steps.
  - by apply conv_run_final.
Qed.

(** What a point knows of the files and of the lines printed. *)
Lemma conv_inv_files w0 c :
  conv_inv epub_path txt_path w0 c → partly_written epub_path txt_path w0 c.2.
Proof.
  destruct c as [pt w]. unfold conv_inv, partly_written. simpl.
  destruct pt as [|b|b|pending| | |e].
  - intros ->. by left.
  - intros [-> _]. by left.
  - intros [Hr (_ & _ & _ & ->)%open_target_inv]. right. exists b, []. split_and!; try done.
    apply prefix_nil.
  - intros (b & done & w1 & Hr & _ & [_ E]%utf8_encode_inr_iff & ->). right. exists b, done.
    split_and!; try done. rewrite <-E. by apply prefix_app_r.
  - intros (b & bs & w1 & Hr & _ & [_ ->]%utf8_encode_inr_iff & ->). right.
    by exists b, (utf8_bytes (book_text b)).
  - intros (data & b & bs & (_ & _ & [= ->])%write_file_inv & [_ ->]%utf8_encode_inr_iff
            & ? & _ & ? & ? & _)%epub_to_txt_inv.
    right. exists b, (utf8_bytes (book_text b)).
    split_and!; [by eapply read_epub_inr|done|done].
  - intros [[_ ->]|(data & b & bs & ? & _ & ? & ? & _ & (_ & _ & ->)%write_file_inv & Hc)]
      %epub_to_txt_inl; [by left|].
    right. exists b, bs. split_and!; [by eapply read_epub_inr| |done].
    destruct Hc as [(_ & _ & -> & _)|[[_ ->]%utf8_encode_inr_iff _]]; [apply prefix_nil|done].
Qed.

Lemma conv_inv_stdout w0 c :
  conv_inv epub_path txt_path w0 c →
  stdout c.2 = if bool_decide (c.1 = Returned)
               then stdout w0 ++ [converted_message epub_path txt_path] else stdout w0.
Proof.
  destruct c as [pt w]. unfold conv_inv. simpl. destruct pt as [|b|b|pending| | |e]; simpl.
  - by intros ->.
  - by intros [-> _].
  - by intros [_ (_ & _ & _ & ->)%open_target_inv].
  - by intros (b & done & w1 & _ & _ & _ & ->).
  - by intros (b & bs & w1 & _ & _ & _ & ->).
  - by intros (_ & _ & _ & _ & _ & _ & _ & _ & _ & _ & ?)%epub_to_txt_inv.
  - intros [[_ ->]|(_ & _ & bs & _ & _ & _ & _ & _ & (_ & _ & ->)%write_file_inv & _)]
      %epub_to_txt_inl; done.
Qed.

End conversion_lemmas.

(** ** Theorems *)

Section conversion_theorems.
Context `{Collaborators} `{Console} (epub_path txt_path : str).
Implicit Types (c : point * world) (w : world) (pt : point).

(** C16: the steps compute the function: a run of the steps of a
    conversion ends with a return or with an exception exactly when
    [epub_to_txt] returns or raises that exception, and in the world
    [epub_to_txt] leaves, however the bytes of the text were cut into
    chunks on their way to the file. *)
Theorem conv_steps_agree r w w' :
  rtc (conv_step epub_path txt_path) (AtRead, w) (ended r, w')
  ↔ epub_to_txt epub_path txt_path w = (r, w').
Proof.
  split; [|apply conv_steps_complete].
  intros Hinv%conv_steps_inv. by destruct r as [e|[]].
Qed.

(** Every run of a conversion ends: there is no infinite sequence of
    steps, whatever the sizes of the chunks, and a state that is not an
    end has a next step. *)
Theorem conv_terminates c :
  sn (conv_step epub_path txt_path) c
  ∧ (final c.1 = false → red (conv_step epub_path txt_path) c).
Proof.
  split; [apply conv_step_sn|]. intros Hf.
  destruct (conv_next epub_path txt_path 0 c) as [c'|] eqn:E.
  - exists c'. by eapply conv_next_step.
  - apply conv_next_None in E. by rewrite Hf in E.
Qed.

(** The stepper reaches the result: run with five steps and one
    more for each byte of the text, it ends in what [epub_to_txt]
    returns or raises, whatever the size of its chunks. *)
Theorem conv_run_result n fuel w :
  5 + text_size epub_path w ≤ fuel →
  conv_run epub_path txt_path n fuel (AtRead, w)
  = (ended (epub_to_txt epub_path txt_path w).1, (epub_to_txt epub_path txt_path w).2).
Proof.
  intros Hfuel. apply conv_inv_final.
  - apply conv_steps_inv, conv_run_steps.
  - by apply conv_run_final.
Qed.

(** C17: a conversion stopped at any point has done no harm: the target
    holds the text of the book up to some byte, or is as it was, every
    other entry is as it was, and the report is printed at the very
    end only. *)
Theorem conv_crash_safe w pt w1 :
  rtc (conv_step epub_path txt_path) (AtRead, w) (pt, w1) →
  partly_written epub_path txt_path w w1
  ∧ stdout w1 = if bool_decide (pt = Returned)
                then stdout w ++ [converted_message epub_path txt_path] else stdout w.
Proof.
  intros Hinv%conv_steps_inv. split.
  - by apply conv_inv_files in Hinv.
  - by apply conv_inv_stdout in Hinv.
Qed.

End conversion_theorems.

(** The conversion of the instance after five steps of two bytes: the
    target holds the first four bytes of the text. *)
Example conv_run_demo :
  @conv_run demo_collab utf8_console (py "in/a.epub") (py "in/a.txt") 1 5 (AtRead, demo_world)
  = (AtFlush (py "o" ++ [LF; LF; LF; LF] ++ py "World"),
     World (<[ [py "in"; py "a.txt"] := File (py "Hell") ]> (files demo_world)) []).
Proof. by_compute. Qed.

Lemma conv_run_result_witness :
  @conv_run demo_collab utf8_console (py "in/a.epub") (py "in/a.txt") 3 19 (AtRead, demo_world)
  = (ended (@epub_to_txt demo_collab utf8_console (py "in/a.epub") (py "in/a.txt")
              demo_world).1,
     (@epub_to_txt demo_collab utf8_console (py "in/a.epub") (py "in/a.txt") demo_world).2).
Proof.
  apply (@conv_run_result demo_collab utf8_console (py "in/a.epub") (py "in/a.txt") 3 19
           demo_world).
  by_compute.
Defined.

Lemma conv_crash_safe_witness :
  let c := @conv_run demo_collab utf8_console (py "in/a.epub") (py "in/a.txt") 1 5
             (AtRead, demo_world) in
  @partly_written demo_collab (py "in/a.epub") (py "in/a.txt") demo_world c.2
  ∧ stdout c.2 = if bool_decide (c.1 = Returned)
                 then stdout demo_world ++ [converted_message (py "in/a.epub") (py "in/a.txt")]
                 else stdout demo_world.
Proof.
  intros c.
  apply (@conv_crash_safe demo_collab utf8_console (py "in/a.epub") (py "in/a.txt") demo_world
           c.1 c.2).
  rewrite <-surjective_pairing. apply conv_run_steps.
Defined.
