(* ===== verification/Batch.v ===== *)
(** * Batch: a directory of EPUB files

    [convert_directory] of [src/epub_to_txt.py]: the input must be a
    directory, the output directory is created, the files of the input
    directory whose suffix is [.epub] in any case are converted in sorted
    order, each to [<stem>.txt] in the output directory.  The first
    conversion that fails ends the batch, also when all that fails is the
    line of its report.  [epub_files] specifies the files selected,
    [written] the file system a batch leaves, [ready] the files whose
    conversion succeeds and [batch_error] the exceptions it can end
    with. *)

From stdpp Require Import list strings gmap.
From S2P Require Import Prelude PyStr Utf8 Epub Pathlib FileSys Convert.

Set Warnings "-clear-no-such-hyp".

(** [path.suffix.lower() == ".epub"] *)
Definition has_epub_suffix (p : path) : bool :=
  bool_decide (lower (suffix p) = py ".epub").

(** The condition of the comprehension of line 74. *)
Definition is_epub (p : path) : prog bool :=
  f ← is_file p; mret (f && has_epub_suffix p).

(** What a batch can raise: the [ValueError] of the input check or the
    error of a conversion. *)
Definition batch_error (e : exn) : bool :=
  conversion_error e || match e with ValueError _ => true | _ => false end.

(** The messages. *)
Definition not_a_directory_message (input_dir : path) : str :=
  py "Input directory '" ++ str_of_path input_dir
  ++ py "' does not exist or is not a directory.".

Definition no_files_message (input_dir : path) : str :=
  py "No EPUB files found in '" ++ str_of_path input_dir ++ py "'.".

(** [output_dir / (epub_file.stem + ".txt")] *)
Definition target_txt (output_dir epub_file : path) : path :=
  joinpath output_dir (stem epub_file ++ py ".txt").

(** Lines 68 and 69: the input must be a directory. *)
Definition check_input_dir (input_dir : path) : prog unit :=
  d ← is_dir input_dir;
  if negb d then raise (ValueError (not_a_directory_message input_dir)) else mret ().

Section batch.
Context `{Collaborators} `{Listing} `{Console}.

(** Lines 73 to 75: the EPUB files of the directory, sorted. *)
Definition find_epub_files (input_dir : path) : prog (list path) :=
  entries ← iterdir input_dir;
  candidates ← filter_prog is_epub entries;
  mret (sorted candidates).

(** The body of the loop of line 81. *)
Definition convert_file (output_dir epub_file : path) : prog unit :=
  epub_to_txt (str_of_path epub_file) (str_of_path (target_txt output_dir epub_file)).

(** Lines 77 to 83: the report of an empty batch, or the loop. *)
Definition convert_all (input_dir output_dir : path) (epub_files : list path) : prog unit :=
  if is_nil epub_files then print (no_files_message input_dir)
  else for_each (convert_file output_dir) epub_files.

Definition convert_directory (input_dir output_dir : str) : prog unit :=
  let input_dir := Path input_dir in
  let output_dir := Path output_dir in
  check_input_dir input_dir;;
  mkdir_parents output_dir;;
  epub_files ← find_epub_files input_dir;
  convert_all input_dir output_dir epub_files.

End batch.

(** ** Specification *)

(** The files a batch converts: the EPUB files of the directory, sorted. *)
Definition is_epub_in (fs : gmap path fs_node) (p : path) : bool :=
  is_file_in fs p && has_epub_suffix p.

Definition epub_files (fs : gmap path fs_node) (dir : path) : list path :=
  sorted (filter (is_epub_in fs) (children fs dir)).

(** The line printed for one file of a batch. *)
Definition report (output_dir epub_file : path) : str :=
  converted_message (str_of_path epub_file)
    (str_of_path (target_txt output_dir epub_file)).

Section batch_spec.
Context `{Collaborators} `{Console}.

(** The book a path holds. *)
Definition book_at (fs : gmap path fs_node) (p : path) : option book :=
  match lookup_node fs p with
  | Some (File data) => parse_epub data
  | _ => None
  end.

(** The path holds a book whose text can be encoded. *)
Definition holds_text (fs : gmap path fs_node) (p : path) : Prop :=
  match book_at fs p with
  | Some b => encodable (book_text b)
  | None => False
  end.

#[export] Instance holds_text_dec fs p : Decision (holds_text fs p).
Proof. unfold holds_text. destruct (book_at fs p); apply _. Defined.

(** The file system after one file of a batch is converted, its text
    taken from the file system [fs0] the batch started in. *)
Definition written (fs0 : gmap path fs_node) (output_dir : path)
    (fs : gmap path fs_node) (epub_file : path) : gmap path fs_node :=
  <[target_txt output_dir epub_file :=
      File (from_option (utf8_bytes ∘ book_text) [] (book_at fs0 epub_file))]> fs.

(** A file that can be converted: a book under a proper name whose text
    can be encoded, whose target is not a directory and whose report the
    console can show. *)
Definition ready (output_dir : path) (fs : gmap path fs_node) (p : path) : Prop :=
  valid_path p ∧ valid_part (name p) ∧ has_epub_suffix p ∧
  holds_text fs p ∧ lookup_node fs (target_txt output_dir p) ≠ Some Dir ∧
  printable (report output_dir p).

End batch_spec.

(** ** An instance

    Two listings, one in the order of the map and one in reverse, and
    three directories: [in] with two books, a text file and a directory
    named like a book; [bad] with a file that is no book between two
    books; [dup] with two books whose names differ in the case of the
    suffix and a book named [.epub]. *)

Definition plain_listing : Listing :=
  {| listing_order := id; listing_perm := Permutation_refl (A := path) |}.

Definition demo_listing : Listing :=
  {| listing_order := reverse; listing_perm := reverse_Permutation |}.

Definition demo_dir : world :=
  World {[ [py "in"] := Dir;
           [py "in"; py "b.epub"] := File (py "PK");
           [py "in"; py "a.EPUB"] := File (py "PK");
           [py "in"; py "notes.txt"] := File (py "PK");
           [py "in"; py "dir.epub"] := Dir;
           [py "bad"] := Dir;
           [py "bad"; py "a.epub"] := File (py "PK");
           [py "bad"; py "b.epub"] := File (py "??");
           [py "bad"; py "c.epub"] := File (py "PK");
           [py "dup"] := Dir;
           [py "dup"; py "a.epub"] := File (py "PK2");
           [py "dup"; py "a.EPUB"] := File (py "PK");
           [py "dup"; py ".epub"] := File (py "PK") ]} [].

Section batch_lemmas.
Context `{Collaborators} `{Console}.
Implicit Types (fs : gmap path fs_node) (p dir : path) (w : world).

Lemma is_epub_pure p w : is_epub p w = (inr (is_epub_in (files w) p), w).
Proof. done. Qed.

Lemma filter_is_epub_in fs (ps : list path) :
  filter (is_epub_in fs) ps = filter has_epub_suffix (filter (is_file_in fs) ps).
Proof.
  rewrite list_filter_filter. apply list_filter_iff. intros p. unfold is_epub_in.
  rewrite andb_True. tauto.
Qed.

(** Directories added and the order of the listing do not change the
    files selected. *)
Lemma epub_files_grows fs fs' dir ps :
  grows fs fs' → ps ≡ₚ children fs' dir →
  sorted (filter (is_epub_in fs') ps) = epub_files fs dir.
Proof.
  intros Hg Hps. unfold epub_files.
  by rewrite !filter_is_epub_in, Hps, (grows_children fs fs').
Qed.

Lemma check_input_dir_inr dir w :
  is_dir_in (files w) dir → check_input_dir dir w = (inr (), w).
Proof.
  intros Hd%Is_true_true. unfold check_input_dir.
  erewrite bind_succeeds by apply is_dir_pure. by rewrite Hd.
Qed.

Lemma check_input_dir_inl dir w :
  ¬ is_dir_in (files w) dir →
  check_input_dir dir w = (inl (ValueError (not_a_directory_message dir)), w).
Proof.
  intros Hd%negb_prop_intro%Is_true_true. unfold check_input_dir.
  erewrite bind_succeeds by apply is_dir_pure. by rewrite Hd.
Qed.

Lemma raises_only_check_input_dir dir : raises_only batch_error (check_input_dir dir).
Proof.
  apply raises_only_bind; [auto with py|]. intros [|]; simpl; [auto with py|].
  by apply raises_only_raise.
Qed.

(** The listing, the filter and the sort, run on a directory: nothing
    is raised and nothing changes. *)
Lemma find_epub_files_inr `{Listing} dir w :
  is_dir_in (files w) dir →
  find_epub_files dir w
  = (inr (sorted (filter (is_epub_in (files w)) (listing_order (children (files w) dir)))), w).
Proof.
  intros Hd. unfold find_epub_files. erewrite bind_succeeds by by apply iterdir_inr.
  erewrite bind_succeeds; [done|]. apply filter_prog_pure. intros p _. apply is_epub_pure.
Qed.

Lemma raises_only_find_epub_files `{Listing} dir : raises_only os_error (find_epub_files dir).
Proof.
  apply raises_only_bind; [auto with py|]. intros entries.
  apply raises_only_bind; [|intros; apply raises_only_ret].
  apply raises_only_filter_prog. intros p. unfold is_epub.
  apply raises_only_bind; auto with py.
Qed.

Lemma target_part_valid p : valid_part (name p) → valid_part (stem p ++ py ".txt").
Proof.
  intros (Hne & _ & Hs). split_and!.
  - by intros [_ ?]%app_eq_nil.
  - intros E%(f_equal length). rewrite length_app in E. simpl in E. lia.
  - apply Forall_app. split; [|by_decide].
    rewrite <-(stem_suffix p) in Hs. by apply Forall_app in Hs as [? _].
Qed.

(** The target lies in the output directory under the stem of the
    source. *)
Lemma target_txt_snoc (o : path) p :
  valid_part (name p) → target_txt o p = o ++ [stem p ++ py ".txt"].
Proof. intros Hp. by apply joinpath_name, target_part_valid. Qed.

(** A target is no source: its suffix is [.txt]. *)
Lemma target_txt_not_epub (o : path) p :
  valid_part (name p) → has_epub_suffix (target_txt o p) = false.
Proof.
  intros Hp. rewrite target_txt_snoc by done.
  destruct (suffix_ext (o ++ [stem p ++ py ".txt"]) (stem p) (py "txt")) as [E _].
  - apply name_snoc. intros E%(f_equal length). rewrite length_app in E. simpl in E. lia.
  - apply stem_ne. by destruct Hp.
  - done.
  - by_decide.
  - unfold has_epub_suffix. by rewrite E.
Qed.

Lemma target_txt_valid (o : path) p :
  valid_path o → valid_part (name p) → valid_path (target_txt o p).
Proof.
  intros Ho Hn. rewrite target_txt_snoc by done. by apply valid_path_snoc, target_part_valid.
Qed.

Lemma holds_text_book fs p :
  holds_text fs p → ∃ b, book_at fs p = Some b ∧ encodable (book_text b).
Proof. unfold holds_text. destruct (book_at fs p) as [b|]; [by exists b|done]. Qed.

Lemma convert_file_inr (o : path) p b w :
  valid_path o → is_dir_in (files w) o → ready o (files w) p →
  book_at (files w) p = Some b →
  convert_file o p w
  = (inr (), World (<[target_txt o p := File (utf8_bytes (book_text b))]> (files w))
                   (stdout w ++ [report o p])).
Proof.
  intros Ho Hd%bool_decide_unpack (Hv & Hn & _ & Henc & Ht & Hpr) Hb.
  pose proof (target_txt_valid o p Ho Hn) as Hvt.
  unfold holds_text in Henc. rewrite Hb in Henc.
  unfold book_at in Hb. destruct (lookup_node (files w) p) as [[|data]|] eqn:Hp; try done.
  unfold convert_file, report.
  rewrite (epub_to_txt_inr _ _ data b (utf8_bytes (book_text b)));
    rewrite ?Path_str_of_path by done;
    try done; try (by apply str_of_path_ne); [|by apply utf8_encode_from_inr].
  rewrite target_txt_snoc by done. by rewrite parent_snoc.
Qed.

(** What a failed conversion of a batch leaves: nothing, or after the
    error of a codec the target: empty when the text could not be
    encoded, written when the report could not be shown. *)
Lemma convert_file_inl (o : path) p e w w' :
  valid_path o → valid_part (name p) →
  convert_file o p w = (inl e, w') →
  if encoding_error e
  then ∃ bs, w' = World (<[target_txt o p := File bs]> (files w)) (stdout w)
             ∧ (bs = [] ∨ ¬ printable (report o p))
  else w' = w.
Proof.
  intros Ho Hn [[-> ->]|(? & ? & bs & _ & _ & _ & _ & He & Hw & Hc)]%epub_to_txt_inl;
    [done|].
  rewrite Path_str_of_path in Hw by by apply target_txt_valid.
  apply write_file_inv in Hw as (_ & _ & ->). rewrite (Is_true_true_1 _ He).
  exists bs. split; [done|]. destruct Hc as [(? & _ & -> & _)|[_ ?]]; auto.
Qed.

(** Converting one file leaves the others ready, and their books as they
    were. *)
Lemma ready_written (o : path) fs p q data :
  ready o fs p → ready o fs q →
  ready o (<[target_txt o p := File data]> fs) q
  ∧ book_at (<[target_txt o p := File data]> fs) q = book_at fs q.
Proof.
  intros (_ & Hn & _ & _ & Ht & _) (Hv & Hnq & Hs & Hb & Htq & Hpr).
  assert (target_txt o p ≠ q) as Hne.
  { intros <-. rewrite target_txt_not_epub in Hs by done. done. }
  assert (book_at (<[target_txt o p := File data]> fs) q = book_at fs q) as E.
  { unfold book_at. by rewrite lookup_node_insert_ne. }
  split; [|done]. split_and!; try done; [unfold holds_text; by rewrite E|].
  destruct (decide (target_txt o p = target_txt o q)) as [<-|?].
  - rewrite lookup_node_insert; [done|]. intros Hr. by rewrite lookup_node_root in Ht.
  - by rewrite lookup_node_insert_ne.
Qed.

Lemma is_dir_in_written (o : path) fs p data :
  ready o fs p → is_dir_in fs o → is_dir_in (<[target_txt o p := File data]> fs) o.
Proof.
  intros (_ & _ & _ & _ & Ht & _) Hd%bool_decide_unpack. apply bool_decide_pack.
  apply lookup_node_insert_Dir; auto.
Qed.

(** A loop over files that are ready converts them all. *)
Lemma for_each_convert_file (o : path) fl : ∀ fs0 w,
  valid_path o → is_dir_in (files w) o → Forall (ready o (files w)) fl →
  Forall (λ q, book_at (files w) q = book_at fs0 q) fl →
  for_each (convert_file o) fl w
  = (inr (), World (foldl (written fs0 o) (files w) fl) (stdout w ++ (report o <$> fl))).
Proof.
  induction fl as [|p fl IH]; intros fs0 w Ho Hd Hr Hb.
  { simpl. rewrite app_nil_r. by destruct w. }
  apply Forall_cons in Hr as [Hp Hr]. apply Forall_cons in Hb as [Ep Hb].
  pose proof Hp as (_ & _ & _ & (b & E & _)%holds_text_book & _ & _). rewrite for_each_cons.
  erewrite bind_succeeds by by apply convert_file_inr.
  rewrite (IH fs0); simpl.
  - assert (written fs0 o (files w) p
            = <[target_txt o p := File (utf8_bytes (book_text b))]> (files w))
      as -> by (unfold written; by rewrite <-Ep, E).
    by rewrite <-app_assoc.
  - done.
  - by apply is_dir_in_written.
  - eapply Forall_impl; [exact Hr|]. intros q Hq. by apply ready_written.
  - apply Forall_forall. intros q Hq. rewrite Forall_forall in Hr, Hb.
    rewrite <-(Hb q Hq). by apply ready_written; auto.
Qed.

Lemma grows_book_at fs fs' p : grows fs fs' → book_at fs' p = book_at fs p.
Proof.
  intros Hg. unfold book_at, lookup_node. case_decide; [done|].
  by destruct (Hg p) as [->|[-> ->]].
Qed.

(** The files of a batch are entries of the directory, books by their
    names. *)
Lemma elem_of_epub_files fs dir p :
  fs_wf fs → p ∈ epub_files fs dir →
  valid_path p ∧ valid_part (name p) ∧ has_epub_suffix p ∧ is_file_in fs p ∧ parent p = dir.
Proof.
  intros Hwf. unfold epub_files. rewrite sorted_perm, list_elem_of_filter.
  intros [[Hf Hs]%andb_True Hp]. apply is_file_in_entry in Hf as Hf'. destruct Hf' as [data Hf'].
  destruct (Hwf _ _ Hf') as (Hv & Hr & _).
  apply (elem_of_children _ _ _ Hwf) in Hp as [_ [x ->]].
  split_and!; try done; [|apply parent_snoc].
  apply valid_path_name; [done|by destruct dir|]. intros E. apply Hr. by right.
Qed.

Section run.
Context `{Listing}.
Implicit Types (input_dir output_dir : str).

Lemma convert_directory_not_dir input_dir output_dir w :
  ¬ is_dir_in (files w) (Path input_dir) →
  convert_directory input_dir output_dir w
  = (inl (ValueError (not_a_directory_message (Path input_dir))), w).
Proof.
  intros Hd. unfold convert_directory. by erewrite bind_fails by by apply check_input_dir_inl.
Qed.

Lemma convert_directory_mkdir_fails input_dir output_dir e w w1 :
  is_dir_in (files w) (Path input_dir) →
  mkdir_parents (Path output_dir) w = (inl e, w1) →
  convert_directory input_dir output_dir w = (inl e, w1).
Proof.
  intros Hd Hmk. unfold convert_directory.
  erewrite bind_succeeds by by apply check_input_dir_inr. by erewrite bind_fails.
Qed.

Lemma convert_directory_run input_dir output_dir w w1 :
  fs_wf (files w) → is_dir_in (files w) (Path input_dir) →
  mkdir_parents (Path output_dir) w = (inr (), w1) →
  convert_directory input_dir output_dir w
  = convert_all (Path input_dir) (Path output_dir)
      (epub_files (files w) (Path input_dir)) w1.
Proof.
  intros Hwf Hd Hmk. destruct (mkdir_parents_inr _ _ _ Hwf (Path_valid _) Hmk) as (_ & Hg & _ & _).
  unfold convert_directory. erewrite bind_succeeds by by apply check_input_dir_inr.
  erewrite bind_succeeds by exact Hmk.
  erewrite bind_succeeds by by eapply find_epub_files_inr, grows_is_dir.
  rewrite (epub_files_grows (files w) (files w1) (Path input_dir));
    [done..|apply listing_perm].
Qed.

Lemma mkdir_parents_inl p e w w' :
  mkdir_parents p w = (inl e, w') →
  w' = w ∧ ∃ k, is_file_in (files w) (take (S k) p) = true.
Proof.
  unfold mkdir_parents. prog_simpl.
  destruct (mkdir_from _ _ _ _) as [e'|fs'] eqn:E; [|done]. intros [= _ <-].
  split; [done|]. by apply mkdir_from_inl in E.
Qed.

Lemma convert_all_wf (idir odir : path) fl r w w' :
  fs_wf (files w) → convert_all idir odir fl w = (r, w') → fs_wf (files w').
Proof.
  unfold convert_all. destruct (is_nil fl).
  - intros Hwf Hp. by rewrite (print_files _ _ _ _ Hp).
  - apply (for_each_invariant (λ w, fs_wf (files w))). intros p v ? v' _.
    apply epub_to_txt_wf.
Qed.

(** The batch stops at the first conversion that fails: the files before
    it are converted, the files after it are not touched.  A batch
    without files fails when its report cannot be shown. *)
Lemma convert_all_inl (idir odir : path) fl e w w' :
  convert_all idir odir fl w = (inl e, w') →
  (fl = [] ∧ encoding_error e ∧ ¬ printable (no_files_message idir) ∧ w' = w)
  ∨ ∃ fl1 p fl2 w1, fl = fl1 ++ p :: fl2 ∧
      for_each (convert_file odir) fl1 w = (inr (), w1) ∧
      convert_file odir p w1 = (inl e, w').
Proof.
  unfold convert_all. destruct (is_nil fl) eqn:Hfl.
  { apply is_nil_true in Hfl as ->. intros (? & ? & ->)%print_inl. by left. }
  intros (fl1 & p & fl2 & w1 & E & Hfl1 & Hp)%for_each_inv_fails. right.
  by exists fl1, p, fl2, w1.
Qed.

Lemma convert_directory_wf input_dir output_dir r w w' :
  fs_wf (files w) → convert_directory input_dir output_dir w = (r, w') →
  fs_wf (files w').
Proof.
  intros Hwf. destruct (decide (is_dir_in (files w) (Path input_dir))) as [Hd|Hd].
  - destruct (mkdir_parents (Path output_dir) w) as [[e|[]] w1] eqn:Hmk.
    + rewrite (convert_directory_mkdir_fails _ _ e w w1) by done. intros [= _ <-].
      by apply mkdir_parents_inl in Hmk as [-> _].
    + rewrite (convert_directory_run _ _ _ w1) by done. apply convert_all_wf.
      by destruct (mkdir_parents_inr _ _ _ Hwf (Path_valid _) Hmk).
  - rewrite convert_directory_not_dir by done. by intros [= _ <-].
Qed.

Lemma raises_only_convert_all (idir odir : path) fl :
  raises_only batch_error (convert_all idir odir fl).
Proof.
  unfold convert_all. destruct (is_nil fl).
  { eapply raises_only_mono; [|apply raises_only_print]. by intros []. }
  apply raises_only_for_each. intros p _.
  eapply raises_only_mono; [|apply raises_only_epub_to_txt].
  intros e He. unfold batch_error. by rewrite (Is_true_true_1 _ He).
Qed.

Lemma raises_only_convert_directory input_dir output_dir :
  raises_only batch_error (convert_directory input_dir output_dir).
Proof.
  assert (∀ e, os_error e → batch_error e) as Hos by by intros [].
  apply raises_only_bind; [apply raises_only_check_input_dir|]. intros [].
  apply raises_only_bind; [eapply raises_only_mono; [exact Hos|auto with py]|]. intros [].
  apply raises_only_bind; [|intros; apply raises_only_convert_all].
  eapply raises_only_mono; [exact Hos|apply raises_only_find_epub_files].
Qed.

End run.

End batch_lemmas.

(** ** Theorems *)

Section batch_theorems.
Context `{Collaborators} `{Console}.
Implicit Types (input_dir output_dir : str) (w : world).

(** An input that is no directory is an error: [ValueError] is
    raised before anything is created, listed or printed. *)
Theorem convert_directory_input_error `{Listing} input_dir output_dir w :
  ¬ is_dir_in (files w) (Path input_dir) →
  convert_directory input_dir output_dir w
  = (inl (ValueError (not_a_directory_message (Path input_dir))), w).
Proof. apply convert_directory_not_dir. Qed.

(** C33: an output directory that cannot be created ends the batch: a
    file stands where the directory or one of its parents should be, the
    error of [mkdir] is raised, and nothing is listed, converted or
    printed. *)
Theorem convert_directory_output_error `{Listing} input_dir output_dir e w w1 :
  is_dir_in (files w) (Path input_dir) →
  mkdir_parents (Path output_dir) w = (inl e, w1) →
  convert_directory input_dir output_dir w = (inl e, w)
  ∧ ∃ k, is_file_in (files w) (take (S k) (Path output_dir)) = true.
Proof.
  intros Hd Hmk. destruct (mkdir_parents_inl _ _ _ _ Hmk) as [-> Hk].
  split; [by apply convert_directory_mkdir_fails|done].
Qed.

(** A batch creates the output directory and then converts the EPUB
    files the input directory held at the start, in sorted order: the
    regular files whose suffix is [.epub] in any case.  Neither the order
    in which the directory is listed nor the directories just created
    matter. *)
Theorem convert_directory_sorted `{Listing} input_dir output_dir w w1 :
  fs_wf (files w) → is_dir_in (files w) (Path input_dir) →
  mkdir_parents (Path output_dir) w = (inr (), w1) →
  epub_files (files w) (Path input_dir) ≠ [] →
  convert_directory input_dir output_dir w
  = for_each (convert_file (Path output_dir)) (epub_files (files w) (Path input_dir)) w1.
Proof.
  intros Hwf Hd Hmk Hne%is_nil_false. rewrite (convert_directory_run _ _ _ w1) by done.
  unfold convert_all. by rewrite Hne.
Qed.

(** C34: a directory without EPUB files is reported, not an error: the
    output directory is still created, one line is printed, and the batch
    ends normally, on a console that can show the line. *)
Theorem convert_directory_no_files `{Listing} input_dir output_dir w w1 :
  fs_wf (files w) → is_dir_in (files w) (Path input_dir) →
  mkdir_parents (Path output_dir) w = (inr (), w1) →
  epub_files (files w) (Path input_dir) = [] →
  printable (no_files_message (Path input_dir)) →
  convert_directory input_dir output_dir w
  = (inr (), World (files w1) (stdout w ++ [no_files_message (Path input_dir)])).
Proof.
  intros Hwf Hd Hmk E Hp. rewrite (convert_directory_run _ _ _ w1) by done.
  unfold convert_all. rewrite E. simpl. rewrite print_inr by done.
  by destruct (mkdir_parents_inr _ _ _ Hwf (Path_valid _) Hmk) as (_ & _ & _ & <-).
Qed.

(** C7: a batch whose files are all books with texts that can be
    encoded, on a console that can show their reports, converts them all:
    after it, the output directory holds for
    each EPUB file of the input directory the encoded text of its book
    under the name [<stem>.txt], written in sorted
    order of the sources (so a later source with the same stem replaces
    the text of an earlier one), one line is printed for each, and
    nothing else changes.  The texts are those of the books as they were
    at the start, also when the output directory is the input directory:
    a target is never a source. *)
Theorem convert_directory_converts_all `{Listing} input_dir output_dir w w1 :
  fs_wf (files w) → is_dir_in (files w) (Path input_dir) →
  mkdir_parents (Path output_dir) w = (inr (), w1) →
  epub_files (files w) (Path input_dir) ≠ [] →
  Forall (λ p, holds_text (files w) p
               ∧ lookup_node (files w1) (target_txt (Path output_dir) p) ≠ Some Dir
               ∧ printable (report (Path output_dir) p))
         (epub_files (files w) (Path input_dir)) →
  convert_directory input_dir output_dir w
  = (inr (), World (foldl (written (files w) (Path output_dir)) (files w1)
                      (epub_files (files w) (Path input_dir)))
                   (stdout w ++ (report (Path output_dir)
                                   <$> epub_files (files w) (Path input_dir)))).
Proof.
  intros Hwf Hd Hmk Hne%is_nil_false Hall.
  destruct (mkdir_parents_inr _ _ _ Hwf (Path_valid _) Hmk) as (_ & Hg & Ho & <-).
  rewrite (convert_directory_run _ _ _ w1) by done. unfold convert_all. rewrite Hne.
  apply for_each_convert_file; [auto with py|done| |].
  - apply Forall_forall. intros p Hp. rewrite Forall_forall in Hall.
    destruct (Hall p Hp) as (Hb & Ht & Hpr).
    destruct (elem_of_epub_files _ _ _ Hwf Hp) as (? & ? & ? & _).
    split_and!; try done. unfold holds_text. by rewrite (grows_book_at (files w)).
  - apply Forall_forall. intros p _. by apply grows_book_at.
Qed.

(** C32: a failure ends the batch: when a batch fails after its checks,
    the files sorted before the failing one are converted and no later
    file is converted.  The failing conversion leaves no trace, unless it
    ends with the error of a codec: then its target is left empty, or
    written in full when all that failed is the line of the report.  A
    batch without files fails in one way: its line cannot be shown. *)
Theorem convert_directory_aborts `{Listing} input_dir output_dir e w w1 w' :
  fs_wf (files w) → is_dir_in (files w) (Path input_dir) →
  mkdir_parents (Path output_dir) w = (inr (), w1) →
  convert_directory input_dir output_dir w = (inl e, w') →
  (epub_files (files w) (Path input_dir) = [] ∧ encoding_error e
   ∧ ¬ printable (no_files_message (Path input_dir)) ∧ w' = w1)
  ∨ ∃ fl1 p fl2 w2, epub_files (files w) (Path input_dir) = fl1 ++ p :: fl2 ∧
      for_each (convert_file (Path output_dir)) fl1 w1 = (inr (), w2) ∧
      convert_file (Path output_dir) p w2 = (inl e, w') ∧
      if encoding_error e
      then ∃ bs, w' = World (<[target_txt (Path output_dir) p := File bs]> (files w2))
                            (stdout w2)
                 ∧ (bs = [] ∨ ¬ printable (report (Path output_dir) p))
      else w' = w2.
Proof.
  intros Hwf Hd Hmk. rewrite (convert_directory_run _ _ _ w1) by done.
  intros [?|(fl1 & p & fl2 & w2 & E & Hfl1 & Hp)]%convert_all_inl; [by left|right].
  exists fl1, p, fl2, w2. split_and!; try done.
  apply convert_file_inl; [auto with py| |done].
  eapply (elem_of_epub_files _ _ p Hwf). rewrite E. set_solver.
Qed.

(** The errors of a batch: [convert_directory] ends normally or
    with the [ValueError] of its input check, an error of the operating
    system, the error of the EPUB reader or the error of the codec; it
    never exits the program. *)
Theorem convert_directory_errors `{Listing} input_dir output_dir w e w' :
  convert_directory input_dir output_dir w = (inl e, w') → batch_error e.
Proof. apply raises_only_convert_directory. Qed.

(** A batch keeps the file system well formed, however it ends. *)
Theorem convert_directory_keeps_wf `{Listing} input_dir output_dir r w w' :
  fs_wf (files w) → convert_directory input_dir output_dir w = (r, w') →
  fs_wf (files w').
Proof. apply convert_directory_wf. Qed.

(** The result of a batch does not depend on the order in which the
    operating system lists the directory. *)
Theorem convert_directory_listing_independent (L1 L2 : Listing) input_dir output_dir w :
  fs_wf (files w) →
  @convert_directory _ L1 _ input_dir output_dir w
  = @convert_directory _ L2 _ input_dir output_dir w.
Proof.
  intros Hwf. destruct (decide (is_dir_in (files w) (Path input_dir))) as [Hd|Hd].
  - destruct (mkdir_parents (Path output_dir) w) as [[e|[]] w1] eqn:Hmk.
    + by rewrite !(convert_directory_mkdir_fails _ _ e w w1).
    + by rewrite !(convert_directory_run _ _ _ w1).
  - by rewrite !convert_directory_not_dir.
Qed.

End batch_theorems.

Lemma convert_directory_input_error_witness :
  @convert_directory demo_collab demo_listing utf8_console (py "in/notes.txt") (py "out") demo_dir
  = (inl (ValueError (not_a_directory_message (Path (py "in/notes.txt")))), demo_dir).
Proof.
  apply (@convert_directory_input_error demo_collab utf8_console demo_listing). by_compute.
Defined.

Lemma convert_directory_output_error_witness :
  @convert_directory demo_collab demo_listing utf8_console (py "in") (py "in/notes.txt/out") demo_dir
  = (inl (NotADirectoryError (Path (py "in/notes.txt/out"))), demo_dir)
  ∧ ∃ k, is_file_in (files demo_dir) (take (S k) (Path (py "in/notes.txt/out"))) = true.
Proof.
  apply (@convert_directory_output_error demo_collab utf8_console demo_listing (py "in")
           (py "in/notes.txt/out") _ demo_dir demo_dir); by_compute.
Defined.

Lemma convert_directory_sorted_witness :
  @convert_directory demo_collab demo_listing utf8_console (py "in") (py "out/txt") demo_dir
  = for_each (@convert_file demo_collab utf8_console (Path (py "out/txt")))
      (epub_files (files demo_dir) (Path (py "in")))
      (snd (mkdir_parents (Path (py "out/txt")) demo_dir)).
Proof.
  apply (@convert_directory_sorted demo_collab utf8_console demo_listing (py "in") (py "out/txt") demo_dir).
  - by_decide.
  - by_compute.
  - by_compute.
  - by_compute.
Defined.

Lemma convert_directory_no_files_witness :
  @convert_directory demo_collab demo_listing utf8_console (py "in/dir.epub") (py "out") demo_dir
  = (inr (), World (files (snd (mkdir_parents (Path (py "out")) demo_dir)))
                   (stdout demo_dir ++ [no_files_message (Path (py "in/dir.epub"))])).
Proof.
  apply (@convert_directory_no_files demo_collab utf8_console demo_listing (py "in/dir.epub")
           (py "out")).
  - by_decide.
  - by_compute.
  - by_compute.
  - by_compute.
  - by_decide.
Defined.

Lemma convert_directory_converts_all_witness :
  @convert_directory demo_collab demo_listing utf8_console (py "in") (py "in") demo_dir
  = (inr (), World (foldl (@written demo_collab (files demo_dir) (Path (py "in")))
                      (files demo_dir) (epub_files (files demo_dir) (Path (py "in"))))
                   (stdout demo_dir ++ (report (Path (py "in"))
                                          <$> epub_files (files demo_dir) (Path (py "in"))))).
Proof.
  apply (@convert_directory_converts_all demo_collab utf8_console demo_listing (py "in") (py "in")
           demo_dir demo_dir).
  - by_decide.
  - by_compute.
  - by_compute.
  - by_compute.
  - by_decide.
Defined.

Lemma convert_directory_aborts_witness :
  ∃ fl1 p fl2 w2, epub_files (files demo_dir) (Path (py "bad")) = fl1 ++ p :: fl2 ∧
    for_each (@convert_file demo_collab utf8_console (Path (py "out"))) fl1
      (snd (mkdir_parents (Path (py "out")) demo_dir)) = (inr (), w2) ∧
    @convert_file demo_collab utf8_console (Path (py "out")) p w2
    = (inl (EpubError [py "bad"; py "b.epub"]),
       snd (@convert_directory demo_collab demo_listing utf8_console (py "bad") (py "out") demo_dir)) ∧
    snd (@convert_directory demo_collab demo_listing utf8_console (py "bad") (py "out") demo_dir) = w2.
Proof.
  destruct (@convert_directory_aborts demo_collab utf8_console demo_listing (py "bad") (py "out")
              (EpubError [py "bad"; py "b.epub"]) demo_dir
              (snd (mkdir_parents (Path (py "out")) demo_dir))
              (snd (@convert_directory demo_collab demo_listing utf8_console
                      (py "bad") (py "out") demo_dir)))
    as [[E _]|Hr]; [by_decide|by_compute..| |exact Hr].
  by vm_compute in E.
Defined.

Lemma convert_directory_errors_witness :
  batch_error (EpubError [py "bad"; py "b.epub"]).
Proof.
  apply (@convert_directory_errors demo_collab utf8_console demo_listing (py "bad") (py "out") demo_dir _
           (snd (@convert_directory demo_collab demo_listing utf8_console (py "bad") (py "out") demo_dir))).
  by_compute.
Defined.

Lemma convert_directory_keeps_wf_witness :
  fs_wf (files (snd (@convert_directory demo_collab demo_listing utf8_console (py "in") (py "out") demo_dir))).
Proof.
  apply (@convert_directory_keeps_wf demo_collab utf8_console demo_listing (py "in") (py "out")
    (fst (@convert_directory demo_collab demo_listing utf8_console (py "in") (py "out") demo_dir)) demo_dir).
  - by_decide.
  - by destruct (convert_directory _ _ _).
Defined.

Lemma convert_directory_listing_independent_witness :
  @convert_directory demo_collab plain_listing utf8_console (py "in") (py "out") demo_dir
  = @convert_directory demo_collab demo_listing utf8_console (py "in") (py "out") demo_dir.
Proof.
  apply (@convert_directory_listing_independent demo_collab utf8_console plain_listing demo_listing).
  by_decide.
Defined.

(** The batch of the specification: of [b.epub], [a.EPUB], [notes.txt]
    (and a directory [dir.epub]) exactly [a.txt] and [b.txt] are
    produced, [a] first. *)
Example batch_spec_example :
  let r := @convert_directory demo_collab demo_listing utf8_console (py "in") (py "out") demo_dir in
  fst r = inr () ∧
  sorted (children (files (snd r)) [py "out"]) = [[py "out"; py "a.txt"]; [py "out"; py "b.txt"]] ∧
  stdout (snd r) = [converted_message (py "in/a.EPUB") (py "out/a.txt");
                    converted_message (py "in/b.epub") (py "out/b.txt")].
Proof. vm_compute. by repeat split. Qed.

(** Two books whose names differ only in the case of the suffix share a
    target: both are converted, the second over the first, and one text
    remains; a book named [.epub] has no suffix and is left out. *)
Example batch_case_collision :
  let r := @convert_directory demo_collab demo_listing utf8_console (py "dup") (py "out") demo_dir in
  fst r = inr () ∧
  children (files (snd r)) [py "out"] = [[py "out"; py "a.txt"]] ∧
  files (snd r) !! [py "out"; py "a.txt"] = Some (File (py "Other")) ∧
  stdout (snd r) = [converted_message (py "dup/a.EPUB") (py "out/a.txt");
                    converted_message (py "dup/a.epub") (py "out/a.txt")].
Proof. vm_compute. by repeat split. Qed.

(** A book with a lone surrogate between two books: the first is
    converted, the target of the second is left empty, the third is not
    converted, and the batch ends with the error of the codec. *)
Example batch_encoding_error :
  let w := World {[ [py "in"] := Dir;
                    [py "in"; py "a.epub"] := File (py "PK2");
                    [py "in"; py "s.epub"] := File (py "PK3");
                    [py "in"; py "z.epub"] := File (py "PK2") ]} [] in
  let r := @convert_directory demo_collab demo_listing utf8_console (py "in") (py "out") w in
  fst r = inl (UnicodeEncodeError 0 1) ∧
  sorted (children (files (snd r)) [py "out"]) = [[py "out"; py "a.txt"]; [py "out"; py "s.txt"]] ∧
  files (snd r) !! [py "out"; py "s.txt"] = Some (File []) ∧
  stdout (snd r) = [converted_message (py "in/a.epub") (py "out/a.txt")].
Proof. vm_compute. by repeat split. Qed.
