(* ===== verification/Frame.v ===== *)
(** * Frame: what a run leaves untouched

    The converters of [src/epub_to_txt.py] write one file for each book
    and nothing else: a conversion changes at most its target, and a
    batch changes at most the targets of its files and creates the
    output directory.  In particular no EPUB file of the input directory
    is overwritten, also when the texts are written next to them. *)

From stdpp Require Import list strings gmap.
From S2P Require Import Prelude PyStr Utf8 Epub Pathlib FileSys Convert Batch.

Set Warnings "-clear-no-such-hyp".

(** The targets of a batch. *)
Definition targets (output_dir : path) (fl : list path) : list path :=
  target_txt output_dir <$> fl.

(** [fs'] is [fs] except at the paths of [ps], and for directories
    added. *)
Definition differs_at (ps : list path) (fs fs' : gmap path fs_node) : Prop :=
  ∀ q, q ∉ ps → fs' !! q = fs !! q ∨ (fs !! q = None ∧ fs' !! q = Some Dir).

Section frame.
Context `{Collaborators} `{Console}.
Implicit Types (fs : gmap path fs_node) (p q : path) (w : world) (fl ps : list path).

Lemma differs_at_refl ps fs : differs_at ps fs fs.
Proof. intros q _. by left. Qed.

Lemma differs_at_grows ps fs fs' : grows fs fs' → differs_at ps fs fs'.
Proof. intros Hg q _. apply Hg. Qed.

Lemma differs_at_mono ps1 ps2 fs fs' : ps1 ⊆ ps2 → differs_at ps1 fs fs' → differs_at ps2 fs fs'.
Proof. intros Hs Hd q Hq. apply Hd. set_solver. Qed.

(** Only files are written after the directories are made, so the two
    kinds of change compose. *)
Lemma differs_at_insert ps fs fs' p n :
  p ∈ ps → differs_at ps fs fs' → differs_at ps fs (<[p := n]> fs').
Proof.
  intros Hp Hd q Hq. rewrite lookup_insert_ne by set_solver. by apply Hd.
Qed.

(** A conversion changes its target or nothing. *)
Lemma epub_to_txt_files epub_path txt_path r w w' :
  epub_to_txt epub_path txt_path w = (r, w') →
  files w' = files w ∨ ∃ bs, files w' = <[Path txt_path := File bs]> (files w).
Proof.
  destruct r as [e|[]].
  - intros [[_ ->]|(_ & _ & bs & _ & _ & _ & _ & _ & Hw & _)]%epub_to_txt_inl; [by left|].
    apply write_file_inv in Hw as (_ & _ & ->). right. by exists bs.
  - intros (_ & _ & bs & (_ & _ & [= ->])%write_file_inv & _)%epub_to_txt_inv.
    right. by exists bs.
Qed.

Lemma convert_file_differs (o : path) p ps r w0 w w' :
  valid_path o → valid_part (name p) → target_txt o p ∈ ps →
  differs_at ps (files w0) (files w) →
  convert_file o p w = (r, w') → differs_at ps (files w0) (files w').
Proof.
  intros Ho Hn Hp Hd [->|[bs ->]]%epub_to_txt_files; [done|].
  rewrite Path_str_of_path by by apply target_txt_valid. by apply differs_at_insert.
Qed.

Lemma convert_all_differs (idir o : path) fl r w0 w w' :
  valid_path o → Forall (λ p, valid_part (name p)) fl →
  differs_at (targets o fl) (files w0) (files w) →
  convert_all idir o fl w = (r, w') → differs_at (targets o fl) (files w0) (files w').
Proof.
  intros Ho Hfl Hd. unfold convert_all. destruct (is_nil fl).
  { intros Hp. by rewrite (print_files _ _ _ _ Hp). }
  revert w r w' Hd. apply for_each_invariant. intros p v r v' Hp Hv.
  rewrite Forall_forall in Hfl. apply convert_file_differs; auto.
  unfold targets. set_solver.
Qed.

Lemma convert_directory_differs `{Listing} input_dir output_dir r w w' :
  fs_wf (files w) → convert_directory input_dir output_dir w = (r, w') →
  differs_at (targets (Path output_dir) (epub_files (files w) (Path input_dir)))
             (files w) (files w').
Proof.
  intros Hwf. destruct (decide (is_dir_in (files w) (Path input_dir))) as [Hd|Hd].
  - destruct (mkdir_parents (Path output_dir) w) as [[e|[]] w1] eqn:Hmk.
    + rewrite (convert_directory_mkdir_fails _ _ e w w1) by done. intros [= _ <-].
      apply mkdir_parents_inl in Hmk as [-> _]. apply differs_at_refl.
    + rewrite (convert_directory_run _ _ _ w1) by done.
      destruct (mkdir_parents_inr _ _ _ Hwf (Path_valid _) Hmk) as (_ & Hg & _).
      apply convert_all_differs; [auto with py| |by apply differs_at_grows].
      apply Forall_forall. intros p Hp.
      by apply (elem_of_epub_files _ _ _ Hwf) in Hp as (_ & ? & _).
  - rewrite convert_directory_not_dir by done. intros [= _ <-]. apply differs_at_refl.
Qed.

(** No source is a target: the suffixes differ. *)
Lemma epub_files_not_target (o : path) fs dir p :
  fs_wf fs → p ∈ epub_files fs dir → p ∉ targets o (epub_files fs dir).
Proof.
  intros Hwf Hp (p' & -> & Hp')%list_elem_of_fmap.
  apply (elem_of_epub_files _ _ _ Hwf) in Hp as (_ & _ & Hs & _).
  apply (elem_of_epub_files _ _ _ Hwf) in Hp' as (_ & Hn & _).
  by rewrite target_txt_not_epub in Hs.
Qed.

End frame.

(** ** Theorems *)

Section frame_theorems.
Context `{Collaborators} `{Console}.
Implicit Types (q : path) (w : world).

(** A conversion touches its target and nothing else: whether it
    succeeds or fails, every other entry of the file system is as it
    was. *)
Theorem epub_to_txt_frame epub_path txt_path r w w' q :
  epub_to_txt epub_path txt_path w = (r, w') → q ≠ Path txt_path →
  files w' !! q = files w !! q.
Proof.
  intros [->|[bs ->]]%epub_to_txt_files Hq; [done|]. by rewrite lookup_insert_ne.
Qed.

(** A batch touches the targets of its files and nothing else:
    however it ends, an entry that is not the target of an EPUB file of
    the input directory is as it was, or is a directory the batch has
    created. *)
Theorem convert_directory_frame `{Listing} input_dir output_dir r w w' q :
  fs_wf (files w) → convert_directory input_dir output_dir w = (r, w') →
  q ∉ targets (Path output_dir) (epub_files (files w) (Path input_dir)) →
  files w' !! q = files w !! q ∨ (files w !! q = None ∧ files w' !! q = Some Dir).
Proof. intros Hwf Hrun%convert_directory_differs Hq; [by apply Hrun|done]. Qed.

(** A batch never overwrites a book: the EPUB files of the input
    directory are as they were after the batch, however it ends and
    wherever the texts are written. *)
Theorem convert_directory_keeps_sources `{Listing} input_dir output_dir r w w' p :
  fs_wf (files w) → convert_directory input_dir output_dir w = (r, w') →
  p ∈ epub_files (files w) (Path input_dir) →
  files w' !! p = files w !! p.
Proof.
  intros Hwf Hrun Hp.
  destruct (convert_directory_differs _ _ _ _ _ Hwf Hrun p) as [?|[Hn _]]; [|done|].
  { by apply epub_files_not_target. }
  apply (elem_of_epub_files _ _ _ Hwf) in Hp as (_ & _ & _ & [data Hf]%is_file_in_entry & _).
  congruence.
Qed.

End frame_theorems.

Lemma epub_to_txt_frame_witness :
  files (snd (@epub_to_txt demo_collab utf8_console (py "in/s.epub") (py "in/s.txt") surrogate_world))
    !! [py "in"; py "s.epub"]
  = files surrogate_world !! [py "in"; py "s.epub"].
Proof.
  apply (@epub_to_txt_frame demo_collab utf8_console (py "in/s.epub") (py "in/s.txt")
           (fst (@epub_to_txt demo_collab utf8_console (py "in/s.epub") (py "in/s.txt") surrogate_world))
           surrogate_world).
  - by destruct (epub_to_txt _ _ _).
  - by_compute.
Defined.

Lemma convert_directory_frame_witness :
  files (snd (@convert_directory demo_collab demo_listing utf8_console (py "in") (py "in") demo_dir))
    !! [py "in"; py "notes.txt"]
  = files demo_dir !! [py "in"; py "notes.txt"]
  ∨ (files demo_dir !! [py "in"; py "notes.txt"] = None
     ∧ files (snd (@convert_directory demo_collab demo_listing utf8_console (py "in") (py "in") demo_dir))
         !! [py "in"; py "notes.txt"] = Some Dir).
Proof.
  apply (@convert_directory_frame demo_collab utf8_console demo_listing (py "in") (py "in")
           (fst (@convert_directory demo_collab demo_listing utf8_console (py "in") (py "in") demo_dir))
           demo_dir).
  - by_decide.
  - by destruct (convert_directory _ _ _).
  - by_decide.
Defined.

Lemma convert_directory_keeps_sources_witness :
  files (snd (@convert_directory demo_collab demo_listing utf8_console (py "bad") (py "bad") demo_dir))
    !! [py "bad"; py "c.epub"]
  = files demo_dir !! [py "bad"; py "c.epub"].
Proof.
  apply (@convert_directory_keeps_sources demo_collab utf8_console demo_listing (py "bad") (py "bad")
           (fst (@convert_directory demo_collab demo_listing utf8_console (py "bad") (py "bad") demo_dir))
           demo_dir).
  - by_decide.
  - by destruct (convert_directory _ _ _).
  - by_decide.
Defined.

(** The single conversion is not so guarded: written onto its source, the
    text replaces the book. *)
Example epub_to_txt_onto_source :
  files (snd (@epub_to_txt demo_collab utf8_console (py "in/a.epub") (py "in/a.epub") demo_world))
    !! [py "in"; py "a.epub"]
  = Some (File (py "Hello" ++ [LF; LF; LF; LF] ++ py "World")).
Proof. by_compute. Qed.
