(* ===== verification/Outcome.v ===== *)
(** * Outcome: what a batch has done when it ends

    [convert_directory] of [src/epub_to_txt.py], read backwards from its
    result.  A batch that succeeded found every file ready and has
    written every text; however it ends, it has printed one line for
    each file converted, in their order.  And since it reads the books
    and writes the texts, and a text is never taken for a book, a batch
    that has succeeded succeeds again and leaves every file as the first
    run left it.  On a console that cannot show the arrow of the report
    a batch with files stops in its first file. *)

From stdpp Require Import list strings gmap.
From S2P Require Import Prelude PyStr Utf8 Epub Pathlib FileSys Convert Batch Frame.

Set Warnings "-clear-no-such-hyp".

(** ** Writing a list of entries twice *)

Section put.
Context {A K V : Type} `{Countable K} (f : A → K) (g : A → V).
Implicit Types (m : gmap K V) (l : list A).

Definition put m (x : A) : gmap K V := <[f x := g x]> m.

Lemma foldl_put m l :
  foldl put m l = list_to_map (reverse ((λ x, (f x, g x)) <$> l)) ∪ m.
Proof.
  revert m. induction l as [|x l IH]; intros m; simpl.
  { by rewrite (left_id_L ∅ (∪)). }
  rewrite IH, reverse_cons, list_to_map_app. unfold put. simpl.
  by rewrite <-(assoc_L (∪)), insert_empty, <-insert_union_singleton_l.
Qed.

(** The second pass writes what the first has written. *)
Lemma foldl_put_twice m l : foldl put (foldl put m l) l = foldl put m l.
Proof. by rewrite !foldl_put, (assoc_L (∪)), (idemp_L (∪)). Qed.

(** A key that is not written keeps its entry; a key that is written
    holds what one of its writers wrote. *)
Lemma foldl_put_lookup_ne m l k : k ∉ f <$> l → foldl put m l !! k = m !! k.
Proof.
  revert m. induction l as [|x l IH]; intros m Hk; [done|]. simpl.
  rewrite IH by set_solver. apply lookup_insert_ne. set_solver.
Qed.

Lemma foldl_put_lookup m l k :
  k ∈ f <$> l → ∃ y, y ∈ l ∧ f y = k ∧ foldl put m l !! k = Some (g y).
Proof.
  revert m. induction l as [|x l IH]; intros m Hk; [by apply elem_of_nil in Hk|]. simpl.
  destruct (decide (k ∈ f <$> l)) as [Hl|Hl].
  - destruct (IH (put m x) Hl) as (y & ? & ? & ?). exists y. split; [set_solver|done].
  - assert (k = f x) as -> by set_solver. exists x.
    rewrite foldl_put_lookup_ne by done. split_and!; [set_solver|done|apply lookup_insert_eq].
Qed.

Lemma foldl_put_ext (g' : A → V) m l :
  Forall (λ x, g x = g' x) l → foldl put m l = foldl (λ m x, <[f x := g' x]> m) m l.
Proof.
  intros Hl. revert m. induction Hl as [|x l Hx _ IH]; intros m; [done|].
  simpl. unfold put at 2. by rewrite Hx, IH.
Qed.

End put.

(** ** A batch that has succeeded *)

Section rerun.
Context `{Collaborators} `{Console}.
Implicit Types (fs : gmap path fs_node) (o p q : path) (w : world) (fl : list path).

(** A file of a batch by its name, whatever it holds. *)
Definition source (p : path) : Prop :=
  valid_path p ∧ valid_part (name p) ∧ has_epub_suffix p.

Lemma written_put fs0 o :
  written fs0 o
  = put (target_txt o) (λ p, File (from_option (utf8_bytes ∘ book_text) [] (book_at fs0 p))).
Proof. done. Qed.

(** The target of a file of the batch holds the text of a file of the
    batch with that target. *)
Lemma foldl_written_lookup fs0 o fl fs p :
  p ∈ fl →
  ∃ q, q ∈ fl ∧ target_txt o q = target_txt o p ∧
    foldl (written fs0 o) fs fl !! target_txt o p
    = Some (File (from_option (utf8_bytes ∘ book_text) [] (book_at fs0 q))).
Proof.
  intros Hp. rewrite written_put. apply foldl_put_lookup, list_elem_of_fmap. by exists p.
Qed.

Lemma book_at_written o fs p q n :
  valid_part (name p) → has_epub_suffix q →
  book_at (<[target_txt o p := n]> fs) q = book_at fs q.
Proof.
  intros Hn Hs. unfold book_at. rewrite lookup_node_insert_ne; [done|].
  intros <-. by rewrite target_txt_not_epub in Hs.
Qed.

(** What the success of one conversion of a batch tells. *)
Lemma convert_file_inv o p w w' :
  valid_path o → source p → convert_file o p w = (inr (), w') →
  ready o (files w) p
  ∧ files w' = written (files w) o (files w) p.
Proof.
  intros Ho (Hv & Hn & Hs)
    (data & b & bs & Hw & Henc & _ & _ & Hsrc & Hb & Hpr & _)%epub_to_txt_inv.
  rewrite Path_str_of_path in Hsrc by done.
  rewrite Path_str_of_path in Hw by by apply target_txt_valid.
  apply write_file_inv in Hw as (Ht & _ & [= ->]).
  apply utf8_encode_inr_iff in Henc as [Henc ->].
  assert (book_at (files w) p = Some b) as E by (unfold book_at; by rewrite Hsrc).
  split; [|unfold written; by rewrite E].
  split_and!; try done. unfold holds_text. by rewrite E.
Qed.

(** Readiness before a write, from readiness after it. *)
Lemma ready_before o fs p q bs :
  ready o fs p → ready o (<[target_txt o p := File bs]> fs) q → ready o fs q.
Proof.
  intros (_ & Hn & _ & _ & Htp & _) (Hv & Hnq & Hs & Hb & Ht & Hpr).
  split_and!; try done.
  - unfold holds_text in *. by rewrite book_at_written in Hb.
  - destruct (decide (target_txt o p = target_txt o q)) as [<-|?]; [done|].
    by rewrite lookup_node_insert_ne in Ht.
Qed.

(** A loop that converted every file found every file ready. *)
Lemma for_each_convert_file_ready o fl : ∀ w w',
  valid_path o → Forall source fl →
  for_each (convert_file o) fl w = (inr (), w') → Forall (ready o (files w)) fl.
Proof.
  induction fl as [|p fl IH]; intros w w' Ho Hfl; [constructor|].
  apply Forall_cons in Hfl as [Hp Hfl]. rewrite for_each_cons.
  intros ([] & w1 & [Hr E]%convert_file_inv & Hrest%IH)%bind_inv_succeeds; try done.
  constructor; [done|]. eapply Forall_impl; [exact Hrest|]. intros q.
  rewrite E. by apply ready_before.
Qed.

(** Writes of texts change neither the books nor the directories, and
    leave the files of the batch ready. *)
Lemma foldl_written_ready fs0 o fl q : ∀ fs,
  Forall (ready o fs) fl → ready o fs q →
  ready o (foldl (written fs0 o) fs fl) q
  ∧ book_at (foldl (written fs0 o) fs fl) q = book_at fs q.
Proof.
  induction fl as [|p fl IH]; intros fs Hfl Hq; [done|].
  apply Forall_cons in Hfl as [Hp Hfl]. simpl.
  destruct (ready_written o fs p q (from_option (utf8_bytes ∘ book_text) [] (book_at fs0 p)))
    as [Hq' E]; [done..|].
  destruct (IH (written fs0 o fs p)) as [? E']; [|done|split; [done|by rewrite E']].
  eapply Forall_impl; [exact Hfl|]. intros q' ?. by apply ready_written.
Qed.

Lemma foldl_written_is_dir fs0 o fl d : ∀ fs,
  Forall (ready o fs) fl → is_dir_in fs d → is_dir_in (foldl (written fs0 o) fs fl) d.
Proof.
  induction fl as [|p fl IH]; intros fs Hfl Hd; [done|].
  apply Forall_cons in Hfl as [Hp Hfl]. simpl. apply IH.
  - eapply Forall_impl; [exact Hfl|]. intros q' Hq'. by apply ready_written.
  - destruct Hp as (_ & _ & _ & _ & Ht & _). apply bool_decide_unpack in Hd.
    apply bool_decide_pack, lookup_node_insert_Dir; auto.
Qed.

(** The lines a batch prints. *)
Definition batch_lines (idir o : path) fl : list str :=
  if is_nil fl then [no_files_message idir] else report o <$> fl.

(** What the success of the loop tells: every file was ready, the texts
    are written and the lines printed. *)
Lemma for_each_convert_file_inr o fl w w' :
  valid_path o → Forall source fl → is_dir_in (files w) o →
  for_each (convert_file o) fl w = (inr (), w') →
  Forall (ready o (files w)) fl
  ∧ w' = World (foldl (written (files w) o) (files w) fl) (stdout w ++ (report o <$> fl)).
Proof.
  intros Ho Hfl Hd Hrun. pose proof (for_each_convert_file_ready _ _ _ _ Ho Hfl Hrun) as Hr.
  split; [done|]. rewrite (for_each_convert_file o fl (files w)) in Hrun; try done.
  - by injection Hrun.
  - by apply Forall_true.
Qed.

(** The lines of files that are ready can be shown. *)
Lemma ready_printable o fs fl : Forall (ready o fs) fl → Forall printable (report o <$> fl).
Proof.
  intros Hr. apply Forall_fmap. eapply Forall_impl; [exact Hr|].
  by intros p (_ & _ & _ & _ & _ & ?).
Qed.

Lemma convert_all_inr idir o fl w w' :
  valid_path o → Forall source fl → is_dir_in (files w) o →
  convert_all idir o fl w = (inr (), w') →
  Forall (ready o (files w)) fl
  ∧ Forall printable (batch_lines idir o fl)
  ∧ w' = World (foldl (written (files w) o) (files w) fl)
               (stdout w ++ batch_lines idir o fl).
Proof.
  intros Ho Hfl Hd. unfold convert_all, batch_lines. destruct (is_nil fl) eqn:E.
  - apply is_nil_true in E as ->. intros [? ->]%print_inv. split_and!; [constructor|by constructor|done].
  - intros [Hr ->]%for_each_convert_file_inr; [|done..].
    split_and!; [done|by eapply ready_printable|done].
Qed.

(** What a failure of the loop tells: the lines of the files before the
    failing one are printed, and no other. *)
Lemma convert_all_inl_stdout idir o fl e w w' :
  valid_path o → Forall source fl → is_dir_in (files w) o →
  convert_all idir o fl w = (inl e, w') →
  ∃ fl1, fl1 `prefix_of` fl ∧ stdout w' = stdout w ++ (report o <$> fl1).
Proof.
  intros Ho Hfl Hd
    [(-> & _ & _ & ->)|(fl1 & p & fl2 & w1 & -> & Hfl1 & Hp)]%convert_all_inl.
  { exists []. by rewrite app_nil_r. }
  apply Forall_app in Hfl as [Hs [(_ & Hn & _) _]%Forall_cons].
  apply for_each_convert_file_inr in Hfl1 as [_ ->]; [|done..].
  apply convert_file_inl in Hp; [|done..].
  exists fl1. split; [by apply prefix_app_r|].
  by destruct (encoding_error e); [destruct Hp as (bs & -> & _)|subst].
Qed.

(** The loop run again on what it has written. *)
Lemma convert_all_again idir o fl w out :
  valid_path o → is_dir_in (files w) o → Forall (ready o (files w)) fl →
  Forall printable (batch_lines idir o fl) →
  convert_all idir o fl (World (foldl (written (files w) o) (files w) fl) out)
  = (inr (), World (foldl (written (files w) o) (files w) fl)
                   (out ++ batch_lines idir o fl)).
Proof.
  intros Ho Hd Hr Hp. unfold convert_all, batch_lines in *. destruct (is_nil fl) eqn:E.
  { apply is_nil_true in E as ->. apply Forall_inv in Hp. by rewrite print_inr. }
  rewrite (for_each_convert_file o fl (files w)); simpl;
    [by rewrite written_put, foldl_put_twice|done|by apply foldl_written_is_dir|..].
  all: apply Forall_forall; intros q Hq; rewrite Forall_forall in Hr.
  all: by apply foldl_written_ready; [apply Forall_forall|apply Hr].
Qed.

End rerun.

Section rerun_batch.
Context `{Collaborators} `{Console} `{Listing}.
Implicit Types (fs : gmap path fs_node) (w : world) (input_dir output_dir : str).

(** Texts written and directories made do not change the files a batch
    selects. *)
Lemma epub_files_differs ps fs fs' dir :
  differs_at ps fs fs' → Forall (λ q, ¬ has_epub_suffix q) ps →
  epub_files fs' dir = epub_files fs dir.
Proof.
  intros Hd Hps. unfold epub_files. apply sorted_unique, NoDup_Permutation;
    [apply NoDup_filter, children_NoDup..|].
  intros q. unfold children, is_epub_in.
  rewrite !list_elem_of_filter, !andb_True, !elem_of_elements, !elem_of_dom.
  destruct (decide (has_epub_suffix q)) as [Hs|Hs]; [|tauto].
  assert (q ∉ ps) as Hq by (rewrite Forall_forall in Hps; intros ?; by apply (Hps q)).
  unfold is_file_in, lookup_node. case_decide; [naive_solver|].
  destruct (Hd q Hq) as [->|[-> ->]]; naive_solver.
Qed.

Lemma targets_not_epub fs dir (o : path) :
  fs_wf fs → Forall (λ q, ¬ has_epub_suffix q) (targets o (epub_files fs dir)).
Proof.
  intros Hwf. apply Forall_fmap, Forall_forall. intros p Hp. simpl.
  apply (elem_of_epub_files _ _ _ Hwf) in Hp as (_ & Hn & _).
  rewrite target_txt_not_epub by done. by intros [].
Qed.

Lemma epub_files_sources fs dir : fs_wf fs → Forall source (epub_files fs dir).
Proof.
  intros Hwf. apply Forall_forall. intros p Hp.
  by apply (elem_of_epub_files _ _ _ Hwf) in Hp as (? & ? & ? & _).
Qed.

(** A batch that succeeds has passed its checks. *)
Lemma convert_directory_inr_inv input_dir output_dir w w' :
  fs_wf (files w) → convert_directory input_dir output_dir w = (inr (), w') →
  ∃ w1, is_dir_in (files w) (Path input_dir)
        ∧ mkdir_parents (Path output_dir) w = (inr (), w1)
        ∧ convert_all (Path input_dir) (Path output_dir)
            (epub_files (files w) (Path input_dir)) w1 = (inr (), w').
Proof.
  intros Hwf. destruct (decide (is_dir_in (files w) (Path input_dir))) as [Hd|Hd].
  - destruct (mkdir_parents (Path output_dir) w) as [[e|[]] w1] eqn:Hmk.
    + by rewrite (convert_directory_mkdir_fails _ _ e w w1).
    + rewrite (convert_directory_run _ _ _ w1) by done. by exists w1.
  - by rewrite convert_directory_not_dir.
Qed.

(** The batch as its success determines it: the texts written from the
    books the directory held, on top of the directories made. *)
Lemma convert_directory_inr input_dir output_dir w w' :
  fs_wf (files w) → convert_directory input_dir output_dir w = (inr (), w') →
  ∃ w1, mkdir_parents (Path output_dir) w = (inr (), w1)
    ∧ is_dir_in (files w) (Path input_dir)
    ∧ Forall (ready (Path output_dir) (files w1)) (epub_files (files w) (Path input_dir))
    ∧ Forall printable (batch_lines (Path input_dir) (Path output_dir)
                          (epub_files (files w) (Path input_dir)))
    ∧ w' = World (foldl (written (files w1) (Path output_dir)) (files w1)
                    (epub_files (files w) (Path input_dir)))
                 (stdout w ++ batch_lines (Path input_dir) (Path output_dir)
                                (epub_files (files w) (Path input_dir))).
Proof.
  intros Hwf (w1 & Hd & Hmk & Hall)%convert_directory_inr_inv; [|done].
  destruct (mkdir_parents_inr _ _ _ Hwf (Path_valid _) Hmk) as (_ & _ & Ho & <-).
  apply convert_all_inr in Hall as (Hr & Hp & ->); auto using epub_files_sources with py.
  by exists w1.
Qed.

(** A batch that fails has failed a check, and changed nothing, or has
    failed in its loop, after the output directory was made. *)
Lemma convert_directory_inl_inv input_dir output_dir e w w' :
  fs_wf (files w) → convert_directory input_dir output_dir w = (inl e, w') →
  w' = w
  ∨ ∃ w1, mkdir_parents (Path output_dir) w = (inr (), w1)
          ∧ convert_all (Path input_dir) (Path output_dir)
              (epub_files (files w) (Path input_dir)) w1 = (inl e, w').
Proof.
  intros Hwf. destruct (decide (is_dir_in (files w) (Path input_dir))) as [Hd|Hd].
  - destruct (mkdir_parents (Path output_dir) w) as [[e'|[]] w1] eqn:Hmk.
    + rewrite (convert_directory_mkdir_fails _ _ e' w w1) by done. intros [= _ <-].
      left. by apply mkdir_parents_inl in Hmk as [-> _].
    + rewrite (convert_directory_run _ _ _ w1) by done. right. by exists w1.
  - rewrite convert_directory_not_dir by done. intros [= _ <-]. by left.
Qed.

End rerun_batch.

(** ** Theorems *)

Section rerun_theorems.
Context `{Collaborators} `{Console} `{Listing}.

(** One line is printed for each file converted, in the order of the
    conversions, and nothing else but the report of an empty batch:
    when a batch succeeds the lines of all its files, when it fails the
    lines of the files before the failing one. *)
Theorem convert_directory_reports (input_dir output_dir : str) r (w w' : world) :
  fs_wf (files w) → convert_directory input_dir output_dir w = (r, w') →
  match r with
  | inr _ => stdout w' = stdout w ++ batch_lines (Path input_dir) (Path output_dir)
                                       (epub_files (files w) (Path input_dir))
  | inl _ => ∃ fl1, fl1 `prefix_of` epub_files (files w) (Path input_dir)
                    ∧ stdout w' = stdout w ++ (report (Path output_dir) <$> fl1)
  end.
Proof.
  intros Hwf. destruct r as [e|[]].
  - intros Hrun. apply convert_directory_inl_inv in Hrun as [->|(w1 & Hmk & Hall)]; [| |done].
    { exists []. split; [apply prefix_nil|by rewrite app_nil_r]. }
    destruct (mkdir_parents_inr _ _ _ Hwf (Path_valid _) Hmk) as (_ & _ & Ho & <-).
    apply convert_all_inl_stdout in Hall; auto using epub_files_sources with py.
  - by intros (w1 & _ & _ & _ & _ & ->)%convert_directory_inr.
Qed.

(** C28: a batch can be run again: after a batch that succeeded, the same
    batch succeeds, selects the same files, prints the same lines and
    leaves every entry of the file system as the first run left it. *)
Theorem convert_directory_rerun (input_dir output_dir : str) (w w' : world) :
  fs_wf (files w) → convert_directory input_dir output_dir w = (inr (), w') →
  ∃ lines, stdout w' = stdout w ++ lines
    ∧ convert_directory input_dir output_dir w' = (inr (), World (files w') (stdout w' ++ lines)).
Proof.
  intros Hwf Hrun. pose proof (convert_directory_wf _ _ _ _ _ Hwf Hrun) as Hwf'.
  pose proof (convert_directory_differs _ _ _ _ _ Hwf Hrun) as Hdiff.
  apply (epub_files_differs _ _ _ (Path input_dir)) in Hdiff as Efl;
    [|by apply targets_not_epub].
  apply convert_directory_inr in Hrun as (w1 & Hmk & Hd & Hr & Hp & ->); [|done].
  destruct (mkdir_parents_inr _ _ _ Hwf (Path_valid _) Hmk) as (_ & Hg & Ho & _).
  set (fl := epub_files (files w) (Path input_dir)) in *.
  set (fs' := foldl (written (files w1) (Path output_dir)) (files w1) fl) in *.
  exists (batch_lines (Path input_dir) (Path output_dir) fl). split; [done|]. simpl in *.
  assert (is_dir_in fs' (Path output_dir)) by by apply foldl_written_is_dir.
  assert (is_dir_in fs' (Path input_dir))
    by by apply foldl_written_is_dir, (grows_is_dir (files w)).
  set (w2 := World fs' _).
  rewrite (convert_directory_run _ _ w2 w2); [|done..|by apply mkdir_parents_exists].
  simpl. rewrite Efl. apply convert_all_again; auto with py.
Qed.

(** C23: on a console that cannot show the arrow of the report a batch
    with files never succeeds and never gets past its first file: that
    file is converted at most (its text is written when the book is
    sound), no line is printed, and the batch ends with the error of the
    first conversion. *)
Theorem convert_directory_needs_arrow (input_dir output_dir : str) p fl (w w1 : world) :
  console_char ARROW = false →
  fs_wf (files w) → is_dir_in (files w) (Path input_dir) →
  mkdir_parents (Path output_dir) w = (inr (), w1) →
  epub_files (files w) (Path input_dir) = p :: fl →
  ∃ e w', convert_directory input_dir output_dir w = (inl e, w')
    ∧ conversion_error e ∧ stdout w' = stdout w
    ∧ (files w' = files w1
       ∨ ∃ bs, files w' = <[target_txt (Path output_dir) p := File bs]> (files w1)).
Proof.
  intros Ha Hwf Hd Hmk E. rewrite (convert_directory_run _ _ _ w1), E by done.
  destruct (mkdir_parents_inr _ _ _ Hwf (Path_valid _) Hmk) as (_ & _ & _ & <-).
  destruct (elem_of_epub_files (files w) (Path input_dir) p Hwf) as (_ & Hn & _).
  { rewrite E. set_solver. }
  unfold convert_all. simpl. destruct (convert_file (Path output_dir) p w1) as [[e|[]] w2] eqn:Hp.
  - exists e, w2. rewrite (bind_fails _ _ _ e w2) by done.
    pose proof (raises_only_epub_to_txt _ _ _ _ _ Hp).
    pose proof (epub_to_txt_files _ _ _ _ _ Hp) as Hf.
    rewrite Path_str_of_path in Hf by (apply target_txt_valid; auto with py).
    apply convert_file_inl in Hp; [|auto with py..].
    split_and!; try done.
    by destruct (encoding_error e); [destruct Hp as (bs & -> & _)|subst].
  - apply epub_to_txt_inr_arrow in Hp. by rewrite Ha in Hp.
Qed.

End rerun_theorems.

Lemma convert_directory_rerun_witness :
  ∃ lines,
    stdout (snd (@convert_directory demo_collab demo_listing utf8_console (py "in") (py "in") demo_dir))
    = stdout demo_dir ++ lines
    ∧ @convert_directory demo_collab demo_listing utf8_console (py "in") (py "in")
        (snd (@convert_directory demo_collab demo_listing utf8_console (py "in") (py "in") demo_dir))
      = (inr (),
         World (files (snd (@convert_directory demo_collab demo_listing utf8_console (py "in") (py "in")
                              demo_dir)))
               (stdout (snd (@convert_directory demo_collab demo_listing utf8_console (py "in") (py "in")
                               demo_dir)) ++ lines)).
Proof.
  apply (@convert_directory_rerun demo_collab utf8_console demo_listing (py "in") (py "in") demo_dir).
  - by_decide.
  - by_compute.
Defined.

Lemma convert_directory_reports_witness :
  ∃ fl1, fl1 `prefix_of` epub_files (files demo_dir) (Path (py "bad"))
    ∧ stdout (snd (@convert_directory demo_collab demo_listing utf8_console (py "bad") (py "out") demo_dir))
      = stdout demo_dir ++ (report (Path (py "out")) <$> fl1).
Proof.
  apply (@convert_directory_reports demo_collab utf8_console demo_listing (py "bad") (py "out")
           (inl (EpubError [py "bad"; py "b.epub"])) demo_dir).
  - by_decide.
  - by_compute.
Defined.

(** On a Latin-1 console the batch of the specification stops in its
    first file: [a.txt] is written, nothing is printed, and [b.epub] is
    not converted. *)
Example batch_latin1 :
  let r := @convert_directory demo_collab demo_listing latin1_console (py "in") (py "out")
             demo_dir in
  fst r = inl (UnicodeEncodeError 22 23) ∧
  children (files (snd r)) [py "out"] = [[py "out"; py "a.txt"]] ∧
  stdout (snd r) = [].
Proof. vm_compute. by repeat split. Qed.

Lemma convert_directory_needs_arrow_witness :
  ∃ e w',
    @convert_directory demo_collab demo_listing latin1_console (py "in") (py "out") demo_dir
    = (inl e, w')
    ∧ conversion_error e ∧ stdout w' = stdout demo_dir
    ∧ (files w' = files (snd (mkdir_parents (Path (py "out")) demo_dir))
       ∨ ∃ bs, files w' = <[target_txt (Path (py "out")) [py "in"; py "a.EPUB"] := File bs]>
                            (files (snd (mkdir_parents (Path (py "out")) demo_dir)))).
Proof.
  apply (@convert_directory_needs_arrow demo_collab latin1_console demo_listing (py "in")
           (py "out") [py "in"; py "a.EPUB"] [[py "in"; py "b.epub"]] demo_dir).
  - by_compute.
  - by_decide.
  - by_compute.
  - by_compute.
  - by_compute.
Defined.

(** A book whose name is not UTF-8 reaches the program with a lone
    surrogate in its name (U+DCFF for the byte FF) and sorts after the
    others.  On a UTF-8 console its text is written and its report
    raises: the batch ends with the error of the codec although every
    book is converted. *)
Example batch_escaped_name :
  let w := World {[ [py "in"] := Dir;
                    [py "in"; 0xDCFF%N :: py ".epub"] := File (py "PK");
                    [py "in"; py "z.epub"] := File (py "PK") ]} [] in
  let r := @convert_directory demo_collab demo_listing utf8_console (py "in") (py "out") w in
  fst r = inl (UnicodeEncodeError 14 15) ∧
  children (files (snd r)) [py "out"]
  = [[py "out"; py "z.txt"]; [py "out"; 0xDCFF%N :: py ".txt"]] ∧
  stdout (snd r) = [converted_message (py "in/z.epub") (py "out/z.txt")].
Proof. vm_compute. by repeat split. Qed.
