(* ===== verification/Order.v ===== *)
(** * Order: how far the order of a batch matters

    The loop of [convert_directory] ([src/epub_to_txt.py], lines 81-83)
    takes the files in sorted order, one after the other.  The
    conversions do not depend on each other: a conversion reads its
    book and writes its target, and no target is a book.  So a loop that
    succeeds succeeds in any order of its files, prints the same lines
    in the order it takes them, and leaves the same files, unless two
    files share a target, in which case the last one wins.
    [same_lines] is the equivalence of worlds that forgets the order of
    the lines. *)

From stdpp Require Import list strings gmap.
From S2P Require Import Prelude PyStr Utf8 Epub Pathlib FileSys Convert Batch Frame Outcome.

Set Warnings "-clear-no-such-hyp".

(** The same files, and the same lines in some order. *)
Definition same_lines (w w' : world) : Prop :=
  files w = files w' ∧ stdout w ≡ₚ stdout w'.

#[export] Instance same_lines_equiv : Equivalence same_lines.
Proof.
  split.
  - by intros w.
  - intros w w' [E1 E2]. by split.
  - intros w1 w2 w3 [E1 E2] [E3 E4]. split; [congruence|by etrans].
Qed.

#[export] Instance files_same_lines : Proper (same_lines ==> (=)) files.
Proof. by intros w w' [? _]. Qed.

#[export] Instance stdout_same_lines : Proper (same_lines ==> (≡ₚ)) stdout.
Proof. by intros w w' [_ ?]. Qed.

(** Writes under distinct keys can be made in any order. *)
Section put_order.
Context {A K V : Type} `{Countable K} (f : A → K) (g : A → V).

Lemma foldl_put_perm (m : gmap K V) (l l' : list A) :
  NoDup (f <$> l) → l ≡ₚ l' → foldl (put f g) m l = foldl (put f g) m l'.
Proof.
  intros Hnd Hp. rewrite !foldl_put. f_equal. apply list_to_map_proper.
  - by rewrite reverse_Permutation, <-list_fmap_compose.
  - by rewrite !reverse_Permutation, Hp.
Qed.

End put_order.

Section order.
Context `{Collaborators} `{Console}.
Implicit Types (o p : path) (fl : list path) (w : world).

(** The loop, in another order. *)
Lemma for_each_any_order o fl fl' w w1 :
  valid_path o → is_dir_in (files w) o → Forall source fl → fl ≡ₚ fl' →
  for_each (convert_file o) fl w = (inr (), w1) →
  ∃ w2, for_each (convert_file o) fl' w = (inr (), w2)
        ∧ stdout w2 ≡ₚ stdout w1
        ∧ (NoDup (targets o fl) → files w2 = files w1).
Proof.
  intros Ho Hd Hs Hp [Hr ->]%for_each_convert_file_inr; [|done..].
  eexists. split_and!.
  - apply (for_each_convert_file o fl' (files w)); [done..|by rewrite <-Hp|by apply Forall_true].
  - simpl. by rewrite Hp.
  - intros Hnd. simpl. rewrite !written_put. symmetry. by apply foldl_put_perm.
Qed.

End order.

(** ** Theorems *)

Section order_theorems.
Context `{Collaborators} `{Console}.
Implicit Types (o : path) (fl : list path) (w : world).

(** C29: the files of a batch can be taken in any order.  When the loop
    of lines 77-83 succeeds on a list of files, it succeeds on every
    reordering of the list, prints the same lines, in the order it
    takes the files, and, when no two files share a target, leaves the
    same file system: no conversion depends on another. *)
Theorem convert_all_any_order idir o fl fl' w w1 :
  valid_path o → is_dir_in (files w) o → Forall source fl → fl ≡ₚ fl' →
  convert_all idir o fl w = (inr (), w1) →
  ∃ w2, convert_all idir o fl' w = (inr (), w2)
        ∧ stdout w2 ≡ₚ stdout w1
        ∧ (NoDup (targets o fl) → same_lines w2 w1).
Proof.
  intros Ho Hd Hs Hp. destruct fl as [|p fl].
  { apply Permutation_nil_l in Hp as ->. intros Hrun. exists w1. by rewrite Hrun. }
  destruct fl' as [|p' fl']; [by apply Permutation_nil_r in Hp|].
  change (convert_all idir o (p :: fl) w) with (for_each (convert_file o) (p :: fl) w).
  change (convert_all idir o (p' :: fl') w) with (for_each (convert_file o) (p' :: fl') w).
  intros (w2 & Hrun & Hout & Hfs)%(for_each_any_order o _ (p' :: fl')); [|done..].
  exists w2. split_and!; [done..|]. intros Hnd. split; auto.
Qed.

End order_theorems.

(** The two books of the instance, converted in either order. *)
Lemma convert_all_any_order_witness :
  let fl := [[py "in"; py "a.EPUB"]; [py "in"; py "b.epub"]] in
  let w1 := (@convert_all demo_collab utf8_console [py "in"] [py "in"] fl demo_dir).2 in
  ∃ w2, @convert_all demo_collab utf8_console [py "in"] [py "in"] (reverse fl) demo_dir
        = (inr (), w2)
        ∧ stdout w2 ≡ₚ stdout w1
        ∧ (NoDup (targets [py "in"] fl) → same_lines w2 w1).
Proof.
  intros fl w1.
  apply (@convert_all_any_order demo_collab utf8_console [py "in"] [py "in"] fl (reverse fl)
           demo_dir w1).
  - by_decide.
  - by_compute.
  - repeat constructor; by_decide.
  - by rewrite reverse_Permutation.
  - by_compute.
Defined.

(** Two files that share a target: both orders succeed, and the file
    taken last leaves its text. *)
Example order_decides_shared_target :
  let o := [py "out"] in
  let w := World (<[o := Dir]> (files demo_dir)) [] in
  let a := [py "dup"; py "a.epub"] in
  let b := [py "dup"; py "a.EPUB"] in
  files (@convert_all demo_collab utf8_console [py "dup"] o [a; b] w).2 !! [py "out"; py "a.txt"]
  = Some (File (py "Hello" ++ [LF; LF; LF; LF] ++ py "World"))
  ∧ files (@convert_all demo_collab utf8_console [py "dup"] o [b; a] w).2
      !! [py "out"; py "a.txt"]
    = Some (File (py "Other")).
Proof. vm_compute. by repeat split. Qed.
