(* ===== verification/BatchSteps.v ===== *)
(** * BatchSteps: a batch, one effect at a time

    [convert_directory] of [src/epub_to_txt.py] (lines 64-83) as a
    transition system over the steps of its conversions.  A
    [batch_point] is a place of the function between two effects: before
    the check of the input directory (line 68), before the output
    directory is made and between the directories of its chain (line
    71), before the directory is listed (lines
    73-75), before the report of an empty batch (line 78), at the head
    of the loop (line 81), inside the conversion of one file (line 83,
    at a [point] of [Steps]), and the two ways the function ends.
    [batch_next] is the stepper and [batch_run] runs it.

    The theorems relate the steps to the function of [Batch]: the runs
    end, and end in what [convert_directory] returns; and at every point
    of a run, also in the middle of a file, the files of the input are
    as they were, only targets of the batch differ, every target holds
    a part of the text of its book, from its start, or what it held,
    and the lines printed are the first lines of the whole batch. *)

From stdpp Require Import list strings gmap relations.
From S2P Require Import Prelude PyStr Utf8 Epub Pathlib FileSys Convert Steps Batch Frame Outcome.

Set Warnings "-clear-no-such-hyp".

(** The points of a batch. *)
Inductive batch_point :=
| AtCheck
| AtMkdir
| InMkdir (made todo : path)
| AtList
| AtEmpty
| AtLoop (epub_files : list path)
| InFile (pt : point) (epub_file : path) (epub_files : list path)
| BatchReturned
| BatchRaised (e : exn).

#[export] Instance batch_point_eq_dec : EqDecision batch_point.
Proof. solve_decision. Defined.

Definition batch_after {A} (r : exn + A) (k : A → batch_point) : batch_point :=
  match r with
  | inr a => k a
  | inl e => BatchRaised e
  end.

Definition batch_ended (r : exn + unit) : batch_point := batch_after r (λ _, BatchReturned).

Definition batch_final (bp : batch_point) : bool :=
  match bp with
  | BatchReturned | BatchRaised _ => true
  | _ => false
  end.

(** Line 77: the report of an empty batch, or the loop. *)
Definition listed (epub_files : list path) : batch_point :=
  if is_nil epub_files then AtEmpty else AtLoop epub_files.

(** Line 81: the loop ends when no file is left, or takes the next file
    and enters its conversion. *)
Definition loop_head (epub_files : list path) : batch_point :=
  match epub_files with
  | [] => BatchReturned
  | epub_file :: epub_files => InFile AtRead epub_file epub_files
  end.

(** Line 83, once the conversion of the file has ended: the loop goes
    on, or the exception ends the batch. *)
Definition left_file (pt : point) (epub_files : list path) : option batch_point :=
  match pt with
  | Returned => Some (AtLoop epub_files)
  | Raised e => Some (BatchRaised e)
  | _ => None
  end.

Section batch_machine.
Context `{Collaborators} `{Listing} `{Console} (input_dir output_dir : str).

(** The steps of the conversion of one file of the batch (lines 82, 83). *)
Definition file_step (epub_file : path) : relation (point * world) :=
  conv_step (str_of_path epub_file)
    (str_of_path (target_txt (Path output_dir) epub_file)).

(** One effect of the batch.  For line 71: [mkdir] fails before it has
    made anything, when a file is in the way ([step_mkdir]); otherwise
    the directories of the chain that are missing are made from the
    top, one at a step ([step_mkdir_part]). *)
Inductive batch_step : relation (batch_point * world) :=
| step_check r w w' :
    check_input_dir (Path input_dir) w = (r, w') →
    batch_step (AtCheck, w) (batch_after r (λ _, AtMkdir), w')
| step_mkdir r w w' :
    mkdir_parents (Path output_dir) w = (r, w') →
    batch_step (AtMkdir, w) (batch_after r (λ _, InMkdir [] (Path output_dir)), w)
| step_mkdir_part made x todo r w w' :
    mkdir_part (Path output_dir) made x todo w = (r, w') →
    batch_step (InMkdir made (x :: todo), w)
               (batch_after r (λ _, InMkdir (made ++ [x]) todo), w')
| step_mkdir_done made w :
    batch_step (InMkdir made [], w) (AtList, w)
| step_list r w w' :
    find_epub_files (Path input_dir) w = (r, w') →
    batch_step (AtList, w) (batch_after r listed, w')
| step_empty r w w' :
    print (no_files_message (Path input_dir)) w = (r, w') →
    batch_step (AtEmpty, w) (batch_ended r, w')
| step_loop fl w :
    batch_step (AtLoop fl, w) (loop_head fl, w)
| step_file pt pt' p fl w w' :
    file_step p (pt, w) (pt', w') →
    batch_step (InFile pt p fl, w) (InFile pt' p fl, w')
| step_leave pt bp p fl w :
    left_file pt fl = Some bp →
    batch_step (InFile pt p fl, w) (bp, w).

(** The stepper; the bytes of a text reach its file [S n] at a time. *)
Definition batch_next (n : nat) (c : batch_point * world) : option (batch_point * world) :=
  let '(bp, w) := c in
  match bp with
  | AtCheck =>
    let '(r, w') := check_input_dir (Path input_dir) w in
    Some (batch_after r (λ _, AtMkdir), w')
  | AtMkdir =>
    let '(r, _) := mkdir_parents (Path output_dir) w in
    Some (batch_after r (λ _, InMkdir [] (Path output_dir)), w)
  | InMkdir made [] => Some (AtList, w)
  | InMkdir made (x :: todo) =>
    let '(r, w') := mkdir_part (Path output_dir) made x todo w in
    Some (batch_after r (λ _, InMkdir (made ++ [x]) todo), w')
  | AtList =>
    let '(r, w') := find_epub_files (Path input_dir) w in Some (batch_after r listed, w')
  | AtEmpty =>
    let '(r, w') := print (no_files_message (Path input_dir)) w in Some (batch_ended r, w')
  | AtLoop fl => Some (loop_head fl, w)
  | InFile pt p fl =>
    match left_file pt fl with
    | Some bp => Some (bp, w)
    | None =>
      c' ← conv_next (str_of_path p) (str_of_path (target_txt (Path output_dir) p)) n (pt, w);
      Some (InFile c'.1 p fl, c'.2)
    end
  | BatchReturned | BatchRaised _ => None
  end.

Definition batch_run (n fuel : nat) (c : batch_point * world) : batch_point * world :=
  iterate (batch_next n) fuel c.

(** ** Specification *)

(** The batch has got to line 77 in the world [w]: the input is a
    directory, the output directory is made and [fl] are the files
    found. *)
Definition made_dirs (w0 w : world) : Prop :=
  ∃ wc, check_input_dir (Path input_dir) w0 = (inr (), wc)
        ∧ mkdir_parents (Path output_dir) wc = (inr (), w).

Definition started (w0 w : world) (fl : list path) : Prop :=
  ∃ w1, made_dirs w0 w1 ∧ find_epub_files (Path input_dir) w1 = (inr fl, w).

(** What a point of a run that started in [w0] knows. *)
Definition batch_inv (w0 : world) (c : batch_point * world) : Prop :=
  match c.1 with
  | AtCheck => c.2 = w0
  | AtMkdir => check_input_dir (Path input_dir) w0 = (inr (), c.2)
  | InMkdir made todo =>
    ∃ wc w1,
      check_input_dir (Path input_dir) w0 = (inr (), wc)
      ∧ mkdir_parents (Path output_dir) wc = (inr (), w1)
      ∧ mkdir_from (Path output_dir) made todo (files c.2) = inr (files w1)
      ∧ grows (files wc) (files c.2) ∧ stdout c.2 = stdout wc
  | AtList => made_dirs w0 c.2
  | AtEmpty => started w0 c.2 []
  | AtLoop rest =>
    ∃ w1 done,
      started w0 w1 (done ++ rest) ∧ done ++ rest ≠ []
      ∧ for_each (convert_file (Path output_dir)) done w1 = (inr (), c.2)
  | InFile pt p rest =>
    ∃ w1 done wp,
      started w0 w1 (done ++ p :: rest)
      ∧ for_each (convert_file (Path output_dir)) done w1 = (inr (), wp)
      ∧ conv_inv (str_of_path p) (str_of_path (target_txt (Path output_dir) p)) wp (pt, c.2)
  | BatchReturned => convert_directory input_dir output_dir w0 = (inr (), c.2)
  | BatchRaised e => convert_directory input_dir output_dir w0 = (inl e, c.2)
  end.

End batch_machine.

(** The promise of a batch to whoever stops it: only targets differ from
    the files it started with, the files of the input are as they were,
    and a file there is holds what it held or a part of the text of the
    book of the batch whose target it is, from its start. *)
Definition harmless `{Collaborators} (o : path) (fl : list path)
    (fs0 fs : gmap path fs_node) : Prop :=
  differs_at (targets o fl) fs0 fs
  ∧ (∀ p, p ∈ fl → fs !! p = fs0 !! p)
  ∧ ∀ t bs, fs !! t = Some (File bs) →
      fs0 !! t = Some (File bs)
      ∨ ∃ p b, p ∈ fl ∧ target_txt o p = t ∧ book_at fs0 p = Some b
               ∧ bs `prefix_of` utf8_bytes (book_text b).

(** What a batch that started in [w0] has done when it is stopped in
    [w]: no harm to the files, and the first lines of its report. *)
Definition midway `{Collaborators} (idir o : path) (w0 w : world) : Prop :=
  harmless o (epub_files (files w0) idir) (files w0) (files w)
  ∧ ∃ lines, lines `prefix_of` batch_lines idir o (epub_files (files w0) idir)
             ∧ stdout w = stdout w0 ++ lines.

Section batch_machine_lemmas.
Context `{Collaborators} `{Listing} `{Console} (input_dir output_dir : str).
Implicit Types (c : batch_point * world) (w : world) (fl : list path) (p : path).

(** ** The function, from each of its points *)

Lemma convert_directory_check_fails e w w' :
  check_input_dir (Path input_dir) w = (inl e, w') →
  convert_directory input_dir output_dir w = (inl e, w').
Proof. intros Hc. unfold convert_directory. by erewrite bind_fails. Qed.

Lemma convert_directory_at_mkdir e w wc w' :
  check_input_dir (Path input_dir) w = (inr (), wc) →
  mkdir_parents (Path output_dir) wc = (inl e, w') →
  convert_directory input_dir output_dir w = (inl e, w').
Proof.
  intros Hc Hm. unfold convert_directory. erewrite bind_succeeds by exact Hc.
  by erewrite bind_fails.
Qed.

Lemma convert_directory_made_dirs w w1 :
  made_dirs input_dir output_dir w w1 →
  convert_directory input_dir output_dir w
  = (find_epub_files (Path input_dir)
       ≫= convert_all (Path input_dir) (Path output_dir)) w1.
Proof.
  intros (wc & Hc & Hm). unfold convert_directory. erewrite bind_succeeds by exact Hc.
  by erewrite bind_succeeds by exact Hm.
Qed.

Lemma convert_directory_started w w2 fl :
  started input_dir output_dir w w2 fl →
  convert_directory input_dir output_dir w
  = convert_all (Path input_dir) (Path output_dir) fl w2.
Proof.
  intros (w1 & Hm & Hf). rewrite (convert_directory_made_dirs _ _ Hm).
  by erewrite bind_succeeds by exact Hf.
Qed.

Lemma convert_all_loop fl w :
  fl ≠ [] →
  convert_all (Path input_dir) (Path output_dir) fl w
  = for_each (convert_file (Path output_dir)) fl w.
Proof. by destruct fl. Qed.

(** ** The steps keep what a point knows *)

Lemma batch_inv_listed w0 w1 r w :
  made_dirs input_dir output_dir w0 w1 → find_epub_files (Path input_dir) w1 = (r, w) →
  batch_inv input_dir output_dir w0 (batch_after r listed, w).
Proof.
  intros Hm Hf. destruct r as [e|fl]; unfold batch_inv; simpl.
  - rewrite (convert_directory_made_dirs _ _ Hm). by erewrite bind_fails.
  - unfold listed. destruct fl as [|p fl]; simpl; [by exists w1|].
    exists w, []. split_and!; [by exists w1|done..].
Qed.

Lemma batch_inv_left w0 w1 done wp pt bp p fl w :
  started input_dir output_dir w0 w1 (done ++ p :: fl) →
  for_each (convert_file (Path output_dir)) done w1 = (inr (), wp) →
  conv_inv (str_of_path p) (str_of_path (target_txt (Path output_dir) p)) wp (pt, w) →
  left_file pt fl = Some bp → batch_inv input_dir output_dir w0 (bp, w).
Proof.
  intros Hs Hf Hc Hl. destruct pt; simplify_eq/=; unfold batch_inv, conv_inv in *; simpl in *.
  - exists w1, (done ++ [p]). rewrite <-app_assoc.
    split_and!; [done|by destruct done|by eapply for_each_snoc].
  - rewrite (convert_directory_started _ _ _ Hs).
    rewrite convert_all_loop by by destruct done. by eapply for_each_stops.
Qed.

Lemma batch_inv_mkdir w0 r w w' :
  check_input_dir (Path input_dir) w0 = (inr (), w) →
  mkdir_parents (Path output_dir) w = (r, w') →
  batch_inv input_dir output_dir w0 (batch_after r (λ _, InMkdir [] (Path output_dir)), w).
Proof.
  intros Hc Hm. destruct r as [e|[]]; unfold batch_inv; simpl.
  - apply mkdir_parents_inl in Hm as Hw. destruct Hw as [-> _].
    by eapply convert_directory_at_mkdir.
  - exists w, w'. by apply mkdir_parents_inv in Hm as Hm'; destruct Hm' as [? _].
Qed.

Lemma batch_inv_mkdir_part w0 wc w1 made x todo r w w' :
  check_input_dir (Path input_dir) w0 = (inr (), wc) →
  mkdir_parents (Path output_dir) wc = (inr (), w1) →
  mkdir_from (Path output_dir) made (x :: todo) (files w) = inr (files w1) →
  grows (files wc) (files w) → stdout w = stdout wc →
  mkdir_part (Path output_dir) made x todo w = (r, w') →
  batch_inv input_dir output_dir w0
    (batch_after r (λ _, InMkdir (made ++ [x]) todo), w').
Proof.
  intros Hc Hm Hfrom Hg Hout Hp. destruct r as [e|[]].
  - apply mkdir_part_inl in Hp as [Hp _]. congruence.
  - apply mkdir_part_inr in Hp as (Hout' & Hg' & E). exists wc, w1. simpl.
    split_and!; [done..|congruence|by etrans|congruence].
Qed.

Lemma batch_inv_loop_head w0 w1 done fl w :
  started input_dir output_dir w0 w1 (done ++ fl) → done ++ fl ≠ [] →
  for_each (convert_file (Path output_dir)) done w1 = (inr (), w) →
  batch_inv input_dir output_dir w0 (loop_head fl, w).
Proof.
  intros Hs Hne Hf. destruct fl as [|p fl]; unfold batch_inv; simpl.
  - rewrite app_nil_r in Hs, Hne. rewrite (convert_directory_started _ _ _ Hs).
    by rewrite convert_all_loop.
  - by exists w1, done, w.
Qed.

Lemma batch_step_inv w0 c c' :
  batch_inv input_dir output_dir w0 c → batch_step input_dir output_dir c c' →
  batch_inv input_dir output_dir w0 c'.
Proof.
  intros Hc Hstep.
  destruct Hstep as [r w w' Hr|r w w' Hr|made x todo r w w' Hr|made w|r w w' Hr|r w w' Hr|fl w
                    |pt pt' p fl w w' Hf|pt bp p fl w Hl]; unfold batch_inv in Hc; simpl in Hc.
  - subst w. destruct r as [e|[]]; [by apply convert_directory_check_fails|done].
  - by eapply batch_inv_mkdir.
  - destruct Hc as (wc & w1 & Hc & Hm & Hfrom & Hg & Hout). by eapply batch_inv_mkdir_part.
  - destruct Hc as (wc & w1 & Hc & Hm & [= Hfs] & _ & Hout). exists wc.
    split; [done|]. apply mkdir_parents_inv in Hm as Hm'. destruct Hm' as [_ Hout1].
    by replace w with w1 by (destruct w, w1; simpl in *; congruence).
  - by eapply batch_inv_listed.
  - unfold batch_inv. simpl. rewrite (convert_directory_started _ _ _ Hc).
    by destruct r as [e|[]].
  - destruct Hc as (w1 & done & Hs & Hne & Hf). by eapply batch_inv_loop_head.
  - destruct Hc as (w1 & done & wp & Hs & Hd & Hc). exists w1, done, wp.
    split_and!; [done..|]. by eapply conv_step_inv.
  - destruct Hc as (w1 & done & wp & Hs & Hf & Hc). by eapply batch_inv_left.
Qed.

Lemma batch_steps_inv w : ∀ c,
  rtc (batch_step input_dir output_dir) (AtCheck, w) c → batch_inv input_dir output_dir w c.
Proof.
  apply (rtc_ind_r (R := batch_step input_dir output_dir) (batch_inv input_dir output_dir w));
    [done|]. intros c1 c2 _ Hstep Hc1. by eapply batch_step_inv.
Qed.

(** ** The stepper takes steps, and stops at the ends only *)

Lemma batch_next_step n c c' :
  batch_next input_dir output_dir n c = Some c' → batch_step input_dir output_dir c c'.
Proof.
  destruct c as [[| |made [|x todo]| | |fl|pt p fl| |] w]; unfold batch_next; try done.
  - destruct (check_input_dir _ _) as [r w'] eqn:E. intros [= <-]. by constructor.
  - destruct (mkdir_parents _ _) as [r w'] eqn:E. intros [= <-]. by econstructor.
  - intros [= <-]. constructor.
  - destruct (mkdir_part _ _ _ _ _) as [r w'] eqn:E. intros [= <-]. by constructor.
  - destruct (find_epub_files _ _) as [r w'] eqn:E. intros [= <-]. by constructor.
  - destruct (print _ _) as [r w'] eqn:E. intros [= <-]. by constructor.
  - intros [= <-]. constructor.
  - destruct (left_file pt fl) as [bp|] eqn:El; [intros [= <-]; by constructor|].
    destruct (conv_next _ _ _ _) as [[pt' w']|] eqn:E; [|done]. intros [= <-].
    by apply step_file, (conv_next_step _ _ n).
Qed.

Lemma left_file_None pt fl : left_file pt fl = None ↔ final pt = false.
Proof. by destruct pt. Qed.

Lemma batch_next_None n c :
  batch_next input_dir output_dir n c = None ↔ batch_final c.1.
Proof.
  destruct c as [[| |made [|x todo]| | |fl|pt p fl| |] w]; unfold batch_next; simpl fst;
    try done.
  - by destruct (check_input_dir _ _).
  - by destruct (mkdir_parents _ _).
  - by destruct (mkdir_part _ _ _ _ _).
  - by destruct (find_epub_files _ _).
  - by destruct (print _ _).
  - destruct (left_file pt fl) as [bp|] eqn:El; [done|]. apply left_file_None in El.
    destruct (conv_next _ _ _ _) as [c'|] eqn:E; [done|].
    apply conv_next_None in E. simpl in E. by rewrite El in E.
Qed.

Lemma batch_run_steps n fuel c :
  rtc (batch_step input_dir output_dir) c (batch_run input_dir output_dir n fuel c).
Proof. apply iterate_steps, batch_next_step. Qed.

(** ** Every run ends *)

Lemma batch_final_sn c : batch_final c.1 → sn (batch_step input_dir output_dir) c.
Proof. intros Hf. constructor. intros c' Hstep. by destruct Hstep. Qed.

Lemma batch_ended_sn r w : sn (batch_step input_dir output_dir) (batch_ended r, w).
Proof. apply batch_final_sn. by destruct r. Qed.

(** The steps inside a file end because the steps of a conversion do. *)
Lemma in_file_sn fl p :
  (∀ w, sn (batch_step input_dir output_dir) (AtLoop fl, w)) →
  ∀ c : point * world, sn (batch_step input_dir output_dir) (InFile c.1 p fl, c.2).
Proof.
  intros Hloop c.
  induction (conv_step_sn (str_of_path p) (str_of_path (target_txt (Path output_dir) p)) c)
    as [c _ IH].
  constructor. intros c' Hstep. inversion Hstep as [| | | | | | |? pt' ? ? ? w' Hf|pt bp ? ? ? Hl];
    simplify_eq/=.
  - apply (IH (pt', w')). by destruct c.
  - destruct c as [[] w]; simplify_eq/=; [apply Hloop|by apply batch_final_sn].
Qed.

Lemma loop_sn fl : ∀ w, sn (batch_step input_dir output_dir) (AtLoop fl, w).
Proof.
  induction fl as [|p fl IH]; intros w; constructor; intros c' Hstep;
    inversion Hstep; subst; simpl.
  - by apply batch_final_sn.
  - by apply (in_file_sn fl p IH (AtRead, w)).
Qed.

Lemma listed_sn r w : sn (batch_step input_dir output_dir) (batch_after r listed, w).
Proof.
  destruct r as [e|fl]; [by apply batch_final_sn|]. unfold listed. simpl.
  destruct (is_nil fl); [|apply loop_sn].
  constructor. intros c' Hstep. inversion Hstep; subst. apply batch_ended_sn.
Qed.

Lemma at_list_sn w : sn (batch_step input_dir output_dir) (AtList, w).
Proof. constructor. intros c' Hstep. inversion Hstep; subst. apply listed_sn. Qed.

Lemma in_mkdir_sn todo : ∀ made w, sn (batch_step input_dir output_dir) (InMkdir made todo, w).
Proof.
  induction todo as [|x todo IH]; intros made w; constructor; intros c' Hstep;
    inversion Hstep as [| |? ? ? r| | | | | |]; subst; [apply at_list_sn|].
  destruct r as [e|[]]; [by apply batch_final_sn|apply IH].
Qed.

Lemma at_mkdir_sn w : sn (batch_step input_dir output_dir) (AtMkdir, w).
Proof.
  constructor. intros c' Hstep. inversion Hstep as [|r| | | | | | |]; subst.
  destruct r as [e|[]]; [by apply batch_final_sn|apply in_mkdir_sn].
Qed.

Lemma at_check_sn w : sn (batch_step input_dir output_dir) (AtCheck, w).
Proof.
  constructor. intros c' Hstep. inversion Hstep as [r| | | | | | | |]; subst.
  destruct r as [e|[]]; [by apply batch_final_sn|apply at_mkdir_sn].
Qed.

Lemma batch_step_sn c : sn (batch_step input_dir output_dir) c.
Proof.
  destruct c as [[| |made todo| | |fl|pt p fl| |e] w].
  - apply at_check_sn.
  - apply at_mkdir_sn.
  - apply in_mkdir_sn.
  - apply at_list_sn.
  - apply (listed_sn (inr [])).
  - apply loop_sn.
  - apply (in_file_sn fl p (loop_sn fl) (pt, w)).
  - by apply batch_final_sn.
  - by apply batch_final_sn.
Qed.

(** The stepper gets to an end, given fuel enough. *)
Lemma batch_run_ends n c :
  ∃ fuel, ∀ fuel', fuel ≤ fuel' →
    batch_final (batch_run input_dir output_dir n fuel' c).1.
Proof.
  destruct (iterate_ends _ _ (batch_next_step n) c (batch_step_sn c)) as [fuel Hfuel].
  exists fuel. intros fuel' Hle. by apply (batch_next_None n), Hfuel.
Qed.

(** A point that is an end knows the result of the function. *)
Lemma batch_inv_final w0 c :
  batch_inv input_dir output_dir w0 c → batch_final c.1 →
  c = (batch_ended (convert_directory input_dir output_dir w0).1,
       (convert_directory input_dir output_dir w0).2).
Proof.
  destruct c as [[] w]; unfold batch_inv; simpl; try done; by intros ->.
Qed.

(** The function is a run of the steps. *)
Lemma batch_steps_complete r w w' :
  convert_directory input_dir output_dir w = (r, w') →
  rtc (batch_step input_dir output_dir) (AtCheck, w) (batch_ended r, w').
Proof.
  intros Hrun. destruct (batch_run_ends 0 (AtCheck, w)) as [fuel Hfuel].
  set (c := batch_run input_dir output_dir 0 fuel (AtCheck, w)).
  assert (c = (batch_ended r, w')) as <-; [|apply batch_run_steps].
  rewrite (batch_inv_final w c), Hrun; [done|..].
  - apply batch_steps_inv, batch_run_steps.
  - by apply Hfuel.
Qed.

End batch_machine_lemmas.

(** ** A batch that is stopped has done no harm *)

Section harmless.
Context `{Collaborators} `{Console} (o dir : path) (fs0 : gmap path fs_node).
Context (Hwf : fs_wf fs0) (Ho : valid_path o).
Implicit Types (fs fsm : gmap path fs_node) (p : path) (b : book).

Lemma harmless_grows fsm : grows fs0 fsm → harmless o (epub_files fs0 dir) fs0 fsm.
Proof.
  intros Hg. split_and!.
  - by apply differs_at_grows.
  - intros p (_ & _ & _ & [data Hf]%is_file_in_entry & _)%(elem_of_epub_files _ _ _ Hwf).
    destruct (Hg p) as [?|[? _]]; congruence.
  - intros t bs Ht. left. destruct (Hg t) as [E|[_ E]]; congruence.
Qed.

(** A write of a part of the text of a book of the batch to its target. *)
Lemma harmless_written fs p b bs :
  harmless o (epub_files fs0 dir) fs0 fs →
  p ∈ epub_files fs0 dir → book_at fs0 p = Some b → bs `prefix_of` utf8_bytes (book_text b) →
  harmless o (epub_files fs0 dir) fs0 (<[target_txt o p := File bs]> fs).
Proof.
  intros (Hd & Hs & Hc) Hp Hb Hbs.
  assert (target_txt o p ∈ targets o (epub_files fs0 dir)) as Ht by (unfold targets; set_solver).
  split_and!.
  - by apply differs_at_insert.
  - intros q Hq. rewrite lookup_insert_ne; [by apply Hs|]. intros E.
    apply (epub_files_not_target o fs0 dir q Hwf Hq). by rewrite <-E.
  - intros t bs' Hbs'. destruct (decide (target_txt o p = t)) as [<-|Hne].
    + rewrite lookup_insert_eq in Hbs'. injection Hbs' as <-. right. by exists p, b.
    + rewrite lookup_insert_ne in Hbs' by done. by apply Hc.
Qed.

(** The texts of the files converted so far. *)
Lemma harmless_foldl fsm done : ∀ fs,
  grows fs0 fsm → Forall (ready o fsm) done → done ⊆ epub_files fs0 dir →
  harmless o (epub_files fs0 dir) fs0 fs →
  harmless o (epub_files fs0 dir) fs0 (foldl (written fsm o) fs done).
Proof.
  induction done as [|p done IH]; intros fs Hg Hr Hsub Hfs; [done|].
  apply Forall_cons in Hr as [(_ & _ & _ & (b & Hb & _)%holds_text_book & _) Hr]. simpl.
  apply IH; [done|done|set_solver|]. unfold written. rewrite Hb. simpl.
  apply (harmless_written _ _ b); [done|set_solver| |done].
  by rewrite <-(grows_book_at fs0 fsm).
Qed.

(** The books are where they were: no text is written over one. *)
Lemma book_at_foldl fsm done q : ∀ fs,
  has_epub_suffix q → Forall (ready o fsm) done →
  book_at (foldl (written fsm o) fs done) q = book_at fs q.
Proof.
  induction done as [|p done IH]; intros fs Hq Hr; [done|].
  apply Forall_cons in Hr as [(_ & Hn & _) Hr]. simpl. rewrite IH by done.
  by apply book_at_written.
Qed.

End harmless.

Section batch_safety.
Context `{Collaborators} `{Listing} `{Console} (input_dir output_dir : str).
Context (w0 : world) (Hwf : fs_wf (files w0)).
Implicit Types (c : batch_point * world) (w : world) (fl done rest : list path) (p : path).

(** ** What the points know, in terms of the files *)

Lemma check_input_dir_inv dir r w w' :
  check_input_dir dir w = (r, w') → w' = w ∧ (r = inr () → is_dir_in (files w) dir).
Proof.
  destruct (decide (is_dir_in (files w) dir)) as [Hd|Hd].
  - rewrite check_input_dir_inr by done. by intros [= <- <-].
  - rewrite check_input_dir_inl by done. by intros [= <- <-].
Qed.

Lemma made_dirs_inv w1 :
  made_dirs input_dir output_dir w0 w1 →
  is_dir_in (files w0) (Path input_dir) ∧ fs_wf (files w1) ∧ grows (files w0) (files w1)
  ∧ is_dir_in (files w1) (Path output_dir) ∧ stdout w1 = stdout w0.
Proof.
  intros (wc & [-> Hd]%check_input_dir_inv & Hm). split; [by apply Hd|].
  apply mkdir_parents_inr in Hm; auto with py.
Qed.

Lemma started_inv w fl :
  started input_dir output_dir w0 w fl →
  made_dirs input_dir output_dir w0 w ∧ fl = epub_files (files w0) (Path input_dir).
Proof.
  intros (w1 & Hm & Hf). destruct (made_dirs_inv _ Hm) as (Hd & _ & Hg & _).
  rewrite find_epub_files_inr in Hf by by eapply grows_is_dir. injection Hf as <- <-.
  split; [done|]. apply epub_files_grows; [done|apply listing_perm].
Qed.

(** The loop after the files [done]. *)
Lemma loop_inv w1 done rest wp :
  started input_dir output_dir w0 w1 (done ++ rest) →
  for_each (convert_file (Path output_dir)) done w1 = (inr (), wp) →
  done ++ rest = epub_files (files w0) (Path input_dir) ∧ grows (files w0) (files w1)
  ∧ Forall (ready (Path output_dir) (files w1)) done
  ∧ wp = World (foldl (written (files w1) (Path output_dir)) (files w1) done)
               (stdout w0 ++ (report (Path output_dir) <$> done)).
Proof.
  intros [Hm E]%started_inv Hf. destruct (made_dirs_inv _ Hm) as (_ & _ & Hg & Ho & <-).
  apply for_each_convert_file_inr in Hf as [Hr ->]; [done|auto with py| |done].
  pose proof (epub_files_sources (files w0) (Path input_dir) Hwf) as Hs.
  rewrite <-E in Hs. by apply Forall_app in Hs as [? _].
Qed.

Lemma batch_lines_prefix (idir o : path) done rest :
  (report o <$> done) `prefix_of` batch_lines idir o (done ++ rest).
Proof.
  destruct done as [|p done]; [apply prefix_nil|]. unfold batch_lines. simpl.
  rewrite fmap_app. by apply prefix_cons, prefix_app_r.
Qed.

(** Directories made, and nothing else done. *)
Lemma midway_grows w :
  grows (files w0) (files w) → stdout w = stdout w0 →
  midway (Path input_dir) (Path output_dir) w0 w.
Proof.
  intros Hg Hout. split; [by apply harmless_grows|].
  exists []. split; [apply prefix_nil|by rewrite app_nil_r].
Qed.

Lemma midway_made w1 :
  made_dirs input_dir output_dir w0 w1 → midway (Path input_dir) (Path output_dir) w0 w1.
Proof. intros (_ & _ & Hg & _ & Hout)%made_dirs_inv. by apply midway_grows. Qed.

Lemma midway_loop w1 done rest wp :
  started input_dir output_dir w0 w1 (done ++ rest) →
  for_each (convert_file (Path output_dir)) done w1 = (inr (), wp) →
  midway (Path input_dir) (Path output_dir) w0 wp.
Proof.
  intros Hs Hf. destruct (loop_inv _ _ _ _ Hs Hf) as (E & Hg & Hr & ->). split; simpl.
  - apply harmless_foldl; [done|auto with py|done..| |by apply harmless_grows].
    rewrite <-E. set_solver.
  - exists (report (Path output_dir) <$> done). split; [|done]. rewrite <-E.
    apply batch_lines_prefix.
Qed.

(** The report of an empty batch is the whole of its lines. *)
Lemma midway_empty w :
  started input_dir output_dir w0 w [] →
  midway (Path input_dir) (Path output_dir) w0
    (World (files w) (stdout w ++ [no_files_message (Path input_dir)])).
Proof.
  intros [Hm E]%started_inv. destruct (made_dirs_inv _ Hm) as (_ & _ & Hg & _ & Hout).
  split; [by apply harmless_grows|]. exists [no_files_message (Path input_dir)].
  rewrite <-E. simpl. by rewrite Hout.
Qed.

Lemma read_epub_book_at p b w w' :
  valid_path p → read_epub (str_of_path p) w = (inr b, w') → book_at (files w) p = Some b.
Proof.
  intros Hv (data & _ & Hl & Hb & _)%read_epub_inv. rewrite Path_str_of_path in Hl by done.
  unfold book_at. by rewrite Hl.
Qed.

(** Inside the conversion of the file after the files [done]. *)
Lemma midway_file w1 done p rest wp pt w :
  started input_dir output_dir w0 w1 (done ++ p :: rest) →
  for_each (convert_file (Path output_dir)) done w1 = (inr (), wp) →
  conv_inv (str_of_path p) (str_of_path (target_txt (Path output_dir) p)) wp (pt, w) →
  midway (Path input_dir) (Path output_dir) w0 w.
Proof.
  intros Hs Hf Hc. destruct (midway_loop _ _ _ _ Hs Hf) as [Hh _].
  destruct (loop_inv _ _ _ _ Hs Hf) as (E & Hg & Hr & Hwp).
  assert (p ∈ epub_files (files w0) (Path input_dir)) as Hp by (rewrite <-E; set_solver).
  destruct (elem_of_epub_files _ _ _ Hwf Hp) as (Hv & Hn & Hx & _). split.
  - apply conv_inv_files in Hc as [Hw|(b & bs & Hb & Hpre & Hw)]; simpl in Hw; rewrite Hw;
      [done|].
    rewrite Path_str_of_path by (apply target_txt_valid; auto with py).
    apply harmless_written with (b := b); [auto with py..| |done].
    apply read_epub_book_at in Hb; [|done]. rewrite Hwp in Hb. simpl in Hb.
    rewrite book_at_foldl in Hb by auto with py. by rewrite (grows_book_at _ _ _ Hg) in Hb.
  - apply conv_inv_stdout in Hc. simpl in Hc. rewrite Hc, Hwp, <-E. simpl. case_bool_decide.
    + exists (report (Path output_dir) <$> (done ++ [p])).
      split; [|by rewrite fmap_app, app_assoc].
      replace (done ++ p :: rest) with ((done ++ [p]) ++ rest) by by rewrite <-app_assoc.
      apply batch_lines_prefix.
    + exists (report (Path output_dir) <$> done). split; [apply batch_lines_prefix|done].
Qed.

(** ** Every point of a run *)

Lemma batch_inv_midway c :
  batch_inv input_dir output_dir w0 c → batch_final c.1 = false →
  midway (Path input_dir) (Path output_dir) w0 c.2.
Proof.
  destruct c as [[| |made todo| | |rest|pt p rest| |e] w]; unfold batch_inv; simpl;
    intros Hc Hf; try done.
  - subst w. by apply midway_grows.
  - apply check_input_dir_inv in Hc as [-> _]. by apply midway_grows.
  - destruct Hc as (wc & w1 & [-> _]%check_input_dir_inv & _ & _ & Hg & Hout).
    by apply midway_grows.
  - by apply midway_made.
  - apply started_inv in Hc as [Hm _]. by apply midway_made.
  - destruct Hc as (w1 & done & Hs & _ & Hd). by eapply midway_loop.
  - destruct Hc as (w1 & done & wp & Hs & Hd & Hc). by eapply midway_file.
Qed.

(** The step that ends a run changes no file. *)
Lemma batch_step_final c c' :
  batch_inv input_dir output_dir w0 c → batch_step input_dir output_dir c c' →
  batch_final c'.1 → midway (Path input_dir) (Path output_dir) w0 c.2 →
  midway (Path input_dir) (Path output_dir) w0 c'.2.
Proof.
  intros Hc Hstep Hf Hm.
  destruct Hstep as [r w w' Hr|r w w' Hr|made x todo r w w' Hr|made w|r w w' Hr|r w w' Hr|fl w
                    |pt pt' p fl w w' Hs|pt bp p fl w Hl];
    unfold batch_inv in Hc; simpl in *; try done.
  - by apply check_input_dir_inv in Hr as [-> _].
  - destruct r as [e|[]]; [|done]. by apply mkdir_part_inl in Hr as [_ ->].
  - destruct (made_dirs_inv _ Hc) as (Hd & _ & Hg & _).
    rewrite find_epub_files_inr in Hr by by eapply grows_is_dir. by injection Hr as <- <-.
  - destruct r as [e|[]]; [by apply print_inl in Hr as (_ & _ & ->)|].
    apply print_inv in Hr as [_ ->]. by apply midway_empty.
Qed.

Lemma batch_steps_midway c :
  rtc (batch_step input_dir output_dir) (AtCheck, w0) c →
  midway (Path input_dir) (Path output_dir) w0 c.2.
Proof.
  intros Hrun. destruct (batch_final c.1) eqn:Hf;
    [|by apply batch_inv_midway; [apply batch_steps_inv|]].
  apply rtc_inv_r in Hrun as [<-|(c1 & Hrun & Hstep)]; [done|].
  apply (batch_step_final c1); [by apply batch_steps_inv|done|by rewrite Hf|].
  apply batch_inv_midway; [by apply batch_steps_inv|].
  destruct (batch_final c1.1) eqn:Hf1; [|done]. by destruct Hstep.
Qed.

End batch_safety.

(** ** Theorems *)

Section batch_machine_theorems.
Context `{Collaborators} `{Console} `{Listing} (input_dir output_dir : str).
Implicit Types (c : batch_point * world) (w : world) (bp : batch_point).

(** C15: the steps compute the batch: a run of the steps of a batch ends
    with a return or with an exception exactly when [convert_directory]
    returns or raises that exception, and in the world
    [convert_directory] leaves, however the bytes of the texts were cut
    into chunks on their way to the files. *)
Theorem batch_steps_agree r w w' :
  rtc (batch_step input_dir output_dir) (AtCheck, w) (batch_ended r, w')
  ↔ convert_directory input_dir output_dir w = (r, w').
Proof.
  split; [|apply batch_steps_complete].
  intros Hinv%batch_steps_inv. by destruct r as [e|[]].
Qed.

(** C24: every run of a batch ends: there is no infinite sequence of
    steps, whatever the number of files and the sizes of the chunks, and
    a state that is not an end has a next step. *)
Theorem batch_terminates c :
  sn (batch_step input_dir output_dir) c
  ∧ (batch_final c.1 = false → red (batch_step input_dir output_dir) c).
Proof.
  split; [apply batch_step_sn|]. intros Hf.
  destruct (batch_next input_dir output_dir 0 c) as [c'|] eqn:E.
  - exists c'. by eapply batch_next_step.
  - apply batch_next_None in E. by rewrite Hf in E.
Qed.

(** The stepper reaches the result: with fuel enough, and with any
    more, it ends in what [convert_directory] returns or raises,
    whatever the size of its chunks. *)
Theorem batch_run_result n w :
  ∃ fuel, ∀ fuel', fuel ≤ fuel' →
    batch_run input_dir output_dir n fuel' (AtCheck, w)
    = (batch_ended (convert_directory input_dir output_dir w).1,
       (convert_directory input_dir output_dir w).2).
Proof.
  destruct (batch_run_ends input_dir output_dir n (AtCheck, w)) as [fuel Hfuel].
  exists fuel. intros fuel' Hle. apply batch_inv_final; [|by apply Hfuel].
  apply batch_steps_inv, batch_run_steps.
Qed.

(** C14: a batch stopped at any point, also in the middle of a file, has
    done no harm: only targets of the batch differ from the files it
    started with, the EPUB files of the input are as they were, every
    file holds what it held or the text of the book of the batch whose
    target it is, up to some byte, and the lines printed are the first
    lines of the report of the whole batch. *)
Theorem batch_crash_safe w bp w1 :
  fs_wf (files w) →
  rtc (batch_step input_dir output_dir) (AtCheck, w) (bp, w1) →
  midway (Path input_dir) (Path output_dir) w w1.
Proof. intros Hwf Hrun. by apply (batch_steps_midway _ _ _ Hwf (bp, w1)). Qed.

(** A batch does no harm however it ends: after [convert_directory]
    has returned or raised, every file of the file system holds what it
    held before, or the text of the book of the batch whose target it
    is, whole or cut short, and no EPUB file of the input has changed. *)
Theorem convert_directory_harmless r w w' :
  fs_wf (files w) → convert_directory input_dir output_dir w = (r, w') →
  harmless (Path output_dir) (epub_files (files w) (Path input_dir)) (files w) (files w').
Proof.
  intros Hwf Hrun%batch_steps_complete.
  by destruct (batch_steps_midway _ _ _ Hwf _ Hrun).
Qed.

End batch_machine_theorems.

(** The batch of the instance stopped after eleven steps of four bytes:
    the first text is half written, nothing is printed. *)
Example batch_run_demo :
  let c := @batch_run demo_collab demo_listing utf8_console (py "in") (py "out") 3 11
             (AtCheck, demo_dir) in
  c.1 = InFile (AtFlush ([LF] ++ py "World")) [py "in"; py "a.EPUB"] [[py "in"; py "b.epub"]]
  ∧ files c.2 !! [py "out"; py "a.txt"] = Some (File (py "Hello" ++ [LF; LF; LF]))
  ∧ files c.2 !! [py "out"; py "b.txt"] = None
  ∧ stdout c.2 = [].
Proof. vm_compute. by repeat split. Qed.

(** Stopped while the output directory is made: the first directory of
    the chain is there, the second is not, no file has changed. *)
Example batch_run_mkdir_demo :
  let c := @batch_run demo_collab demo_listing utf8_console (py "in") (py "out/texts") 3 3
             (AtCheck, demo_dir) in
  c.1 = InMkdir [py "out"] [py "texts"]
  ∧ files c.2 = <[ [py "out"] := Dir ]> (files demo_dir)
  ∧ stdout c.2 = [].
Proof. vm_compute. by repeat split. Qed.

(** Twenty-eight steps end it. *)
Example batch_run_ends_demo :
  @batch_run demo_collab demo_listing utf8_console (py "in") (py "out") 3 28
    (AtCheck, demo_dir)
  = (BatchReturned,
     (@convert_directory demo_collab demo_listing utf8_console (py "in") (py "out")
        demo_dir).2).
Proof. by_compute. Qed.

Lemma batch_crash_safe_witness :
  let c := @batch_run demo_collab demo_listing utf8_console (py "in") (py "out") 3 11
             (AtCheck, demo_dir) in
  @midway demo_collab [py "in"] [py "out"] demo_dir c.2.
Proof.
  intros c.
  apply (@batch_crash_safe demo_collab utf8_console demo_listing (py "in") (py "out")
           demo_dir c.1 c.2).
  - by_decide.
  - rewrite <-surjective_pairing. apply batch_run_steps.
Defined.

Lemma convert_directory_harmless_witness :
  @harmless demo_collab [py "bad"] (epub_files (files demo_dir) [py "bad"]) (files demo_dir)
    (files (@convert_directory demo_collab demo_listing utf8_console (py "bad") (py "bad")
              demo_dir).2).
Proof.
  apply (@convert_directory_harmless demo_collab utf8_console demo_listing (py "bad") (py "bad")
           (@convert_directory demo_collab demo_listing utf8_console (py "bad") (py "bad")
              demo_dir).1 demo_dir).
  - by_decide.
  - by destruct (convert_directory _ _ _).
Defined.

(** The start of the batch of the instance is no end: it has a step. *)
Lemma batch_terminates_witness :
  red (@batch_step demo_collab demo_listing utf8_console (py "in") (py "out"))
    (AtCheck, demo_dir).
Proof.
  by apply (@batch_terminates demo_collab utf8_console demo_listing (py "in") (py "out")
              (AtCheck, demo_dir)).
Defined.
