(* ===== verification/Cli.v ===== *)
(** * Cli: the command line

    [build_parser], [main] and the guard of the script of
    [src/epub_to_txt.py].  The parser is the
    list of its options; [main] is modelled from the point where
    [parse_args] has returned the values of the four options ([None] for
    an option that was not given) and decides between a single
    conversion, a batch and a usage error.  [parser.error] ends the
    program with status 2. *)

From stdpp Require Import list strings gmap.
From S2P Require Import Prelude PyStr Pathlib FileSys Convert Batch.

Set Warnings "-clear-no-such-hyp".

(** ** The parser *)

(** An option of the parser: its flag and its help text. *)
Record argument := Argument { flag : str; help : str }.

Record parser := Parser { description : str; arguments : list argument }.

Definition build_parser : parser :=
  Parser (py "Convert EPUB files to plain text (single file or batch directory mode).")
    [Argument (py "--input-file") (py "Path to the input EPUB file.");
     Argument (py "--output-file") (py "Path to the output TXT file.");
     Argument (py "--input-dir") (py "Directory containing EPUB files to convert.");
     Argument (py "--output-dir") (py "Directory where TXT results will be written.")].

(** The attribute argparse stores an option under: the flag without its
    leading dashes, inner dashes turned into underscores. *)
Definition HYPHEN : char := 45%N.
Definition UNDERSCORE : char := 95%N.

Definition dest (a : argument) : str :=
  (λ c, if bool_decide (c = HYPHEN) then UNDERSCORE else c)
    <$> drop_while (λ c, bool_decide (c = HYPHEN)) (flag a).

(** What [parse_args] returns. *)
Record args := Args {
  input_file : option str;
  output_file : option str;
  input_dir : option str;
  output_dir : option str;
}.

(** ** [main] *)

(** Truth of an option's value: [None] and the empty string are false. *)
Definition truthy (v : option str) : bool :=
  match v with
  | Some (_ :: _) => true
  | _ => false
  end.

(** [a or b] and [a and b] on values. *)
Definition py_or (a b : option str) : option str := if truthy a then a else b.
Definition py_and (a b : option str) : option str := if truthy a then b else a.

(** The value passed on; only read where the option is known to be
    true. *)
Definition value (v : option str) : str := default [] v.

(** [parser.error(message)] *)
Definition parser_error {A} (message : str) : prog A := raise (SystemExit 2 message).

Definition MSG_BOTH_MODES : str :=
  py "Specify either file arguments or directory arguments, not both.".
Definition MSG_FILE_PAIR : str :=
  py "Both --input-file and --output-file must be provided for single-file conversion.".
Definition MSG_DIR_PAIR : str :=
  py "Both --input-dir and --output-dir must be provided for batch conversion.".
Definition MSG_NO_MODE : str :=
  py "Please provide either --input-file/--output-file for single conversion "
  ++ py "or --input-dir/--output-dir for batch conversion.".

(** Lines 101 and 102: the modes the arguments ask for. *)
Definition file_mode (a : args) : option str := py_or (input_file a) (output_file a).
Definition dir_mode (a : args) : option str := py_or (input_dir a) (output_dir a).

Section main.
Context `{Collaborators} `{Listing} `{Console}.

Definition main (a : args) : prog unit :=
  if truthy (file_mode a) && truthy (dir_mode a) then parser_error MSG_BOTH_MODES else
  if truthy (py_or (input_file a) (output_file a)) then
    if negb (truthy (py_and (input_file a) (output_file a)))
    then parser_error MSG_FILE_PAIR
    else epub_to_txt (value (input_file a)) (value (output_file a))
  else if truthy (py_or (input_dir a) (output_dir a)) then
    if negb (truthy (py_and (input_dir a) (output_dir a)))
    then parser_error MSG_DIR_PAIR
    else convert_directory (value (input_dir a)) (value (output_dir a))
  else parser_error MSG_NO_MODE.

(** Lines 122-123: [main] runs when the module is run as a script, not
    when it is imported under its own name. *)
Definition run_module (module_name : str) (a : args) : prog unit :=
  if bool_decide (module_name = py "__main__") then main a else mret ().

End main.

(** ** Specification *)

(** How many of two values are given. *)
Definition given (a b : option str) : nat :=
  (if truthy a then 1 else 0) + (if truthy b then 1 else 0).

(** The usage error of the arguments, if they have one: options of both
    modes, one option of a pair without the other, or no option. *)
Definition usage_error (a : args) : option str :=
  let nf := given (input_file a) (output_file a) in
  let nd := given (input_dir a) (output_dir a) in
  if bool_decide (0 < nf ∧ 0 < nd) then Some MSG_BOTH_MODES
  else if bool_decide (nf = 1) then Some MSG_FILE_PAIR
  else if bool_decide (nd = 1) then Some MSG_DIR_PAIR
  else if bool_decide (nf = 0 ∧ nd = 0) then Some MSG_NO_MODE
  else None.

(** The arguments with empty values taken as absent. *)
Definition absent_if_empty (v : option str) : option str :=
  if truthy v then v else None.

Definition normalize_args (a : args) : args :=
  Args (absent_if_empty (input_file a)) (absent_if_empty (output_file a))
       (absent_if_empty (input_dir a)) (absent_if_empty (output_dir a)).

Section main_lemmas.
Context `{Collaborators} `{Console} `{Listing}.
Implicit Types (a : args) (v : option str) (w : world).

Lemma truthy_or v1 v2 : truthy (py_or v1 v2) = truthy v1 || truthy v2.
Proof. unfold py_or. by destruct (truthy v1) eqn:E; rewrite ?E. Qed.

Lemma truthy_and v1 v2 : truthy (py_and v1 v2) = truthy v1 && truthy v2.
Proof. unfold py_and. by destruct (truthy v1) eqn:E; rewrite ?E. Qed.

Lemma truthy_value v : truthy v → v = Some (value v) ∧ value v ≠ [].
Proof. by destruct v as [[|c s]|]. Qed.

(** [main] in terms of which options are given. *)
Lemma main_cases a :
  main a =
    match truthy (input_file a), truthy (output_file a),
          truthy (input_dir a), truthy (output_dir a) with
    | true, true, false, false => epub_to_txt (value (input_file a)) (value (output_file a))
    | false, false, true, true => convert_directory (value (input_dir a)) (value (output_dir a))
    | false, false, false, false => parser_error MSG_NO_MODE
    | true, false, false, false | false, true, false, false => parser_error MSG_FILE_PAIR
    | false, false, true, false | false, false, false, true => parser_error MSG_DIR_PAIR
    | _, _, _, _ => parser_error MSG_BOTH_MODES
    end.
Proof.
  unfold main, file_mode, dir_mode. rewrite !truthy_or, !truthy_and.
  by destruct (truthy (input_file a)), (truthy (output_file a)),
    (truthy (input_dir a)), (truthy (output_dir a)).
Qed.

(** [main] by the usage error of its arguments. *)
Lemma main_usage a w :
  main a w =
    match usage_error a with
    | Some message => (inl (SystemExit 2 message), w)
    | None =>
      if truthy (input_file a)
      then epub_to_txt (value (input_file a)) (value (output_file a)) w
      else convert_directory (value (input_dir a)) (value (output_dir a)) w
    end.
Proof.
  rewrite main_cases. unfold usage_error, given.
  by destruct (truthy (input_file a)), (truthy (output_file a)),
    (truthy (input_dir a)), (truthy (output_dir a)).
Qed.

(** What [main] ends with when it fails. *)
Lemma main_inl a w e w' :
  main a w = (inl e, w') →
  match e with
  | SystemExit code message => code = 2%N ∧ usage_error a = Some message ∧ w' = w
  | _ => usage_error a = None ∧ batch_error e
  end.
Proof.
  rewrite main_usage. destruct (usage_error a) as [message|].
  { by intros [= <- <-]. }
  assert (batch_error e → match e with
    | SystemExit code message => code = 2%N ∧ @None str = Some message ∧ w' = w
    | _ => @None str = None ∧ batch_error e end) as He by by destruct e.
  destruct (truthy (input_file a)); intros Hrun; apply He.
  - apply raises_only_epub_to_txt in Hrun. unfold batch_error.
    by rewrite (Is_true_true_1 _ Hrun).
  - by apply raises_only_convert_directory in Hrun.
Qed.

Lemma main_wf a r w w' : fs_wf (files w) → main a w = (r, w') → fs_wf (files w').
Proof.
  intros Hwf. rewrite main_usage. destruct (usage_error a); [by intros [= _ <-]|].
  destruct (truthy (input_file a)); [by apply epub_to_txt_wf|by apply convert_directory_wf].
Qed.

End main_lemmas.

(** ** Theorems *)

Section main_theorems.
Context `{Collaborators} `{Console} `{Listing}.
Implicit Types (a : args) (w : world).

(** C8: [main] either reports the usage error of its arguments, with
    exit status 2 and before anything is read or written, or runs the
    one conversion they ask for: a single file when the file options are
    given, a batch when the directory options are. *)
Theorem main_dispatch a w :
  main a w =
    match usage_error a with
    | Some message => (inl (SystemExit 2 message), w)
    | None =>
      if truthy (input_file a)
      then epub_to_txt (value (input_file a)) (value (output_file a)) w
      else convert_directory (value (input_dir a)) (value (output_dir a)) w
    end.
Proof. apply main_usage. Qed.

(** The arguments have no usage error exactly when one pair of
    options is given in full and nothing of the other pair. *)
Theorem usage_error_None a :
  usage_error a = None ↔
  (truthy (input_file a) ∧ truthy (output_file a)
     ∧ ¬ truthy (input_dir a) ∧ ¬ truthy (output_dir a))
  ∨ (truthy (input_dir a) ∧ truthy (output_dir a)
     ∧ ¬ truthy (input_file a) ∧ ¬ truthy (output_file a)).
Proof.
  unfold usage_error, given.
  destruct (truthy (input_file a)), (truthy (output_file a)),
    (truthy (input_dir a)), (truthy (output_dir a)); vm_compute; naive_solver.
Qed.

(** C35: an option given with an empty value counts as not given: [main]
    does on the arguments what it does once empty values are removed. *)
Theorem main_empty_is_absent a w : main a w = main (normalize_args a) w.
Proof.
  rewrite !main_cases. destruct a as [[[|??]|] [[|??]|] [[|??]|] [[|??]|]]; done.
Qed.

(** The exit status: [main] exits the program only for a usage
    error of its arguments, with status 2 and that error's message, and
    before it has changed anything; every other failure is an exception
    of a conversion. *)
Theorem main_exit_status a w e w' :
  main a w = (inl e, w') →
  match e with
  | SystemExit code message => code = 2%N ∧ usage_error a = Some message ∧ w' = w
  | _ => usage_error a = None ∧ batch_error e
  end.
Proof. apply main_inl. Qed.

(** [main] keeps the file system well formed, however it ends. *)
Theorem main_keeps_wf a r w w' :
  fs_wf (files w) → main a w = (r, w') → fs_wf (files w').
Proof. apply main_wf. Qed.

End main_theorems.

(** The attributes [main] reads are the ones the parser defines. *)
Example build_parser_dests :
  dest <$> arguments build_parser
  = [py "input_file"; py "output_file"; py "input_dir"; py "output_dir"].
Proof. by_compute. Qed.

(** An empty input file with an output file is reported as a missing
    option, although both options were on the command line. *)
Example main_empty_input_file :
  @main demo_collab demo_listing utf8_console (Args (Some []) (Some (py "out.txt")) None None) demo_dir
  = (inl (SystemExit 2 MSG_FILE_PAIR), demo_dir).
Proof. by_compute. Qed.

Lemma main_exit_status_witness :
  2%N = 2%N ∧ usage_error (Args (Some (py "a.epub")) None None (Some (py "out"))) = Some MSG_BOTH_MODES
  ∧ demo_dir = demo_dir.
Proof.
  apply (@main_exit_status demo_collab utf8_console demo_listing
           (Args (Some (py "a.epub")) None None (Some (py "out"))) demo_dir
           (SystemExit 2 MSG_BOTH_MODES) demo_dir).
  by_compute.
Defined.

Lemma main_keeps_wf_witness :
  fs_wf (files (snd (@main demo_collab demo_listing utf8_console
                       (Args None None (Some (py "in")) (Some (py "out"))) demo_dir))).
Proof.
  apply (@main_keeps_wf demo_collab utf8_console demo_listing
           (Args None None (Some (py "in")) (Some (py "out")))
           (fst (@main demo_collab demo_listing utf8_console
                   (Args None None (Some (py "in")) (Some (py "out"))) demo_dir)) demo_dir).
  - by_decide.
  - by destruct (main _ _).
Defined.

(** Importing the module converts nothing; running it is [main]. *)
Example run_module_imported a w :
  @run_module demo_collab demo_listing utf8_console (py "epub_to_txt") a w = (inr (), w)
  ∧ @run_module demo_collab demo_listing utf8_console (py "__main__") a w
    = @main demo_collab demo_listing utf8_console a w.
Proof. done. Qed.
