(* ===== verification/Script.v ===== *)
(** * Script: the program from its arguments to its exit status

    [src/epub_to_txt.py] run as a script: the guard of lines 122-123
    calls [main], and the interpreter turns what [main] ends with into
    the status of the process.  [run_script] is that composition.  The
    theorems are the contract of the program as a whole, stated with the
    specifications of its parts: what each status tells, and that after
    status 0 every target holds, in UTF-8, the text the specification
    gives for its book ([spec_text]: the documents in the order of
    [SpineSpec], each rendered by [Spec.normalize], two line feeds
    between them). *)

From stdpp Require Import list strings gmap.
From S2P Require Import Prelude PyStr Utf8 Soup Normalizer Epub Spine Pathlib FileSys.
From S2P Require Import Convert Batch Frame Outcome Cli.

Set Warnings "-clear-no-such-hyp".

Local Open Scope N_scope.

(** The status the interpreter ends with: 0 when the script runs to its
    end, the code of a [SystemExit] (of which the system keeps the low
    eight bits), and 1 for any other exception that nothing has caught. *)
Definition exit_status (r : exn + unit) : N :=
  match r with
  | inr _ => 0
  | inl (SystemExit code _) => code mod 256
  | inl _ => 1
  end.

Section script.
Context `{Collaborators} `{Listing} `{Console}.

(** [python epub_to_txt.py ...]: the module run under the name
    [__main__], and the status of the process. *)
Definition run_script (a : args) (w : world) : N * world :=
  let (r, w') := run_module (py "__main__") a w in (exit_status r, w').

End script.

(** ** Specification *)

Section script_spec.
Context `{Collaborators}.

(** The text the specification gives for a book. *)
Definition spec_text (b : book) : str :=
  join DOC_SEP
    ((λ it, Spec.normalize (raw_text (mark_spacers (html_parser (get_content it)))))
       <$> SpineSpec.resolve_order b).

End script_spec.

Section script_lemmas.
Context `{Collaborators} `{Console} `{Listing}.
Implicit Types (a : args) (w : world) (b : book).

Lemma run_script_main a w :
  run_script a w = (exit_status (fst (main a w)), snd (main a w)).
Proof.
  unfold run_script, run_module. rewrite bool_decide_eq_true_2 by done.
  by destruct (main a w).
Qed.

(** The script ends with status 0 exactly when [main] returns. *)
Lemma run_script_zero a w w' : run_script a w = (0, w') ↔ main a w = (inr (), w').
Proof.
  rewrite run_script_main. destruct (main a w) as [[e|[]] w1] eqn:Hm; simpl; [|naive_solver].
  apply main_inl in Hm. destruct e; naive_solver.
Qed.

(** With status 0 the arguments had no usage error and the conversion
    they ask for has succeeded. *)
Lemma run_script_zero_inv a w w' :
  run_script a w = (0, w') →
  usage_error a = None ∧
  if truthy (input_file a)
  then epub_to_txt (value (input_file a)) (value (output_file a)) w = (inr (), w')
  else convert_directory (value (input_dir a)) (value (output_dir a)) w = (inr (), w').
Proof.
  rewrite run_script_zero, main_usage. destruct (usage_error a); [done|].
  by destruct (truthy (input_file a)).
Qed.

(** The code against the specifications of its parts. *)
Lemma book_text_spec b : book_text b = spec_text b.
Proof.
  unfold book_text, spec_text. rewrite text_content_fmap, iter_documents_resolve_order.
  f_equal. apply list_fmap_ext. intros _ it _. apply clean_lines_normalize.
Qed.

Lemma utf8_decode_bytes (s : str) : encodable s → utf8_decode (utf8_bytes s) = Some s.
Proof. intros Hs. by apply (utf8_decode_encode_from s 0), utf8_encode_from_inr. Qed.

End script_lemmas.

(** ** Theorems *)

Section script_theorems.
Context `{Collaborators} `{Console} `{Listing}.
Implicit Types (a : args) (w : world).

(** C11: the status of the process tells how the run went.  It is 0, 1 or
    2: 0 when the arguments had no usage error and [main] returned; 2
    for a usage error of the arguments, reported before anything was
    read, written or printed; 1 when the arguments were sound and the
    conversion raised an error of the operating system, of the EPUB
    reader or of a codec, or the [ValueError] of the batch. *)
Theorem script_exit_status a w :
  match fst (run_script a w) with
  | 0 => usage_error a = None ∧ fst (main a w) = inr ()
  | 1 => usage_error a = None ∧ ∃ e, fst (main a w) = inl e ∧ batch_error e
  | 2 => ∃ message, usage_error a = Some message ∧ snd (run_script a w) = w
  | _ => False
  end.
Proof.
  rewrite run_script_main. destruct (main a w) as [[e|[]] w'] eqn:Hm; simpl.
  - apply main_inl in Hm. destruct e; try (destruct Hm as (-> & ? & ->)); naive_solver.
  - split; [|done]. rewrite main_usage in Hm. by destruct (usage_error a).
Qed.

(** C9: a single conversion, end to end: when the script is given the
    file options and ends with status 0, the input held a book, the
    output file holds bytes that decode, as UTF-8, to the text the
    specification gives for that book, the line of the report is
    printed, and nothing else has changed. *)
Theorem script_converts_file a w w' :
  truthy (input_file a) → run_script a w = (0, w') →
  ∃ data b bs,
    lookup_node (files w) (Path (value (input_file a))) = Some (File data) ∧
    parse_epub data = Some b ∧
    utf8_decode bs = Some (spec_text b) ∧
    w' = World (<[Path (value (output_file a)) := File bs]> (files w))
               (stdout w ++ [converted_message (value (input_file a)) (value (output_file a))]).
Proof.
  intros Hf [_ Hrun]%run_script_zero_inv. rewrite (Is_true_true_1 _ Hf) in Hrun.
  apply epub_to_txt_inv in Hrun
    as (data & b & bs & (_ & _ & [= E])%write_file_inv & Henc & _ & _ & ? & ? & _ & Ho).
  exists data, b, bs. split_and!; try done.
  - rewrite <-book_text_spec. by apply (utf8_decode_encode_from _ 0).
  - destruct w'. simpl in *. congruence.
Qed.

(** C10: a batch, end to end: when the script is given the directory
    options and ends with status 0, the target of every EPUB file of the
    input directory holds bytes that decode to the text the
    specification gives for a book of the batch with that target: for
    the book of the file itself when no other file shares its target. *)
Theorem script_converts_directory a w w' p :
  fs_wf (files w) → truthy (input_file a) = false → run_script a w = (0, w') →
  p ∈ epub_files (files w) (Path (value (input_dir a))) →
  ∃ q b bs, q ∈ epub_files (files w) (Path (value (input_dir a))) ∧
    target_txt (Path (value (output_dir a))) q = target_txt (Path (value (output_dir a))) p ∧
    book_at (files w) q = Some b ∧
    utf8_decode bs = Some (spec_text b) ∧
    lookup_node (files w') (target_txt (Path (value (output_dir a))) p) = Some (File bs).
Proof.
  intros Hwf Hf [_ Hrun]%run_script_zero_inv Hp. rewrite Hf in Hrun.
  apply convert_directory_inr in Hrun as (w1 & Hmk & _ & Hr & _ & ->); [|done].
  destruct (mkdir_parents_inr _ _ _ Hwf (Path_valid _) Hmk) as (_ & Hg & _).
  rewrite Forall_forall in Hr. destruct (Hr p Hp) as (_ & _ & _ & _ & Ht & _).
  simpl. rewrite lookup_node_entry by (intros ?; by rewrite lookup_node_root in Ht).
  edestruct foldl_written_lookup as (q & Hq & E & ->); [exact Hp|].
  destruct (Hr q Hq) as (_ & _ & _ & (b & Hb & Henc)%holds_text_book & _).
  exists q, b, (utf8_bytes (book_text b)). rewrite <-(grows_book_at _ _ q Hg), Hb.
  split_and!; try done. rewrite <-book_text_spec. by apply utf8_decode_bytes.
Qed.

(** On a console that cannot show the arrow of the report the script
    ends with status 0 for one kind of run only: a batch without
    files. *)
Theorem script_needs_arrow a w w' :
  console_char ARROW = false → fs_wf (files w) → run_script a w = (0, w') →
  truthy (input_file a) = false
  ∧ epub_files (files w) (Path (value (input_dir a))) = [].
Proof.
  intros Ha Hwf [_ Hrun]%run_script_zero_inv. destruct (truthy (input_file a)).
  { apply epub_to_txt_inr_arrow in Hrun. by rewrite Ha in Hrun. }
  split; [done|].
  apply convert_directory_inr in Hrun as (w1 & _ & _ & Hr & _); [|done].
  destruct (epub_files _ _) as [|p fl]; [done|].
  apply Forall_cons in Hr as [(_ & _ & _ & _ & _ & Hp%printable_converted_message) _].
  by rewrite Ha in Hp.
Qed.

End script_theorems.

(** The statuses of the instance: a conversion, a usage error, a file
    that is no book. *)
Example script_statuses :
  fst (@run_script demo_collab demo_listing utf8_console
         (Args (Some (py "in/a.epub")) (Some (py "in/a.txt")) None None) demo_world) = 0
  ∧ fst (@run_script demo_collab demo_listing utf8_console
           (Args (Some (py "in/a.epub")) None None None) demo_world) = 2
  ∧ fst (@run_script demo_collab demo_listing utf8_console
           (Args (Some (py "in/bad.epub")) (Some (py "in/a.txt")) None None) demo_world) = 1.
Proof. vm_compute. by repeat split. Qed.

(** On a Latin-1 console the conversion of the instance writes its text
    and ends with status 1. *)
Example script_latin1_status :
  let r := @run_script demo_collab demo_listing latin1_console
             (Args (Some (py "in/a.epub")) (Some (py "in/a.txt")) None None) demo_world in
  fst r = 1
  ∧ files (snd r) !! [py "in"; py "a.txt"]
    = Some (File (py "Hello" ++ [LF; LF; LF; LF] ++ py "World"))
  ∧ stdout (snd r) = [].
Proof. vm_compute. by repeat split. Qed.

Lemma script_converts_file_witness :
  ∃ data b bs,
    lookup_node (files demo_world) (Path (py "in/a.epub")) = Some (File data) ∧
    @parse_epub demo_collab data = Some b ∧
    utf8_decode bs = Some (@spec_text demo_collab b) ∧
    snd (@run_script demo_collab demo_listing utf8_console
           (Args (Some (py "in/a.epub")) (Some (py "in/a.txt")) None None) demo_world)
    = World (<[Path (py "in/a.txt") := File bs]> (files demo_world))
            (stdout demo_world ++ [converted_message (py "in/a.epub") (py "in/a.txt")]).
Proof.
  apply (@script_converts_file demo_collab utf8_console demo_listing
           (Args (Some (py "in/a.epub")) (Some (py "in/a.txt")) None None) demo_world).
  - done.
  - by_compute.
Defined.

Lemma script_converts_directory_witness :
  ∃ q b bs, q ∈ epub_files (files demo_dir) (Path (py "in")) ∧
    target_txt (Path (py "out")) q = target_txt (Path (py "out")) [py "in"; py "a.EPUB"] ∧
    @book_at demo_collab (files demo_dir) q = Some b ∧
    utf8_decode bs = Some (@spec_text demo_collab b) ∧
    lookup_node
      (files (snd (@run_script demo_collab demo_listing utf8_console
                     (Args None None (Some (py "in")) (Some (py "out"))) demo_dir)))
      (target_txt (Path (py "out")) [py "in"; py "a.EPUB"]) = Some (File bs).
Proof.
  apply (@script_converts_directory demo_collab utf8_console demo_listing
           (Args None None (Some (py "in")) (Some (py "out"))) demo_dir).
  - by_decide.
  - done.
  - by_compute.
  - by_decide.
Defined.

Lemma script_needs_arrow_witness :
  truthy (input_file (Args None None (Some (py "in/dir.epub")) (Some (py "out")))) = false
  ∧ epub_files (files demo_dir) (Path (py "in/dir.epub")) = [].
Proof.
  apply (@script_needs_arrow demo_collab latin1_console demo_listing
           (Args None None (Some (py "in/dir.epub")) (Some (py "out"))) demo_dir
           (snd (@run_script demo_collab demo_listing latin1_console
                   (Args None None (Some (py "in/dir.epub")) (Some (py "out"))) demo_dir))).
  - by_compute.
  - by_decide.
  - by_compute.
Defined.
