(* ===== verification/ScriptSteps.v ===== *)
(** * ScriptSteps: the process, one effect at a time

    The script of [src/epub_to_txt.py] as one transition system: [main]
    (lines 97-119) looks at its arguments and exits with a usage error
    or enters the conversion they ask for; from there the process takes
    the steps of [Steps] (line 110) or of [BatchSteps] (line 114) until
    the conversion ends, and exits with the status the interpreter
    gives to that end.  The machines are nested, not copied: what a
    state of the process knows is that its world is one a run of the
    inner machine reaches ([within]), and the theorems of the inner
    machines do the rest.

    The theorems: the process exits with the status and in the world of
    [run_script]; every run ends; and a process stopped at any point has
    done what a conversion or a batch stopped there has done, and
    nothing at all when its arguments were wrong. *)

From stdpp Require Import list strings gmap relations.
From S2P Require Import Prelude PyStr Utf8 Epub Pathlib FileSys Convert Steps Batch Frame Outcome.
From S2P Require Import BatchSteps Cli Script.

Set Warnings "-clear-no-such-hyp".

(** What [main] decides (lines 101-119). *)
Inductive mode :=
| FileMode
| DirMode
| Usage (message : str).

Definition mode_of (a : args) : mode :=
  if truthy (file_mode a) && truthy (dir_mode a) then Usage MSG_BOTH_MODES else
  if truthy (file_mode a) then
    if negb (truthy (py_and (input_file a) (output_file a)))
    then Usage MSG_FILE_PAIR
    else FileMode
  else if truthy (dir_mode a) then
    if negb (truthy (py_and (input_dir a) (output_dir a)))
    then Usage MSG_DIR_PAIR
    else DirMode
  else Usage MSG_NO_MODE.

(** The points of the process. *)
Inductive script_point :=
| AtMain
| InConversion (pt : point)
| InBatch (bp : batch_point)
| Exited (status : N).

#[export] Instance script_point_eq_dec : EqDecision script_point.
Proof. solve_decision. Defined.

(** Where [main] goes from its arguments. *)
Definition entered (a : args) : script_point :=
  match mode_of a with
  | FileMode => InConversion AtRead
  | DirMode => InBatch AtCheck
  | Usage message => Exited (exit_status (inl (SystemExit 2 message)))
  end.

(** The status of the process once the conversion has ended. *)
Definition conversion_exit (pt : point) : option N :=
  match pt with
  | Returned => Some (exit_status (inr ()))
  | Raised e => Some (exit_status (inl e))
  | _ => None
  end.

Definition batch_exit (bp : batch_point) : option N :=
  match bp with
  | BatchReturned => Some (exit_status (inr ()))
  | BatchRaised e => Some (exit_status (inl e))
  | _ => None
  end.

Definition exited (sp : script_point) : bool :=
  match sp with
  | Exited _ => true
  | _ => false
  end.

Section script_machine.
Context `{Collaborators} `{Listing} `{Console} (a : args).

(** Lines 110 and 114: the steps of the conversion [main] has called. *)
Definition conversion_step : relation (point * world) :=
  conv_step (value (input_file a)) (value (output_file a)).

Definition directory_step : relation (batch_point * world) :=
  batch_step (value (input_dir a)) (value (output_dir a)).

Inductive script_step : relation (script_point * world) :=
| step_main w :
    script_step (AtMain, w) (entered a, w)
| step_conversion pt pt' w w' :
    conversion_step (pt, w) (pt', w') →
    script_step (InConversion pt, w) (InConversion pt', w')
| step_batch bp bp' w w' :
    directory_step (bp, w) (bp', w') →
    script_step (InBatch bp, w) (InBatch bp', w')
| step_conversion_exit pt status w :
    conversion_exit pt = Some status →
    script_step (InConversion pt, w) (Exited status, w)
| step_batch_exit bp status w :
    batch_exit bp = Some status →
    script_step (InBatch bp, w) (Exited status, w).

(** The stepper; the bytes of a text reach its file [S n] at a time. *)
Definition script_next (n : nat) (c : script_point * world) : option (script_point * world) :=
  let '(sp, w) := c in
  match sp with
  | AtMain => Some (entered a, w)
  | InConversion pt =>
    match conversion_exit pt with
    | Some status => Some (Exited status, w)
    | None =>
      c' ← conv_next (value (input_file a)) (value (output_file a)) n (pt, w);
      Some (InConversion c'.1, c'.2)
    end
  | InBatch bp =>
    match batch_exit bp with
    | Some status => Some (Exited status, w)
    | None =>
      c' ← batch_next (value (input_dir a)) (value (output_dir a)) n (bp, w);
      Some (InBatch c'.1, c'.2)
    end
  | Exited _ => None
  end.

Definition script_run (n fuel : nat) (c : script_point * world) : script_point * world :=
  iterate (script_next n) fuel c.

(** ** Specification *)

(** The world is one that a run of the conversion the arguments ask for
    reaches from [w0]; no conversion, no change. *)
Definition within (w0 w : world) : Prop :=
  match mode_of a with
  | FileMode =>
    ∃ pt, rtc (conv_step (value (input_file a)) (value (output_file a))) (AtRead, w0) (pt, w)
  | DirMode =>
    ∃ bp, rtc (batch_step (value (input_dir a)) (value (output_dir a))) (AtCheck, w0) (bp, w)
  | Usage _ => w = w0
  end.

(** What a point of a run that started in [w0] knows. *)
Definition script_inv (w0 : world) (c : script_point * world) : Prop :=
  match c.1 with
  | AtMain => c.2 = w0
  | InConversion pt =>
    mode_of a = FileMode
    ∧ rtc (conv_step (value (input_file a)) (value (output_file a))) (AtRead, w0) (pt, c.2)
  | InBatch bp =>
    mode_of a = DirMode
    ∧ rtc (batch_step (value (input_dir a)) (value (output_dir a))) (AtCheck, w0) (bp, c.2)
  | Exited status => run_script a w0 = (status, c.2) ∧ within w0 c.2
  end.

(** What a process stopped in [w] has done to the world [w0]. *)
Definition stopped_safely (w0 w : world) : Prop :=
  match mode_of a with
  | FileMode =>
    partly_written (value (input_file a)) (value (output_file a)) w0 w
    ∧ (stdout w = stdout w0
       ∨ stdout w = stdout w0
                    ++ [converted_message (value (input_file a)) (value (output_file a))])
  | DirMode => midway (Path (value (input_dir a))) (Path (value (output_dir a))) w0 w
  | Usage _ => w = w0
  end.

End script_machine.

Section script_machine_lemmas.
Context `{Collaborators} `{Listing} `{Console} (a : args).
Implicit Types (c : script_point * world) (w : world) (pt : point) (bp : batch_point).

(** ** [main] by its mode *)

Lemma main_mode w :
  main a w =
    match mode_of a with
    | FileMode => epub_to_txt (value (input_file a)) (value (output_file a)) w
    | DirMode => convert_directory (value (input_dir a)) (value (output_dir a)) w
    | Usage message => (inl (SystemExit 2 message), w)
    end.
Proof.
  unfold main, mode_of, file_mode, dir_mode.
  destruct (truthy (py_or (input_file a) (output_file a))),
    (truthy (py_or (input_dir a) (output_dir a))),
    (truthy (py_and (input_file a) (output_file a))),
    (truthy (py_and (input_dir a) (output_dir a))); done.
Qed.

Lemma run_script_file r w w' :
  mode_of a = FileMode →
  epub_to_txt (value (input_file a)) (value (output_file a)) w = (r, w') →
  run_script a w = (exit_status r, w').
Proof. intros E Hrun. by rewrite run_script_main, main_mode, E, Hrun. Qed.

Lemma run_script_dir r w w' :
  mode_of a = DirMode →
  convert_directory (value (input_dir a)) (value (output_dir a)) w = (r, w') →
  run_script a w = (exit_status r, w').
Proof. intros E Hrun. by rewrite run_script_main, main_mode, E, Hrun. Qed.

Lemma run_script_usage message w :
  mode_of a = Usage message → run_script a w = (exit_status (inl (SystemExit 2 message)), w).
Proof. intros E. by rewrite run_script_main, main_mode, E. Qed.

(** ** The steps keep what a point knows *)

Lemma script_inv_entered w : script_inv a w (entered a, w).
Proof.
  unfold script_inv, entered, within. destruct (mode_of a) as [| |message] eqn:E; simpl.
  - done.
  - done.
  - by split; [apply (run_script_usage message)|].
Qed.

Lemma script_inv_conversion_exit w0 pt status w :
  mode_of a = FileMode →
  rtc (conv_step (value (input_file a)) (value (output_file a))) (AtRead, w0) (pt, w) →
  conversion_exit pt = Some status → script_inv a w0 (Exited status, w).
Proof.
  intros E Hrun Hs. unfold script_inv, within. rewrite E. simpl. split; [|by exists pt].
  apply conv_steps_inv in Hrun. destruct pt as [| | | | | |e]; simplify_eq/=;
    [by apply (run_script_file (inr ()))|by apply (run_script_file (inl e))].
Qed.

Lemma script_inv_batch_exit w0 bp status w :
  mode_of a = DirMode →
  rtc (batch_step (value (input_dir a)) (value (output_dir a))) (AtCheck, w0) (bp, w) →
  batch_exit bp = Some status → script_inv a w0 (Exited status, w).
Proof.
  intros E Hrun Hs. unfold script_inv, within. rewrite E. simpl. split; [|by exists bp].
  apply batch_steps_inv in Hrun. destruct bp as [| | | | | | | |e]; simplify_eq/=;
    [by apply (run_script_dir (inr ()))|by apply (run_script_dir (inl e))].
Qed.

Lemma script_step_inv w0 c c' :
  script_inv a w0 c → script_step a c c' → script_inv a w0 c'.
Proof.
  intros Hc Hstep.
  destruct Hstep as [w|pt pt' w w' Hs|bp bp' w w' Hs|pt status w Hs|bp status w Hs];
    unfold script_inv in Hc; simpl in Hc.
  - subst w. apply script_inv_entered.
  - destruct Hc as [E Hrun]. split; [done|]. by eapply rtc_r.
  - destruct Hc as [E Hrun]. split; [done|]. by eapply rtc_r.
  - destruct Hc as [E Hrun]. by eapply script_inv_conversion_exit.
  - destruct Hc as [E Hrun]. by eapply script_inv_batch_exit.
Qed.

Lemma script_steps_inv w : ∀ c,
  rtc (script_step a) (AtMain, w) c → script_inv a w c.
Proof.
  apply (rtc_ind_r (R := script_step a) (script_inv a w)); [done|].
  intros c1 c2 _ Hstep Hc1. by eapply script_step_inv.
Qed.

(** Every world of a run is a world of the conversion asked for. *)
Lemma script_inv_within w0 c : script_inv a w0 c → within a w0 c.2.
Proof.
  destruct c as [[|pt|bp|status] w]; unfold script_inv, within; simpl.
  - intros ->. by destruct (mode_of a); [exists AtRead|exists AtCheck|].
  - intros [-> Hrun]. by exists pt.
  - intros [-> Hrun]. by exists bp.
  - by intros [_ Hw].
Qed.

(** ** The stepper takes steps, and stops when the process has exited *)

Lemma conversion_exit_None pt : conversion_exit pt = None ↔ final pt = false.
Proof. by destruct pt. Qed.

Lemma batch_exit_None bp : batch_exit bp = None ↔ batch_final bp = false.
Proof. by destruct bp. Qed.

Lemma script_next_step n c c' : script_next a n c = Some c' → script_step a c c'.
Proof.
  destruct c as [[|pt|bp|status] w]; unfold script_next; try done.
  - intros [= <-]. constructor.
  - destruct (conversion_exit pt) as [s|] eqn:Es; [intros [= <-]; by constructor|].
    destruct (conv_next _ _ _ _) as [[pt' w']|] eqn:E; [|done]. intros [= <-].
    by apply step_conversion, (conv_next_step _ _ n).
  - destruct (batch_exit bp) as [s|] eqn:Es; [intros [= <-]; by constructor|].
    destruct (batch_next _ _ _ _) as [[bp' w']|] eqn:E; [|done]. intros [= <-].
    by apply step_batch, (batch_next_step _ _ n).
Qed.

Lemma script_next_None n c : script_next a n c = None ↔ exited c.1.
Proof.
  destruct c as [[|pt|bp|status] w]; unfold script_next; simpl fst; try done.
  - destruct (conversion_exit pt) as [s|] eqn:Es; [done|]. apply conversion_exit_None in Es.
    destruct (conv_next _ _ _ _) as [c'|] eqn:E; [done|].
    apply conv_next_None in E. simpl in E. by rewrite Es in E.
  - destruct (batch_exit bp) as [s|] eqn:Es; [done|]. apply batch_exit_None in Es.
    destruct (batch_next _ _ _ _) as [c'|] eqn:E; [done|].
    apply batch_next_None in E. simpl in E. by rewrite Es in E.
Qed.

Lemma script_run_steps n fuel c : rtc (script_step a) c (script_run a n fuel c).
Proof. apply iterate_steps, script_next_step. Qed.

(** ** Every run ends, because the runs of the conversions do *)

Lemma exited_sn c : exited c.1 → sn (script_step a) c.
Proof. intros Hf. constructor. intros c' Hstep. by destruct Hstep. Qed.

Lemma in_conversion_sn (c : point * world) : sn (script_step a) (InConversion c.1, c.2).
Proof.
  induction (conv_step_sn (value (input_file a)) (value (output_file a)) c) as [c _ IH].
  constructor. intros c' Hstep.
  inversion Hstep as [|? pt' ? w' Hs| |? status ? Hs|]; subst; [|by apply exited_sn].
  apply (IH (pt', w')). by destruct c.
Qed.

Lemma in_batch_sn (c : batch_point * world) : sn (script_step a) (InBatch c.1, c.2).
Proof.
  induction (batch_step_sn (value (input_dir a)) (value (output_dir a)) c) as [c _ IH].
  constructor. intros c' Hstep.
  inversion Hstep as [| |? bp' ? w' Hs| |? status ? Hs]; subst; [|by apply exited_sn].
  apply (IH (bp', w')). by destruct c.
Qed.

Lemma script_step_sn c : sn (script_step a) c.
Proof.
  destruct c as [[|pt|bp|status] w].
  - constructor. intros c' Hstep. inversion Hstep; subst. unfold entered.
    destruct (mode_of a);
      [apply (in_conversion_sn (AtRead, w))|apply (in_batch_sn (AtCheck, w))|by apply exited_sn].
  - apply (in_conversion_sn (pt, w)).
  - apply (in_batch_sn (bp, w)).
  - by apply exited_sn.
Qed.

Lemma script_run_ends n c :
  ∃ fuel, ∀ fuel', fuel ≤ fuel' → exited (script_run a n fuel' c).1.
Proof.
  destruct (iterate_ends _ _ (script_next_step n) c (script_step_sn c)) as [fuel Hfuel].
  exists fuel. intros fuel' Hle. by apply (script_next_None n), Hfuel.
Qed.

(** A process that has exited knows the result of the script. *)
Lemma script_inv_exited w0 c :
  script_inv a w0 c → exited c.1 →
  c = (Exited (run_script a w0).1, (run_script a w0).2).
Proof. destruct c as [[] w]; unfold script_inv; simpl; try done. by intros [-> _]. Qed.

(** The script is a run of the steps. *)
Lemma script_steps_complete w :
  rtc (script_step a) (AtMain, w) (Exited (run_script a w).1, (run_script a w).2).
Proof.
  destruct (script_run_ends 0 (AtMain, w)) as [fuel Hfuel].
  rewrite <-(script_inv_exited w (script_run a 0 fuel (AtMain, w))).
  - apply script_run_steps.
  - apply script_steps_inv, script_run_steps.
  - by apply Hfuel.
Qed.

(** ** What the inner machines promise, for the process *)

Lemma within_stopped_safely w0 w :
  fs_wf (files w0) → within a w0 w → stopped_safely a w0 w.
Proof.
  unfold within, stopped_safely. destruct (mode_of a).
  - intros _ [pt Hrun%conv_steps_inv]. split; [by apply conv_inv_files in Hrun|].
    apply conv_inv_stdout in Hrun. simpl in Hrun. rewrite Hrun. case_bool_decide; auto.
  - intros Hwf [bp Hrun]. by apply (batch_steps_midway _ _ _ Hwf (bp, w)).
  - done.
Qed.

End script_machine_lemmas.

(** ** Theorems *)

Section script_machine_theorems.
Context `{Collaborators} `{Console} `{Listing} (a : args).
Implicit Types (c : script_point * world) (w : world) (sp : script_point).

(** C12: the steps compute the script: a run of the process exits with a
    status and in a world exactly when [run_script] gives that status
    and that world: the dispatch of [main], the steps of the conversion
    it enters and the status of the interpreter, composed. *)
Theorem script_steps_agree status w w' :
  rtc (script_step a) (AtMain, w) (Exited status, w') ↔ run_script a w = (status, w').
Proof.
  split; [by intros [? _]%script_steps_inv|].
  intros Hrun. pose proof (script_steps_complete a w) as Hc. by rewrite Hrun in Hc.
Qed.

(** Every run of the process ends: there is no infinite sequence of
    steps, and a process that has not exited has a next step. *)
Theorem script_terminates c :
  sn (script_step a) c ∧ (exited c.1 = false → red (script_step a) c).
Proof.
  split; [apply script_step_sn|]. intros Hf.
  destruct (script_next a 0 c) as [c'|] eqn:E.
  - exists c'. by eapply script_next_step.
  - apply script_next_None in E. by rewrite Hf in E.
Qed.

(** C13: a process stopped at any point has done no harm.  With a usage
    error in its arguments it has changed nothing; in file mode the
    target holds the text of the book up to some byte, or the files are
    as they were; in directory mode only targets of the batch differ,
    no book has changed, every target holds a part of its text or what
    it held, and the lines printed are the first lines of the report. *)
Theorem script_crash_safe w sp w1 :
  fs_wf (files w) → rtc (script_step a) (AtMain, w) (sp, w1) → stopped_safely a w w1.
Proof.
  intros Hwf Hrun%script_steps_inv%script_inv_within. by apply within_stopped_safely.
Qed.

End script_machine_theorems.

(** The batch of the instance as a process, stopped after twelve steps
    of four bytes, and run to its end. *)
Example script_run_demo :
  let a := Args None None (Some (py "in")) (Some (py "out")) in
  let c := @script_run demo_collab demo_listing utf8_console a 3 12 (AtMain, demo_dir) in
  c.1 = InBatch (InFile (AtFlush ([LF] ++ py "World")) [py "in"; py "a.EPUB"]
                   [[py "in"; py "b.epub"]])
  ∧ files c.2 !! [py "out"; py "a.txt"] = Some (File (py "Hello" ++ [LF; LF; LF]))
  ∧ (@script_run demo_collab demo_listing utf8_console a 3 30 (AtMain, demo_dir)).1 = Exited 0.
Proof. vm_compute. by repeat split. Qed.

(** Wrong arguments end the process in one step, with status 2; a file
    that is no book ends it with status 1. *)
Example script_run_errors :
  @script_run demo_collab demo_listing utf8_console
    (Args (Some (py "a.epub")) None None (Some (py "out"))) 3 1 (AtMain, demo_dir)
  = (Exited 2, demo_dir)
  ∧ (@script_run demo_collab demo_listing utf8_console
       (Args (Some (py "bad/b.epub")) (Some (py "bad/b.txt")) None None) 3 3
       (AtMain, demo_dir)).1 = Exited 1.
Proof. vm_compute. by repeat split. Qed.

Lemma script_crash_safe_witness :
  let a := Args None None (Some (py "in")) (Some (py "out")) in
  let c := @script_run demo_collab demo_listing utf8_console a 3 12 (AtMain, demo_dir) in
  @stopped_safely demo_collab a demo_dir c.2.
Proof.
  intros a c.
  apply (@script_crash_safe demo_collab utf8_console demo_listing a demo_dir c.1 c.2).
  - by_decide.
  - rewrite <-surjective_pairing. apply script_run_steps.
Defined.
